(* ===== verification/_CoqProject ===== *)
-Q . S2P
Prelude.v
Machine.v
Conc.v
AtomicOps.v
Functor.v
Process.v
LockFreeStack.v
LockFreeQueue.v
LockFreeBuffer.v
LockFreeList.v
PerThreadMemory.v
PerThreadAlloc.v
PerThreadTest.v
SpinlockQueue.v
Worker.v
ThreadPool.v
Thread.v
Pool.v
PoolProgress.v
Shutdown.v
HttpBuffer.v
HttpRequest.v
HttpResponse.v
HttpClient.v
HttpExchange.v
SocketServer.v
SocketSetup.v
SocketApi.v
HttpServer.v
HttpServerLoop.v
HttpService.v
HttpRun.v
LogStream.v
LogFileAppender.v
CacheTimeStamp.v
SlogLogger.v
FixedBuffer.v
AsynLogAppender.v
SlogAsync.v
SysLogger.v
UnitTests.v
ThreadTest.v
LockFreeBufferTest.v
AsynLoggingTest.v
