(* ===== verification/Prelude.v ===== *)
(** * A verification of the back-end facility

The repository is a set of C++ components for servers: lock-free and spin-locked
containers, a thread pool, an epoll-based HTTP server, and two loggers.  This
library models their code, file by file, and proves what makes each component
correct; where the code does not do what it means to, the theorem or lemma says
what it does instead.

** Files and the code they model

- Prelude.v: bytes, generic lemmas and tactics (no code).
- Machine.v: [sys/AtomicOps.h]; [size_t] and [int] as [Z] with wrap-around.
- Conc.v: interleavings of threads over a shared object, reachability, histories,
  linearizability and forward simulation (no code; every concurrent component is an
  instance).
- AtomicOps.v: the additions of [sys/AtomicOps.h] as loops around a compare-and-swap.
- Functor.v: [misc/functor.h].
- Process.v: [sys/src/Daemon.cc], [sys/src/SignalHandler.cc] and the [main] of
  [http/main.cc], over processes and their descriptors.
- LockFreeStack.v, LockFreeQueue.v: [misc/LockFreeContainer.h].
- LockFreeBuffer.v: [misc/LockFreeBuffer.h], [misc/src/LockFreeBuffer.cc].
- LockFreeList.v: [misc/LockFreeList.h], [misc/src/LockFreeList.cc].
- PerThreadMemory.v: [misc/PerThreadMemory.h], [misc/src/PerThreadMemory.cc]: the list of
  one owner.  PerThreadAlloc.v: the whole allocator, a list per thread and buffers that
  travel.
- SpinlockQueue.v: [misc/SpinlockQueue.h]; its container is the class [Container].
- Worker.v: [thread/ITask.h], [thread/WorkerBodyBase.h], [thread/Worker.h] and their
  [.cc] files; a worker's mailbox is a [Container].
- ThreadPool.v: [thread/src/ThreadPool.cc]; the workers' mailboxes are Worker.v's.
- Thread.v: [thread/Thread.h], [thread/src/Thread.cc].
- Pool.v: the whole pool of [thread/ThreadPool.h]: the callers' threads, the dispatcher's
  thread and the workers' threads, composed from ThreadPool.v and Worker.v.
  PoolProgress.v: where the pool comes to rest.  Shutdown.v: its destructors.
- HttpBuffer.v, HttpRequest.v, HttpResponse.v: [http/HttpBuffer], [http/HttpRequest.h],
  [http/HttpResponse.h].
- HttpClient.v: [http/HttpClient]; it uses the buffers, the request and the response,
  and its connection through the class [Connection].
- HttpExchange.v: a client's whole exchange, from the bytes of the request to the reply.
- SocketServer.v: [http/SocketServer.cc], [http/SocketPoll.cc]: the table of sockets and
  the events of one round.
- SocketSetup.v: the rest of [http/SocketServer.cc]: allocation of a slot, listening,
  connecting, [StartServer] and [StopServer].  SocketApi.v: the public class [SocketServer],
  its methods in any order.
- HttpServer.v: [http/HttpServer.cc]: the default handler, the dispatch of events.
- HttpServerLoop.v: the loop of [http/HttpServer.cc] with its array of clients, composed
  from SocketServer.v, SocketSetup.v, HttpServer.v and HttpClient.v.
- HttpService.v: a connection of the running server (HttpServerLoop.v) and the exchange on
  it (HttpExchange.v).  HttpRun.v: the same in a run of the whole server, among the events
  of all the other connections.
- LogStream.v, LogFileAppender.v, FixedBuffer.v, AsynLogAppender.v: the files of these
  names under [slog/]; the appender uses the pool of FixedBuffer.v and the file of
  LogFileAppender.v.
- CacheTimeStamp.v: [slog/CacheTimeStamp].
- SlogLogger.v: [slog/Logger]: the log statement from its macro to the appender.
- SlogAsync.v: the whole stream logger: statements of many threads (SlogLogger.v) over the
  asynchronous appender (AsynLogAppender.v).
- SysLogger.v: [sys/Log], [sys/Logger].
- UnitTests.v, PerThreadTest.v, ThreadTest.v, LockFreeBufferTest.v, AsynLoggingTest.v:
  unit tests of the repository as programs over the models.

** Interfaces

- [Container] (SpinlockQueue.v): a sequential container; the instances are the
  deque and the priority queue of the code.  The spin-locked queue and the worker's
  mailbox are proved against it; [TopSpec] and [TopIn] are what the worker needs of the
  element on top.
- [Connection] (HttpClient.v): the connection a client reads and writes; the instance is
  [port] of HttpServerLoop.v, the client's view of the table of sockets.
- [Traced] (HttpExchange.v): a connection of which one can tell what has been sent and that
  nothing more arrives; requests and replies are proved against it, [port] is an instance.
- [BufferPool] and [MessageQueue] (SysLogger.v), [LogAppender] (SlogLogger.v): what the
  loggers need of their pool, queue and sink.

** How state and operations correspond

The state of a C++ class is a record with the class's member names; an operation
is a function of the same name on the record, or, where several threads run it, a
function [..._step] that runs one access to shared memory: a load, a store, a
[__sync_*] builtin, a semaphore operation, or a critical section of a mutex.
[None], [Fault] and [inl _] are failing [assert]s, wild pointers and writes
outside of an array, so "no fault" in a theorem says that these do not happen.
Pointers are numbers of nodes, or offsets into a block of bytes.

** What the theorems show

- Containers: the stack (any number of threads), the ring queue (one producer, one
  consumer) and the spin-locked queue (any number of threads) are linearizable with
  respect to bounded sequential containers; the buffer pool is linearizable and never hands a
  buffer out twice once its tags are right, and does when they are as the constructor leaves
  them (which the repository's test of it cannot notice); its buffers are disjoint while the
  size of the allocation does not wrap; the ring queue loses elements with
  two producers.
  The loops of AtomicOps.v are linearizable with respect to the builtins.  The lock-free
  list is linearizable with one producer and one consumer; the per-thread allocator hands no
  block out twice, whichever threads release its blocks, and its unit test passes under any
  interleaving.
- Function objects: every variable owns an implementation of its own, copies are deep for
  functors and shallow for member procedures, and an assignment leaks.
- Threads: a worker runs every accepted task exactly once, in order; the
  dispatcher's bit mask stays right for up to 31 workers and is wrong from 32 on.  In the
  whole pool, under any interleaving, every accepted task is in exactly one place (waiting,
  held, run by one worker, or dropped at a full mailbox); it does not come to rest on a task
  that is not done, but a worker can starve; [StopPooling] can hang; once its threads have
  ended the destructor deletes every object once and uses none afterwards.
- Processes: whatever the system answers, at most one process comes back from [daemonize],
  and it is detached; [main] can end up with fewer workers than it means to.
- HTTP: a well-formed request is parsed to what was sent; the generated response is
  exactly the message, inside its buffer; the buffers keep their windows and lists;
  the table of sockets stays consistent with the kernel.  The whole server stays in a
  safe state for any sequence of events the kernel may deliver, the events of one
  connection leave the other clients alone, and a listening socket accepts once.  A
  sequence of calls to the class [SocketServer] fails exactly when it contains one of a few
  fatal ones (reading on an event that has outlived its socket, a new socket refused by
  epoll, ...); otherwise it keeps its table and loses no descriptor but those given up.  A request
  is answered with exactly its reply, however the kernel cuts the writes, by a client alone,
  by a connection of the running server, and in every run of the whole server, whatever the
  other connections do.  Error
  behaviour: segmented headers, a second POST, a stray question mark, a disarmed
  listening socket.
- Logging: a message streamed into a buffer is the concatenation of the reference
  texts of its pieces; a log file keeps what was appended in order; under any
  interleaving the asynchronous appender's file is a prefix of the acknowledged
  messages, and all of them when the writer has ended, which it does; an [assert] of it fails
  only when a thread exits whose last message was dropped for want of memory, or appends an
  empty one.  For the whole stream logger, with many threads, the lines handed over are those
  of the statements at or above the threshold, each thread's in order, and the file has them;
  the repository's own reader of that file accepts it.  The cached text of a time stamp is the
  one that would be computed, but that of the thread's latest stamp; a log statement below the
  level has no effect and one at the level appends one line.  While its streams are good, its
  messages fit and one thread flushes at a time, the system logger writes its messages in
  order over any pool and queue that keep their promises, a flush empties its queue, and its
  line is the formatted text cut to the buffer.

** Bounds and fuel

Machine widths are written out (32-bit masks of the dispatcher, 64-bit counters).
Theorems about tags and counters of 64 bits hold for executions of fewer than 2^64
steps (2^32 where the code has 32 bits); the bound is a hypothesis on the number of
steps.  Loops that depend on data take fuel: the digit loops of LogStream.v have 20
and 16, one per digit of 64 bits, and [convert_spec] and [hex_loop_spec] show that
they suffice; the slab's constructor has one unit per item; the header loop of
HttpClient.v has two more than the bytes of its buffer, and the theorems that speak
of it show that this is enough, or that no fuel is.  The outer loop of
[ProcessEvent] takes its fuel as an argument of the theorems.

** What is not modelled

Weak memory: an interleaving is sequentially consistent.  Code outside of [src/] -
the C and C++ libraries, Boost, the kernel - enters through arguments (results of
[write], [malloc], [epoll_wait], [pthread_*], [snprintf] of a [double]).
The installation of signal handlers, the text of a peer's address, what is printed to
[stderr] and the difference of two time stamps (a [double]) are left out.  Benchmarks and
samples only measure and print.  Of the unit tests those that sleep and open sockets are
left out: [ThreadPoolTest.cc], [SocketPollTest.cc] (whose expectations are about the
kernel's pipes), and the threads of [LoggerTest.cc]. *)

From Stdlib Require Export ZArith Lia Ascii.
From Stdlib Require String.
From stdpp Require Export gmap strings list.

#[export] Set Default Goal Selector "!".
#[global] Open Scope Z_scope.

Declare Scope bef_scope.
Delimit Scope bef_scope with bef.

Create HintDb bef.
Create Rewrite HintDb bef.

(** ** Bytes

A C [char] array and a [std::string] are both [bytes]; a C string literal is
written [bs "..."]. *)

Abbreviation bytes := (list ascii).

Definition bs (s : string) : bytes := String.list_ascii_of_string s.

Definition nul : ascii := Ascii.zero.

Definition blen (b : bytes) : Z := Z.of_nat (length b).

(** What [std::string(const char* )] keeps of a buffer: everything before the
    first NUL. *)
Fixpoint c_str (b : bytes) : bytes :=
  match b with
  | [] => []
  | c :: b' => if decide (c = nul) then [] else c :: c_str b'
  end.

(** [memcpy(mem + off, data, size)] on an array that is large enough: the bytes
    at [off, off + length data) are replaced, the others keep their value. *)
Definition blit {A} (mem : list A) (off : nat) (data : list A) : list A :=
  take off mem ++ data ++ drop (off + length data) mem.

(** [mem[off .. off + len)]. *)
Definition slice {A} (mem : list A) (off len : nat) : list A := take len (drop off mem).

(** ** Tactics *)

(** Case analysis on every [match] of the hypothesis [H], closing the
    impossible branches. *)
Ltac case_hyp H := repeat (case_match; try discriminate H); simplify_eq/=.

(** Turn boolean comparisons of the context into propositions. *)
Ltac boolp :=
  repeat match goal with
  | H : (_ <? _) = true |- _ => apply Z.ltb_lt in H
  | H : (_ <? _) = false |- _ => apply Z.ltb_ge in H
  | H : (_ <=? _) = true |- _ => apply Z.leb_le in H
  | H : (_ <=? _) = false |- _ => apply Z.leb_gt in H
  | H : (_ =? _) = true |- _ => apply Z.eqb_eq in H
  | H : (_ =? _) = false |- _ => apply Z.eqb_neq in H
  | H : bool_decide _ = true |- _ => apply bool_decide_eq_true in H
  | H : bool_decide _ = false |- _ => apply bool_decide_eq_false in H
  | H : _ && _ = true |- _ => apply andb_true_iff in H as [? ?]
  | H : _ || _ = false |- _ => apply orb_false_iff in H as [? ?]
  | H : negb _ = true |- _ => apply negb_true_iff in H
  | H : negb _ = false |- _ => apply negb_false_iff in H
  end.

(** ** Sums over a list

[sum_with f l] is the number a whole system keeps of its threads (how many are
in a critical section, how many hold a token, ...); an update of one thread
changes it by the difference. *)

Fixpoint sum_with {A} (f : A -> Z) (l : list A) : Z :=
  match l with
  | [] => 0
  | x :: l' => f x + sum_with f l'
  end.

Lemma sum_with_app {A} (f : A -> Z) l1 l2 :
  sum_with f (l1 ++ l2) = sum_with f l1 + sum_with f l2.
Proof. induction l1; simpl; lia. Qed.

Lemma sum_with_insert {A} (f : A -> Z) (l : list A) i x y :
  l !! i = Some x -> sum_with f (<[i:=y]> l) = sum_with f l - f x + f y.
Proof.
  revert i; induction l as [|z l IH]; intros [|i] H; simplify_eq/=; [lia|].
  rewrite (IH _ H). lia.
Qed.

Lemma sum_with_nonneg {A} (f : A -> Z) (l : list A) :
  (forall x, 0 <= f x) -> 0 <= sum_with f l.
Proof. intros Hf. induction l as [|x l IH]; simpl; [lia|]. specialize (Hf x). lia. Qed.

Lemma sum_with_lookup_le {A} (f : A -> Z) (l : list A) i x :
  (forall x, 0 <= f x) -> l !! i = Some x -> f x <= sum_with f l.
Proof.
  intros Hf. revert i. induction l as [|y l IH]; intros [|i] H; simplify_eq/=.
  - pose proof (sum_with_nonneg f l Hf). lia.
  - specialize (IH _ H). specialize (Hf y). lia.
Qed.

Lemma sum_with_zero {A} (f : A -> Z) (l : list A) i x :
  (forall x, 0 <= f x) -> sum_with f l = 0 -> l !! i = Some x -> f x = 0.
Proof.
  intros Hf H0 Hx. pose proof (sum_with_lookup_le f l i x Hf Hx).
  specialize (Hf x). lia.
Qed.

Lemma sum_with_all_zero {A} (f : A -> Z) (l : list A) :
  Forall (fun x => f x = 0) l -> sum_with f l = 0.
Proof. induction 1; simpl; lia. Qed.

Lemma sum_with_replicate {A} (f : A -> Z) n x :
  sum_with f (replicate n x) = Z.of_nat n * f x.
Proof. induction n as [|n IH]; [done|]. cbn [replicate sum_with]. rewrite IH. lia. Qed.

(** ** Updating one entry *)

Lemma list_insert_inv {A} (l : list A) t (z : A) t' z' :
  <[t:=z]> l !! t' = Some z' -> (t' = t /\ z' = z) \/ (t' <> t /\ l !! t' = Some z').
Proof. intros H. apply list_lookup_insert_Some in H. naive_solver. Qed.

(** ** Byte lemmas *)

Lemma blen_nonneg b : 0 <= blen b.
Proof. unfold blen. lia. Qed.

Lemma blen_app b1 b2 : blen (b1 ++ b2) = blen b1 + blen b2.
Proof. unfold blen. rewrite length_app. lia. Qed.

Lemma bs_append s1 s2 : bs (s1 ++ s2)%string = bs s1 ++ bs s2.
Proof. unfold bs. induction s1 as [|c s1 IH]; simpl; [done|]. by f_equal. Qed.

Lemma c_str_prefix b : c_str b `prefix_of` b.
Proof.
  induction b as [|c b IH]; simpl; [done|]. case_decide; [apply prefix_nil|].
  by apply prefix_cons.
Qed.

Lemma c_str_no_nul b : nul ∉ b -> c_str b = b.
Proof.
  induction b as [|c b IH]; intros H; simpl; [done|].
  rewrite decide_False by set_solver. f_equal. apply IH. set_solver.
Qed.

Lemma c_str_app b1 b2 : nul ∉ b1 -> c_str (b1 ++ b2) = b1 ++ c_str b2.
Proof.
  induction b1 as [|x b1 IH]; intros Hn; [done|]. simpl.
  rewrite decide_False by set_solver. f_equal. apply IH. set_solver.
Qed.

Lemma c_str_nul b1 b2 : nul ∉ b1 -> c_str (b1 ++ nul :: b2) = b1.
Proof. intros Hn. rewrite c_str_app by done. simpl. by rewrite app_nil_r. Qed.

Lemma nul_not_in_c_str b : nul ∉ c_str b.
Proof. induction b as [|x b IH]; simpl; [set_solver|]. case_decide; set_solver. Qed.

Lemma length_blit {A} (mem data : list A) off :
  (off + length data <= length mem)%nat -> length (blit mem off data) = length mem.
Proof. intros H. unfold blit. rewrite !length_app, length_take, length_drop. lia. Qed.

Lemma slice_blit {A} (mem data : list A) off :
  (off + length data <= length mem)%nat -> slice (blit mem off data) off (length data) = data.
Proof.
  intros H. unfold slice, blit. rewrite drop_app_ge; rewrite length_take; [|lia].
  rewrite Nat.min_l by lia. rewrite Nat.sub_diag, drop_0, take_app_le, take_ge; lia || done.
Qed.

Lemma take_blit {A} (mem data : list A) off n :
  (n <= off)%nat -> (off <= length mem)%nat -> take n (blit mem off data) = take n mem.
Proof.
  intros Hn Hl. unfold blit. rewrite take_app_le by (rewrite length_take; lia).
  rewrite take_take. f_equal. lia.
Qed.

Lemma slice_blit_before {A} (mem data : list A) off o n :
  (o + n <= off)%nat -> (off <= length mem)%nat ->
  slice (blit mem off data) o n = slice mem o n.
Proof.
  intros H1 H2. unfold slice. rewrite !take_drop_commute. f_equal. by apply take_blit.
Qed.

Lemma take_blit_end {A} (mem data : list A) off :
  (off + length data <= length mem)%nat ->
  take (off + length data) (blit mem off data) = take off mem ++ data.
Proof.
  intros H. unfold blit. rewrite app_assoc, take_app_le by
    (rewrite length_app, length_take; lia).
  rewrite take_ge; [done|]. rewrite length_app, length_take. lia.
Qed.

Lemma slice_all {A} (mem : list A) : slice mem 0 (length mem) = mem.
Proof. unfold slice. rewrite drop_0. by apply take_ge. Qed.

Lemma length_slice {A} (mem : list A) o n :
  (o + n <= length mem)%nat -> length (slice mem o n) = n.
Proof. intros. unfold slice. rewrite length_take, length_drop. lia. Qed.

#[export] Hint Resolve blen_nonneg : bef.
#[export] Hint Rewrite @length_blit using lia : bef.
