(* ===== verification/Machine.v ===== *)
(** * Machine.v: the integers and the atomic operations of [sys/AtomicOps.h]

C integers are [Z] with the wrap-around of their width written out ([u64] for
[size_t] and [unsigned long long], [i32] for [int]); a GCC [__sync_*] builtin is
a function on the value of the cell it is applied to, that returns what the
builtin returns and the cell's new value.  One application of such a function is
one indivisible step of the thread that runs it (see Conc.v). *)

From S2P Require Import Prelude.

Definition u64 (z : Z) : Z := z mod 2 ^ 64.

Definition i32 (z : Z) : Z :=
  let u := z mod 2 ^ 32 in if u <? 2 ^ 31 then u else u - 2 ^ 32.

(** [~x] on a [size_t]. *)
Definition not64 (z : Z) : Z := 2 ^ 64 - 1 - z.

(** ** [sys/AtomicOps.h] *)

Definition atomic_cas {A} `{EqDecision A} (cur old new : A) : bool * A :=
  if decide (cur = old) then (true, new) else (false, cur).

(** On a cell whose width is that of [wrap]. *)
Definition atomic_add (wrap : Z -> Z) (cur margin : Z) : Z * Z := (cur, wrap (cur + margin)).
Definition atomic_sub (wrap : Z -> Z) (cur margin : Z) : Z * Z := (cur, wrap (cur - margin)).
Definition atomic_add_and_fetch (wrap : Z -> Z) (cur op : Z) : Z * Z := (wrap (cur + op), wrap (cur + op)).
Definition atomic_and_and_fetch (cur op : Z) : Z * Z := (Z.land cur op, Z.land cur op).
Definition atomic_fetch_and_add (wrap : Z -> Z) (cur op : Z) : Z * Z := (cur, wrap (cur + op)).
Definition atomic_read (cur : Z) : Z * Z := (cur, cur + 0).

Definition atomic_increment (cur : Z) : Z * Z := (cur, u64 (cur + 1)).

Definition atomic_decrement (cur : Z) : Z * Z := (cur, u64 (cur - 1)).

Definition atomic_fetch_and_and (cur op : Z) : Z * Z := (cur, Z.land cur op).

Definition atomic_fetch_and_or (cur op : Z) : Z * Z := (cur, Z.lor cur op).

(** A [DoublePointer]: [vals[0]] holds a tag, [vals[1]] a pointer; node [i] of
    a pool is [Some i] and [NULL] is [None].  [dp.val == 0] reads both halves. *)
Abbreviation DoublePointer := (Z * option nat)%type.

Definition InitDoublePointer : DoublePointer := (0, None).

Definition IsDoublePointerNull (dp : DoublePointer) : bool := bool_decide (dp = (0, None)).

Definition IsDoublePointerEqual (dp1 dp2 : DoublePointer) : bool := bool_decide (dp1 = dp2).

Definition SetDoublePointer (lo : Z) (hi : option nat) : DoublePointer := (lo, hi).

Definition AlignTo (size align : Z) : Z :=
  if size mod align =? 0 then size else u64 (u64 (size - size mod align) + align).

(** ** Lemmas *)

Lemma u64_range z : 0 <= u64 z < 2 ^ 64.
Proof. unfold u64. apply Z.mod_pos_bound. lia. Qed.

Lemma u64_id z : 0 <= z < 2 ^ 64 -> u64 z = z.
Proof. intros. unfold u64. by apply Z.mod_small. Qed.

Lemma atomic_cas_true {A} `{EqDecision A} (cur old new : A) m :
  atomic_cas cur old new = (true, m) <-> cur = old /\ m = new.
Proof. unfold atomic_cas. case_decide; split; [intros [= <-]|intros [??]|intros [=]|intros [??]]; subst; done. Qed.

Lemma atomic_cas_false {A} `{EqDecision A} (cur old new : A) m :
  atomic_cas cur old new = (false, m) <-> cur <> old /\ m = cur.
Proof. unfold atomic_cas. case_decide; split; [intros [=]|intros [??]|intros [= <-]|intros [??]]; subst; done. Qed.

Lemma i32_mod z : i32 z mod 2 ^ 32 = z mod 2 ^ 32.
Proof.
  unfold i32. cbv zeta. case_match; [by rewrite Z.mod_mod by lia|].
  rewrite Zminus_mod, Z_mod_same_full, Z.sub_0_r, !Z.mod_mod by lia. done.
Qed.

Lemma i32_add x y : i32 (i32 x + y) = i32 (x + y).
Proof.
  enough ((i32 x + y) mod 2 ^ 32 = (x + y) mod 2 ^ 32) as E by (unfold i32 at 1 3; by rewrite E).
  by rewrite Zplus_mod, i32_mod, <-Zplus_mod.
Qed.

Lemma i32_id z : - 2 ^ 31 <= z < 2 ^ 31 -> i32 z = z.
Proof.
  intros H. unfold i32. cbv zeta. destruct (Z.leb_spec 0 z).
  - rewrite Z.mod_small by lia. destruct (Z.ltb_spec z (2 ^ 31)); lia.
  - replace (z mod 2 ^ 32) with (z + 2 ^ 32).
    + destruct (Z.ltb_spec (z + 2 ^ 32) (2 ^ 31)); lia.
    + rewrite <-(Z.mod_add z 1) by lia. symmetry. apply Z.mod_small. lia.
Qed.

Lemma i32_range z : - 2 ^ 31 <= i32 z < 2 ^ 31.
Proof.
  unfold i32. cbv zeta. pose proof (Z.mod_pos_bound z (2 ^ 32) ltac:(lia)).
  destruct (Z.ltb_spec (z mod 2 ^ 32) (2 ^ 31)); lia.
Qed.

(** [AlignTo] rounds up to the next multiple, provided the result is a
    [size_t]. *)
Lemma AlignTo_spec size align :
  0 <= size -> 0 < align -> size + align <= 2 ^ 64 ->
  size <= AlignTo size align < size + align /\ AlignTo size align mod align = 0.
Proof.
  intros H1 H2 H3. unfold AlignTo. pose proof (Z.mod_pos_bound size align H2).
  pose proof (Z.mod_le size align H1 H2).
  destruct (Z.eqb_spec (size mod align) 0) as [E|E]; [lia|].
  rewrite !u64_id by (rewrite ?u64_id; lia). split; [lia|].
  replace (size - size mod align + align) with (align * (size / align + 1)).
  { rewrite Z.mul_comm. apply Z_mod_mult. }
  pose proof (Z.div_mod size align). lia.
Qed.

(** The two halves of a 32-bit word. *)
Lemma land_ones32 m x : 0 <= m < 2 ^ 32 -> Z.land m x = Z.land m (Z.land (Z.ones 32) x).
Proof.
  intros H. rewrite Z.land_assoc, Z.land_ones by lia. by rewrite Z.mod_small.
Qed.

Lemma land_high16 m : 0 <= m < 2 ^ 32 -> Z.land m (not64 65535) = 65536 * (m / 65536).
Proof.
  intros H. rewrite land_ones32 by done.
  change (Z.land (Z.ones 32) (not64 65535)) with (Z.ldiff (Z.ones 32) (Z.ones 16)).
  replace (Z.land m (Z.ldiff (Z.ones 32) (Z.ones 16)))
    with (Z.ldiff (Z.land m (Z.ones 32)) (Z.ones 16)).
  - rewrite Z.land_ones, Z.mod_small, Z.ldiff_ones_r, Z.shiftl_mul_pow2, Z.shiftr_div_pow2 by lia.
    change (2 ^ 16) with 65536. lia.
  - apply Z.bits_inj'. intros n Hn. rewrite !Z.ldiff_spec, !Z.land_spec, !Z.ldiff_spec.
    by rewrite andb_assoc.
Qed.

Lemma land_low16 m :
  0 <= m < 2 ^ 32 -> Z.land m (not64 (Z.shiftl 65535 16)) = m mod 65536.
Proof.
  intros H. rewrite land_ones32 by done.
  change (Z.land (Z.ones 32) (not64 (Z.shiftl 65535 16))) with (Z.ones 16).
  by rewrite Z.land_ones by lia.
Qed.
