(* ===== verification/Conc.v ===== *)
(** * Conc.v: interleavings of threads over a shared object

A concurrent object of the repository (lock-free stack, ring queue, buffer
pool, ...) is a shared state [G] and, for every thread, the point of the
operation it is executing with its local variables [L].  [code g l] runs one
indivisible access to the shared state: a load, a store or a [__sync_*]
builtin.  A schedule picks the thread that moves; an idle thread may start any
operation that the client protocol [cl_inv] allows (the client state [C] is what
the callers of the object know, e.g. which buffers they hold).

The observable behaviour is the history of invocations and responses.  The
abstract object executes each operation in one indivisible step between its
invocation and its response; an object is linearizable when every history of the
interleaved code is a history of the abstract object ([linearizable]), and this
is proved by a forward simulation ([forward_simulation], and [bounded_simulation] for
executions of a bounded number of steps). *)

From S2P Require Import Prelude.

(** What one step of a thread's code does. *)
Inductive outcome (G L R : Type) : Type :=
| Next (g : G) (l : L)   (* the access is done, the thread is now at [l] *)
| Ret (g : G) (r : R)    (* the access is done and the operation returns [r] *)
| Fault.                 (* an [assert] fails or a wild pointer is used *)
Arguments Next {G L R} _ _.
Arguments Ret {G L R} _ _.
Arguments Fault {G L R}.

Inductive tstate (L : Type) : Type := Idle | Run (l : L).
Arguments Idle {L}.
Arguments Run {L} _.

Inductive event (Op R : Type) : Type :=
| EInv (t : nat) (op : Op)
| ERes (t : nat) (r : R).
Arguments EInv {Op R} _ _.
Arguments ERes {Op R} _ _.

(** What a schedule makes a thread do. *)
Inductive act (Op : Type) : Type := Invoke (op : Op) | Step.
Arguments Invoke {Op} _.
Arguments Step {Op}.

Section Interleaving.
Context {G L Op R C : Type}.
Variable start : Op -> L.
Variable code : G -> L -> outcome G L R.
Variable cl_inv : C -> nat -> Op -> option C.
Variable cl_ret : C -> nat -> R -> C.

Record cfg : Type := Cfg { sh : G; ths : list (tstate L); cl : C; faulted : bool }.

Definition init_cfg (g : G) (n : nat) (c : C) : cfg := Cfg g (replicate n Idle) c false.

Definition cstep (c : cfg) (t : nat) (a : act Op) : option (cfg * list (event Op R)) :=
  if faulted c then None else
  match ths c !! t, a with
  | Some Idle, Invoke op =>
      match cl_inv (cl c) t op with
      | Some k => Some (Cfg (sh c) (<[t:=Run (start op)]> (ths c)) k false, [EInv t op])
      | None => None
      end
  | Some (Run l), Step =>
      match code (sh c) l with
      | Next g l' => Some (Cfg g (<[t:=Run l']> (ths c)) (cl c) false, [])
      | Ret g r => Some (Cfg g (<[t:=Idle]> (ths c)) (cl_ret (cl c) t r) false, [ERes t r])
      | Fault => Some (Cfg (sh c) (ths c) (cl c) true, [])
      end
  | _, _ => None
  end.

(** [reach c0 n h c]: [n] steps lead from [c0] to [c] with history [h]. *)
Inductive reach (c0 : cfg) : nat -> list (event Op R) -> cfg -> Prop :=
| reach_refl : reach c0 0 [] c0
| reach_step n h c t a c' e :
    reach c0 n h c -> cstep c t a = Some (c', e) -> reach c0 (S n) (h ++ e) c'.

(** A whole schedule, executed. *)
Fixpoint run (sched : list (nat * act Op)) (c : cfg) (h : list (event Op R)) :
    option (cfg * list (event Op R)) :=
  match sched with
  | [] => Some (c, h)
  | (t, a) :: sched' =>
      match cstep c t a with
      | Some (c', e) => run sched' c' (h ++ e)
      | None => None
      end
  end.

Lemma run_reach_gen sched c0 n h c c' h' :
  reach c0 n h c -> run sched c h = Some (c', h') -> reach c0 (n + length sched) h' c'.
Proof.
  revert n h c. induction sched as [|[t a] sched IH]; intros n h c Hr Hx; simplify_eq/=.
  - by rewrite Nat.add_0_r.
  - destruct (cstep c t a) as [[c1 e]|] eqn:Hs; [|done].
    replace (n + S (length sched))%nat with (S n + length sched)%nat by lia.
    eapply IH; [|exact Hx]. by econstructor.
Qed.

Lemma run_reach sched c0 c h : run sched c0 [] = Some (c, h) -> reach c0 (length sched) h c.
Proof. intros Hx. apply (run_reach_gen sched c0 0 [] c0 c h); [constructor|done]. Qed.

(** One thread running alone for [n] steps. *)
Fixpoint solo (n : nat) (g : G) (l : L) : outcome G L R :=
  match n with
  | O => Next g l
  | S n' => match code g l with Next g' l' => solo n' g' l' | o => o end
  end.

Lemma solo_add n m g l g' l' : solo n g l = Next g' l' -> solo (n + m) g l = solo m g' l'.
Proof.
  revert g l. induction n as [|n IH]; intros g l H; simpl in *; [by simplify_eq|].
  destruct (code g l); try done. by apply IH.
Qed.

(** It is an execution in which the others do not move. *)
Lemma solo_reach c0 m h g ts k t l n g' l' :
  reach c0 m h (Cfg g ts k false) -> ts !! t = Some (Run l) -> solo n g l = Next g' l' ->
  reach c0 (n + m) h (Cfg g' (<[t:=Run l']> ts) k false).
Proof.
  revert m g ts l. induction n as [|n IH]; intros m g ts l Hr Ht H; simpl in H.
  { simplify_eq. by rewrite list_insert_id. }
  destruct (code g l) as [g1 l1| |] eqn:Hc; try done.
  replace (S n + m)%nat with (n + S m)%nat by lia.
  rewrite <-(list_insert_insert_eq ts t (Run l') (Run l1)).
  eapply IH; [|apply list_lookup_insert_eq; by eapply lookup_lt_Some|exact H].
  rewrite <-(app_nil_r h). econstructor; [exact Hr|].
  instantiate (1 := Step). instantiate (1 := t). unfold cstep. simpl. by rewrite Ht, Hc.
Qed.

(** A step is an invocation, an internal step, a response or a fault. *)
Lemma cstep_inv c t a c' e :
  cstep c t a = Some (c', e) ->
  faulted c = false /\
  ((exists op k, a = Invoke op /\ ths c !! t = Some Idle /\ cl_inv (cl c) t op = Some k /\
      c' = Cfg (sh c) (<[t:=Run (start op)]> (ths c)) k false /\ e = [EInv t op]) \/
   (exists l g l', a = Step /\ ths c !! t = Some (Run l) /\ code (sh c) l = Next g l' /\
      c' = Cfg g (<[t:=Run l']> (ths c)) (cl c) false /\ e = []) \/
   (exists l g r, a = Step /\ ths c !! t = Some (Run l) /\ code (sh c) l = Ret g r /\
      c' = Cfg g (<[t:=Idle]> (ths c)) (cl_ret (cl c) t r) false /\ e = [ERes t r]) \/
   (exists l, a = Step /\ ths c !! t = Some (Run l) /\ code (sh c) l = Fault /\
      c' = Cfg (sh c) (ths c) (cl c) true /\ e = [])).
Proof.
  unfold cstep. intros H. destruct (faulted c); [done|]. split; [done|].
  destruct (ths c !! t) as [[|l]|] eqn:Ht; destruct a; try done.
  - destruct (cl_inv (cl c) t op) eqn:Hk; [|done]. simplify_eq. left. by eauto 10.
  - destruct (code (sh c) l) eqn:Hc; simplify_eq; right; [left|right; left|right; right]; eauto 10.
Qed.

(** ** Invariants

[Inv n c] is kept by every step of an execution of at most [N] steps; the ways a
thread moves are the proof obligations.  A step may fault only where the callers have
done what they should not ([Bad]); the state is then that before the step. *)
Section Invariant.
Variable N : nat.
Variable Inv : nat -> G -> list (tstate L) -> C -> Prop.
Variable Bad : C -> Prop.

Hypothesis inv_invoke : forall n g ts k t op k',
  (n < N)%nat -> Inv n g ts k -> ts !! t = Some Idle -> cl_inv k t op = Some k' ->
  Inv (S n) g (<[t:=Run (start op)]> ts) k'.

Hypothesis inv_code : forall n g ts k t l,
  (n < N)%nat -> Inv n g ts k -> ts !! t = Some (Run l) ->
  match code g l with
  | Next g' l' => Inv (S n) g' (<[t:=Run l']> ts) k
  | Ret g' r => Inv (S n) g' (<[t:=Idle]> ts) (cl_ret k t r)
  | Fault => Bad k
  end.

Lemma reach_invariant_bad c0 n h c :
  faulted c0 = false -> Inv 0 (sh c0) (ths c0) (cl c0) ->
  reach c0 n h c -> (n <= N)%nat ->
  if faulted c then Bad (cl c) /\ Inv (pred n) (sh c) (ths c) (cl c)
  else Inv n (sh c) (ths c) (cl c).
Proof.
  intros Hf H0 Hr. induction Hr as [|n h c t a c' e Hr IH Hs]; [by rewrite Hf|]. intros HN.
  specialize (IH ltac:(lia)). apply cstep_inv in Hs as [Hfc Hs]. rewrite Hfc in IH.
  destruct Hs as [(op&k&->&Ht&Hk&->&->)|[(l&g&l'&->&Ht&Hc&->&->)|[(l&g&r&->&Ht&Hc&->&->)|
    (l&->&Ht&Hc&->&->)]]]; simpl; [by eapply inv_invoke|..];
    pose proof (inv_code _ _ _ _ _ _ HN IH Ht) as H; by rewrite Hc in H.
Qed.
End Invariant.

Lemma reach_invariant N (Inv : nat -> G -> list (tstate L) -> C -> Prop) :
  (forall n g ts k t op k',
    (n < N)%nat -> Inv n g ts k -> ts !! t = Some Idle -> cl_inv k t op = Some k' ->
    Inv (S n) g (<[t:=Run (start op)]> ts) k') ->
  (forall n g ts k t l,
    (n < N)%nat -> Inv n g ts k -> ts !! t = Some (Run l) ->
    match code g l with
    | Next g' l' => Inv (S n) g' (<[t:=Run l']> ts) k
    | Ret g' r => Inv (S n) g' (<[t:=Idle]> ts) (cl_ret k t r)
    | Fault => False
    end) ->
  forall c0 n h c, faulted c0 = false -> Inv 0%nat (sh c0) (ths c0) (cl c0) ->
  reach c0 n h c -> (n <= N)%nat -> faulted c = false /\ Inv n (sh c) (ths c) (cl c).
Proof.
  intros Hi Hc c0 n h c Hf H0 Hr HN.
  pose proof (reach_invariant_bad N Inv (fun _ => False) Hi Hc c0 n h c Hf H0 Hr HN) as H.
  by destruct (faulted c); [destruct H|].
Qed.

(** ** The abstract object and linearizability *)

Section Abstract.
Context {S : Type}.
Variable spec : S -> Op -> S * R.

Inductive athread : Type := AIdle | APend (op : Op) | ADone (r : R).

Record acfg : Type := ACfg { ash : S; aths : list athread; acl : C }.

Definition init_acfg (s : S) (n : nat) (c : C) : acfg := ACfg s (replicate n AIdle) c.

Inductive astep : acfg -> list (event Op R) -> acfg -> Prop :=
| astep_inv s ts k t op k' :
    ts !! t = Some AIdle -> cl_inv k t op = Some k' ->
    astep (ACfg s ts k) [EInv t op] (ACfg s (<[t:=APend op]> ts) k')
| astep_commit s ts k t op :
    ts !! t = Some (APend op) ->
    astep (ACfg s ts k) [] (ACfg (fst (spec s op)) (<[t:=ADone (snd (spec s op))]> ts) k)
| astep_ret s ts k t r :
    ts !! t = Some (ADone r) ->
    astep (ACfg s ts k) [ERes t r] (ACfg s (<[t:=AIdle]> ts) (cl_ret k t r)).

Inductive areach (a0 : acfg) : list (event Op R) -> acfg -> Prop :=
| areach_refl : areach a0 [] a0
| areach_step h a e a' : areach a0 h a -> astep a e a' -> areach a0 (h ++ e) a'.

(** Every history of the code is a history of the abstract object, and no
    thread ever faults. *)
Definition linearizable (c0 : cfg) (a0 : acfg) : Prop :=
  forall n h c, reach c0 n h c -> faulted c = false /\ exists a, areach a0 h a.

(** The same for the executions of at most [N] steps. *)
Definition linearizable_upto (N : nat) (c0 : cfg) (a0 : acfg) : Prop :=
  forall n h c, (n <= N)%nat -> reach c0 n h c -> faulted c = false /\ exists a, areach a0 h a.

(** ** Forward simulation

[Rel] relates the concrete and the abstract state after some number of steps, up to [N]; a
code step is matched by no abstract step or by the commit of the moving thread's
operation. *)
Section BoundedSimulation.
Variable N : nat.
Variable Rel : nat -> G -> list (tstate L) -> C -> S -> list athread -> Prop.

Hypothesis sim_idle : forall n g ts k s us t,
  Rel n g ts k s us -> ts !! t = Some Idle -> us !! t = Some AIdle.

Hypothesis sim_invoke : forall n g ts k s us t op k',
  (n < N)%nat ->
  Rel n g ts k s us -> ts !! t = Some Idle -> us !! t = Some AIdle -> cl_inv k t op = Some k' ->
  Rel (Datatypes.S n) g (<[t:=Run (start op)]> ts) k' s (<[t:=APend op]> us).

Hypothesis sim_code : forall n g ts k s us t l,
  (n < N)%nat -> Rel n g ts k s us -> ts !! t = Some (Run l) ->
  match code g l with
  | Next g' l' =>
      Rel (Datatypes.S n) g' (<[t:=Run l']> ts) k s us \/
      (exists op, us !! t = Some (APend op) /\
         Rel (Datatypes.S n) g' (<[t:=Run l']> ts) k (fst (spec s op)) (<[t:=ADone (snd (spec s op))]> us))
  | Ret g' r =>
      (us !! t = Some (ADone r) /\
         Rel (Datatypes.S n) g' (<[t:=Idle]> ts) (cl_ret k t r) s (<[t:=AIdle]> us)) \/
      (exists op, us !! t = Some (APend op) /\ snd (spec s op) = r /\
         Rel (Datatypes.S n) g' (<[t:=Idle]> ts) (cl_ret k t r) (fst (spec s op)) (<[t:=AIdle]> us))
  | Fault => False
  end.

Lemma bounded_simulation_reach c0 s0 us0 n h c :
  faulted c0 = false -> Rel 0 (sh c0) (ths c0) (cl c0) s0 us0 ->
  reach c0 n h c -> (n <= N)%nat ->
  faulted c = false /\
  exists s us, areach (ACfg s0 us0 (cl c0)) h (ACfg s us (cl c)) /\
    Rel n (sh c) (ths c) (cl c) s us.
Proof.
  intros Hf H0 Hr. induction Hr as [|n h c t a c' e Hr IH Hs].
  { split; [done|]. exists s0, us0. split; [constructor|done]. }
  intros HN. destruct (IH ltac:(lia)) as (_&s&us&Ha&HR). apply cstep_inv in Hs as [_ Hs].
  destruct Hs as [(op&k&->&Ht&Hk&->&->)|[(l&g&l'&->&Ht&Hc&->&->)|[(l&g&r&->&Ht&Hc&->&->)|
    (l&->&Ht&Hc&->&->)]]]; simpl.
  - split; [done|]. pose proof (sim_idle _ _ _ _ _ _ _ HR Ht) as Hu.
    exists s, (<[t:=APend op]> us). split; [|by eapply sim_invoke].
    eapply areach_step; [exact Ha|]. by constructor.
  - pose proof (sim_code _ _ _ _ _ _ _ _ HN HR Ht) as H. rewrite Hc in H. split; [done|].
    destruct H as [H|(op&Hu&H)].
    + exists s, us. split; [|done]. by rewrite app_nil_r.
    + eexists _, _. split; [|exact H]. eapply areach_step; [exact Ha|]. by constructor.
  - pose proof (sim_code _ _ _ _ _ _ _ _ HN HR Ht) as H. rewrite Hc in H. split; [done|].
    destruct H as [(Hu&H)|(op&Hu&Hr'&H)].
    + eexists _, _. split; [|exact H]. eapply areach_step; [exact Ha|]. by constructor.
    + eexists _, _. split; [|exact H]. rewrite <-(app_nil_r h). rewrite <-Hr'.
      eapply areach_step.
      { eapply areach_step; [exact Ha|]. by constructor. }
      rewrite <-(list_insert_insert_eq us t AIdle (ADone (snd (spec s op)))).
      constructor. apply list_lookup_insert_eq. by eapply lookup_lt_Some.
  - pose proof (sim_code _ _ _ _ _ _ _ _ HN HR Ht) as H. by rewrite Hc in H.
Qed.

Lemma bounded_simulation g s n k :
  Rel 0 g (replicate n Idle) k s (replicate n AIdle) ->
  linearizable_upto N (init_cfg g n k) (init_acfg s n k).
Proof.
  intros H0 m h c HN Hr.
  destruct (bounded_simulation_reach (init_cfg g n k) s (replicate n AIdle) m h c)
    as (Hf&s'&us&Ha&_); eauto.
Qed.
End BoundedSimulation.

(** Without a bound. *)
Section Simulation.
Variable Rel : G -> list (tstate L) -> C -> S -> list athread -> Prop.

Hypothesis sim_idle : forall g ts k s us t,
  Rel g ts k s us -> ts !! t = Some Idle -> us !! t = Some AIdle.

Hypothesis sim_invoke : forall g ts k s us t op k',
  Rel g ts k s us -> ts !! t = Some Idle -> us !! t = Some AIdle -> cl_inv k t op = Some k' ->
  Rel g (<[t:=Run (start op)]> ts) k' s (<[t:=APend op]> us).

Hypothesis sim_code : forall g ts k s us t l,
  Rel g ts k s us -> ts !! t = Some (Run l) ->
  match code g l with
  | Next g' l' =>
      Rel g' (<[t:=Run l']> ts) k s us \/
      (exists op, us !! t = Some (APend op) /\
         Rel g' (<[t:=Run l']> ts) k (fst (spec s op)) (<[t:=ADone (snd (spec s op))]> us))
  | Ret g' r =>
      (us !! t = Some (ADone r) /\
         Rel g' (<[t:=Idle]> ts) (cl_ret k t r) s (<[t:=AIdle]> us)) \/
      (exists op, us !! t = Some (APend op) /\ snd (spec s op) = r /\
         Rel g' (<[t:=Idle]> ts) (cl_ret k t r) (fst (spec s op)) (<[t:=AIdle]> us))
  | Fault => False
  end.

Lemma forward_simulation g s n k :
  Rel g (replicate n Idle) k s (replicate n AIdle) ->
  linearizable (init_cfg g n k) (init_acfg s n k).
Proof.
  intros H0 m h c Hr.
  refine (bounded_simulation m (fun _ => Rel) (fun _ => sim_idle) _ _ g s n k H0 m h c (Nat.le_refl _) Hr).
  - intros *. eauto.
  - intros m' g' ts k' s' us t l _. apply sim_code.
Qed.
End Simulation.
End Abstract.
End Interleaving.

Arguments Cfg {G L C} _ _ _ _.
Arguments sh {G L C} _.
Arguments ths {G L C} _.
Arguments cl {G L C} _.
Arguments faulted {G L C} _.
Arguments init_cfg {G L C} _ _ _.
Arguments AIdle {Op R}.
Arguments APend {Op R} _.
Arguments ADone {Op R} _.
Arguments ACfg {Op R C S} _ _ _.
Arguments init_acfg {Op R C S} _ _ _.

(** The client protocol of an object any thread may use at any time. *)
Definition any_inv {Op} (k : unit) (t : nat) (op : Op) : option unit := Some k.
Definition any_ret {R} (k : unit) (t : nat) (r : R) : unit := k.

(** ** What the threads hold between them

[f] gives the resources a thread has in hand at a point of its operation. *)
Definition gather {X A} (f : X -> list A) (ts : list X) : list A :=
  mjoin (f <$> ts).

Lemma gather_insert {X A} (f : X -> list A) ts t x :
  ts !! t = Some x ->
  exists rest, gather f ts ≡ₚ f x ++ rest /\ forall y, gather f (<[t:=y]> ts) ≡ₚ f y ++ rest.
Proof.
  intros Ht. apply list_elem_of_split_length in Ht as (l1&l2&->&->).
  exists (gather f l1 ++ gather f l2). unfold gather.
  assert (forall y, mjoin (f <$> l1 ++ y :: l2) ≡ₚ
    f y ++ mjoin (f <$> l1) ++ mjoin (f <$> l2)) as Hy.
  { intros y. rewrite fmap_app, fmap_cons, join_app. simpl. by rewrite Permutation_app_swap_app. }
  split; [apply Hy|]. intros y. rewrite <-(Nat.add_0_r (length l1)), insert_app_r. apply Hy.
Qed.

Lemma gather_lookup {X A} (f : X -> list A) ts i x n :
  ts !! i = Some x -> n ∈ f x -> n ∈ gather f ts.
Proof.
  intros Hi Hn. unfold gather. apply list_elem_of_join. exists (f x). split; [done|].
  apply list_elem_of_fmap. exists x. split; [done|]. by eapply list_elem_of_lookup_2.
Qed.

Lemma gather_idle {L A} (f : tstate L -> list A) n : f Idle = [] -> gather f (replicate n Idle) = [].
Proof. intros Hf. unfold gather. induction n; simpl; [done|]. by rewrite Hf. Qed.
