(* ===== verification/AtomicOps.v ===== *)
(** * AtomicOps.v: the loops of [sys/AtomicOps.h] under [USING_CAS_TO_DO_INCREASE]

The header has the additions twice: as [__sync_*] builtins (Machine.v) and, behind a
switch, as loops around a compare-and-swap.  The loops are threads of Conc.v: a step is the
load of the value or the compare-and-swap.  The theorem: whatever the number of threads,
the loops are linearizable with respect to the builtins, so that the switch changes no
behaviour of the callers. *)

From S2P Require Import Prelude Machine Conc.

Section CasLoop.
(** [u64] for [size_t], [i32] for [int]. *)
Variable wrap : Z -> Z.

(** [atomic_add(val, gap)]; [atomic_increment] and [atomic_decrement] are 1 and -1. *)
Inductive op : Type := OAdd (gap : Z).

Inductive loc : Type :=
| ReadVal (gap : Z)               (* [oldval = *val] *)
| CasVal (gap oldval : Z).        (* [atomic_cas(val, oldval, newval)] *)

Definition start (o : op) : loc := match o with OAdd gap => ReadVal gap end.

Definition code (val : Z) (l : loc) : outcome Z loc Z :=
  match l with
  | ReadVal gap => Next val (CasVal gap val)
  | CasVal gap oldval =>
      let newval := wrap (oldval + gap) in
      let '(ok, val') := atomic_cas val oldval newval in
      if ok then Ret val' oldval else Next val' (ReadVal gap)
  end.

(** The builtin: [__sync_fetch_and_add]. *)
Definition add_spec (val : Z) (o : op) : Z * Z :=
  match o with OAdd gap => let '(old, new) := atomic_add wrap val gap in (new, old) end.

(** A thread in the loop has not taken effect yet. *)
Definition in_loop (x : tstate loc) (u : athread (Op:=op) (R:=Z)) : Prop :=
  match x with
  | Idle => u = AIdle
  | Run (ReadVal gap) | Run (CasVal gap _) => u = APend (OAdd gap)
  end.

Definition ARel (val : Z) (ts : list (tstate loc)) (k : unit) (s : Z) (us : list (athread (Op:=op) (R:=Z))) : Prop :=
  val = s /\ Forall2 in_loop ts us.

(** The compare-and-swap loops of [atomic_add], [atomic_increment] and
    [atomic_decrement] are linearizable: every history of any number of threads is one in
    which each addition happens at once, as with the builtin, and returns the value
    before. *)
Theorem cas_loops_linearizable (val : Z) (n : nat) :
  linearizable start code any_inv any_ret add_spec (init_cfg val n tt) (init_acfg val n tt).
Proof.
  apply forward_simulation with ARel.
  - intros g ts k s us t [_ HF] Ht. destruct (Forall2_lookup_l _ _ _ _ _ HF Ht) as (u&Hu&Hx).
    cbn in Hx. by subst.
  - intros g ts k s us t [gap] k' [-> HF] Ht Hu _. split; [done|]. by apply Forall2_insert.
  - intros g ts k s us t l [-> HF] Ht. destruct (Forall2_lookup_l _ _ _ _ _ HF Ht) as (u&Hu&Hx).
    assert (Hstay : forall l', in_loop (Run l') u -> Forall2 in_loop (<[t:=Run l']> ts) us).
    { intros l' Hl'. rewrite <-(list_insert_id us t u) by done. by apply Forall2_insert. }
    destruct l as [gap|gap oldval]; cbn in Hx; cbn [code].
    + left. split; [done|]. by apply Hstay.
    + destruct (atomic_cas s oldval _) as [[] v] eqn:E.
      * apply atomic_cas_true in E as [-> ->]. right. exists (OAdd gap). rewrite Hu, Hx. split; [done|].
        split; [done|]. split; [done|]. by apply Forall2_insert.
      * apply atomic_cas_false in E as [_ ->]. left. split; [done|]. by apply Hstay.
  - split; [done|]. by apply Forall2_replicate.
Qed.

(** The loop goes round only when another thread has changed the value since the load: a
    thread left alone returns after two steps. *)
Lemma cas_loop_alone val gap : solo code 2 val (ReadVal gap) = Ret (wrap (val + gap)) val.
Proof. cbn. unfold atomic_cas. by rewrite decide_True. Qed.
End CasLoop.

(** [atomic_increment] and [atomic_decrement] of Machine.v are these additions. *)
Lemma increment_is_add val : atomic_increment val = atomic_add u64 val 1.
Proof. done. Qed.

Lemma decrement_is_add val : atomic_decrement val = atomic_add u64 val (-1).
Proof. done. Qed.
