(* ===== verification/Functor.v ===== *)
(** * Functor.v: [misc/functor.h]

A [function] owns a heap object behind [fun_]: a plain procedure, a member procedure with a
pointer to its object, or a functor with its own copy of the object.  The memory has the
objects of the callers, the heap and the [fun_] of every variable; a call may change the
object it works on.  [None] is a dangling pointer or a [NULL] procedure.

The theorems: along any sequence of constructions, copies, assignments, destructions and
calls every variable owns a heap object of its own, and the heap has one object more for
each assignment ([operator=] does not delete the old one); a copied functor has its own
state, a copied member procedure shares its object. *)

From S2P Require Import Prelude.

Section Functor.
(** The argument, the result, and the class of the objects that are called. *)
Context {A R CS : Type}.

Inductive function_base : Type :=
| function_impl_normal (norm_proc_ : option (A -> R))
| function_impl_class (obj_ : nat) (proc_ : CS -> A -> CS * R)
| function_impl_functor (obj_ : CS) (call : CS -> A -> CS * R).

Definition clone (f : function_base) : function_base :=
  match f with
  | function_impl_normal norm_proc_ => function_impl_normal norm_proc_
  | function_impl_class obj_ proc_ => function_impl_class obj_ proc_
  | function_impl_functor obj_ call => function_impl_functor obj_ call
  end.

(** The objects of the callers, the heap, and [fun_] of the variables. *)
Record memory : Type := Mem {
  objects : gmap nat CS; impls : gmap nat function_base; fun_ : gmap nat nat
}.

(** [operator()] of an implementation: the objects, what is left of the implementation,
    the result. *)
Definition invoke (f : function_base) (arg : A) (objs : gmap nat CS) :
    option (gmap nat CS * function_base * R) :=
  match f with
  | function_impl_normal None => None
  | function_impl_normal (Some norm_proc_) => Some (objs, f, norm_proc_ arg)
  | function_impl_class obj_ proc_ =>
      match objs !! obj_ with
      | Some o => let '(o', r) := proc_ o arg in Some (<[obj_ := o']> objs, f, r)
      | None => None
      end
  | function_impl_functor obj_ call =>
      let '(o', r) := call obj_ arg in Some (objs, function_impl_functor o' call, r)
  end.

(** [new] for the variable [v]. *)
Definition new_impl (v : nat) (f : function_base) (m : memory) : memory :=
  let p := fresh (dom (impls m)) in
  Mem (objects m) (<[p := f]> (impls m)) (<[v := p]> (fun_ m)).

Definition deref (v : nat) (m : memory) : option (nat * function_base) :=
  match fun_ m !! v with
  | Some p => match impls m !! p with Some f => Some (p, f) | None => None end
  | None => None
  end.

Inductive fop : Type :=
| FMake (v : nat) (f : function_base)    (* the constructors and [bind] *)
| FCopy (v w : nat)                      (* [function v(w)] *)
| FAssign (v w : nat)                    (* [v = w] *)
| FDestroy (v : nat)
| FCall (v : nat) (arg : A).

Definition fstep (o : fop) (m : memory) : option (memory * option R) :=
  match o with
  | FMake v f => Some (new_impl v f m, None)
  | FCopy v w =>
      match deref w m with Some (_, f) => Some (new_impl v (clone f) m, None) | None => None end
  | FAssign v w =>
      if decide (v = w) then Some (m, None)
      else match deref w m with Some (_, f) => Some (new_impl v (clone f) m, None) | None => None end
  | FDestroy v =>
      match deref v m with
      | Some (p, _) => Some (Mem (objects m) (delete p (impls m)) (delete v (fun_ m)), None)
      | None => None
      end
  | FCall v arg =>
      match deref v m with
      | Some (p, f) =>
          match invoke f arg (objects m) with
          | Some (objs, f', r) => Some (Mem objs (<[p := f']> (impls m)) (fun_ m), Some r)
          | None => None
          end
      | None => None
      end
  end.

Fixpoint fsteps (os : list fop) (m : memory) : option memory :=
  match os with
  | [] => Some m
  | o :: os' => match fstep o m with Some (m', _) => fsteps os' m' | None => None end
  end.

(** How C++ lets variables be used: constructors on new variables, the rest on live ones;
    a call needs a procedure and a live object. *)
Definition callable (f : function_base) (objs : gmap nat CS) : Prop :=
  match f with
  | function_impl_normal norm_proc_ => is_Some norm_proc_
  | function_impl_class obj_ _ => is_Some (objs !! obj_)
  | function_impl_functor _ _ => True
  end.

Definition legal (o : fop) (m : memory) : Prop :=
  match o with
  | FMake v _ => fun_ m !! v = None
  | FCopy v w => fun_ m !! v = None /\ is_Some (fun_ m !! w)
  | FAssign v w => is_Some (fun_ m !! v) /\ is_Some (fun_ m !! w)
  | FDestroy v => is_Some (fun_ m !! v)
  | FCall v _ => exists p f, deref v m = Some (p, f) /\ callable f (objects m)
  end.

Fixpoint legal_all (os : list fop) (m : memory) : Prop :=
  match os with
  | [] => True
  | o :: os' => legal o m /\ match fstep o m with Some (m', _) => legal_all os' m' | None => True end
  end.

#[export] Instance legal_dec o m : Decision (legal o m).
Proof.
  destruct o as [v f|v w|v w|v|v arg]; cbn.
  - destruct (fun_ m !! v); [by right|by left].
  - apply and_dec; [destruct (fun_ m !! v); [by right|by left]|apply _].
  - apply _.
  - apply _.
  - destruct (deref v m) as [[p f]|]; [|right; by intros (?&?&?&_)].
    assert (Decision (callable f (objects m))) as [Hc|Hc] by (destruct f; apply _).
    + left. eauto.
    + right. by intros (?&?&[= <- <-]&?).
Defined.

#[export] Instance legal_all_dec os m : Decision (legal_all os m).
Proof.
  revert m. induction os as [|o os IH]; intros m; cbn; [by left|].
  apply and_dec; [apply _|]. destruct (fstep o m) as [[m' r]|]; [apply IH|by left].
Defined.

(** ** Ownership *)

(** Every variable owns an object of the heap. *)
Record owned (m : memory) : Prop := {
  ow_live : forall v p, fun_ m !! v = Some p -> is_Some (impls m !! p);
  ow_own : forall v w p, fun_ m !! v = Some p -> fun_ m !! w = Some p -> v = w
}.

(** The heap objects that no variable owns. *)
Definition leaked (m : memory) : Z := Z.of_nat (size (impls m)) - Z.of_nat (size (fun_ m)).

(** An assignment leaks one. *)
Definition leak_of (o : fop) : Z :=
  match o with FAssign v w => if decide (v = w) then 0 else 1 | _ => 0 end.

Lemma fresh_impl (m : memory) : impls m !! fresh (dom (impls m)) = None.
Proof. apply not_elem_of_dom, is_fresh. Qed.

Lemma owned_new v f m : owned m -> owned (new_impl v f m).
Proof.
  intros [H1 H2]. pose proof (fresh_impl m) as Hf. unfold new_impl. set (p := fresh (dom (impls m))) in *.
  assert (Hp : forall w, fun_ m !! w <> Some p).
  { intros w Hw. apply H1 in Hw. rewrite Hf in Hw. by destruct Hw. }
  split; cbn.
  - intros w q. destruct (decide (w = v)) as [->|Hne].
    + rewrite lookup_insert_eq. intros [= <-]. rewrite lookup_insert_eq. by eexists.
    + rewrite lookup_insert_ne by done. intros Hw. destruct (decide (q = p)) as [->|Hq].
      * by destruct (Hp w).
      * rewrite lookup_insert_ne by done. by eapply H1.
  - intros w w' q. destruct (decide (w = v)) as [->|Hne], (decide (w' = v)) as [->|Hne']; [done|..];
      rewrite ?lookup_insert_eq, ?lookup_insert_ne by done.
    + intros [= <-] Hw. by destruct (Hp w').
    + intros Hw [= <-]. by destruct (Hp w).
    + apply H2.
Qed.

Lemma leaked_new v f m :
  leaked (new_impl v f m) = leaked m + match fun_ m !! v with Some _ => 1 | None => 0 end.
Proof.
  unfold leaked, new_impl. cbn. rewrite map_size_insert, fresh_impl, map_size_insert.
  destruct (fun_ m !! v); cbn; lia.
Qed.

Lemma deref_live v m : owned m -> is_Some (fun_ m !! v) -> exists p f, deref v m = Some (p, f) /\
  fun_ m !! v = Some p /\ impls m !! p = Some f.
Proof.
  intros [H1 _] [p Hp]. destruct (H1 v p Hp) as [f Hf]. exists p, f. unfold deref. by rewrite Hp, Hf.
Qed.

Lemma deref_some v m p f : deref v m = Some (p, f) -> fun_ m !! v = Some p /\ impls m !! p = Some f.
Proof. unfold deref. destruct (fun_ m !! v) as [q|]; [|done]. destruct (impls m !! q) eqn:E; [|done]. by intros [= <- <-]. Qed.

Lemma invoke_callable f arg objs : callable f objs -> is_Some (invoke f arg objs).
Proof.
  destruct f as [p|o p|o c]; cbn.
  - intros [q ->]. by eexists.
  - intros [x ->]. destruct (p x arg). by eexists.
  - intros _. destruct (c o arg). by eexists.
Qed.

Lemma fstep_owned o m :
  owned m -> legal o m ->
  exists m' r, fstep o m = Some (m', r) /\ owned m' /\ leaked m' = leaked m + leak_of o.
Proof.
  intros HI HL. destruct o as [v f|v w|v w|v|v arg]; cbn in *.
  - eexists _, _. split; [reflexivity|]. split; [by apply owned_new|]. by rewrite leaked_new, HL.
  - destruct HL as [Hv Hw]. destruct (deref_live w m HI Hw) as (p&f&->&_).
    eexists _, _. split; [reflexivity|]. split; [by apply owned_new|]. by rewrite leaked_new, Hv.
  - destruct HL as [Hv Hw]. case_decide; [exists m, None; split; [done|]; split; [done|lia]|].
    destruct (deref_live w m HI Hw) as (p&f&->&_).
    eexists _, _. split; [reflexivity|]. split; [by apply owned_new|]. destruct Hv as [q Hq]. by rewrite leaked_new, Hq.
  - destruct (deref_live v m HI HL) as (p&f&->&Hp&Hf). eexists _, _. split; [reflexivity|]. destruct HI as [H1 H2]. split.
    + split; cbn.
      * intros w q. destruct (decide (w = v)) as [->|Hne]; [by rewrite lookup_delete_eq|].
        rewrite lookup_delete_ne by done. intros Hw. rewrite lookup_delete_ne; [by eapply H1|].
        intros <-. by destruct (H2 w v p Hw Hp).
      * intros w w' q Hw Hw'. rewrite lookup_delete_Some in Hw, Hw'. eapply H2; [apply Hw|apply Hw'].
    + unfold leaked. cbn. rewrite (map_size_delete_Some p (impls m)) by by eexists. rewrite (map_size_delete_Some v (fun_ m)) by by eexists.
      pose proof (map_size_ne_0_lookup_2 (impls m) p ltac:(by eexists)).
      pose proof (map_size_ne_0_lookup_2 (fun_ m) v ltac:(by eexists)). lia.
  - destruct HL as (p&f&E&Hc). rewrite E. destruct (invoke_callable f arg _ Hc) as [[[objs f'] r] ->].
    apply deref_some in E as [Hp Hf]. eexists _, _. split; [reflexivity|]. destruct HI as [H1 H2]. split.
    + split; cbn; [|done]. intros w q Hw. destruct (decide (q = p)) as [->|Hne].
      * rewrite lookup_insert_eq. by eexists.
      * rewrite lookup_insert_ne by done. by eapply H1.
    + unfold leaked. cbn. rewrite map_size_insert_Some by by eexists. lia.
Qed.

(** C40. Ownership: from the empty heap, any sequence of constructions, copies,
    assignments, destructions and calls that uses live variables runs without a dangling
    pointer; afterwards every variable owns an object of its own, and the heap has besides
    these exactly one object for each assignment to another variable. *)
Theorem function_owned (objs : gmap nat CS) (os : list fop) :
  let m0 := Mem objs ∅ ∅ in
  legal_all os m0 ->
  exists m, fsteps os m0 = Some m /\ owned m /\ leaked m = sum_with leak_of os.
Proof.
  cbv zeta. set (m0 := Mem objs ∅ ∅). assert (HI : owned m0).
  { split; cbn; intros v; [|intros w]; intros p; by rewrite lookup_empty. }
  assert (HL : leaked m0 = 0) by done. rewrite <-(Z.add_0_l (sum_with _ _)), <-HL. clear HL.
  clearbody m0. revert m0 HI. induction os as [|o os IH]; intros m HI HL; cbn [fsteps legal_all sum_with] in *.
  { exists m. split_and!; [done..|lia]. }
  destruct HL as [HL HLs]. destruct (fstep_owned o m HI HL) as (m1&r&E&HI1&Hl1). rewrite E in *.
  destruct (IH m1 HI1 HLs) as (m2&E2&HI2&Hl2). exists m2. split_and!; [done..|lia].
Qed.

(** ** Copies *)

Lemma deref_new v f m : deref v (new_impl v f m) = Some (fresh (dom (impls m)), f).
Proof. unfold deref, new_impl. cbn. by rewrite !lookup_insert_eq. Qed.

Lemma deref_new_other v w f m :
  owned m -> v <> w -> is_Some (fun_ m !! w) -> deref w (new_impl v f m) = deref w m.
Proof.
  intros HI Hne Hw. destruct (deref_live w m HI Hw) as (p&g&->&Hp&Hg). unfold deref, new_impl. cbn.
  rewrite lookup_insert_ne, Hp by done. rewrite lookup_insert_ne; [by rewrite Hg|].
  intros E. rewrite <-E, fresh_impl in Hg. done.
Qed.

(** Whether an implementation works on an object outside of itself. *)
Definition shares (f : function_base) : bool :=
  match f with function_impl_class _ _ => true | _ => false end.

(** What a call leaves for another variable: its implementation. *)
Lemma call_other v w arg m m' r :
  owned m -> v <> w -> fstep (FCall w arg) m = Some (m', r) -> deref v m' = deref v m.
Proof.
  intros [_ H2] Hne H. cbn in H. destruct (deref w m) as [[p f]|] eqn:E; [|done].
  destruct (invoke f arg (objects m)) as [[[objs f'] x]|]; [|done]. injection H as <- _.
  apply deref_some in E as [Hp _]. unfold deref. cbn. destruct (fun_ m !! v) as [q|] eqn:Hq; [|done].
  rewrite lookup_insert_ne; [done|]. intros <-. by destruct (Hne (H2 v w p Hq Hp)).
Qed.

(** The objects change only in the calls of member procedures. *)
Lemma call_objects w p f arg m m' r :
  deref w m = Some (p, f) -> shares f = false -> fstep (FCall w arg) m = Some (m', r) -> objects m' = objects m.
Proof.
  intros E Hs H. cbn in H. rewrite E in H. destruct f as [[q|]|o q|o c]; try done; cbn in H; [by injection H as <- _|].
  destruct (c o arg). by injection H as <- _.
Qed.

(** The result of a call depends on the implementation and on the objects. *)
Lemma call_result v w p q f arg m1 m2 :
  deref v m1 = Some (p, f) -> deref w m2 = Some (q, f) -> objects m1 = objects m2 ->
  option_map snd (fstep (FCall v arg) m1) = option_map snd (fstep (FCall w arg) m2).
Proof. intros E1 E2 Ho. cbn. rewrite E1, E2, Ho. by destruct (invoke f arg (objects m2)) as [[[? ?] ?]|]. Qed.

Lemma clone_same f : clone f = f.
Proof. by destruct f. Qed.

(** Copies: after [function v(w)] and a call of [w], a call of the copy returns, for
    a procedure or a functor, what [w] would have returned before its call - the copy has its
    own state; for a bound member procedure it returns what [w] would return now - the
    two share the object. *)
Theorem function_copy (m m1 m2 : memory) (v w p : nat) (f : function_base) (a b : A) (r : option R) :
  owned m -> fun_ m !! v = None -> deref w m = Some (p, f) ->
  fstep (FCopy v w) m = Some (m1, None) -> fstep (FCall w a) m1 = Some (m2, r) ->
  option_map snd (fstep (FCall v b) m2) =
    option_map snd (fstep (FCall w b) (if shares f then m2 else m1)).
Proof.
  intros HI Hv Hw Hc H. assert (Hne : v <> w).
  { intros ->. apply deref_some in Hw as [Hw _]. congruence. }
  cbn [fstep] in Hc. rewrite Hw, clone_same in Hc. injection Hc as <-.
  assert (HI1 : owned (new_impl v f m)) by by apply owned_new.
  assert (Hw1 : deref w (new_impl v f m) = Some (p, f)).
  { rewrite deref_new_other; [done..|]. apply deref_some in Hw as [-> _]. by eexists. }
  assert (Hv2 : deref v m2 = Some (fresh (dom (impls m)), f)).
  { rewrite (call_other v w a _ _ _ HI1 Hne H). apply deref_new. }
  destruct (shares f) eqn:Hs.
  - eapply call_result; [exact Hv2| |done]. cbn [fstep] in H. rewrite Hw1 in H.
    destruct f as [q|o q|o c]; try done. cbn in H. destruct (objects m !! o); [|done]. destruct (q c a).
    injection H as <- _. apply deref_some in Hw1 as [Hp _]. unfold deref. cbn in *. by rewrite Hp, lookup_insert_eq.
  - eapply call_result; [exact Hv2|exact Hw1|]. by eapply call_objects.
Qed.
End Functor.
Arguments function_base A R CS : clear implicits.
Arguments memory A R CS : clear implicits.
Arguments fop A R CS : clear implicits.

(** ** A counter as a functor and as a member procedure *)

Definition count (s a : Z) : Z * Z := (s + a, s + a).

Definition counters : list (fop Z Z Z) :=
  [FMake 0 (function_impl_functor 10 count); FMake 1 (function_impl_class 7 count); FCopy 2 0; FCopy 3 1;
   FCall 0 1; FCall 2 5; FCall 1 1; FCall 3 5; FAssign 0 1; FDestroy 2].

Definition results (os : list (fop Z Z Z)) (m : memory Z Z Z) : list (option Z) :=
  (fix go os m :=
    match os with
    | [] => []
    | o :: os' => match fstep o m with Some (m', r) => r :: go os' m' | None => [] end
    end) os m.

(** The copied functor counts from 10 again, the copied member procedure goes on. *)
Example counters_run :
  results counters (Mem {[7%nat := 100]} ∅ ∅) =
    [None; None; None; None; Some 11; Some 15; Some 101; Some 106; None; None].
Proof. by vm_compute. Qed.

Lemma function_owned_witness :
  exists m, fsteps counters (Mem {[7%nat := 100]} ∅ ∅) = Some m /\ owned m /\ leaked m = sum_with leak_of counters.
Proof. apply (function_owned {[7%nat := 100]} counters). apply (bool_decide_unpack _). by vm_compute. Defined.

Definition one_counter (f : function_base Z Z Z) : memory Z Z Z :=
  Mem {[7%nat := 100]} {[4%nat := f]} {[0%nat := 4%nat]}.

Lemma function_copy_witness :
  exists m1 m2 r, fstep (FCopy 2 0) (one_counter (function_impl_functor 10 count)) = Some (m1, None) /\
    fstep (FCall 0 1) m1 = Some (m2, r) /\
    option_map snd (fstep (FCall 2 5) m2) = option_map snd (fstep (FCall 0 5) m1).
Proof.
  eexists _, _, _. split; [vm_compute; reflexivity|]. split; [vm_compute; reflexivity|].
  eapply (function_copy (one_counter (function_impl_functor 10 count)) _ _ 2 0 4 (function_impl_functor 10 count) 1 5);
    [| | |vm_compute; reflexivity|vm_compute; reflexivity].
  - split; cbn.
    + intros v p. rewrite lookup_singleton_Some. intros [<- <-]. by eexists.
    + intros v w p. rewrite !lookup_singleton_Some. by intros [<- _] [<- _].
  - reflexivity.
  - vm_compute. reflexivity.
Defined.
