(* ===== verification/Process.v ===== *)
(** * Process.v: [sys/src/Daemon.cc] and [http/main.cc] - processes and their system calls

A process is its attributes and the rest of its program ([prog], a tree whose nodes are
system calls and whose branches are their results); the kernel is a finite map of
processes.  [sys_step] executes the next call of one process with an answer of the
system, [run] any sequence of such steps of any processes.  [fork] copies the process, so
that both branches of [pid == 0] are run, interleaved in any way.

[daemonize] is the code of Daemon.cc and [main] the one of http/main.cc, whose worker is
the server of HttpServerLoop.v, here one call.

The theorems: whatever the system answers, at most one process comes back from
[daemonize]; all the others have ended, and that one is no session leader, in a session
of its own, ignores [SIGHUP], sits in [/] with mask 0, has [/dev/null] as its descriptors
0, 1 and 2 and no other descriptor below the limit ([daemonize_detaches]); and the
listening process forks at most one server per processor, all on the same descriptor,
never serves itself, and its children never fork ([main_workers]). *)

From S2P Require Import Prelude.

(** ** Processes *)

Inductive file : Type := DevNull | File (id : nat).
#[export] Instance file_eq_dec : EqDecision file.
Proof. solve_decision. Defined.

Inductive call : Type :=
| Umask (m : Z) | Getrlimit | Fork | Setsid | IgnoreHup | Chdir (dir : bytes)
| Close (fd : nat) | OpenNull | Dup (fd : nat)
| SetLogLevel (level : Z) | ListenTo (port : Z) | Processors | RunServer (fd : Z) | WaitInput.

#[export] Instance call_eq_dec : EqDecision call.
Proof. solve_decision. Defined.

(** [nofile] is the hard limit of descriptors, [rlim_max], and [cpus] the number of
    processors.  [Return]: back in the caller.  The results of the calls are numbers; of [Getrlimit] it
    is [rlim_max], or -1. *)
Inductive prog : Type :=
| Exit (status : Z)
| Return
| Call (c : call) (k : Z -> prog).

Record process : Type := Process {
  session : nat; group : nat; cwd : bytes; mask : Z; ignores_hup : bool;
  fds : gmap nat file; nofile : Z; cpus : Z; log_level : Z; code : prog
}.

Definition set_code (x : prog) (p : process) : process :=
  Process (session p) (group p) (cwd p) (mask p) (ignores_hup p) (fds p) (nofile p) (cpus p) (log_level p) x.
Definition set_fds (m : gmap nat file) (p : process) : process :=
  Process (session p) (group p) (cwd p) (mask p) (ignores_hup p) m (nofile p) (cpus p) (log_level p) (code p).

(** The lowest descriptor that is not in use. *)
Fixpoint lowest_from (n fd : nat) (m : gmap nat file) : nat :=
  match n with
  | O => fd
  | S n' => match m !! fd with None => fd | Some _ => lowest_from n' (S fd) m end
  end.

Definition lowest (m : gmap nat file) : nat := lowest_from (size m) 0 m.

(** A call that cannot fork, with the answer [ans] of the system (negative for a failure):
    the process and the result.  [setsid] fails for the leader of a group. *)
Definition local_call (pid : nat) (c : call) (ans : Z) (p : process) : process * Z :=
  match c with
  | Umask m => (Process (session p) (group p) (cwd p) m (ignores_hup p) (fds p) (nofile p) (cpus p) (log_level p) (code p), mask p)
  | Setsid =>
      if decide (group p = pid) then (p, -1)
      else if ans <? 0 then (p, ans)
      else (Process pid pid (cwd p) (mask p) (ignores_hup p) (fds p) (nofile p) (cpus p) (log_level p) (code p), Z.of_nat pid)
  | IgnoreHup =>
      if ans <? 0 then (p, ans)
      else (Process (session p) (group p) (cwd p) (mask p) true (fds p) (nofile p) (cpus p) (log_level p) (code p), 0)
  | Chdir dir =>
      if ans <? 0 then (p, ans)
      else (Process (session p) (group p) dir (mask p) (ignores_hup p) (fds p) (nofile p) (cpus p) (log_level p) (code p), 0)
  | Close fd =>
      match fds p !! fd with
      | Some _ => (set_fds (delete fd (fds p)) p, 0)
      | None => (p, -1)
      end
  | OpenNull =>
      if ans <? 0 then (p, ans)
      else (set_fds (<[lowest (fds p) := DevNull]> (fds p)) p, Z.of_nat (lowest (fds p)))
  | Dup fd =>
      match fds p !! fd with
      | Some f => if ans <? 0 then (p, ans)
                  else (set_fds (<[lowest (fds p) := f]> (fds p)) p, Z.of_nat (lowest (fds p)))
      | None => (p, -1)
      end
  | SetLogLevel l => (Process (session p) (group p) (cwd p) (mask p) (ignores_hup p) (fds p) (nofile p) (cpus p) l (code p), 0)
  | Getrlimit => (p, if ans <? 0 then ans else nofile p)
  | Processors => (p, cpus p)
  | Fork | ListenTo _ | RunServer _ | WaitInput => (p, ans)
  end.

Abbreviation kernel := (gmap nat process).

(** The next call of the process [pid].  A successful [fork] answers a new process id. *)
Definition sys_step (pid : nat) (ans : Z) (k : kernel) : option kernel :=
  match k !! pid with
  | None => None
  | Some p =>
      match code p with
      | Exit _ | Return => None
      | Call Fork f =>
          if ans <? 0 then Some (<[pid := set_code (f ans) p]> k)
          else
            let child := Z.to_nat ans in
            if decide (0 < ans /\ k !! child = None)
            then Some (<[child := set_code (f 0) p]> (<[pid := set_code (f ans) p]> k))
            else None
      | Call c f =>
          let '(p', r) := local_call pid c ans p in Some (<[pid := set_code (f r) p']> k)
      end
  end.

Fixpoint run (l : list (nat * Z)) (k : kernel) : option kernel :=
  match l with
  | [] => Some k
  | (pid, ans) :: l' => match sys_step pid ans k with Some k' => run l' k' | None => None end
  end.

(** ** [daemonize] *)

Definition RLIM_INFINITY : Z := 2 ^ 64 - 1.

(** The last lines: [fd0], [fd1] and [fd2] have to be 0, 1 and 2. *)
Definition d_check (fd0 fd1 fd2 : Z) : prog :=
  if negb (fd0 =? 0) || negb (fd1 =? 1) || negb (fd2 =? 2) then Exit 0 else Return.

Definition d_dup2 (fd0 fd1 : Z) : prog := Call (Dup 0) (fun fd2 => d_check fd0 fd1 fd2).
Definition d_dup1 (fd0 : Z) : prog := Call (Dup 0) (fun fd1 => d_dup2 fd0 fd1).
Definition d_open : prog := Call OpenNull (fun fd0 => d_dup1 fd0).

(** [for (i = 0; i < rl.rlim_max; i++) close(i)]: [n] more rounds from [i]. *)
Fixpoint d_close (n i : nat) : prog :=
  match n with
  | O => d_open
  | S n' => Call (Close i) (fun _ => d_close n' (S i))
  end.

Definition limit (rlim_max : Z) : Z := if rlim_max =? RLIM_INFINITY then 1024 else rlim_max.

Definition d_chdir (rlim_max : Z) : prog :=
  Call (Chdir (bs "/")) (fun r => if r <? 0 then Exit 0 else d_close (Z.to_nat (limit rlim_max)) 0).

Definition d_fork2 (rlim_max : Z) : prog :=
  Call Fork (fun pid => if pid <? 0 then Exit 0 else if negb (pid =? 0) then Exit 0 else d_chdir rlim_max).

Definition d_hup (rlim_max : Z) : prog :=
  Call IgnoreHup (fun r => if r <? 0 then Exit 0 else d_fork2 rlim_max).

Definition d_setsid (rlim_max : Z) : prog :=
  Call Setsid (fun sid => if sid <? 0 then Exit 0 else d_hup rlim_max).

Definition d_fork1 (rlim_max : Z) : prog :=
  Call Fork (fun pid => if pid <? 0 then Exit 0 else if negb (pid =? 0) then Exit 0 else d_setsid rlim_max).

Definition d_limit : prog := Call Getrlimit (fun r => if r <? 0 then Exit 0 else d_fork1 r).

Definition daemonize : prog := Call (Umask 0) (fun _ => d_limit).

(** ** [main] of the server *)

(** [cin >> c; return 0] *)
Definition m_wait : prog := Call WaitInput (fun _ => Exit 0).

Definition WorkerProc (fd : Z) (k : prog) : prog := Call (RunServer fd) (fun _ => k).

(** The loop, with [n] processors to go; the child leaves it with [i < num]. *)
Fixpoint m_fork (n : nat) (fd : Z) : prog :=
  match n with
  | O => m_wait
  | S n' => Call Fork (fun pid => if pid =? 0 then WorkerProc fd m_wait else m_fork n' fd)
  end.

Definition m_processors (fd : Z) : prog := Call Processors (fun num => m_fork (Z.to_nat num) fd).

Definition m_listen (port : Z) : prog :=
  Call (ListenTo port) (fun fd =>
    if fd <? 0 then Exit 0 else m_processors fd).

(** [port] and [level] are what [atoi] makes of the arguments. *)
Definition main (argc port level : Z) : prog :=
  if argc <=? 1 then Exit 0
  else
    let port := if 3 <=? argc then port else 80 in
    if 4 <=? argc then Call (SetLogLevel level) (fun _ => m_listen port) else m_listen port.

(** ** Signals *)

Inductive signal : Type := SIGSEGV | SIGABRT | SIGFPE | SIGILL | SIGBUS | SIGTERM.

Definition kExceptionSignals : list signal := [SIGSEGV; SIGABRT; SIGFPE; SIGILL; SIGBUS].
Definition kNumHandledSignals : nat := length kExceptionSignals.

(** ** One step *)

Lemma sys_step_inv pid ans k k' :
  sys_step pid ans k = Some k' ->
  exists p c f, k !! pid = Some p /\ code p = Call c f /\
    ((c <> Fork /\ k' = <[pid := set_code (f (snd (local_call pid c ans p))) (fst (local_call pid c ans p))]> k) \/
     (c = Fork /\ ans < 0 /\ k' = <[pid := set_code (f ans) p]> k) \/
     (c = Fork /\ 0 < ans /\ k !! Z.to_nat ans = None /\
      k' = <[Z.to_nat ans := set_code (f 0) p]> (<[pid := set_code (f ans) p]> k))).
Proof.
  unfold sys_step. intros H. destruct (k !! pid) as [p|] eqn:Hp; [|done].
  destruct (code p) as [| |c f] eqn:Hc; [done..|]. exists p, c, f. split; [done|]. split; [done|].
  destruct (decide (c = Fork)) as [->|Hne].
  - right. destruct (Z.ltb_spec ans 0); [left; by injection H as <-|right].
    destruct (decide _) as [[]|]; [|done]. by injection H as <-.
  - left. split; [done|]. destruct (local_call pid c ans p) as [p' r] eqn:E.
    destruct c; try done; by injection H as <-.
Qed.

(** ** What [daemonize] leaves behind *)

(** The table without the descriptors below [n]. *)
Definition without (n : nat) (m : gmap nat file) : gmap nat file := filter (fun x => (n <= fst x)%nat) m.

Lemma without_lookup n m fd : without n m !! fd = if decide (n <= fd)%nat then m !! fd else None.
Proof.
  unfold without. case_decide as Hd.
  - destruct (m !! fd) as [f|] eqn:E.
    + by apply map_lookup_filter_Some.
    + apply map_lookup_filter_None. by left.
  - apply map_lookup_filter_None. right. intros f _. exact Hd.
Qed.

Lemma without_zero m : without 0 m = m.
Proof. apply map_eq. intros fd. rewrite without_lookup, decide_True by lia. done. Qed.

Lemma without_next n m : delete n (without n m) = without (S n) m.
Proof.
  apply map_eq. intros fd. rewrite without_lookup. destruct (decide (n = fd)) as [->|Hne].
  - rewrite lookup_delete_eq. by rewrite decide_False by lia.
  - rewrite lookup_delete_ne, without_lookup by done. repeat case_decide; done || lia.
Qed.

Lemma close_one n m :
  match without n m !! n with Some _ => delete n (without n m) | None => without n m end = without (S n) m.
Proof.
  destruct (without n m !! n) eqn:E; [apply without_next|].
  rewrite <-without_next. symmetry. by apply delete_id.
Qed.

(** [/dev/null] three times over what is left. *)
Definition nulls (m : gmap nat file) : gmap nat file := <[2%nat := DevNull]> (<[1%nat := DevNull]> (<[0%nat := DevNull]> m)).

Section Daemon.
Variables (p0 : nat) (R : Z) (F : gmap nat file).

Abbreviation closed := (without (Z.to_nat (limit R)) F).

Inductive original (p : process) : Prop :=
| or_start : fds p = F -> nofile p = R -> code p = daemonize -> original p
| or_limit : fds p = F -> nofile p = R -> mask p = 0 -> code p = d_limit -> original p
| or_fork : fds p = F -> nofile p = R -> mask p = 0 -> code p = d_fork1 R -> original p
| or_exit : code p = Exit 0 -> original p.

Inductive first_child (c : nat) (p : process) : Prop :=
| fi_setsid : fds p = F -> mask p = 0 -> code p = d_setsid R -> first_child c p
| fi_hup : fds p = F -> mask p = 0 -> session p = c -> code p = d_hup R -> first_child c p
| fi_fork : fds p = F -> mask p = 0 -> session p = c -> ignores_hup p = true -> code p = d_fork2 R -> first_child c p
| fi_exit : code p = Exit 0 -> first_child c p.

(** What the daemon has got so far. *)
Record detached (c : nat) (p : process) : Prop := {
  de_session : session p = c; de_mask : mask p = 0; de_hup : ignores_hup p = true
}.

Inductive daemon (c : nat) (p : process) : Prop :=
| da_chdir : detached c p -> fds p = F -> code p = d_chdir R -> daemon c p
| da_close n i :
    detached c p -> cwd p = bs "/" -> (n + i)%nat = Z.to_nat (limit R) -> fds p = without i F ->
    code p = d_close n i -> daemon c p
| da_dup1 fd0 :
    detached c p -> cwd p = bs "/" -> (fd0 = 0 -> fds p = <[0%nat := DevNull]> closed) ->
    code p = d_dup1 fd0 -> daemon c p
| da_dup2 fd0 fd1 :
    detached c p -> cwd p = bs "/" ->
    (fd0 = 0 -> fd1 = 1 -> fds p = <[1%nat := DevNull]> (<[0%nat := DevNull]> closed)) ->
    code p = d_dup2 fd0 fd1 -> daemon c p
| da_return : detached c p -> cwd p = bs "/" -> fds p = nulls closed -> code p = Return -> daemon c p
| da_exit : code p = Exit 0 -> daemon c p.

Inductive family : kernel -> Prop :=
| fam_one a : original a -> family {[p0 := a]}
| fam_two a c b : code a = Exit 0 -> c <> p0 -> first_child c b -> family (<[c := b]> {[p0 := a]})
| fam_three a c b d e :
    code a = Exit 0 -> code b = Exit 0 -> c <> p0 -> d <> p0 -> d <> c -> daemon c e ->
    family (<[d := e]> (<[c := b]> {[p0 := a]})).

(** The results of the local calls decide the next stage. *)
Lemma original_step pid ans p cl f :
  original p -> code p = Call cl f -> cl <> Fork ->
  original (set_code (f (snd (local_call pid cl ans p))) (fst (local_call pid cl ans p))).
Proof.
  intros Ho Hc Hne. destruct Ho as [H1 H2 H|H1 H2 H3 H|H1 H2 H3 H|H]; rewrite H in Hc; try discriminate Hc.
  - injection Hc as <- <-. by apply or_limit.
  - injection Hc as <- <-. cbn [local_call fst snd].
    destruct (Z.ltb_spec ans 0) as [Hn|Hn]; [rewrite (proj2 (Z.ltb_lt ans 0)) by done; by apply or_exit|].
    rewrite H2. destruct (R <? 0); [by apply or_exit|by apply or_fork].
  - injection Hc as <- <-. done.
Qed.

Lemma first_child_step c ans p cl f :
  first_child c p -> code p = Call cl f -> cl <> Fork ->
  first_child c (set_code (f (snd (local_call c cl ans p))) (fst (local_call c cl ans p))).
Proof.
  intros Ho Hc Hne. destruct Ho as [H1 H2 H|H1 H2 H3 H|H1 H2 H3 H4 H|H]; rewrite H in Hc; try discriminate Hc.
  - injection Hc as <- <-. cbn [local_call]. case_decide; [by apply fi_exit|].
    destruct (Z.ltb_spec ans 0) as [Hn|Hn]; cbn [fst snd];
      [rewrite (proj2 (Z.ltb_lt ans 0)) by done; by apply fi_exit|].
    rewrite (proj2 (Z.ltb_ge (Z.of_nat c) 0)) by lia. by apply fi_hup.
  - injection Hc as <- <-. cbn [local_call].
    destruct (Z.ltb_spec ans 0) as [Hn|Hn]; cbn [fst snd];
      [rewrite (proj2 (Z.ltb_lt ans 0)) by done; by apply fi_exit|]. by apply fi_fork.
  - injection Hc as <- <-. done.
Qed.

Lemma d_check_0 fd0 fd1 fd2 :
  (d_check fd0 fd1 fd2 = Return /\ fd0 = 0 /\ fd1 = 1 /\ fd2 = 2) \/ d_check fd0 fd1 fd2 = Exit 0.
Proof.
  unfold d_check. destruct (Z.eqb_spec fd0 0), (Z.eqb_spec fd1 1), (Z.eqb_spec fd2 2); cbn; auto.
Qed.

Lemma daemon_step c d ans p cl f :
  daemon c p -> code p = Call cl f ->
  daemon c (set_code (f (snd (local_call d cl ans p))) (fst (local_call d cl ans p))).
Proof.
  intros Ho Hc. destruct Ho as [D H1 H|n i D H1 H2 H3 H|fd0 D H1 H2 H|fd0 fd1 D H1 H2 H|D H1 H2 H|H];
    rewrite H in Hc; try discriminate Hc.
  - injection Hc as <- <-. cbn [local_call].
    destruct (Z.ltb_spec ans 0) as [Hn|Hn]; cbn [fst snd];
      [rewrite (proj2 (Z.ltb_lt ans 0)) by done; by apply da_exit|].
    apply (da_close _ _ (Z.to_nat (limit R)) 0); [by destruct D|done|by rewrite Nat.add_0_r|cbn; by rewrite without_zero|done].
  - destruct n as [|n].
    + injection Hc as <- <-. cbn [local_call]. destruct (Z.ltb_spec ans 0) as [Hn|Hn]; cbn [fst snd].
      * apply (da_dup1 _ _ ans); [by destruct D|done|lia|done].
      * apply (da_dup1 _ _ (Z.of_nat (lowest (fds p)))); [by destruct D|done| |done].
        intros E. cbn. rewrite H3. replace i with (Z.to_nat (limit R)) in * by lia. rewrite H3 in E. f_equal. lia.
    + injection Hc as <- <-. cbn [local_call].
      assert (E : fds (fst (match fds p !! i with Some _ => (set_fds (delete i (fds p)) p, 0) | None => (p, -1) end)) = without (S i) F).
      { rewrite H3, <-close_one. destruct (without i F !! i) eqn:Ei; [done|exact H3]. }
      apply (da_close _ _ n (S i)); [|destruct (fds p !! i); exact H1|lia|exact E|by destruct (fds p !! i)].
      destruct (fds p !! i); by destruct D.
  - injection Hc as <- <-. cbn [local_call]. destruct (fds p !! 0%nat) as [f|] eqn:E0; [destruct (Z.ltb_spec ans 0)|].
    + apply (da_dup2 _ _ fd0 ans); [by destruct D|done|intros; lia|done].
    + apply (da_dup2 _ _ fd0 (Z.of_nat (lowest (fds p)))); [by destruct D|done| |done].
      intros Hz Hl. cbn. specialize (H2 Hz). rewrite H2 in E0. rewrite lookup_insert_eq in E0. injection E0 as <-.
      rewrite H2 in *. f_equal. lia.
    + apply (da_dup2 _ _ fd0 (-1)); [by destruct D|done|intros; lia|done].
  - injection Hc as <- <-. cbn [local_call]. destruct (fds p !! 0%nat) as [f|] eqn:E0; [destruct (Z.ltb_spec ans 0)|].
    + cbn [fst snd]. destruct (d_check_0 fd0 fd1 ans) as [(_&_&_&->)|E]; [lia|by apply da_exit].
    + cbn [fst snd]. destruct (d_check_0 fd0 fd1 (Z.of_nat (lowest (fds p)))) as [(E&Hz&Hl&Hm)|E]; [|by apply da_exit].
      apply da_return; [by destruct D|done| |exact E]. cbn. specialize (H2 Hz Hl). unfold nulls.
      rewrite H2 in E0. rewrite lookup_insert_ne, lookup_insert_eq in E0 by done. injection E0 as <-.
      rewrite H2 in *. f_equal. lia.
    + cbn [fst snd]. destruct (d_check_0 fd0 fd1 (-1)) as [(_&_&_&?)|E]; [lia|by apply da_exit].
Qed.

Lemma daemon_no_fork c p cl f : daemon c p -> code p = Call cl f -> cl <> Fork.
Proof.
  intros Ho Hc. destruct Ho as [D H1 H|n i D H1 H2 H3 H|fd0 D H1 H2 H|fd0 fd1 D H1 H2 H|D H1 H2 H|H];
    rewrite H in Hc; try discriminate Hc; [..|destruct n| |]; injection Hc as <- _; done.
Qed.

(** [fork] by the process at its first or second fork. *)
Lemma fork_first p f ans :
  original p -> code p = Call Fork f -> 0 < ans -> code (set_code (f ans) p) = Exit 0 /\ forall c, first_child c (set_code (f 0) p).
Proof.
  intros Ho Hc Hpos. destruct Ho as [H1 H2 H|H1 H2 H3 H|H1 H2 H3 H|H]; rewrite H in Hc; try discriminate Hc.
  injection Hc as <-. cbn. rewrite (proj2 (Z.ltb_ge _ _)), (proj2 (Z.eqb_neq _ _)) by lia.
  split; [done|]. intros c. by apply fi_setsid.
Qed.

Lemma fork_second c p f ans :
  first_child c p -> code p = Call Fork f -> 0 < ans ->
  code (set_code (f ans) p) = Exit 0 /\ daemon c (set_code (f 0) p).
Proof.
  intros Ho Hc Hpos. destruct Ho as [H1 H2 H|H1 H2 H3 H|H1 H2 H3 H4 H|H]; rewrite H in Hc; try discriminate Hc.
  injection Hc as <-. cbn. rewrite (proj2 (Z.ltb_ge _ _)), (proj2 (Z.eqb_neq _ _)) by lia.
  split; [done|]. apply da_chdir; [by split|done..].
Qed.

Lemma fork_failed_first p f ans : original p -> code p = Call Fork f -> ans < 0 -> original (set_code (f ans) p).
Proof.
  intros Ho Hc Hneg. destruct Ho as [H1 H2 H|H1 H2 H3 H|H1 H2 H3 H|H]; rewrite H in Hc; try discriminate Hc.
  injection Hc as <-. apply or_exit. cbn. by rewrite (proj2 (Z.ltb_lt _ _)).
Qed.

Lemma fork_failed_second c p f ans : first_child c p -> code p = Call Fork f -> ans < 0 -> first_child c (set_code (f ans) p).
Proof.
  intros Ho Hc Hneg. destruct Ho as [H1 H2 H|H1 H2 H3 H|H1 H2 H3 H4 H|H]; rewrite H in Hc; try discriminate Hc.
  injection Hc as <-. apply fi_exit. cbn. by rewrite (proj2 (Z.ltb_lt _ _)).
Qed.

Lemma family_step k pid ans k' : family k -> sys_step pid ans k = Some k' -> family k'.
Proof.
  intros Hfam H. apply sys_step_inv in H as (p&cl&f&Hp&Hc&Hor). destruct Hfam as [a Ha|a c b Ha Hne Hb|a c b d e Ha Hb H1 H2 H3 He].
  - apply lookup_singleton_Some in Hp as [<- ->]. destruct Hor as [[Hcl ->]|[(->&Hneg&->)|(->&Hpos&Hnew&->)]].
    + rewrite insert_singleton_eq. apply fam_one. by apply original_step.
    + rewrite insert_singleton_eq. apply fam_one. by apply fork_failed_first.
    + rewrite insert_singleton_eq. destruct (fork_first _ _ _ Ha Hc Hpos) as [E1 E2].
      apply fam_two; [exact E1| |apply E2]. intros E. rewrite E, lookup_singleton_eq in Hnew. done.
  - apply lookup_insert_Some in Hp as [[<- ->]|[Hd Hp]];
      [|apply lookup_singleton_Some in Hp as [_ ->]; rewrite Ha in Hc; discriminate Hc].
    destruct Hor as [[Hcl ->]|[(->&Hneg&->)|(->&Hpos&Hnew&->)]].
    + rewrite insert_insert_eq. apply fam_two; [done|done|by apply first_child_step].
    + rewrite insert_insert_eq. apply fam_two; [done|done|by apply fork_failed_second].
    + rewrite insert_insert_eq. destruct (fork_second _ _ _ _ Hb Hc Hpos) as [E1 E2].
      apply lookup_insert_None in Hnew as [Hn Hcd]. apply fam_three; try done.
      intros E. rewrite E, lookup_singleton_eq in Hn. done.
  - apply lookup_insert_Some in Hp as [[<- ->]|[Hd Hp]].
    + destruct Hor as [[Hcl ->]|[(->&_)|(->&_)]]; [|by destruct (daemon_no_fork _ _ _ _ He Hc)..].
      rewrite insert_insert_eq. apply fam_three; try done. by apply daemon_step.
    + apply lookup_insert_Some in Hp as [[<- ->]|[_ Hp]]; [rewrite Hb in Hc; discriminate Hc|].
      apply lookup_singleton_Some in Hp as [_ ->]. rewrite Ha in Hc. discriminate Hc.
Qed.

Lemma family_run l k k' : family k -> run l k = Some k' -> family k'.
Proof.
  revert k. induction l as [|[pid ans] l IH]; intros k Hk H; cbn in H; [by injection H as <-|].
  destruct (sys_step pid ans k) as [k1|] eqn:E; [|done]. apply (IH k1); [|done]. by eapply family_step.
Qed.
End Daemon.

(** ** A daemon can come about *)

Lemma run_app l1 l2 k k1 : run l1 k = Some k1 -> run (l1 ++ l2) k = run l2 k1.
Proof.
  revert k. induction l1 as [|[pid ans] l1 IH]; intros k H; cbn in H |- *; [by injection H as ->|].
  destruct (sys_step pid ans k); [by apply IH|done].
Qed.

(** The loop that closes descriptors. *)
Lemma run_close d n i m p k :
  k !! d = Some p -> code p = d_close n i -> fds p = without i m ->
  run (replicate n (d, 0)) k = Some (<[d := set_code d_open (set_fds (without (n + i) m) p)]> k).
Proof.
  revert i p k. induction n as [|n IH]; intros i p k Hp Hc Hf.
  - cbn. rewrite insert_id; [done|]. rewrite Hp. f_equal. destruct p. cbn in *. by subst.
  - cbn [replicate run]. unfold sys_step at 1. rewrite Hp, Hc. cbn [d_close local_call].
    pose proof (close_one i m) as E. rewrite <-Hf in E.
    set (q := set_code (d_close n (S i)) (set_fds (without (S i) m) p)).
    assert (Hq : (let '(p', _) := match fds p !! i with Some _ => (set_fds (delete i (fds p)) p, 0) | None => (p, -1) end in
        Some (<[d := set_code (d_close n (S i)) p']> k)) = Some (<[d := q]> k)).
    { unfold q. destruct (fds p !! i); [by rewrite E|]. repeat f_equal. rewrite <-E. by destruct p. }
    rewrite Hq. rewrite (IH (S i) q); [|apply lookup_insert_eq|done|done].
    rewrite insert_insert_eq. replace (S n + i)%nat with (n + S i)%nat by lia. done.
Qed.

Lemma lowest_0 m : m !! 0%nat = None -> lowest m = 0%nat.
Proof. intros H. unfold lowest. destruct (size m); [done|]. cbn. by rewrite H. Qed.

Lemma lowest_1 m f : m !! 0%nat = Some f -> m !! 1%nat = None -> lowest m = 1%nat.
Proof.
  intros H0 H1. unfold lowest. destruct (size m) as [|n] eqn:E; [apply map_size_empty_inv in E; subst; by rewrite lookup_empty in H0|].
  cbn. rewrite H0. destruct n; [done|]. cbn. by rewrite H1.
Qed.

Lemma lowest_2 m f g : m !! 0%nat = Some f -> m !! 1%nat = Some g -> m !! 2%nat = None -> lowest m = 2%nat.
Proof.
  intros H0 H1 H2. unfold lowest.
  assert (E : size m = S (S (size (delete 1%nat (delete 0%nat m))))).
  { rewrite <-(insert_delete_id m 0%nat f H0) at 1. rewrite map_size_insert_None by apply lookup_delete_eq.
    f_equal. rewrite <-(insert_delete_id (delete 0%nat m) 1%nat g) at 1 by (by rewrite lookup_delete_ne).
    rewrite map_size_insert_None by apply lookup_delete_eq. done. }
  rewrite E. cbn. rewrite H0, H1. destruct (size (delete 1%nat (delete 0%nat m))); [done|]. cbn. by rewrite H2.
Qed.

Lemma sys_step_local pid ans k p c f :
  k !! pid = Some p -> code p = Call c f -> c <> Fork ->
  sys_step pid ans k = Some (<[pid := set_code (f (snd (local_call pid c ans p))) (fst (local_call pid c ans p))]> k).
Proof.
  intros Hp Hc Hne. unfold sys_step. rewrite Hp, Hc. destruct (local_call pid c ans p) as [p' r] eqn:E.
  by destruct c.
Qed.

Lemma sys_step_fork pid child k p f :
  k !! pid = Some p -> code p = Call Fork f -> (0 < child)%nat -> k !! child = None ->
  sys_step pid (Z.of_nat child) k =
    Some (<[child := set_code (f 0) p]> (<[pid := set_code (f (Z.of_nat child)) p]> k)).
Proof.
  intros Hp Hc Hpos Hn. unfold sys_step. rewrite Hp, Hc, (proj2 (Z.ltb_ge _ _)) by lia.
  rewrite Nat2Z.id, decide_True by (split; [lia|done]). done.
Qed.

Lemma step_local_here pid ans k p c f :
  code p = Call c f -> c <> Fork ->
  sys_step pid ans (<[pid := p]> k) =
    Some (<[pid := set_code (f (snd (local_call pid c ans p))) (fst (local_call pid c ans p))]> k).
Proof. intros Hc Hne. by rewrite (sys_step_local pid ans _ p c f (lookup_insert_eq _ _ _) Hc Hne), insert_insert_eq. Qed.

Lemma step_fork_here pid child k p f :
  code p = Call Fork f -> (0 < child)%nat -> child <> pid -> k !! child = None ->
  sys_step pid (Z.of_nat child) (<[pid := p]> k) =
    Some (<[child := set_code (f 0) p]> (<[pid := set_code (f (Z.of_nat child)) p]> k)).
Proof.
  intros Hc Hpos Hne Hn.
  rewrite (sys_step_fork pid child _ p f (lookup_insert_eq _ _ _) Hc Hpos); [by rewrite insert_insert_eq|].
  by rewrite lookup_insert_ne.
Qed.

(** Take the next call, and give the new process of [pid] the name [x]. *)
Ltac next_call pid x lem :=
  rewrite lem by (done || reflexivity); cbn [local_call fst snd Z.ltb Z.compare];
  match goal with |- context [<[pid := ?y]> _] => set (x := y) end.

(** When every call succeeds: the last process, from its first call on. *)
Lemma daemon_phase d e m R k :
  code e = d_chdir R -> fds e = m -> 3 <= limit R ->
  exists p, run ((d, 0) :: replicate (Z.to_nat (limit R)) (d, 0) ++ [(d, 0); (d, 0); (d, 0)]) (<[d := e]> k) =
    Some (<[d := p]> k) /\ code p = Return.
Proof.
  intros He Hf Hlim. cbn [run].
  rewrite (step_local_here d 0 k e (Chdir (bs "/")) _ He) by done. cbn [local_call fst snd Z.ltb Z.compare].
  match goal with |- context [<[d := ?x]> k] => set (e1 := x) end.
  rewrite (run_app _ _ _ _ (run_close d (Z.to_nat (limit R)) 0 m e1 _ (lookup_insert_eq _ _ _) eq_refl
    (eq_trans Hf (eq_sym (without_zero m))))).
  rewrite insert_insert_eq, Nat.add_0_r. set (m' := without (Z.to_nat (limit R)) m).
  assert (Hm : forall fd, (fd < 3)%nat -> m' !! fd = None).
  { intros fd Hfd. unfold m'. rewrite without_lookup, decide_False by lia. done. }
  match goal with |- context [<[d := ?x]> k] => set (e2 := x) end. cbn [run].
  rewrite (step_local_here d 0 k e2 OpenNull _ eq_refl) by done. cbn [local_call Z.ltb Z.compare fst snd].
  change (fds e2) with m'. rewrite (lowest_0 m') by (apply Hm; lia).
  match goal with |- context [<[d := ?x]> k] => set (e3 := x) end.
  rewrite (step_local_here d 0 k e3 (Dup 0) _ eq_refl) by done.
  cbn [local_call]. change (fds e3) with (<[0%nat:=DevNull]> m'). rewrite lookup_insert_eq. cbn [Z.ltb Z.compare fst snd].
  rewrite (lowest_1 _ DevNull) by (rewrite ?lookup_insert_eq, ?lookup_insert_ne by done; done || apply Hm; lia).
  match goal with |- context [<[d := ?x]> k] => set (e4 := x) end.
  rewrite (step_local_here d 0 k e4 (Dup 0) _ eq_refl) by done.
  cbn [local_call]. change (fds e4) with (<[1%nat:=DevNull]> (<[0%nat:=DevNull]> m')).
  rewrite lookup_insert_ne, lookup_insert_eq by done. cbn [Z.ltb Z.compare fst snd].
  rewrite (lowest_2 _ DevNull DevNull) by (rewrite ?lookup_insert_eq; try done; rewrite ?lookup_insert_ne by done;
    rewrite ?lookup_insert_eq; done || apply Hm; lia).
  by eexists.
Qed.

(** The second process, which leaves the session. *)
Lemma session_phase c d b R k :
  code b = d_setsid R -> group b <> c -> (0 < d)%nat -> d <> c -> k !! d = None ->
  exists b' e, run [(c, 0); (c, 0); (c, Z.of_nat d)] (<[c := b]> k) = Some (<[d := e]> (<[c := b']> k)) /\
    code e = d_chdir R.
Proof.
  intros Hb Hg Hd Hne Hn. cbn [run].
  rewrite (step_local_here c 0 k b Setsid _ Hb) by done. cbn [local_call]. rewrite decide_False by exact Hg.
  cbn [Z.ltb Z.compare fst snd]. rewrite (proj2 (Z.ltb_ge (Z.of_nat c) 0)) by lia.
  match goal with |- context [<[c := ?x]> k] => set (b1 := x) end.
  rewrite (step_local_here c 0 k b1 IgnoreHup _ eq_refl) by done. cbn [local_call fst snd Z.ltb Z.compare].
  match goal with |- context [<[c := ?x]> k] => set (b2 := x) end.
  rewrite (step_fork_here c d k b2 _ eq_refl Hd Hne Hn). cbn [Z.ltb Z.compare Z.eqb negb].
  eexists _, _. by split.
Qed.

(** The process that called [daemonize]. *)
Lemma caller_phase p0 a c k :
  code a = daemonize -> 0 <= nofile a -> (0 < c)%nat -> c <> p0 -> k !! c = None ->
  exists a' b, run [(p0, 0); (p0, 0); (p0, Z.of_nat c)] (<[p0 := a]> k) = Some (<[c := b]> (<[p0 := a']> k)) /\
    code b = d_setsid (nofile a) /\ group b = group a.
Proof.
  intros Ha H0 Hc Hne Hn. cbn [run]. rewrite (step_local_here p0 0 k a (Umask 0) _ Ha) by done.
  cbn [local_call fst snd]. match goal with |- context [<[p0 := ?x]> k] => set (a1 := x) end.
  rewrite (step_local_here p0 0 k a1 Getrlimit _ eq_refl) by done. cbn [local_call fst snd Z.ltb Z.compare].
  change (nofile a1) with (nofile a). rewrite (proj2 (Z.ltb_ge (nofile a) 0)) by done.
  match goal with |- context [<[p0 := ?x]> k] => set (a2 := x) end.
  rewrite (step_fork_here p0 c k a2 _ eq_refl Hc Hne Hn). cbn [Z.ltb Z.compare Z.eqb negb].
  eexists _, _. by split.
Qed.

Definition good_run (p0 c d n : nat) : list (nat * Z) :=
  [(p0, 0); (p0, 0); (p0, Z.of_nat c)] ++ [(c, 0); (c, 0); (c, Z.of_nat d)] ++
  (d, 0) :: replicate n (d, 0) ++ [(d, 0); (d, 0); (d, 0)].

Lemma daemonize_returns p0 a c d :
  code a = daemonize -> 3 <= limit (nofile a) -> 0 <= nofile a ->
  (0 < c)%nat -> (0 < d)%nat -> c <> p0 -> d <> p0 -> d <> c -> group a <> c ->
  exists k p, run (good_run p0 c d (Z.to_nat (limit (nofile a)))) {[p0 := a]} = Some k /\ k !! d = Some p /\ code p = Return.
Proof.
  intros Ha Hlim H0 Hc Hd Hcp Hdp Hdc Hg. unfold good_run. change ({[p0 := a]} : kernel) with (<[p0 := a]> (∅ : kernel)).
  destruct (caller_phase p0 a c ∅) as (a'&b&E1&Hb&Hgb); [done|done|done|done|apply lookup_empty|].
  rewrite (run_app _ _ _ _ E1).
  destruct (session_phase c d b (nofile a) (<[p0 := a']> ∅)) as (b'&e&E2&He); [done|by rewrite Hgb|done|done|by rewrite lookup_insert_ne|].
  rewrite (run_app _ _ _ _ E2).
  destruct (daemon_phase d e (fds e) (nofile a) (<[c := b']> (<[p0 := a']> ∅))) as (p&E3&Hp); [done..|].
  eexists _, p. split; [exact E3|]. by rewrite lookup_insert_eq.
Qed.

(** C38. [daemonize], whatever the system answers to its calls and however the processes are
    interleaved: the process that called it does not come back; when another one does, it
    is alone - every other process has ended - its session is that of a process that has
    ended and not its own, so that it is no session leader, it ignores [SIGHUP], its mask
    is 0 and its directory the root, its descriptors 0, 1 and 2 are [/dev/null] and of the
    others exactly those at or above the limit are left.  And when the calls succeed, one
    does come back. *)
Theorem daemonize_detaches (p0 : nat) (a : process) :
  code a = daemonize ->
  (forall l k pid p, run l {[p0 := a]} = Some k -> k !! pid = Some p -> code p = Return ->
     pid <> p0 /\ session p <> pid /\ session p <> p0 /\ mask p = 0 /\ cwd p = bs "/" /\ ignores_hup p = true /\
     (forall fd, fds p !! fd = if decide (fd < 3)%nat then Some DevNull
        else if decide (limit (nofile a) <= Z.of_nat fd) then fds a !! fd else None) /\
     (exists b, k !! session p = Some b) /\
     forall pid' p', k !! pid' = Some p' -> pid' <> pid -> code p' = Exit 0) /\
  (forall c d, 3 <= limit (nofile a) -> 0 <= nofile a ->
     (0 < c)%nat -> (0 < d)%nat -> c <> p0 -> d <> p0 -> d <> c -> group a <> c ->
     exists l k p, run l {[p0 := a]} = Some k /\ k !! d = Some p /\ code p = Return).
Proof.
  intros Ha. split; [|intros c d H1 H2 H3 H4 H5 H6 H7 H8; eexists; exact (daemonize_returns p0 a c d Ha H1 H2 H3 H4 H5 H6 H7 H8)].
  intros l k pid p Hrun Hp Hret.
  assert (Hfam : family p0 (nofile a) (fds a) k).
  { eapply family_run; [|exact Hrun]. apply fam_one. by apply or_start. }
  destruct Hfam as [a1 Ho|a1 c b Ha1 Hne Hb|a1 c b d e Ha1 Hb H1 H2 H3 He].
  - exfalso. apply lookup_singleton_Some in Hp as [_ <-].
    destruct Ho as [_ _ H|_ _ _ H|_ _ _ H|H]; rewrite Hret in H; discriminate H.
  - exfalso. apply lookup_insert_Some in Hp as [[_ <-]|[_ Hp]].
    + destruct Hb as [_ _ H|_ _ _ H|_ _ _ _ H|H]; rewrite Hret in H; discriminate H.
    + apply lookup_singleton_Some in Hp as [_ <-]. congruence.
  - apply lookup_insert_Some in Hp as [[-> ->]|[_ Hp]].
    2: { exfalso. apply lookup_insert_Some in Hp as [[_ <-]|[_ Hp]]; [congruence|].
      apply lookup_singleton_Some in Hp as [_ <-]. congruence. }
    destruct He as [D E1 E|n i D E1 E2 E3 E|fd0 D E1 E2 E|fd0 fd1 D E1 E2 E|D E1 E2 E|E];
      try (exfalso; rewrite Hret in E; try destruct n; discriminate E).
    destruct D as [D1 D2 D3]. rewrite D1. split_and!; try done.
    + intros fd. rewrite E2. unfold nulls. destruct fd as [|[|[|fd]]]; [by simplify_map_eq..|].
      rewrite !lookup_insert_ne by lia. rewrite without_lookup, (decide_False (P:=(_ < 3)%nat)) by lia.
      repeat case_decide; done || lia.
    + exists b. by rewrite lookup_insert_ne, lookup_insert_eq.
    + intros pid' p' Hp' Hne. rewrite lookup_insert_ne in Hp' by done.
      apply lookup_insert_Some in Hp' as [[_ <-]|[_ Hp']]; [done|]. by apply lookup_singleton_Some in Hp' as [_ <-].
Qed.

(** A process with five descriptors and a limit of four. *)
Definition shell_child : process :=
  Process 7 9 (bs "/home") 18 false
    {[0%nat := File 1; 1%nat := File 1; 2%nat := File 1; 3%nat := File 2; 6%nat := File 3]} 4 2 0 daemonize.

Lemma daemonize_detaches_witness :
  (forall l k pid p, run l {[9%nat := shell_child]} = Some k -> k !! pid = Some p -> code p = Return ->
     pid <> 9%nat /\ session p <> pid /\ session p <> 9%nat /\ mask p = 0 /\ cwd p = bs "/" /\ ignores_hup p = true /\
     (forall fd, fds p !! fd = if decide (fd < 3)%nat then Some DevNull
        else if decide (limit (nofile shell_child) <= Z.of_nat fd) then fds shell_child !! fd else None) /\
     (exists b, k !! session p = Some b) /\
     forall pid' p', k !! pid' = Some p' -> pid' <> pid -> code p' = Exit 0) /\
  (forall c d, 3 <= limit (nofile shell_child) -> 0 <= nofile shell_child ->
     (0 < c)%nat -> (0 < d)%nat -> c <> 9%nat -> d <> 9%nat -> d <> c -> group shell_child <> c ->
     exists l k p, run l {[9%nat := shell_child]} = Some k /\ k !! d = Some p /\ code p = Return).
Proof. apply (daemonize_detaches 9 shell_child). reflexivity. Defined.

(** The daemon keeps descriptor 6, which is above the limit. *)
Example daemon_run :
  match run (good_run 9 10 11 4) {[9%nat := shell_child]} with
  | Some k =>
      match k !! 11%nat with
      | Some p => bool_decide (fds p = {[0%nat := DevNull; 1%nat := DevNull; 2%nat := DevNull; 6%nat := File 3]})
      | None => false
      end
  | None => false
  end = true.
Proof. by vm_compute. Qed.

(** With an infinite limit the loop stops at 1024: a descriptor above it stays open. *)
Lemma infinite_limit : limit RLIM_INFINITY = 1024.
Proof. reflexivity. Qed.

(** A failed call ends the process with the status of success. *)
Example failed_fork :
  option_map (fun k => option_map code (k !! 9%nat)) (run [(9%nat, 0); (9%nat, 0); (9%nat, -1)] {[9%nat := shell_child]}) =
  Some (Some (Exit 0)).
Proof. by vm_compute. Qed.

(** ** The servers *)

Section Main.
Variables (p0 : nat) (N lv : Z).

(** Before the first [fork]. *)
Inductive listener (p : process) : Prop :=
| li_start argc port level :
    (if (2 <=? argc) && (4 <=? argc) then lv = level else lv = log_level p) -> code p = main argc port level -> listener p
| li_listen port : log_level p = lv -> code p = m_listen port -> listener p
| li_processors fd : log_level p = lv -> 0 <= fd -> code p = m_processors fd -> listener p
| li_exit : code p = Exit 0 -> listener p.

Definition worker (fd : Z) (p : process) : Prop :=
  log_level p = lv /\ (code p = WorkerProc fd m_wait \/ code p = m_wait \/ code p = Exit 0).

Definition workers (fd : Z) (k : kernel) : Prop := forall pid p, pid <> p0 -> k !! pid = Some p -> worker fd p.

Inductive serving : kernel -> Prop :=
| sv_listener p : cpus p = N -> listener p -> serving {[p0 := p]}
| sv_forking k p n fd :
    k !! p0 = Some p -> code p = m_fork n fd -> log_level p = lv -> 0 <= fd -> (size k + n <= Z.to_nat N + 1)%nat ->
    workers fd k -> serving k
| sv_over k p fd :
    k !! p0 = Some p -> code p = Exit 0 -> 0 <= fd -> (size k <= Z.to_nat N + 1)%nat -> workers fd k -> serving k.

Lemma workers_insert fd k pid p : workers fd k -> (pid <> p0 -> worker fd p) -> workers fd (<[pid := p]> k).
Proof. intros Hw Hp q x Hq Hx. apply lookup_insert_Some in Hx as [[<- <-]|[_ Hx]]; [by apply Hp|by apply (Hw q)]. Qed.

Lemma workers_alone fd p : workers fd {[p0 := p]}.
Proof. intros q x Hq Hx. by apply lookup_singleton_Some in Hx as [<- _]. Qed.

Lemma size_update (k : kernel) pid p q : k !! pid = Some p -> size (<[pid := q]> k) = size k.
Proof. intros H. apply map_size_insert_Some. by exists p. Qed.

(** A worker does not fork. *)
Lemma worker_step fd pid ans k p c f :
  workers fd k -> pid <> p0 -> k !! pid = Some p -> code p = Call c f ->
  c <> Fork /\ worker fd (set_code (f (snd (local_call pid c ans p))) (fst (local_call pid c ans p))).
Proof.
  intros Hw Hne Hp Hc. destruct (Hw pid p Hne Hp) as [Hl [H|[H|H]]]; rewrite H in Hc; try discriminate Hc;
    injection Hc as <- <-; (split; [done|]); split; cbn; auto.
Qed.

Lemma listener_step ans p c f :
  listener p -> code p = Call c f -> c <> Fork ->
  let p' := set_code (f (snd (local_call p0 c ans p))) (fst (local_call p0 c ans p)) in
  listener p' \/ exists fd, 0 <= fd /\ log_level p' = lv /\ code p' = m_fork (Z.to_nat (cpus p)) fd.
Proof.
  intros Hli Hc Hne. destruct Hli as [argc port level Hlv H|port Hlv H|fd Hlv Hfd H|H]; rewrite H in Hc.
  - unfold main in Hc. destruct (Z.leb_spec argc 1); [discriminate Hc|].
    rewrite (proj2 (Z.leb_le 2 argc)) in Hlv by lia. destruct (4 <=? argc); cbn [andb] in Hlv.
    + injection Hc as <- <-. left. by eapply li_listen.
    + injection Hc as <- <-. cbn [local_call fst snd]. left. destruct (Z.ltb_spec ans 0); [by apply li_exit|by eapply li_processors].
  - injection Hc as <- <-. cbn [local_call fst snd]. left.
    destruct (Z.ltb_spec ans 0); [by apply li_exit|by eapply li_processors].
  - injection Hc as <- <-. right. by exists fd.
  - discriminate Hc.
Qed.

Lemma listener_no_fork p f : listener p -> code p <> Call Fork f.
Proof.
  intros Hli Hc. destruct Hli as [argc port level Hlv H|port Hlv H|fd Hlv Hfd H|H]; rewrite H in Hc; try discriminate Hc.
  unfold main in Hc. repeat case_match; discriminate Hc.
Qed.

Lemma serving_step k pid ans k' : serving k -> sys_step pid ans k = Some k' -> serving k'.
Proof.
  intros Hs H. apply sys_step_inv in H as (p&c&f&Hp&Hc&Hor). destruct Hs as [q HN Hq|k q n fd Hq Hm Hl Hfd Hsz Hw|k q fd Hq Hm Hfd Hsz Hw].
  - apply lookup_singleton_Some in Hp as [<- ->].
    destruct Hor as [[Hcl ->]|[(->&_)|(->&_)]]; [|by destruct (listener_no_fork _ _ Hq Hc)..].
    rewrite insert_singleton_eq. destruct (listener_step ans p c f Hq Hc Hcl) as [Hli|(fd&Hfd&Hlv&E)].
    + apply sv_listener; [|exact Hli]. rewrite <-HN. destruct c; cbn [local_call]; repeat case_match; done.
    + eapply sv_forking; [apply lookup_singleton_eq|exact E|done|done| |apply workers_alone].
      rewrite map_size_singleton, HN. lia.
  - destruct (decide (pid = p0)) as [->|Hne].
    + rewrite Hq in Hp. injection Hp as <-. rewrite Hm in Hc. destruct n as [|n].
      * injection Hc as <- <-. destruct Hor as [[Hcl ->]|[(?&_)|(?&_)]]; [|done..].
        eapply sv_over; [apply lookup_insert_eq|done|done| |by apply workers_insert].
        rewrite (size_update _ _ _ _ Hq). lia.
      * injection Hc as <- <-. destruct Hor as [[Hcl ->]|[(_&Hneg&->)|(_&Hpos&Hnew&->)]]; [done| |].
        -- rewrite (proj2 (Z.eqb_neq _ _)) by lia. apply (sv_forking _ (set_code (m_fork n fd) q) n fd); try done.
           ++ apply lookup_insert_eq.
           ++ rewrite (size_update _ _ _ _ Hq). lia.
           ++ by apply workers_insert.
        -- rewrite (proj2 (Z.eqb_neq ans 0)) by lia. cbn [Z.eqb].
           assert (Hcp : Z.to_nat ans <> p0) by (intros E; by rewrite E, Hq in Hnew).
           apply (sv_forking _ (set_code (m_fork n fd) q) n fd); try done.
           ++ by rewrite lookup_insert_ne, lookup_insert_eq.
           ++ rewrite map_size_insert_None by (by rewrite lookup_insert_ne). rewrite (size_update _ _ _ _ Hq). lia.
           ++ apply workers_insert; [by apply workers_insert|]. intros _. split; [done|by left].
    + destruct (worker_step _ _ ans _ _ _ _ Hw Hne Hp Hc) as [Hcl Hwk].
      destruct Hor as [[_ ->]|[(->&_)|(->&_)]]; [|done..].
      eapply sv_forking; [by rewrite lookup_insert_ne|exact Hm|done|done| |by apply workers_insert].
      by rewrite (size_update _ _ _ _ Hp).
  - destruct (decide (pid = p0)) as [->|Hne]; [rewrite Hq in Hp; injection Hp as <-; rewrite Hm in Hc; discriminate Hc|].
    destruct (worker_step _ _ ans _ _ _ _ Hw Hne Hp Hc) as [Hcl Hwk].
    destruct Hor as [[_ ->]|[(->&_)|(->&_)]]; [|done..].
    eapply sv_over; [by rewrite lookup_insert_ne|exact Hm|done| |by apply workers_insert].
    by rewrite (size_update _ _ _ _ Hp).
Qed.

Lemma serving_run l k k' : serving k -> run l k = Some k' -> serving k'.
Proof.
  revert k. induction l as [|[pid ans] l IH]; intros k Hk H; cbn in H; [by injection H as <-|].
  destruct (sys_step pid ans k) as [k1|] eqn:E; [|done]. apply (IH k1); [|done]. by eapply serving_step.
Qed.
End Main.

(** The program of the server, whatever the system answers: it starts at most one worker
    per processor, all of them on the same descriptor and with the log level of the command
    line; the process that listens serves no connection, and a worker that comes back waits
    and ends, and never starts a process. *)
Lemma main_workers (p0 : nat) (a : process) (argc port level : Z) l k :
  code a = main argc port level -> run l {[p0 := a]} = Some k ->
  (size k <= Z.to_nat (cpus a) + 1)%nat /\
  (forall p fd x, k !! p0 = Some p -> code p <> WorkerProc fd x) /\
  exists fd, 0 <= fd /\
    forall pid p, pid <> p0 -> k !! pid = Some p ->
      log_level p = (if 4 <=? argc then level else log_level a) /\
      (code p = WorkerProc fd m_wait \/ code p = m_wait \/ code p = Exit 0).
Proof.
  intros Ha Hrun. set (lv := if 4 <=? argc then level else log_level a).
  assert (Hs : serving p0 (cpus a) lv k).
  { eapply serving_run; [|exact Hrun]. apply sv_listener; [done|]. apply (li_start _ a argc port level); [|done].
    unfold lv. destruct (Z.leb_spec 4 argc); [by rewrite (proj2 (Z.leb_le 2 argc)) by lia|by rewrite andb_false_r]. }
  destruct Hs as [p HN Hli|k p n fd Hp Hm Hl Hfd Hsz Hw|k p fd Hp Hm Hfd Hsz Hw].
  - split; [rewrite map_size_singleton; lia|]. split.
    + intros q fd x Hq Hc. apply lookup_singleton_Some in Hq as [_ <-].
      destruct Hli as [argc' port' level' _ H|port' _ H|fd' _ _ H|H]; rewrite H in Hc; try discriminate Hc.
      unfold main in Hc. repeat case_match; discriminate Hc.
    + exists 0. split; [done|]. intros pid q Hne Hq. by apply lookup_singleton_Some in Hq as [<- _].
  - split; [lia|]. split; [|by exists fd].
    intros q fd' x Hq Hc. rewrite Hp in Hq. injection Hq as <-. rewrite Hm in Hc. by destruct n.
  - split; [lia|]. split; [|by exists fd].
    intros q fd' x Hq Hc. rewrite Hp in Hq. injection Hq as <-. rewrite Hm in Hc. discriminate Hc.
Qed.

(** Two processors: two workers on descriptor 3. *)
Example main_run :
  match run [(5%nat, 3); (5%nat, 0); (5%nat, 6); (5%nat, 7)] {[5%nat := set_code (main 2 8080 0) shell_child]} with
  | Some k => map (fun pid => match k !! pid with
      | Some p => match code p with Call (RunServer fd) _ => Some fd | _ => None end
      | None => None end) [5; 6; 7; 8]%nat
  | None => []
  end = [None; Some 3; Some 3; None].
Proof. by vm_compute. Qed.
