(* ===== verification/LockFreeStack.v ===== *)
(** * LockFreeStack.v: [LockFreeStack<Type>] of [misc/LockFreeContainer.h]

The stack is an array and an index [top_].  [mask_] counts the threads inside
[Pop] in its low 16 bits and the threads inside [Push] in the bits from 16 on,
and admits either kind only while the other count is zero.  Every load, store
and compare-and-swap of the source is one step.  The main theorem says that for
any number of threads the code is linearizable with respect to a bounded LIFO
stack, and that neither [assert] can fail. *)

From S2P Require Import Prelude Machine Conc.

Section LockFreeStack.
Context {V : Type}.
(** [(Type)0xcdcd], written over a popped slot. *)
Variable corrupt : V.
(** [maxSz_]. *)
Variable maxSz : Z.

Record shared : Type := Shared { arr_ : list V; top_ : Z; mask_ : Z }.

Definition set_arr (a : list V) (g : shared) : shared := Shared a (top_ g) (mask_ g).
Definition set_top (x : Z) (g : shared) : shared := Shared (arr_ g) x (mask_ g).
Definition set_mask (x : Z) (g : shared) : shared := Shared (arr_ g) (top_ g) x.

(** The constructor's constants; [arr_] is [new Type[sz]], whose contents [junk]
    are whatever the allocation holds. *)
Definition readMask_ : Z := 65535.
Definition writeMask_ : Z := Z.shiftl readMask_ 16.
Definition maxConcurrentRead_ : Z := 255.
Definition maxConcurrntWrite_ : Z := 255.
Definition LockFreeStack_init (junk : list V) : shared := Shared junk 0 0.

Inductive op : Type := OPush (v : V) | OPop.

(** [RPop None] is a [Pop] that returns [false]; its [*val] is then assigned the
    uninitialised local [ret]. *)
Inductive res : Type := RPush (ret : bool) | RPop (ret : option V).

(** The points of [Push] and [Pop] between two accesses to the shared state. *)
Inductive loc : Type :=
| PushLock (v : V)
| PushLockCas (v : V) (old_mask : Z)
| PushTop (v : V)
| PushTopCas (v : V) (old_top : Z)
| PushWrite (v : V) (old_top : Z)
| PushAssert (ret : bool)
| PushUnlock (ret : bool)
| PushUnlockCas (ret : bool) (old_mask : Z)
| PopLock
| PopLockCas (old_mask : Z)
| PopTop
| PopTopCas (old_top : Z)
| PopRead (old_top : Z)
| PopClear (old_top : Z) (ret : V)
| PopAssert (ret : option V)
| PopUnlock (ret : option V)
| PopUnlockCas (ret : option V) (old_mask : Z).

Definition start (o : op) : loc :=
  match o with OPush v => PushLock v | OPop => PopLock end.

Definition push_append : Z := Z.shiftl 1 16.
Definition pop_append : Z := 1.

Definition Push_step (g : shared) (l : loc) : outcome shared loc res :=
  match l with
  | PushLock v =>
      let old_mask := Z.land (mask_ g) (not64 readMask_) in
      if Z.shiftr old_mask 16 >=? maxConcurrntWrite_ then Next g (PushLock v)
      else Next g (PushLockCas v old_mask)
  | PushLockCas v old_mask =>
      let '(ok, m) := atomic_cas (mask_ g) old_mask (u64 (old_mask + push_append)) in
      Next (set_mask m g) (if ok then PushTop v else PushLock v)
  | PushTop v =>
      let old_top := top_ g in
      if old_top =? maxSz then Next g (PushAssert false) else Next g (PushTopCas v old_top)
  | PushTopCas v old_top =>
      let '(ok, x) := atomic_cas (top_ g) old_top (u64 (old_top + 1)) in
      Next (set_top x g) (if ok then PushWrite v old_top else PushTop v)
  | PushWrite v old_top =>
      Next (set_arr (<[Z.to_nat old_top:=v]> (arr_ g)) g) (PushAssert true)
  | PushAssert ret =>
      if Z.land (mask_ g) (not64 writeMask_) =? 0 then Next g (PushUnlock ret) else Fault
  | PushUnlock ret => Next g (PushUnlockCas ret (mask_ g))
  | PushUnlockCas ret old_mask =>
      let '(ok, m) := atomic_cas (mask_ g) old_mask (u64 (old_mask - push_append)) in
      if ok then Ret (set_mask m g) (RPush ret) else Next (set_mask m g) (PushUnlock ret)
  | _ => Fault
  end.

Definition Pop_step (g : shared) (l : loc) : outcome shared loc res :=
  match l with
  | PopLock =>
      let old_mask := Z.land (mask_ g) (not64 writeMask_) in
      if old_mask >=? maxConcurrentRead_ then Next g PopLock else Next g (PopLockCas old_mask)
  | PopLockCas old_mask =>
      let '(ok, m) := atomic_cas (mask_ g) old_mask (u64 (old_mask + pop_append)) in
      Next (set_mask m g) (if ok then PopTop else PopLock)
  | PopTop =>
      let old_top := top_ g in
      if old_top =? 0 then Next g (PopAssert None) else Next g (PopTopCas old_top)
  | PopTopCas old_top =>
      let '(ok, x) := atomic_cas (top_ g) old_top (u64 (old_top - 1)) in
      Next (set_top x g) (if ok then PopRead old_top else PopTop)
  | PopRead old_top =>
      match arr_ g !! Z.to_nat (old_top - 1) with
      | Some v => Next g (PopClear old_top v)
      | None => Fault
      end
  | PopClear old_top v =>
      Next (set_arr (<[Z.to_nat (old_top - 1):=corrupt]> (arr_ g)) g) (PopAssert (Some v))
  | PopAssert ret =>
      if Z.land (mask_ g) (not64 readMask_) =? 0 then Next g (PopUnlock ret) else Fault
  | PopUnlock ret => Next g (PopUnlockCas ret (mask_ g))
  | PopUnlockCas ret old_mask =>
      let '(ok, m) := atomic_cas (mask_ g) old_mask (u64 (old_mask - pop_append)) in
      if ok then Ret (set_mask m g) (RPop ret) else Next (set_mask m g) (PopUnlock ret)
  | _ => Fault
  end.

Definition code (g : shared) (l : loc) : outcome shared loc res :=
  match l with
  | PushLock _ | PushLockCas _ _ | PushTop _ | PushTopCas _ _ | PushWrite _ _
  | PushAssert _ | PushUnlock _ | PushUnlockCas _ _ => Push_step g l
  | _ => Pop_step g l
  end.

Definition Size (g : shared) : Z := top_ g.

(** [bool IsEmpty() const { return atomic_read(&top_); }] *)
Definition IsEmpty (g : shared) : bool := negb (top_ g =? 0).

(** ** The abstract object: a stack of at most [maxSz] values, top at the end. *)
Definition stack_spec (s : list V) (o : op) : list V * res :=
  match o with
  | OPush v =>
      if Z.of_nat (length s) =? maxSz then (s, RPush false) else (s ++ [v], RPush true)
  | OPop =>
      match last s with
      | None => (s, RPop None)
      | Some v => (take (length s - 1) s, RPop (Some v))
      end
  end.

(** ** The simulation relation *)

Definition in_push (x : tstate loc) : Z :=
  match x with
  | Run (PushTop _) | Run (PushTopCas _ _) | Run (PushWrite _ _) | Run (PushAssert _)
  | Run (PushUnlock _) | Run (PushUnlockCas _ _) => 1
  | _ => 0
  end.

Definition in_pop (x : tstate loc) : Z :=
  match x with
  | Run PopTop | Run (PopTopCas _) | Run (PopRead _) | Run (PopClear _ _) | Run (PopAssert _)
  | Run (PopUnlock _) | Run (PopUnlockCas _ _) => 1
  | _ => 0
  end.

(** The slot a thread has reserved with its compare-and-swap on [top_] and has
    not finished with. *)
Definition slot (x : tstate loc) : option Z :=
  match x with
  | Run (PushWrite _ i) => Some i
  | Run (PopRead i) | Run (PopClear i _) => Some (i - 1)
  | _ => None
  end.

Definition pending_write (x : tstate loc) (i : Z) : Prop :=
  match x with Run (PushWrite _ j) => i = j | _ => False end.

(** What each point of the code knows, and how far the abstract operation is. *)
Definition trel (arr : list V) (top : Z) (s : list V) (x : tstate loc)
    (u : athread (Op:=op) (R:=res)) : Prop :=
  match x with
  | Idle => u = AIdle
  | Run (PushLock v) | Run (PushTop v) => u = APend (OPush v)
  | Run (PushLockCas v om) =>
      u = APend (OPush v) /\ exists w, om = 65536 * w /\ 0 <= w < maxConcurrntWrite_
  | Run (PushTopCas v ot) => u = APend (OPush v) /\ 0 <= ot /\ ot <> maxSz
  | Run (PushWrite v ot) =>
      u = ADone (RPush true) /\ 0 <= ot < top /\ s !! Z.to_nat ot = Some v
  | Run (PushAssert r) | Run (PushUnlock r) | Run (PushUnlockCas r _) => u = ADone (RPush r)
  | Run PopLock | Run PopTop => u = APend OPop
  | Run (PopLockCas om) => u = APend OPop /\ 0 <= om < maxConcurrentRead_
  | Run (PopTopCas ot) => u = APend OPop /\ 0 < ot
  | Run (PopRead ot) =>
      exists v, u = ADone (RPop (Some v)) /\ top < ot <= maxSz /\
        arr !! Z.to_nat (ot - 1) = Some v
  | Run (PopClear ot v) => u = ADone (RPop (Some v)) /\ top < ot <= maxSz
  | Run (PopAssert r) | Run (PopUnlock r) | Run (PopUnlockCas r _) => u = ADone (RPop r)
  end.

Record Rel (g : shared) (ts : list (tstate loc)) (k : unit) (s : list V)
    (us : list (athread (Op:=op) (R:=res))) : Prop := {
  rel_len : length us = length ts;
  rel_thr : forall t x u, ts !! t = Some x -> us !! t = Some u -> trel (arr_ g) (top_ g) s x u;
  rel_arr : Z.of_nat (length (arr_ g)) = maxSz;
  rel_top : top_ g = Z.of_nat (length s) /\ top_ g <= maxSz;
  rel_mask : mask_ g = sum_with in_pop ts + 65536 * sum_with in_push ts /\
    sum_with in_pop ts <= 255 /\ sum_with in_push ts <= 255 /\
    (sum_with in_pop ts = 0 \/ sum_with in_push ts = 0);
  rel_slot : forall t1 t2 x1 x2 i, t1 <> t2 -> ts !! t1 = Some x1 -> ts !! t2 = Some x2 ->
    slot x1 = Some i -> slot x2 <> Some i;
  rel_val : forall i, 0 <= i < top_ g ->
    arr_ g !! Z.to_nat i = s !! Z.to_nat i \/
    exists t x, ts !! t = Some x /\ pending_write x i
}.

(** ** Masks *)

Lemma in_push_nonneg x : 0 <= in_push x.
Proof. destruct x as [|[]]; simpl; lia. Qed.

Lemma in_pop_nonneg x : 0 <= in_pop x.
Proof. destruct x as [|[]]; simpl; lia. Qed.

Lemma mask_push r w :
  0 <= r <= 255 -> 0 <= w <= 255 ->
  Z.land (r + 65536 * w) (not64 readMask_) = 65536 * w.
Proof.
  intros. unfold readMask_. rewrite land_high16 by lia. f_equal.
  symmetry. apply Z.div_unique with r; lia.
Qed.

Lemma mask_pop r w :
  0 <= r <= 255 -> 0 <= w <= 255 -> Z.land (r + 65536 * w) (not64 writeMask_) = r.
Proof.
  intros. unfold writeMask_, readMask_. rewrite land_low16 by lia.
  symmetry. apply Z.mod_unique with w; lia.
Qed.

(** ** Steps that leave the array and the index alone *)

Section Moves.
Variables (ts : list (tstate loc)) (us : list (athread (Op:=op) (R:=res))).
Variables (t : nat) (x y : tstate loc) (u : athread (Op:=op) (R:=res)).
Hypothesis Ht : ts !! t = Some x.

(** The moving thread changes its point and its share of the mask. *)
Lemma Rel_move g k s m :
  Rel g ts k s us ->
  (slot y = None \/ slot y = slot x) ->
  (forall i, pending_write x i -> pending_write y i) ->
  trel (arr_ g) (top_ g) s y u ->
  (let r := sum_with in_pop ts - in_pop x + in_pop y in
   let w := sum_with in_push ts - in_push x + in_push y in
   m = r + 65536 * w /\ r <= 255 /\ w <= 255 /\ (r = 0 \/ w = 0)) ->
  Rel (set_mask m g) (<[t:=y]> ts) k s (<[t:=u]> us).
Proof.
  intros HR Hs Hp Hu Hm. destruct HR as [L T A P M S W]. constructor; simpl.
  - by rewrite !length_insert.
  - intros t' x' u' H1 H2. apply list_insert_inv in H1 as [[-> ->]|[N H1]].
    + apply list_insert_inv in H2 as [[_ ->]|[N H2]]; [done|lia].
    + rewrite list_lookup_insert_ne in H2 by lia. eauto.
  - done.
  - done.
  - rewrite !(sum_with_insert _ _ _ _ y Ht). exact Hm.
  - intros t1 t2 x1 x2 i N H1 H2 E1 E2.
    assert (forall t' x', <[t:=y]> ts !! t' = Some x' -> slot x' = Some i ->
      exists x0, ts !! t' = Some x0 /\ slot x0 = Some i) as Hold.
    { intros t' x' H E. apply list_insert_inv in H as [[-> ->]|[? H]]; [|eauto].
      exists x. split; [done|]. destruct Hs as [Hs|Hs]; congruence. }
    destruct (Hold _ _ H1 E1) as (y1&?&?), (Hold _ _ H2 E2) as (y2&?&?).
    by eapply (S t1 t2 y1 y2).
  - intros i Hi. destruct (W i Hi) as [E|(t'&x'&E&Pw)]; [by left|]. right.
    destruct (decide (t' = t)) as [->|N].
    + exists t, y. rewrite list_lookup_insert_eq by (by eapply lookup_lt_Some).
      split; [done|]. apply Hp. congruence.
    + exists t', x'. by rewrite list_lookup_insert_ne by lia.
Qed.

(** The same without a change of the mask or of the critical sections. *)
Lemma Rel_local g k s :
  Rel g ts k s us ->
  (slot y = None \/ slot y = slot x) ->
  (forall i, pending_write x i -> pending_write y i) ->
  trel (arr_ g) (top_ g) s y u ->
  in_pop y = in_pop x -> in_push y = in_push x ->
  Rel g (<[t:=y]> ts) k s (<[t:=u]> us).
Proof.
  intros HR Hs Hp Hu Hr Hw. pose proof (rel_mask _ _ _ _ _ HR) as HM.
  destruct g as [a tp m]. apply (Rel_move (Shared a tp m) k s m HR Hs Hp Hu).
  rewrite Hr, Hw. simpl in *. lia.
Qed.
End Moves.


(** Steps that change the array, the index and the abstract stack. *)
Lemma Rel_update arr' top' s' g k s ts us t x y u :
  ts !! t = Some x ->
  Rel g ts k s us ->
  (forall t' x' u', t' <> t -> ts !! t' = Some x' -> us !! t' = Some u' ->
    trel (arr_ g) (top_ g) s x' u' -> trel arr' top' s' x' u') ->
  trel arr' top' s' y u ->
  in_pop y = in_pop x -> in_push y = in_push x ->
  length arr' = length (arr_ g) ->
  top' = Z.of_nat (length s') -> top' <= maxSz ->
  (forall t' x' i, t' <> t -> ts !! t' = Some x' -> slot y = Some i -> slot x' <> Some i) ->
  (forall i, 0 <= i < top' ->
    arr' !! Z.to_nat i = s' !! Z.to_nat i \/ pending_write y i \/
    exists t' x', t' <> t /\ ts !! t' = Some x' /\ pending_write x' i) ->
  Rel (Shared arr' top' (mask_ g)) (<[t:=y]> ts) k s' (<[t:=u]> us).
Proof.
  intros Ht HR Ho Hu Hr Hw Hl Htop Hmax Hs Hv. destruct HR as [L T A P M S W]. constructor; simpl.
  - by rewrite !length_insert.
  - intros t' x' u' H1 H2. apply list_insert_inv in H1 as [[-> ->]|[N H1]].
    + apply list_insert_inv in H2 as [[_ ->]|[N H2]]; [done|lia].
    + rewrite list_lookup_insert_ne in H2 by lia. eauto.
  - lia.
  - done.
  - rewrite !(sum_with_insert _ _ _ _ y Ht). lia.
  - intros t1 t2 x1 x2 i N H1 H2 E1 E2.
    apply list_insert_inv in H1 as [[-> ->]|[N1 H1]];
      apply list_insert_inv in H2 as [[-> ->]|[N2 H2]].
    + done.
    + by apply (Hs t2 x2 i N2 H2 E1).
    + by apply (Hs t1 x1 i N1 H1 E2).
    + by eapply (S t1 t2).
  - intros i Hi. destruct (Hv i Hi) as [E|[E|(t'&x'&N&E&Pw)]]; [by left|right..].
    + exists t, y. rewrite list_lookup_insert_eq by (by eapply lookup_lt_Some). done.
    + exists t', x'. by rewrite list_lookup_insert_ne by lia.
Qed.

(** While a thread is between taking and releasing one kind of lock, no thread
    holds the other kind. *)
Lemma Rel_push_excludes_pop g ts k s us t x t' x' :
  Rel g ts k s us -> ts !! t = Some x -> in_push x = 1 -> ts !! t' = Some x' -> in_pop x' = 0.
Proof.
  intros HR Ht Hx Ht'. destruct (rel_mask _ _ _ _ _ HR) as (_&_&_&[H|H]).
  - by apply (sum_with_zero in_pop ts t' x' in_pop_nonneg).
  - rewrite (sum_with_zero in_push ts t x in_push_nonneg H Ht) in Hx. lia.
Qed.

Lemma Rel_pop_excludes_push g ts k s us t x t' x' :
  Rel g ts k s us -> ts !! t = Some x -> in_pop x = 1 -> ts !! t' = Some x' -> in_push x' = 0.
Proof.
  intros HR Ht Hx Ht'. destruct (rel_mask _ _ _ _ _ HR) as (_&_&_&[H|H]).
  - rewrite (sum_with_zero in_pop ts t x in_pop_nonneg H Ht) in Hx. lia.
  - by apply (sum_with_zero in_push ts t' x' in_push_nonneg).
Qed.

Lemma Rel_pop_no_pending g ts k s us t x i :
  Rel g ts k s us -> ts !! t = Some x -> in_pop x = 1 -> 0 <= i < top_ g ->
  arr_ g !! Z.to_nat i = s !! Z.to_nat i.
Proof.
  intros HR Ht Hx Hi. destruct (rel_val _ _ _ _ _ HR i Hi) as [E|(t'&x'&E&Pw)]; [done|].
  pose proof (Rel_pop_excludes_push _ _ _ _ _ _ _ _ _ HR Ht Hx E) as H.
  destruct x' as [|[]]; simpl in *; done.
Qed.

(** ** The four steps that touch the array or the index *)

Lemma Rel_push_commit g ts k s us t v :
  Rel g ts k s us -> ts !! t = Some (Run (PushTopCas v (top_ g))) ->
  0 <= top_ g -> top_ g <> maxSz ->
  Rel (set_top (top_ g + 1) g) (<[t:=Run (PushWrite v (top_ g))]> ts) k (s ++ [v])
    (<[t:=ADone (RPush true)]> us).
Proof.
  intros HR Ht Hb0 Hb. destruct (rel_top _ _ _ _ _ HR) as [Htop Hmax].
  apply (Rel_update (arr_ g) (top_ g + 1) (s ++ [v]) g k s ts us t _ _ _ Ht HR); try done.
  - intros t' x' u' N H1 H2 H.
    pose proof (Rel_push_excludes_pop _ _ _ _ _ _ _ _ _ HR Ht eq_refl H1) as Hx.
    destruct x' as [|[]]; simpl in *; try done. destruct H as (?&?&?).
    split_and!; [done|lia|lia|]. by apply lookup_app_l_Some.
  - simpl. split_and!; [done|lia|lia|]. rewrite lookup_app_r by lia.
    by replace (Z.to_nat (top_ g) - length s)%nat with 0%nat by lia.
  - rewrite length_app. simpl. lia.
  - lia.
  - intros t' x' i N H1 E1 E2. simpl in E1. simplify_eq.
    pose proof (Rel_push_excludes_pop _ _ _ _ _ _ _ _ _ HR Ht eq_refl H1) as Hx.
    destruct (lookup_lt_is_Some_2 us t') as [u' Hu'].
    { rewrite (rel_len _ _ _ _ _ HR). by eapply lookup_lt_Some. }
    pose proof (rel_thr _ _ _ _ _ HR _ _ _ H1 Hu') as H.
    destruct x' as [|[]]; simpl in *; simplify_eq; try done. lia.
  - intros i Hi. destruct (decide (i = top_ g)) as [->|Ni]; [by right; left|].
    destruct (rel_val _ _ _ _ _ HR i) as [E|(t'&x'&E&Pw)]; [lia|left|right; right].
    + rewrite E, lookup_app_l; [done|lia].
    + exists t', x'. split; [|done]. intros ->. by simplify_eq.
Qed.

Lemma Rel_push_write g ts k s us t v ot :
  Rel g ts k s us -> ts !! t = Some (Run (PushWrite v ot)) -> us !! t = Some (ADone (RPush true)) ->
  Rel (set_arr (<[Z.to_nat ot:=v]> (arr_ g)) g) (<[t:=Run (PushAssert true)]> ts) k s us.
Proof.
  intros HR Ht Hu. destruct (rel_top _ _ _ _ _ HR) as [Htop Hmax].
  destruct (rel_thr _ _ _ _ _ HR _ _ _ Ht Hu) as (_&Hot&Hsv).
  pose proof (rel_arr _ _ _ _ _ HR) as Hl.
  rewrite <-(list_insert_id us t _ Hu).
  apply (Rel_update _ (top_ g) s g k s ts us t _ _ _ Ht HR); try done.
  - intros t' x' u' N H1 H2 H.
    pose proof (Rel_push_excludes_pop _ _ _ _ _ _ _ _ _ HR Ht eq_refl H1) as Hx.
    destruct x' as [|[]]; simpl in *; done.
  - by rewrite length_insert.
  - intros i Hi. destruct (decide (i = ot)) as [->|Ni].
    + left. rewrite list_lookup_insert_eq by lia. done.
    + rewrite list_lookup_insert_ne by lia.
      destruct (rel_val _ _ _ _ _ HR i Hi) as [E|(t'&x'&E&Pw)]; [by left|right; right].
      exists t', x'. split; [|done]. intros ->. simplify_eq/=.
Qed.

Lemma Rel_pop_commit g ts k s us t v :
  Rel g ts k s us -> ts !! t = Some (Run (PopTopCas (top_ g))) -> last s = Some v ->
  Rel (set_top (top_ g - 1) g) (<[t:=Run (PopRead (top_ g))]> ts) k (take (length s - 1) s)
    (<[t:=ADone (RPop (Some v))]> us).
Proof.
  intros HR Ht Hv. destruct (rel_top _ _ _ _ _ HR) as [Htop Hmax].
  rewrite last_lookup in Hv. pose proof (lookup_lt_Some _ _ _ Hv) as Hlen.
  apply (Rel_update (arr_ g) (top_ g - 1) _ g k s ts us t _ _ _ Ht HR); try done.
  - intros t' x' u' N H1 H2 H.
    pose proof (Rel_pop_excludes_push _ _ _ _ _ _ _ _ _ HR Ht eq_refl H1) as Hx.
    destruct x' as [|[]]; simpl in *; try done; naive_solver lia.
  - simpl. exists v. split_and!; [done|lia|lia|].
    rewrite (Rel_pop_no_pending _ _ _ _ _ _ _ (top_ g - 1) HR Ht eq_refl) by lia.
    rewrite <-Hv. f_equal. lia.
  - rewrite length_take. lia.
  - lia.
  - intros t' x' i N H1 E1 E2. simpl in E1. simplify_eq.
    pose proof (Rel_pop_excludes_push _ _ _ _ _ _ _ _ _ HR Ht eq_refl H1) as Hx.
    destruct (lookup_lt_is_Some_2 us t') as [u' Hu'].
    { rewrite (rel_len _ _ _ _ _ HR). by eapply lookup_lt_Some. }
    pose proof (rel_thr _ _ _ _ _ HR _ _ _ H1 Hu') as H.
    destruct x' as [|[]]; simpl in *; simplify_eq; try done; naive_solver lia.
  - intros i Hi. left. rewrite lookup_take_lt by lia.
    apply (Rel_pop_no_pending _ _ _ _ _ _ _ i HR Ht eq_refl). lia.
Qed.

Lemma Rel_pop_clear g ts k s us t v ot :
  Rel g ts k s us -> ts !! t = Some (Run (PopClear ot v)) -> us !! t = Some (ADone (RPop (Some v))) ->
  Rel (set_arr (<[Z.to_nat (ot - 1):=corrupt]> (arr_ g)) g)
    (<[t:=Run (PopAssert (Some v))]> ts) k s us.
Proof.
  intros HR Ht Hu. destruct (rel_top _ _ _ _ _ HR) as [Htop Hmax].
  destruct (rel_thr _ _ _ _ _ HR _ _ _ Ht Hu) as (_&Hot).
  rewrite <-(list_insert_id us t _ Hu).
  apply (Rel_update _ (top_ g) s g k s ts us t _ _ _ Ht HR); try done.
  - intros t' x' u' N H1 H2 H. destruct x' as [|[]]; simpl in *; try done.
    destruct H as (w&?&?&?). exists w. split_and!; [done|lia|lia|].
    rewrite list_lookup_insert_ne; [done|]. intros E.
    apply (rel_slot _ _ _ _ _ HR t t' _ _ (ot - 1) (not_eq_sym N) Ht H1); [done|].
    simpl. f_equal. lia.
  - by rewrite length_insert.
  - intros i Hi. rewrite list_lookup_insert_ne by lia. left.
    by apply (Rel_pop_no_pending _ _ _ _ _ _ _ i HR Ht eq_refl).
Qed.

(** ** Linearizability *)

Definition goal_of (ts : list (tstate loc)) (s : list V) us (t : nat) (o : outcome shared loc res) : Prop :=
  match o with
  | Next g' l' =>
      Rel g' (<[t:=Run l']> ts) tt s us \/
      (exists op, us !! t = Some (APend op) /\
         Rel g' (<[t:=Run l']> ts) tt (fst (stack_spec s op))
           (<[t:=ADone (snd (stack_spec s op))]> us))
  | Ret g' r => us !! t = Some (ADone r) /\ Rel g' (<[t:=Idle]> ts) tt s (<[t:=AIdle]> us)
  | Fault => False
  end.

(** The moving thread only changes its own point. *)
Lemma local_step g ts s us t x y u :
  ts !! t = Some x -> us !! t = Some u -> Rel g ts tt s us ->
  (slot y = None \/ slot y = slot x) ->
  (forall i, pending_write x i -> pending_write y i) ->
  trel (arr_ g) (top_ g) s y u ->
  in_pop y = in_pop x -> in_push y = in_push x ->
  Rel g (<[t:=y]> ts) tt s us.
Proof.
  intros Ht Hu HR Hs Hp Hy H1 H2. rewrite <-(list_insert_id us t _ Hu).
  by apply (Rel_local ts us t x y u Ht).
Qed.

Lemma counts_bounds g ts s us :
  Rel g ts tt s us -> 0 <= sum_with in_pop ts <= 255 /\ 0 <= sum_with in_push ts <= 255.
Proof.
  intros HR. destruct (rel_mask _ _ _ _ _ HR) as (_&?&?&_).
  pose proof (sum_with_nonneg in_pop ts in_pop_nonneg).
  pose proof (sum_with_nonneg in_push ts in_push_nonneg). lia.
Qed.

Lemma stack_push_sim g ts s us t u l :
  0 <= maxSz < 2 ^ 64 -> Rel g ts tt s us -> us !! t = Some u ->
  ts !! t = Some (Run l) -> trel (arr_ g) (top_ g) s (Run l) u ->
  match l with
  | PushLock _ | PushLockCas _ _ | PushTop _ | PushTopCas _ _ | PushWrite _ _
  | PushAssert _ | PushUnlock _ | PushUnlockCas _ _ => goal_of ts s us t (Push_step g l)
  | _ => True
  end.
Proof.
  intros Hrange HR Hu Ht Hx. destruct (counts_bounds _ _ _ _ HR) as [Br Bw].
  destruct (rel_mask _ _ _ _ _ HR) as (Hm&_&_&Hex). destruct (rel_top _ _ _ _ _ HR) as [Htop Hmax].
  destruct l; simpl in Hx; try done; simpl; rewrite ?Hm.
  - rewrite mask_push by lia. rewrite Z.shiftr_div_pow2, Z.mul_comm, Z_div_mult by lia.
    destruct (Z.geb_spec (sum_with in_push ts) maxConcurrntWrite_); left;
      apply (local_step _ _ _ _ _ _ _ _ Ht Hu HR); auto; try done.
    simpl. split; [done|]. exists (sum_with in_push ts). split; lia.
  - destruct Hx as (->&w&->&Hw). unfold push_append, maxConcurrntWrite_ in *.
    destruct (atomic_cas _ _ _) as [[] m] eqn:Hc; left.
    + apply atomic_cas_true in Hc as [Hc ->].
      assert (sum_with in_pop ts = 0 /\ sum_with in_push ts = w) as [E1 E2] by lia.
      rewrite <-(list_insert_id us t _ Hu).
      apply (Rel_move ts us t _ _ _ Ht g tt s _ HR); auto; try done.
      cbn [in_pop in_push]. change (Z.shiftl 1 16) with 65536. rewrite u64_id by lia. lia.
    + apply atomic_cas_false in Hc as [_ ->]. rewrite <-Hm.
      replace (set_mask (mask_ g) g) with g by (by destruct g).
      apply (local_step _ _ _ _ _ _ _ _ Ht Hu HR); auto; try done.
  - subst u. destruct (Z.eqb_spec (top_ g) maxSz) as [E|E].
    + right. exists (OPush v). split; [done|]. simpl.
      rewrite <-Htop, E, Z.eqb_refl. simpl.
      by apply (Rel_local ts us t _ _ _ Ht); auto.
    + left. apply (local_step _ _ _ _ _ _ _ _ Ht Hu HR); auto; try done. simpl. split_and!; [done|lia|done].
  - destruct Hx as (->&H0&Hne). destruct (atomic_cas _ _ _) as [[] m] eqn:Hc.
    + apply atomic_cas_true in Hc as [<- ->]. right. exists (OPush v). split; [done|]. simpl.
      rewrite <-Htop, (proj2 (Z.eqb_neq _ _) Hne), u64_id by lia. simpl.
      apply (Rel_push_commit _ _ _ _ _ _ v HR Ht); lia.
    + apply atomic_cas_false in Hc as [_ ->]. left.
      replace (set_top (top_ g) g) with g by (by destruct g).
      apply (local_step _ _ _ _ _ _ _ _ Ht Hu HR); auto; try done.
  - left. destruct Hx as [-> _]. by apply Rel_push_write.
  - pose proof (sum_with_lookup_le in_push ts t _ in_push_nonneg Ht) as H1. simpl in H1.
    rewrite mask_pop by lia. rewrite (proj2 (Z.eqb_eq (sum_with in_pop ts) 0)) by lia.
    left. apply (local_step _ _ _ _ _ _ _ _ Ht Hu HR); auto; try done.
  - left. apply (local_step _ _ _ _ _ _ _ _ Ht Hu HR); auto; try done.
  - pose proof (sum_with_lookup_le in_push ts t _ in_push_nonneg Ht) as H1. simpl in H1.
    subst u. destruct (atomic_cas _ _ _) as [[] m] eqn:Hc; simpl.
    + apply atomic_cas_true in Hc as [<- ->]. split; [done|].
      apply (Rel_move ts us t _ _ _ Ht g tt s _ HR); auto; try done.
      cbn [in_pop in_push]. unfold push_append. change (Z.shiftl 1 16) with 65536.
      rewrite u64_id by lia. lia.
    + apply atomic_cas_false in Hc as [_ ->]. rewrite <-Hm.
      replace (set_mask (mask_ g) g) with g by (by destruct g). left.
      apply (local_step _ _ _ _ _ _ _ _ Ht Hu HR); auto; try done.
Qed.

Lemma stack_pop_sim g ts s us t u l :
  0 <= maxSz < 2 ^ 64 -> Rel g ts tt s us -> us !! t = Some u ->
  ts !! t = Some (Run l) -> trel (arr_ g) (top_ g) s (Run l) u ->
  match l with
  | PopLock | PopLockCas _ | PopTop | PopTopCas _ | PopRead _ | PopClear _ _
  | PopAssert _ | PopUnlock _ | PopUnlockCas _ _ => goal_of ts s us t (Pop_step g l)
  | _ => True
  end.
Proof.
  intros Hrange HR Hu Ht Hx. destruct (counts_bounds _ _ _ _ HR) as [Br Bw].
  destruct (rel_mask _ _ _ _ _ HR) as (Hm&_&_&Hex). destruct (rel_top _ _ _ _ _ HR) as [Htop Hmax].
  destruct l; simpl in Hx; try done; simpl; rewrite ?Hm.
  - rewrite mask_pop by lia.
    destruct (Z.geb_spec (sum_with in_pop ts) maxConcurrentRead_); left;
      apply (local_step _ _ _ _ _ _ _ _ Ht Hu HR); auto; try done. simpl. split; [done|lia].
  - destruct Hx as (->&Hw). unfold pop_append, maxConcurrentRead_ in *.
    destruct (atomic_cas _ _ _) as [[] m] eqn:Hc; left.
    + apply atomic_cas_true in Hc as [Hc ->].
      assert (sum_with in_push ts = 0 /\ sum_with in_pop ts = old_mask) as [E1 E2] by lia.
      rewrite <-(list_insert_id us t _ Hu).
      apply (Rel_move ts us t _ _ _ Ht g tt s _ HR); auto; try done.
      cbn [in_pop in_push]. rewrite u64_id by lia. lia.
    + apply atomic_cas_false in Hc as [_ ->]. rewrite <-Hm.
      replace (set_mask (mask_ g) g) with g by (by destruct g).
      apply (local_step _ _ _ _ _ _ _ _ Ht Hu HR); auto; try done.
  - subst u. destruct (Z.eqb_spec (top_ g) 0) as [E|E].
    + right. exists OPop. split; [done|]. destruct s; [|simpl in *; lia]. simpl.
      by apply (Rel_local ts us t _ _ _ Ht); auto.
    + left. apply (local_step _ _ _ _ _ _ _ _ Ht Hu HR); auto; try done. simpl. split; [done|lia].
  - destruct Hx as (->&H0). destruct (atomic_cas _ _ _) as [[] m] eqn:Hc.
    + apply atomic_cas_true in Hc as [<- ->]. right. exists OPop. split; [done|]. simpl.
      rewrite u64_id by lia.
      destruct (last s) as [v|] eqn:Hl.
      * by apply (Rel_pop_commit _ _ _ _ _ _ v HR Ht).
      * apply last_None in Hl. subst. simpl in *. lia.
    + apply atomic_cas_false in Hc as [_ ->]. left.
      replace (set_top (top_ g) g) with g by (by destruct g).
      apply (local_step _ _ _ _ _ _ _ _ Ht Hu HR); auto; try done.
  - destruct Hx as (v&->&Hb&Hv). rewrite Hv. left. apply (local_step _ _ _ _ _ _ _ _ Ht Hu HR); auto; try done.
  - left. destruct Hx as [-> _]. by apply Rel_pop_clear with ret || apply Rel_pop_clear.
  - pose proof (sum_with_lookup_le in_pop ts t _ in_pop_nonneg Ht) as H1. simpl in H1.
    rewrite mask_push by lia. rewrite (proj2 (Z.eqb_eq _ 0)) by lia.
    left. apply (local_step _ _ _ _ _ _ _ _ Ht Hu HR); auto; try done.
  - left. apply (local_step _ _ _ _ _ _ _ _ Ht Hu HR); auto; try done.
  - pose proof (sum_with_lookup_le in_pop ts t _ in_pop_nonneg Ht) as H1. simpl in H1.
    subst u. destruct (atomic_cas _ _ _) as [[] m] eqn:Hc; simpl.
    + apply atomic_cas_true in Hc as [<- ->]. split; [done|].
      apply (Rel_move ts us t _ _ _ Ht g tt s _ HR); auto; try done.
      cbn [in_pop in_push]. unfold pop_append. rewrite u64_id by lia. lia.
    + apply atomic_cas_false in Hc as [_ ->]. rewrite <-Hm.
      replace (set_mask (mask_ g) g) with g by (by destruct g). left.
      apply (local_step _ _ _ _ _ _ _ _ Ht Hu HR); auto; try done.
Qed.

Lemma stack_Rel_init junk n :
  0 <= maxSz -> Z.of_nat (length junk) = maxSz ->
  Rel (LockFreeStack_init junk) (replicate n Idle) tt [] (replicate n AIdle).
Proof.
  intros H0 Hj. constructor; simpl; try lia.
  - by rewrite !length_replicate.
  - intros t x u H1 H2. apply lookup_replicate in H1 as [-> _]. by apply lookup_replicate in H2 as [-> _].
  - rewrite !sum_with_replicate. simpl. lia.
  - intros t1 t2 x1 x2 i _ H1 _ E. apply lookup_replicate in H1 as [-> _]. done.
Qed.

(** C1. For any number of threads pushing and popping concurrently, every
    history of [Push] and [Pop] is a history of a stack that holds at most
    [maxSz_] values and executes each operation at once: a push fails exactly
    when the stack is full, a pop returns the value on top and fails exactly
    when it is empty, no value is lost, duplicated or invented; and neither
    [assert] of the code can fail. *)
Theorem LockFreeStack_linearizable (junk : list V) (n : nat) :
  0 <= maxSz < 2 ^ 64 -> Z.of_nat (length junk) = maxSz ->
  linearizable start code any_inv any_ret stack_spec
    (init_cfg (LockFreeStack_init junk) n tt) (init_acfg [] n tt).
Proof.
  intros Hm Hj. apply forward_simulation with Rel; [..|apply stack_Rel_init; lia].
  - intros g ts k s us t HR Ht. destruct (lookup_lt_is_Some_2 us t) as [u Hu].
    { rewrite (rel_len _ _ _ _ _ HR). by eapply lookup_lt_Some. }
    pose proof (rel_thr _ _ _ _ _ HR _ _ _ Ht Hu) as ->. done.
  - intros g ts k s us t o k' HR Ht Hu Hk. destruct k, k'.
    by apply (Rel_local ts us t _ _ _ Ht); destruct o; auto.
  - intros g ts [] s us t l HR Ht. destruct (lookup_lt_is_Some_2 us t) as [u Hu].
    { rewrite (rel_len _ _ _ _ _ HR). by eapply lookup_lt_Some. }
    pose proof (rel_thr _ _ _ _ _ HR _ _ _ Ht Hu) as Hx.
    pose proof (stack_push_sim g ts s us t u l Hm HR Hu Ht Hx) as Hpush.
    pose proof (stack_pop_sim g ts s us t u l Hm HR Hu Ht Hx) as Hpop.
    destruct l; simpl code; destruct (_ : outcome _ _ _); auto.
Qed.

End LockFreeStack.

Lemma LockFreeStack_linearizable_witness :
  linearizable start (code 52685 2) any_inv any_ret (stack_spec 2)
    (init_cfg (LockFreeStack_init [0; 0]) 3 tt) (init_acfg [] 3 tt).
Proof. apply (LockFreeStack_linearizable 52685 2 [0; 0] 3); [lia|reflexivity]. Defined.
