(* ===== verification/LockFreeQueue.v ===== *)
(** * LockFreeQueue.v: [LockFreeQueue<Type>] of [misc/LockFreeContainer.h]

The ring buffer of [maxSz_] slots with the three indices [read_], [write_] and
[maxRead_].  Every load, store and compare-and-swap of [Push] and [Pop] is one
step.  With one producer and one consumer the code is linearizable with respect
to a FIFO queue of capacity [maxSz_ - 1]; with two producers it is not: a
producer that is delayed between its test and its compare-and-swap overwrites a
full queue (the indices carry no generation), and both elements are lost. *)

From S2P Require Import Prelude Machine Conc.

Section LockFreeQueue.
Context {V : Type}.
(** [maxSz_]. *)
Variable maxSz : Z.

Record shared : Type := Shared { arr_ : list V; read_ : Z; write_ : Z; maxRead_ : Z }.

Definition set_arr (a : list V) (g : shared) : shared := Shared a (read_ g) (write_ g) (maxRead_ g).
Definition set_read (x : Z) (g : shared) : shared := Shared (arr_ g) x (write_ g) (maxRead_ g).
Definition set_write (x : Z) (g : shared) : shared := Shared (arr_ g) (read_ g) x (maxRead_ g).
Definition set_maxRead (x : Z) (g : shared) : shared := Shared (arr_ g) (read_ g) (write_ g) x.

(** [junk] is what [new Type[sz]] holds. *)
Definition LockFreeQueue_init (junk : list V) : shared := Shared junk 0 0 0.

Inductive op : Type := OPush (val : V) | OPop.
Inductive res : Type := RPush (ret : bool) | RPop (ret : option V).

Inductive loc : Type :=
| PushReadWrite (val : V)
| PushReadRead (val : V) (old_write : Z)
| PushCas (val : V) (old_write : Z)
| PushStore (val : V) (old_write : Z)
| PushPublish (old_write : Z)
| PopReadRead
| PopReadMax (old_read : Z)
| PopLoad (old_read : Z)
| PopCas (old_read : Z) (ret : V).

Definition start (o : op) : loc :=
  match o with OPush v => PushReadWrite v | OPop => PopReadRead end.

(** [(i + 1)%maxSz_] on [size_t]. *)
Definition next (i : Z) : Z := u64 (i + 1) mod maxSz.

Definition Push_step (g : shared) (l : loc) : outcome shared loc res :=
  match l with
  | PushReadWrite v => Next g (PushReadRead v (write_ g))
  | PushReadRead v old_write =>
      if next old_write =? read_ g then Ret g (RPush false) else Next g (PushCas v old_write)
  | PushCas v old_write =>
      let '(ok, x) := atomic_cas (write_ g) old_write (next old_write) in
      Next (set_write x g) (if ok then PushStore v old_write else PushReadWrite v)
  | PushStore v old_write =>
      Next (set_arr (<[Z.to_nat old_write:=v]> (arr_ g)) g) (PushPublish old_write)
  | PushPublish old_write =>
      let '(ok, x) := atomic_cas (maxRead_ g) old_write (next old_write) in
      if ok then Ret (set_maxRead x g) (RPush true)
      else Next (set_maxRead x g) (PushPublish old_write)
  | _ => Fault
  end.

Definition Pop_step (g : shared) (l : loc) : outcome shared loc res :=
  match l with
  | PopReadRead => Next g (PopReadMax (read_ g))
  | PopReadMax old_read =>
      if old_read =? maxRead_ g then Ret g (RPop None) else Next g (PopLoad old_read)
  | PopLoad old_read =>
      match arr_ g !! Z.to_nat old_read with
      | Some ret => Next g (PopCas old_read ret)
      | None => Fault
      end
  | PopCas old_read ret =>
      let '(ok, x) := atomic_cas (read_ g) old_read (next old_read) in
      if ok then Ret (set_read x g) (RPop (Some ret)) else Next (set_read x g) PopReadRead
  | _ => Fault
  end.

Definition code (g : shared) (l : loc) : outcome shared loc res :=
  match l with
  | PopReadRead | PopReadMax _ | PopLoad _ | PopCas _ _ => Pop_step g l
  | _ => Push_step g l
  end.

Definition IsEmpty (g : shared) : bool := read_ g =? write_ g.

Definition Size (g : shared) : Z := u64 (u64 (write_ g + maxSz) - read_ g) mod maxSz.

(** One producer (thread 0) and one consumer (thread 1). *)
Definition spsc_inv (k : unit) (t : nat) (o : op) : option unit :=
  match o, t with
  | OPush _, 0%nat | OPop, 1%nat => Some k
  | _, _ => None
  end.

(** ** The abstract object: a FIFO queue of capacity [maxSz - 1]. *)
Definition queue_spec (s : list V) (o : op) : list V * res :=
  match o with
  | OPush v =>
      if Z.of_nat (length s) =? maxSz - 1 then (s, RPush false) else (s ++ [v], RPush true)
  | OPop => match s with [] => (s, RPop None) | v :: s' => (s', RPop (Some v)) end
  end.

(** ** The simulation relation

[R], [W] and [M] count the operations since the start: the indices are these
counters modulo [maxSz]. *)

Definition trel (R M W : Z) (arr s : list V) (t : nat) (x : tstate loc)
    (u : athread (Op:=op) (R:=res)) : Prop :=
  match x with
  | Idle => u = AIdle /\ (t = 0%nat -> M = W)
  | Run (PushReadWrite v) => t = 0%nat /\ u = APend (OPush v) /\ M = W
  | Run (PushReadRead v ow) => t = 0%nat /\ u = APend (OPush v) /\ M = W /\ ow = W mod maxSz
  | Run (PushCas v ow) =>
      t = 0%nat /\ u = APend (OPush v) /\ M = W /\ ow = W mod maxSz /\ W + 1 < R + maxSz
  | Run (PushStore v ow) => t = 0%nat /\ u = APend (OPush v) /\ M + 1 = W /\ ow = M mod maxSz
  | Run (PushPublish ow) =>
      t = 0%nat /\ M + 1 = W /\ ow = M mod maxSz /\
      exists v, u = APend (OPush v) /\ arr !! Z.to_nat (M mod maxSz) = Some v
  | Run PopReadRead => t = 1%nat /\ u = APend OPop
  | Run (PopReadMax r) => t = 1%nat /\ u = APend OPop /\ r = R mod maxSz
  | Run (PopLoad r) => t = 1%nat /\ u = APend OPop /\ r = R mod maxSz /\ R < M
  | Run (PopCas r v) => t = 1%nat /\ u = APend OPop /\ r = R mod maxSz /\ R < M /\
      arr !! Z.to_nat (R mod maxSz) = Some v
  end.

Record RelC (R M W : Z) (g : shared) (ts : list (tstate loc)) (s : list V)
    (us : list (athread (Op:=op) (R:=res))) : Prop := {
  rel_len : length us = length ts;
  rel_arr : Z.of_nat (length (arr_ g)) = maxSz;
  rel_idx : read_ g = R mod maxSz /\ maxRead_ g = M mod maxSz /\ write_ g = W mod maxSz;
  rel_ord : 0 <= R <= M /\ M <= W < R + maxSz;
  rel_size : Z.of_nat (length s) = M - R;
  rel_val : forall i, R <= i < M -> arr_ g !! Z.to_nat (i mod maxSz) = s !! Z.to_nat (i - R);
  rel_thr : forall t x u, ts !! t = Some x -> us !! t = Some u ->
    trel R M W (arr_ g) s t x u
}.

Definition Rel (g : shared) (ts : list (tstate loc)) (k : unit) (s : list V)
    (us : list (athread (Op:=op) (R:=res))) : Prop :=
  exists R M W, RelC R M W g ts s us.

(** ** Index arithmetic *)

Lemma mod_inj a b n : 0 < n -> a mod n = b mod n -> a <= b < a + n -> a = b.
Proof.
  intros Hn E H. rewrite (Z.div_mod a n), (Z.div_mod b n) in H |- * by lia.
  rewrite E in *. assert (b / n - a / n = 0); nia.
Qed.

Lemma next_mod i : 0 < maxSz < 2 ^ 64 -> next (i mod maxSz) = (i + 1) mod maxSz.
Proof.
  intros H. unfold next. pose proof (Z.mod_pos_bound i maxSz).
  rewrite u64_id by lia. rewrite Z.add_mod_idemp_l; lia.
Qed.

(** A step that changes the moving thread only. *)
Lemma RelC_local R M W g ts s us t x y u :
  ts !! t = Some x -> us !! t = Some u -> RelC R M W g ts s us ->
  trel R M W (arr_ g) s t y u -> RelC R M W g (<[t:=y]> ts) s us.
Proof.
  intros Ht Hu HR Hy. destruct HR as [L A I O Sz Vl T]. constructor; auto.
  - by rewrite length_insert.
  - intros t' x' u' H1 H2. apply list_insert_inv in H1 as [[-> ->]|[N H1]]; [|eauto].
    by simplify_eq.
Qed.

(** A step that also changes the abstract state: the other threads follow. *)
Lemma RelC_update R' M' W' g' s' R M W g ts s us t x y u :
  ts !! t = Some x -> RelC R M W g ts s us ->
  Z.of_nat (length (arr_ g')) = maxSz ->
  (read_ g' = R' mod maxSz /\ maxRead_ g' = M' mod maxSz /\ write_ g' = W' mod maxSz) ->
  (0 <= R' <= M' /\ M' <= W' < R' + maxSz) ->
  Z.of_nat (length s') = M' - R' ->
  (forall i, R' <= i < M' -> arr_ g' !! Z.to_nat (i mod maxSz) = s' !! Z.to_nat (i - R')) ->
  (forall t' x' u', t' <> t -> ts !! t' = Some x' -> us !! t' = Some u' ->
    trel R M W (arr_ g) s t' x' u' -> trel R' M' W' (arr_ g') s' t' x' u') ->
  trel R' M' W' (arr_ g') s' t y u ->
  RelC R' M' W' g' (<[t:=y]> ts) s' (<[t:=u]> us).
Proof.
  intros Ht HR A I O Sz Vl Ho Hy. constructor; auto.
  - rewrite !length_insert. by apply HR.
  - intros t' x' u' H1 H2. apply list_insert_inv in H1 as [[-> ->]|[N H1]].
    + apply list_insert_inv in H2 as [[_ ->]|[N H2]]; [done|lia].
    + rewrite list_lookup_insert_ne in H2 by lia. apply Ho; auto. by apply HR.
Qed.

(** ** The steps *)

Definition goal_of (ts : list (tstate loc)) (s : list V) us (t : nat)
    (o : outcome shared loc res) : Prop :=
  match o with
  | Next g' l' => Rel g' (<[t:=Run l']> ts) tt s us
  | Ret g' r => exists op, us !! t = Some (APend op) /\ snd (queue_spec s op) = r /\
         Rel g' (<[t:=Idle]> ts) tt (fst (queue_spec s op)) (<[t:=AIdle]> us)
  | Fault => False
  end.

Ltac others x' H := destruct x' as [|[]]; simpl in *; try done; naive_solver lia.

Lemma queue_push_sim R M W g ts s us t u l :
  0 < maxSz < 2 ^ 64 -> RelC R M W g ts s us -> us !! t = Some u ->
  ts !! t = Some (Run l) -> trel R M W (arr_ g) s t (Run l) u ->
  match l with
  | PopReadRead | PopReadMax _ | PopLoad _ | PopCas _ _ => True
  | _ => goal_of ts s us t (Push_step g l)
  end.
Proof.
  intros Hn HR Hu Ht Hx. destruct (rel_idx _ _ _ _ _ _ _ HR) as (Ir&Im&Iw).
  pose proof (rel_ord _ _ _ _ _ _ _ HR) as O. pose proof (rel_size _ _ _ _ _ _ _ HR) as Sz.
  pose proof (rel_arr _ _ _ _ _ _ _ HR) as A. pose proof (rel_val _ _ _ _ _ _ _ HR) as Vl.
  destruct l; simpl in Hx; try done; simpl.
  - destruct Hx as (->&->&->). exists R, W, W. apply (RelC_local _ _ _ _ _ _ _ _ _ _ _ Ht Hu HR).
    by rewrite Iw.
  - destruct Hx as (->&->&->&->). rewrite next_mod, Ir by lia.
    destruct (Z.eqb_spec ((W + 1) mod maxSz) (R mod maxSz)) as [E|E].
    + exists (OPush val). split; [done|]. simpl.
      assert (W + 1 = R + maxSz) as HW.
      { apply (mod_inj _ _ maxSz); [lia| |lia]. rewrite E.
        replace (R + maxSz) with (R + 1 * maxSz) by lia. by rewrite Z.mod_add by lia. }
      rewrite (proj2 (Z.eqb_eq _ _)) by lia. split; [done|]. exists R, W, W.
      eapply RelC_update; [exact Ht|exact HR|..]; auto; try done.
    + exists R, W, W. apply (RelC_local _ _ _ _ _ _ _ _ _ _ _ Ht Hu HR). simpl.
      split_and!; try done. destruct (Z.eq_dec (W + 1) (R + maxSz)) as [E'|]; [|lia].
      destruct E. rewrite E'. replace (R + maxSz) with (R + 1 * maxSz) by lia.
      by rewrite Z.mod_add by lia.
  - destruct Hx as (->&->&->&->&HW). destruct (atomic_cas _ _ _) as [[] m] eqn:Hc; simpl.
    + apply atomic_cas_true in Hc as [_ ->]. rewrite next_mod by lia. exists R, W, (W + 1).
      rewrite <-(list_insert_id us 0 _ Hu).
      eapply RelC_update; [exact Ht|exact HR|..]; auto; [lia| |done].
      intros t' x' u' N H1 H2 H. others x' H.
    + apply atomic_cas_false in Hc as [Hc ->]. by rewrite Iw in Hc.
  - destruct Hx as (->&->&HW&->). exists R, M, W. rewrite <-(list_insert_id us 0 _ Hu).
    pose proof (Z.mod_pos_bound M maxSz) as HM.
    eapply RelC_update; [exact Ht|exact HR|..]; simpl; auto.
    + by rewrite length_insert.
    + intros i Hi. rewrite list_lookup_insert_ne; [by apply Vl|]. intros E.
      pose proof (Z.mod_pos_bound i maxSz).
      assert (i = M); [|lia]. apply (mod_inj _ _ maxSz); lia.
    + intros t' x' u' N H1 H2 H. destruct x' as [|[]]; simpl in *; try done; try naive_solver lia.
      destruct H as (?&?&?&?&?). split_and!; try done.
      rewrite list_lookup_insert_ne; [done|]. intros E. pose proof (Z.mod_pos_bound R maxSz).
      assert (R = M); [|lia]. apply (mod_inj _ _ maxSz); lia.
    + split_and!; try done. exists val. split; [done|]. apply list_lookup_insert_eq. lia.
  - destruct Hx as (->&HW&->&v&->&Hv). destruct (atomic_cas _ _ _) as [[] m] eqn:Hc; simpl.
    + apply atomic_cas_true in Hc as [_ ->]. exists (OPush v). split; [done|]. simpl.
      rewrite (proj2 (Z.eqb_neq _ _)) by lia. split; [done|]. simpl.
      rewrite next_mod by lia. exists R, (M + 1), W.
      eapply RelC_update; [exact Ht|exact HR|..]; simpl; auto; try lia.
      * rewrite length_app. simpl. lia.
      * intros i Hi. destruct (Z.eq_dec i M) as [->|]; [|rewrite lookup_app_l by lia; apply Vl; lia].
        rewrite Hv, lookup_app_r by lia. by replace (Z.to_nat (M - R) - length s)%nat with 0%nat by lia.
      * intros t' x' u' N H1 H2 H. others x' H.
    + apply atomic_cas_false in Hc as [Hc ->]. by rewrite Im in Hc.
Qed.

Lemma queue_pop_sim R M W g ts s us t u l :
  0 < maxSz < 2 ^ 64 -> RelC R M W g ts s us -> us !! t = Some u ->
  ts !! t = Some (Run l) -> trel R M W (arr_ g) s t (Run l) u ->
  match l with
  | PopReadRead | PopReadMax _ | PopLoad _ | PopCas _ _ => goal_of ts s us t (Pop_step g l)
  | _ => True
  end.
Proof.
  intros Hn HR Hu Ht Hx. destruct (rel_idx _ _ _ _ _ _ _ HR) as (Ir&Im&Iw).
  pose proof (rel_ord _ _ _ _ _ _ _ HR) as O. pose proof (rel_size _ _ _ _ _ _ _ HR) as Sz.
  pose proof (rel_arr _ _ _ _ _ _ _ HR) as A. pose proof (rel_val _ _ _ _ _ _ _ HR) as Vl.
  destruct l; simpl in Hx; try done; simpl.
  - destruct Hx as (->&->). exists R, M, W. apply (RelC_local _ _ _ _ _ _ _ _ _ _ _ Ht Hu HR).
    by rewrite Ir.
  - destruct Hx as (->&->&->). rewrite Im.
    destruct (Z.eqb_spec (R mod maxSz) (M mod maxSz)) as [E|E].
    + apply mod_inj in E as ->; [|lia..]. exists OPop. split; [done|].
      destruct s as [|v s]; [|simpl in *; lia]. split; [done|]. exists M, M, W.
      eapply RelC_update; [exact Ht|exact HR|..]; auto; try done.
    + exists R, M, W. apply (RelC_local _ _ _ _ _ _ _ _ _ _ _ Ht Hu HR). simpl.
      split_and!; try done. destruct (Z.eq_dec R M) as [->|]; [done|lia].
  - destruct Hx as (->&->&->&HM).
    destruct (lookup_lt_is_Some_2 (arr_ g) (Z.to_nat (R mod maxSz))) as [v Hv].
    { pose proof (Z.mod_pos_bound R maxSz). lia. }
    rewrite Hv. exists R, M, W. by apply (RelC_local _ _ _ _ _ _ _ _ _ _ _ Ht Hu HR).
  - destruct Hx as (->&->&->&HM&Hv). destruct (atomic_cas _ _ _) as [[] m] eqn:Hc; simpl.
    + apply atomic_cas_true in Hc as [_ ->]. exists OPop. split; [done|].
      pose proof (Vl R ltac:(lia)) as E. rewrite Hv, Z.sub_diag in E.
      destruct s as [|v s]; [done|]. simplify_eq/=. split; [done|].
      rewrite next_mod by lia. exists (R + 1), M, W.
      eapply RelC_update; [exact Ht|exact HR|..]; simpl; auto; try lia.
      * intros i Hi. rewrite Vl by lia.
        by replace (Z.to_nat (i - R)) with (S (Z.to_nat (i - (R + 1)))) by lia.
      * intros t' x' u' N H1 H2 H. others x' H.
      * split; [done|lia].
    + apply atomic_cas_false in Hc as [Hc ->]. by rewrite Ir in Hc.
Qed.

Lemma queue_Rel_init junk n :
  0 < maxSz -> Z.of_nat (length junk) = maxSz ->
  Rel (LockFreeQueue_init junk) (replicate n Idle) tt [] (replicate n AIdle).
Proof.
  intros H0 Hj. exists 0, 0, 0. constructor; simpl; try lia.
  - by rewrite !length_replicate.
  - rewrite Z.mod_0_l by lia. done.
  - intros t x u H1 H2. apply lookup_replicate in H1 as [-> _].
    by apply lookup_replicate in H2 as [-> _].
Qed.

(** C11. One producer and one consumer: every history of [Push] and [Pop] is a
    history of a FIFO queue of capacity [maxSz_ - 1] that executes each
    operation at once; a push fails only on a full queue, a pop only on an empty
    one, and the consumer never reads a slot outside the array. *)
Theorem LockFreeQueue_spsc_linearizable (junk : list V) (n : nat) :
  0 < maxSz < 2 ^ 64 -> Z.of_nat (length junk) = maxSz ->
  linearizable start code spsc_inv any_ret queue_spec
    (init_cfg (LockFreeQueue_init junk) n tt) (init_acfg [] n tt).
Proof.
  intros Hm Hj. apply forward_simulation with Rel; [..|apply queue_Rel_init; lia].
  - intros g ts k s us t (R&M&W&HR) Ht. destruct (lookup_lt_is_Some_2 us t) as [u Hu].
    { rewrite (rel_len _ _ _ _ _ _ _ HR). by eapply lookup_lt_Some. }
    by pose proof (rel_thr _ _ _ _ _ _ _ HR _ _ _ Ht Hu) as [-> _].
  - intros g ts k s us t o k' (R&M&W&HR) Ht Hu Hk. exists R, M, W.
    pose proof (rel_thr _ _ _ _ _ _ _ HR _ _ _ Ht Hu) as [_ Hx].
    eapply RelC_update; [exact Ht|exact HR|apply HR|apply HR|apply HR|apply HR|apply HR|done|].
    destruct o, t as [|[]]; try done; simpl; auto 6.
  - intros g ts [] s us t l (R&M&W&HR) Ht. destruct (lookup_lt_is_Some_2 us t) as [u Hu].
    { rewrite (rel_len _ _ _ _ _ _ _ HR). by eapply lookup_lt_Some. }
    pose proof (rel_thr _ _ _ _ _ _ _ HR _ _ _ Ht Hu) as Hx.
    pose proof (queue_push_sim _ _ _ g ts s us t u l Hm HR Hu Ht Hx) as Hpush.
    pose proof (queue_pop_sim _ _ _ g ts s us t u l Hm HR Hu Ht Hx) as Hpop.
    destruct l; simpl code; destruct (_ : outcome _ _ _); auto.
Qed.

End LockFreeQueue.

Lemma LockFreeQueue_spsc_linearizable_witness :
  linearizable (start (V:=Z)) (code 3) spsc_inv any_ret (queue_spec 3)
    (init_cfg (LockFreeQueue_init [0; 0; 0]) 2 tt) (init_acfg [] 2 tt).
Proof. apply (LockFreeQueue_spsc_linearizable 3 [0; 0; 0] 2); [lia|reflexivity]. Defined.

(** ** Two producers

Thread 0 reads [write_ = 0] and [read_ = 0] and is delayed; thread 1 pushes 2,
thread 2 pops it, thread 1 pushes 3: the queue of two slots is full again with
[write_ = 0].  Thread 0's compare-and-swap succeeds on the stale index. *)
Definition steps (t n : nat) : list (nat * act (op (V:=Z))) := replicate n (t, Step).

Definition two_producers : list (nat * act (op (V:=Z))) :=
  [(0%nat, Invoke (OPush 1))] ++ steps 0 2 ++
  [(1%nat, Invoke (OPush 2))] ++ steps 1 5 ++
  [(2%nat, Invoke OPop)] ++ steps 2 4 ++
  [(1%nat, Invoke (OPush 3))] ++ steps 1 5 ++
  steps 0 3 ++
  [(2%nat, Invoke OPop)] ++ steps 2 2.

(** With a second producer [Push] is not safe: from the constructor's state
    of a ring of two slots there is an execution in which three pushes return
    [true] and one pop succeeds, and then, with no operation under way, the next
    [Pop] finds the queue empty: two accepted elements are lost. *)
Theorem LockFreeQueue_two_producers_lose :
  exists n h (c : cfg (G:=shared (V:=Z)) (L:=loc) (C:=unit)),
    reach start (code 2) any_inv any_ret (init_cfg (LockFreeQueue_init [0; 0]) 3 tt) n h c /\
    h = [EInv 0 (OPush 1); EInv 1 (OPush 2); ERes 1 (RPush true); EInv 2 OPop;
         ERes 2 (RPop (Some 2)); EInv 1 (OPush 3); ERes 1 (RPush true); ERes 0 (RPush true);
         EInv 2 OPop; ERes 2 (RPop None)] /\
    ths c = [Idle; Idle; Idle] /\ IsEmpty (sh c) = true /\ Size 2 (sh c) = 0.
Proof.
  eexists _, _, _. split.
  - apply (run_reach _ _ _ _ two_producers). vm_compute. reflexivity.
  - vm_compute. auto.
Qed.
