(* ===== verification/LockFreeBuffer.v ===== *)
(** * LockFreeBuffer.v: the buffer pool of [misc/LockFreeBuffer.h] and [misc/src/LockFreeBuffer.cc]

The free buffers form a linked stack; the head and every link are a
[DoublePointer], a tag next to the pointer, so that a compare-and-swap on a head
that was popped and pushed back fails.  Tags are drawn from the counter [id_].
The 16-byte loads and stores that the source does without a [__sync_*] builtin
are two accesses of 8 bytes each.

From any state in which the tags in use are below the counter, every
interleaving of [AllocBuffer] and [ReleaseBuffer] keeps every buffer in exactly
one place ([pool_safe]), and the pool is linearizable with respect to the stack of its
free buffers ([LockFreeBuffer_linearizable]).  The constructor's own state is not such a state: it
gives the last node the tag [size_ - 1] and starts the counter at the same
value, and an execution of three threads then hands one buffer out twice
([constructor_double_alloc]).  One allocation and release after construction
repair that ([warm_up_well_formed]).  The layout is computed in [size_t]: the buffers are
disjoint and inside the allocation while its size fits ([buffers_disjoint]), and the size is
not checked ([layout_wraps]). *)

From S2P Require Import Prelude Machine Conc.

Record shared : Type := Shared { head_ : DoublePointer; next_ : list DoublePointer; id_ : Z }.

Definition set_head (h : DoublePointer) (g : shared) : shared := Shared h (next_ g) (id_ g).
Definition set_next (l : list DoublePointer) (g : shared) : shared := Shared (head_ g) l (id_ g).
Definition set_id (i : Z) (g : shared) : shared := Shared (head_ g) (next_ g) i.

Definition null_dp : DoublePointer := InitDoublePointer.

(** ** Layout

[freeList_[i]] is at offset [i * sz] of [rawBuff_]; a buffer starts after the
[DoublePointer] of its node.  All of it is computed in [size_t], which wraps. *)

Definition sizeof_BufferNode : Z := 16.
Definition granularity_of (granularity : Z) : Z := AlignTo granularity 16.
Definition node_stride (granularity : Z) : Z := u64 (sizeof_BufferNode + granularity_of granularity).
Definition node_offset (granularity i : Z) : Z := u64 (i * node_stride granularity).
Definition buffer_offset (granularity i : Z) : Z := node_offset granularity i + sizeof_BufferNode.
Definition container_of_buffer (buffer : Z) : Z := buffer - sizeof_BufferNode.
Definition raw_size (size granularity : Z) : Z := u64 (size * u64 (sizeof_BufferNode + granularity_of granularity)).

(** [InitList]. *)
Definition InitList (size : nat) : shared :=
  Shared (SetDoublePointer 0 (Some 0%nat))
    (((fun i => (Z.of_nat (S i), Some (S i))) <$> seq 0 (size - 1)) ++ [null_dp])
    (Z.of_nat (size - 1)).

Inductive op : Type := OAlloc | ORelease (node : nat).
Inductive res : Type := RAlloc (ret : option nat) | RRelease.

Inductive loc : Type :=
| AllocRead
| AllocNextLo (old_head : DoublePointer)
| AllocNextHi (old_head : DoublePointer) (lo : Z)
| AllocCas (old_head tmp : DoublePointer)
| AllocClearLo (ret : nat)
| AllocClearHi (ret : nat)
| ReleaseId (node : nat)
| ReleaseRead (node : nat) (id : Z)
| ReleaseNextLo (node : nat) (id : Z) (old_head : DoublePointer)
| ReleaseNextHi (node : nat) (id : Z) (old_head : DoublePointer)
| ReleaseCas (node : nat) (id : Z) (old_head : DoublePointer).

Definition start (o : op) : loc :=
  match o with OAlloc => AllocRead | ORelease n => ReleaseId n end.

(** A plain access to one half of [node->next_]. *)
Definition load_next (g : shared) (p : option nat) : option DoublePointer :=
  match p with Some n => next_ g !! n | None => None end.

Definition store_next (g : shared) (n : nat) (f : DoublePointer -> DoublePointer) : shared :=
  set_next (alter f n (next_ g)) g.

Definition AllocBuffer_step (g : shared) (l : loc) : outcome shared loc res :=
  match l with
  | AllocRead =>
      let old_head := head_ g in
      if IsDoublePointerNull old_head then Ret g (RAlloc None) else Next g (AllocNextLo old_head)
  | AllocNextLo h =>
      match load_next g (snd h) with
      | Some dp => Next g (AllocNextHi h (fst dp))
      | None => Fault
      end
  | AllocNextHi h lo =>
      match load_next g (snd h) with
      | Some dp => Next g (AllocCas h (lo, snd dp))
      | None => Fault
      end
  | AllocCas h tmp =>
      let '(ok, x) := atomic_cas (head_ g) h tmp in
      match ok, snd h with
      | true, Some n => Next (set_head x g) (AllocClearLo n)
      | true, None => Fault
      | false, _ => Next (set_head x g) AllocRead
      end
  | AllocClearLo n => Next (store_next g n (fun dp => (0, snd dp))) (AllocClearHi n)
  | AllocClearHi n => Ret (store_next g n (fun dp => (fst dp, None))) (RAlloc (Some n))
  | _ => Fault
  end.

Definition ReleaseBuffer_step (g : shared) (l : loc) : outcome shared loc res :=
  match l with
  | ReleaseId n =>
      if bool_decide (n < length (next_ g))%nat then
        let '(id, c) := atomic_increment (id_ g) in Next (set_id c g) (ReleaseRead n id)
      else Fault
  | ReleaseRead n id => Next g (ReleaseNextLo n id (head_ g))
  | ReleaseNextLo n id h =>
      Next (store_next g n (fun dp => (fst h, snd dp))) (ReleaseNextHi n id h)
  | ReleaseNextHi n id h =>
      Next (store_next g n (fun dp => (fst dp, snd h))) (ReleaseCas n id h)
  | ReleaseCas n id h =>
      let '(ok, x) := atomic_cas (head_ g) h (SetDoublePointer id (Some n)) in
      if ok then Ret (set_head x g) RRelease else Next (set_head x g) (ReleaseRead n id)
  | _ => Fault
  end.

Definition code (g : shared) (l : loc) : outcome shared loc res :=
  match l with
  | AllocRead | AllocNextLo _ | AllocNextHi _ _ | AllocCas _ _ | AllocClearLo _ | AllocClearHi _ =>
      AllocBuffer_step g l
  | _ => ReleaseBuffer_step g l
  end.

(** ** Clients

A client releases only a buffer it holds; [held] lists the buffers that were
handed out and not given back, one entry per time they were handed out. *)

Fixpoint remove_one (n : nat) (l : list nat) : list nat :=
  match l with
  | [] => []
  | m :: l' => if decide (m = n) then l' else m :: remove_one n l'
  end.

Definition own_inv (held : list nat) (t : nat) (o : op) : option (list nat) :=
  match o with
  | OAlloc => Some held
  | ORelease n => if decide (n ∈ held) then Some (remove_one n held) else None
  end.

Definition own_ret (held : list nat) (t : nat) (r : res) : list nat :=
  match r with RAlloc (Some n) => n :: held | _ => held end.

(** ** The invariant *)

(** The linked stack, with the tag that leads to each node. *)
Fixpoint chain (next : list DoublePointer) (h : DoublePointer) (F : list (Z * nat)) : Prop :=
  match F with
  | [] => h = null_dp
  | (t, n) :: F' =>
      h = (t, Some n) /\ exists nx, next !! n = Some nx /\ chain next nx F'
  end.

(** The node a thread is taking or giving back. *)
Definition owner (x : tstate loc) : list nat :=
  match x with
  | Run (AllocClearLo n) | Run (AllocClearHi n) => [n]
  | Run (ReleaseId n) | Run (ReleaseRead n _) | Run (ReleaseNextLo n _ _)
  | Run (ReleaseNextHi n _ _) | Run (ReleaseCas n _ _) => [n]
  | _ => []
  end.

Abbreviation owned := (gather owner).

(** A head an [AllocBuffer] has read, and the head a [ReleaseBuffer] will
    install. *)
Definition seen (x : tstate loc) : option DoublePointer :=
  match x with
  | Run (AllocNextLo h) | Run (AllocNextHi h _) | Run (AllocCas h _) => Some h
  | _ => None
  end.

Definition fresh (x : tstate loc) : option DoublePointer :=
  match x with
  | Run (ReleaseRead n id) | Run (ReleaseNextLo n id _) | Run (ReleaseNextHi n id _)
  | Run (ReleaseCas n id _) => Some (id, Some n)
  | _ => None
  end.

(** What a thread's local copy of a link is worth. *)
Definition tinv (next : list DoublePointer) (F : list (Z * nat)) (x : tstate loc) : Prop :=
  match x with
  | Run (AllocNextHi h lo) =>
      forall t n, h = (t, Some n) -> (t, n) ∈ F -> exists hi, next !! n = Some (lo, hi)
  | Run (AllocCas h tmp) =>
      forall t n, h = (t, Some n) -> (t, n) ∈ F -> next !! n = Some tmp
  | Run (ReleaseNextHi n _ h) => exists hi, next !! n = Some (fst h, hi)
  | Run (ReleaseCas n _ h) => next !! n = Some h
  | _ => True
  end.

Record PoolInv (size : nat) (F : list (Z * nat)) (g : shared) (ts : list (tstate loc))
    (held : list nat) : Prop := {
  pi_len : length (next_ g) = size;
  pi_chain : chain (next_ g) (head_ g) F;
  pi_part : F.*2 ++ owned ts ++ held ≡ₚ seq 0 size;
  pi_tags : forall t n, (t, n) ∈ F -> t < id_ g;
  pi_seen : forall i x h, ts !! i = Some x -> seen x = Some h ->
    exists t n, h = (t, Some n) /\ t < id_ g /\ (n < size)%nat;
  pi_fresh : forall i x h, ts !! i = Some x -> fresh x = Some h -> fst h < id_ g;
  pi_apart : forall i j x y h, ts !! i = Some x -> ts !! j = Some y ->
    seen x = Some h -> fresh y <> Some h;
  pi_thr : forall i x, ts !! i = Some x -> tinv (next_ g) F x
}.

(** A state with no operation under way in which the pool is intact and the
    counter is above every tag in use. *)
Definition well_formed (size : nat) (g : shared) (held : list nat) : Prop :=
  exists F, length (next_ g) = size /\ chain (next_ g) (head_ g) F /\
    F.*2 ++ held ≡ₚ seq 0 size /\ (forall t n, (t, n) ∈ F -> t < id_ g) /\ 0 <= id_ g.

(** Every buffer is free, being handed out, being given back, or held, and in
    one place only. *)
Definition intact (size : nat) (g : shared) (ts : list (tstate loc)) (held : list nat) : Prop :=
  exists F, chain (next_ g) (head_ g) F /\ F.*2 ++ owned ts ++ held ≡ₚ seq 0 size.

(** ** Lemmas on the chain and the partition *)

Lemma chain_alter next h F n f :
  n ∉ F.*2 -> chain next h F -> chain (alter f n next) h F.
Proof.
  revert h. induction F as [|[t m] F IH]; intros h Hn Hc; [done|].
  destruct Hc as (->&nx&Hm&Hc). split; [done|]. exists nx. rewrite fmap_cons in Hn.
  split; [|by apply IH; set_solver].
  rewrite list_lookup_alter_ne; [done|]. simpl in Hn. set_solver.
Qed.

Lemma chain_null next F : chain next null_dp F -> F = [].
Proof. destruct F as [|[t n] F]; [done|]. by intros (?&?). Qed.

Lemma chain_head next h F t n : chain next h F -> h = (t, Some n) ->
  exists F', F = (t, n) :: F'.
Proof. destruct F as [|[t' n'] F]; [by intros -> |]. intros (->&_) [= -> ->]. by exists F. Qed.

Lemma chain_inv_node next h F : chain next h F -> h <> null_dp ->
  exists t n F', h = (t, Some n) /\ F = (t, n) :: F'.
Proof. destruct F as [|[t n] F]; [done|]. intros (->&_) _. eauto. Qed.

Section Inv.
Context {size : nat} {F : list (Z * nat)} {g : shared} {ts : list (tstate loc)} {held : list nat}.
Hypothesis HI : PoolInv size F g ts held.

Lemma PoolInv_NoDup : NoDup (F.*2 ++ owned ts ++ held).
Proof. rewrite (pi_part _ _ _ _ _ HI). apply NoDup_seq. Qed.

Lemma PoolInv_lt n : n ∈ F.*2 ++ owned ts ++ held -> (n < size)%nat.
Proof. rewrite (pi_part _ _ _ _ _ HI), elem_of_seq. lia. Qed.

Lemma owner_not_free i x n : ts !! i = Some x -> n ∈ owner x -> n ∉ F.*2.
Proof.
  intros Hi Hn HF. pose proof PoolInv_NoDup as H. apply NoDup_app in H as (_&H&_).
  apply (H n HF). apply elem_of_app. left. by eapply (gather_lookup owner).
Qed.

Lemma owner_lt i x n : ts !! i = Some x -> n ∈ owner x -> (n < size)%nat.
Proof.
  intros Hi Hn. apply PoolInv_lt. rewrite !elem_of_app. right; left. by eapply (gather_lookup owner).
Qed.

Lemma owner_apart i j x y n :
  i <> j -> ts !! i = Some x -> ts !! j = Some y -> n ∈ owner x -> n ∉ owner y.
Proof.
  intros Hij Hi Hj Hx Hy. pose proof PoolInv_NoDup as H.
  apply NoDup_app in H as (_&_&H). apply NoDup_app in H as (H&_&_).
  destruct (gather_insert owner ts i x Hi) as (rest&Hp&Hins). rewrite Hp in H.
  apply NoDup_app in H as (_&H&_). apply (H n Hx).
  specialize (Hins Idle). simpl in Hins. rewrite <-Hins.
  eapply (gather_lookup owner _ j y); [|done]. by rewrite list_lookup_insert_ne.
Qed.

Lemma free_lt t n : (t, n) ∈ F -> (n < size)%nat.
Proof.
  intros Hn. apply PoolInv_lt, elem_of_app. left. apply list_elem_of_fmap. by exists (t, n).
Qed.

Lemma fresh_owner i x id n : ts !! i = Some x -> fresh x = Some (id, Some n) -> n ∈ owner x.
Proof. intros _. destruct x as [|[]]; simpl; intros; simplify_eq; set_solver. Qed.
End Inv.

(** One thread moves, from [x] to [y]; the others must still be right about the
    links they have read or written. *)
Lemma PoolInv_update F' g' held' size F g ts held t x y :
  PoolInv size F g ts held -> ts !! t = Some x ->
  length (next_ g') = size ->
  chain (next_ g') (head_ g') F' ->
  F'.*2 ++ owner y ++ held' ≡ₚ F.*2 ++ owner x ++ held ->
  (forall t n, (t, n) ∈ F' -> t < id_ g') -> id_ g <= id_ g' ->
  (forall h, seen y = Some h -> seen x = Some h \/ h = head_ g /\ h <> null_dp) ->
  (forall h, fresh y = Some h -> fresh x = Some h \/ fst h = id_ g /\ id_ g < id_ g') ->
  (forall i x', i <> t -> ts !! i = Some x' -> tinv (next_ g) F x' -> tinv (next_ g') F' x') ->
  tinv (next_ g') F' y ->
  PoolInv size F' g' (<[t:=y]> ts) held'.
Proof.
  intros HI Ht Hl Hc Hp Htag Hid Hs Hf Ho Hy.
  assert (forall h, seen y = Some h ->
    exists t n, h = (t, Some n) /\ t < id_ g /\ (n < size)%nat) as Hseen.
  { intros h E. destruct (Hs h E) as [E'|[-> Hn]]; [by eapply (pi_seen _ _ _ _ _ HI)|].
    destruct (chain_inv_node _ _ _ (pi_chain _ _ _ _ _ HI) Hn) as (a&n&F0&->&->).
    exists a, n. split_and!; [done|apply (pi_tags _ _ _ _ _ HI a n)|eapply (free_lt HI a)]; set_solver. }
  constructor; auto.
  - destruct (gather_insert owner ts t x Ht) as (rest&Hr&Hins). rewrite (Hins y).
    rewrite <-(pi_part _ _ _ _ _ HI), Hr.
    transitivity (rest ++ F'.*2 ++ owner y ++ held'); [solve_Permutation|].
    rewrite Hp. solve_Permutation.
  - intros i x' h H E. apply list_insert_inv in H as [[-> ->]|[N H]].
    + destruct (Hseen h E) as (a&n&->&?&?). exists a, n. split_and!; [done|lia|done].
    + destruct (pi_seen _ _ _ _ _ HI i x' h H E) as (a&n&->&?&?). exists a, n.
      split_and!; [done|lia|done].
  - intros i x' h H E. apply list_insert_inv in H as [[-> ->]|[N H]].
    + destruct (Hf h E) as [E'|?]; [|lia]. pose proof (pi_fresh _ _ _ _ _ HI _ _ _ Ht E'). lia.
    + pose proof (pi_fresh _ _ _ _ _ HI _ _ _ H E). lia.
  - intros i j x1 x2 h H1 H2 E1 E2.
    apply list_insert_inv in H1 as [[-> ->]|[N1 H1]];
      apply list_insert_inv in H2 as [[-> ->]|[N2 H2]].
    + destruct y as [|[]]; simplify_eq/=.
    + destruct (Hs h E1) as [E'|[-> Hn]]; [by eapply (pi_apart _ _ _ _ _ HI t j)|].
      destruct (chain_inv_node _ _ _ (pi_chain _ _ _ _ _ HI) Hn) as (a&n&F0&Eh&EF).
      rewrite Eh in E2. eapply (owner_not_free HI j x2 n H2); [by eapply fresh_owner|].
      rewrite EF. set_solver.
    + destruct (Hf h E2) as [E'|[E' ?]]; [by eapply (pi_apart _ _ _ _ _ HI i t)|].
      destruct (pi_seen _ _ _ _ _ HI _ _ _ H1 E1) as (a&n&->&?&?). simpl in *. lia.
    + by eapply (pi_apart _ _ _ _ _ HI i j).
  - intros i x' H. apply list_insert_inv in H as [[-> ->]|[N H]]; [done|].
    apply (Ho i x' N H). by apply (pi_thr _ _ _ _ _ HI i).
Qed.

(** A step that touches neither the head, nor a link, nor the counter. *)
Lemma PoolInv_local size F g ts held t x y :
  PoolInv size F g ts held -> ts !! t = Some x -> owner y = owner x ->
  (forall h, seen y = Some h -> seen x = Some h \/ h = head_ g /\ h <> null_dp) ->
  (forall h, fresh y = Some h -> fresh x = Some h) ->
  tinv (next_ g) F y ->
  PoolInv size F g (<[t:=y]> ts) held.
Proof.
  intros HI Ht Ho Hs Hf Hy.
  apply (PoolInv_update F g held size F g ts held t x y HI Ht); try apply HI; auto.
  - by rewrite Ho.
  - lia.
Qed.

(** A store to a link of a node the thread owns leaves the stack and what the
    other threads know alone. *)
Lemma PoolInv_store size F g ts held held' t x y n f dp :
  PoolInv size F g ts held -> ts !! t = Some x -> n ∈ owner x -> next_ g !! n = Some dp ->
  owner y ++ held' ≡ₚ owner x ++ held ->
  seen y = None -> (forall h, fresh y = Some h -> fresh x = Some h) ->
  (forall next, next !! n = Some (f dp) -> tinv next F y) ->
  PoolInv size F (store_next g n f) (<[t:=y]> ts) held'.
Proof.
  intros HI Ht Hn Hdp Hp Hs Hf Hy.
  pose proof (owner_not_free HI t x n Ht Hn) as HF.
  apply (PoolInv_update F (store_next g n f) held' size F g ts held t x y HI Ht); simpl.
  - rewrite length_alter. apply HI.
  - apply chain_alter; [done|apply HI].
  - by rewrite Hp.
  - apply HI.
  - lia.
  - congruence.
  - auto.
  - intros i x' N Hi H.
    assert (forall m, m <> n -> alter f n (next_ g) !! m = next_ g !! m) as Hne.
    { intros m Hm. by apply list_lookup_alter_ne. }
    assert (forall a m, (a, m) ∈ F -> m <> n) as HFn.
    { intros a m Hm ->. apply HF, list_elem_of_fmap. by exists (a, n). }
    pose proof (owner_apart HI t i x x' n (not_eq_sym N) Ht Hi Hn) as Hap.
    destruct x' as [|[]]; simpl in *; try done.
    + intros a m E Hm. rewrite Hne by eauto. eauto.
    + intros a m E Hm. rewrite Hne by eauto. eauto.
    + rewrite Hne by set_solver. done.
    + rewrite Hne by set_solver. done.
  - apply Hy. rewrite list_lookup_alter_eq, Hdp. done.
Qed.

Lemma link_exists size F g ts held t x n :
  PoolInv size F g ts held -> ts !! t = Some x -> n ∈ owner x -> exists dp, next_ g !! n = Some dp.
Proof.
  intros HI Ht Hn. apply lookup_lt_is_Some. rewrite (pi_len _ _ _ _ _ HI).
  by eapply owner_lt.
Qed.

(** What a step does to the free stack: a successful compare-and-swap takes the first node or
    puts one in front, [AllocBuffer] fails on an empty stack. *)
Definition takes (l l' : loc) (F F' : list nat) : Prop :=
  match l, l' with AllocCas _ _, AllocClearLo n => F = n :: F' | _, _ => F' = F end.

Definition gives (l : loc) (r : res) (F F' : list nat) : Prop :=
  match l, r with
  | ReleaseCas n _ _, RRelease => F' = n :: F
  | AllocRead, RAlloc None => F' = F /\ F = []
  | AllocClearHi n, RAlloc (Some n') => F' = F /\ n' = n
  | _, _ => False
  end.

Definition goal_of (size : nat) (F : list (Z * nat)) (ts : list (tstate loc)) (held : list nat) (t : nat)
    (l : loc) (id1 : Z) (o : outcome shared loc res) : Prop :=
  match o with
  | Next g' l' =>
      (exists F', PoolInv size F' g' (<[t:=Run l']> ts) held /\ takes l l' F.*2 F'.*2) /\ 0 <= id_ g' <= id1
  | Ret g' r =>
      (exists F', PoolInv size F' g' (<[t:=Idle]> ts) (own_ret held t r) /\ gives l r F.*2 F'.*2) /\
      0 <= id_ g' <= id1
  | Fault => False
  end.

Lemma alloc_step size F g ts held t l id1 :
  PoolInv size F g ts held -> ts !! t = Some (Run l) -> 0 <= id_ g <= id1 ->
  match l with
  | AllocRead | AllocNextLo _ | AllocNextHi _ _ | AllocCas _ _ | AllocClearLo _ | AllocClearHi _ =>
      goal_of size F ts held t l id1 (AllocBuffer_step g l)
  | _ => True
  end.
Proof.
  intros HI Ht Hid. pose proof (pi_thr _ _ _ _ _ HI _ _ Ht) as Hx.
  destruct l; try done; simpl in *.
  - unfold IsDoublePointerNull. case_bool_decide as Hn; split; try lia; exists F; (split; [|try done]).
    + by apply (PoolInv_local _ _ _ _ _ _ _ _ HI Ht).
    + split; [done|]. pose proof (pi_chain _ _ _ _ _ HI) as Hch. rewrite Hn in Hch.
      by rewrite (chain_null _ _ Hch).
    + apply (PoolInv_local _ _ _ _ _ _ _ _ HI Ht); try done. intros h [= <-]. by right.
  - destruct (pi_seen _ _ _ _ _ HI _ _ _ Ht eq_refl) as (a&n&->&_&Hn). simpl.
    destruct (lookup_lt_is_Some_2 (next_ g) n) as [dp Hdp]; [by rewrite (pi_len _ _ _ _ _ HI)|].
    rewrite Hdp. split; [|lia]. exists F. split; [|done]. apply (PoolInv_local _ _ _ _ _ _ _ _ HI Ht); auto.
    intros a' n' [= <- <-] _. exists (snd dp). by destruct dp.
  - destruct (pi_seen _ _ _ _ _ HI _ _ _ Ht eq_refl) as (a&n&->&_&Hn). simpl.
    destruct (lookup_lt_is_Some_2 (next_ g) n) as [dp Hdp]; [by rewrite (pi_len _ _ _ _ _ HI)|].
    rewrite Hdp. split; [|lia]. exists F. split; [|done]. apply (PoolInv_local _ _ _ _ _ _ _ _ HI Ht); auto.
    intros a' n' [= <- <-] HF. destruct (Hx a n eq_refl HF) as (hi&E).
    rewrite Hdp in E |- *. by injection E as ->.
  - destruct (pi_seen _ _ _ _ _ HI _ _ _ Ht eq_refl) as (a&n&->&_&Hn). simpl.
    destruct (atomic_cas _ _ _) as [[] m] eqn:Hc.
    + apply atomic_cas_true in Hc as [Hh ->]. pose proof (pi_chain _ _ _ _ _ HI) as Hch.
      destruct (chain_head _ _ _ a n Hch Hh) as (F'&->). split; [|simpl; lia]. exists F'. split; [|done].
      destruct Hch as (_&nx&Hnx&Hch). rewrite (Hx a n eq_refl) in Hnx by set_solver.
      simplify_eq. apply (PoolInv_update F' _ held size _ g ts held t _ _ HI Ht); try done.
      * apply HI.
      * rewrite fmap_cons. simpl. solve_Permutation.
      * intros b m' Hm. apply (pi_tags _ _ _ _ _ HI b m'). set_solver.
      * intros i x' N Hi H. destruct x' as [|[]]; simpl in *; try done; intros; eapply H; set_solver.
    + apply atomic_cas_false in Hc as [Hh ->]. split; [|simpl; lia]. exists F. split; [|done].
      replace (set_head (head_ g) g) with g by (by destruct g).
      by apply (PoolInv_local _ _ _ _ _ _ _ _ HI Ht).
  - destruct (link_exists _ _ _ _ _ _ _ ret HI Ht) as [dp Hdp]; [set_solver|].
    split; [|simpl; lia]. exists F. split; [|done].
    by apply (PoolInv_store _ _ _ _ _ _ _ _ _ _ _ dp HI Ht); [set_solver|..].
  - destruct (link_exists _ _ _ _ _ _ _ ret HI Ht) as [dp Hdp]; [set_solver|].
    split; [|simpl; lia]. exists F. split; [|done].
    by apply (PoolInv_store _ _ _ _ _ _ _ _ _ _ _ dp HI Ht); [set_solver|..].
Qed.

Lemma release_step size F g ts held t l id1 :
  PoolInv size F g ts held -> ts !! t = Some (Run l) ->
  0 <= id_ g <= id1 -> id1 + 1 < 2 ^ 64 ->
  match l with
  | AllocRead | AllocNextLo _ | AllocNextHi _ _ | AllocCas _ _ | AllocClearLo _ | AllocClearHi _ =>
      True
  | _ => goal_of size F ts held t l (id1 + 1) (ReleaseBuffer_step g l)
  end.
Proof.
  intros HI Ht Hid Hb. pose proof (pi_thr _ _ _ _ _ HI _ _ Ht) as Hx.
  destruct l; try done; simpl in *.
  - rewrite bool_decide_true.
    2: { rewrite (pi_len _ _ _ _ _ HI). eapply (owner_lt HI); [exact Ht|set_solver]. }
    rewrite u64_id by lia. split; [|simpl; lia]. exists F. split; [|done].
    apply (PoolInv_update F _ held size _ g ts held t _ _ HI Ht); try done; try apply HI; simpl; try lia.
    + intros b n Hn. pose proof (pi_tags _ _ _ _ _ HI b n Hn). lia.
    + intros h [= <-]. right. simpl. lia.
  - split; [|lia]. exists F. split; [|done]. by apply (PoolInv_local _ _ _ _ _ _ _ _ HI Ht).
  - destruct (link_exists _ _ _ _ _ _ _ node HI Ht) as [dp Hdp]; [set_solver|].
    split; [|simpl; lia]. exists F. split; [|done].
    apply (PoolInv_store _ _ _ _ _ _ _ _ _ _ _ dp HI Ht); simpl; try done; [set_solver|].
    intros next E. eauto.
  - destruct (link_exists _ _ _ _ _ _ _ node HI Ht) as [dp Hdp]; [set_solver|].
    split; [|simpl; lia]. exists F. split; [|done].
    apply (PoolInv_store _ _ _ _ _ _ _ _ _ _ _ dp HI Ht); simpl; try done; [set_solver|].
    intros next E. destruct Hx as [hi E']. rewrite E. simplify_eq/=. by destruct old_head.
  - destruct (atomic_cas _ _ _) as [[] m] eqn:Hc; simpl.
    + apply atomic_cas_true in Hc as [Hh ->]. split; [|simpl; lia]. exists ((id, node) :: F). split; [|done].
      apply (PoolInv_update _ _ held size _ g ts held t _ _ HI Ht); try done; simpl.
      * apply HI.
      * split; [done|]. exists old_head. split; [done|]. rewrite <-Hh. apply HI.
      * solve_Permutation.
      * intros b n Hn. apply elem_of_cons in Hn as [[= -> ->]|Hn].
        -- apply (pi_fresh _ _ _ _ _ HI _ _ (id, Some node) Ht). done.
        -- by apply (pi_tags _ _ _ _ _ HI b n).
      * intros i x' N Hi H.
        assert (forall h a n, seen x' = Some h -> h = (a, Some n) -> (a, n) ∈ (id, node) :: F ->
          (a, n) ∈ F) as Hold.
        { intros h a n E -> Hn. apply elem_of_cons in Hn as [[= -> ->]|Hn]; [|done].
          destruct (pi_apart _ _ _ _ _ HI i t _ _ _ Hi Ht E). done. }
        destruct x' as [|[]]; simpl in *; try done; intros a n E Hn; eapply H; eauto.
    + apply atomic_cas_false in Hc as [Hh ->]. split; [|simpl; lia]. exists F. split; [|done].
      replace (set_head (head_ g) g) with g by (by destruct g).
      by apply (PoolInv_local _ _ _ _ _ _ _ _ HI Ht).
Qed.

(** Every step, with at most [m] steps before it. *)
Lemma pool_code size F g ts held t l id0 m :
  PoolInv size F g ts held -> ts !! t = Some (Run l) ->
  0 <= id_ g <= id0 + Z.of_nat m -> id0 + Z.of_nat (S m) < 2 ^ 64 ->
  goal_of size F ts held t l (id0 + Z.of_nat (S m)) (code g l).
Proof.
  intros HI Ht Hid Hb.
  pose proof (alloc_step _ _ _ _ _ _ _ (id0 + Z.of_nat (S m)) HI Ht ltac:(lia)) as H1.
  pose proof (release_step _ _ _ _ _ _ _ (id0 + Z.of_nat m) HI Ht Hid ltac:(lia)) as H2.
  replace (id0 + Z.of_nat m + 1) with (id0 + Z.of_nat (S m)) in H2 by lia. by destruct l.
Qed.

Lemma PoolInv_invoke size F g ts held t o held' :
  PoolInv size F g ts held -> ts !! t = Some Idle -> own_inv held t o = Some held' ->
  PoolInv size F g (<[t:=Run (start o)]> ts) held'.
Proof.
  intros HI Ht Ho. apply (PoolInv_update F g held' size F g ts held t _ _ HI Ht);
    try apply HI; try lia; destruct o; simpl in *; simplify_eq; try done.
  case_decide as Hn; [|done]. simplify_eq.
  assert (node :: remove_one node held ≡ₚ held) as ->; [|done].
  clear HI Ht ts g F size. induction held as [|m l IH]; [set_solver|]. simpl. case_decide as E.
  - by subst.
  - rewrite Permutation_swap, IH; [done|]. set_solver.
Qed.

Lemma well_formed_PoolInv size g held n :
  well_formed size g held -> exists F, PoolInv size F g (replicate n Idle) held.
Proof.
  intros (F&Hl&Hc&Hp&Ht&_). exists F.
  assert (forall i x, replicate n (@Idle loc) !! i = Some x -> x = Idle) as Hidle.
  { intros i x H. by apply lookup_replicate in H as [-> _]. }
  constructor; auto.
  - by rewrite (gather_idle owner).
  - intros i x h H. by rewrite (Hidle _ _ H).
  - intros i x h H. by rewrite (Hidle _ _ H).
  - intros i j x y h H. by rewrite (Hidle _ _ H).
  - intros i x H. by rewrite (Hidle _ _ H).
Qed.

(** C12. From a well-formed state, for any number of threads and any
    interleaving of [AllocBuffer] and [ReleaseBuffer] in which clients release
    only what they hold, no thread dereferences a null or foreign node, and
    every buffer of the pool stays in exactly one place: on the free stack, with
    a thread that is taking it or giving it back, or with a client.  In
    particular a buffer that is held is not handed out again, and none is lost.
    The bound says that the 64-bit counter does not wrap in the execution. *)
Theorem pool_safe (size n : nat) (g : shared) (held : list nat) steps h c :
  well_formed size g held ->
  id_ g + Z.of_nat steps < 2 ^ 64 ->
  reach start code own_inv own_ret (init_cfg g n held) steps h c ->
  faulted c = false /\ intact size (sh c) (ths c) (cl c) /\ NoDup (cl c).
Proof.
  intros Hwf Hb Hr.
  pose (Inv m g' ts k := (exists F, PoolInv size F g' ts k) /\
    0 <= id_ g' <= id_ g + Z.of_nat m).
  assert (faulted c = false /\ Inv steps (sh c) (ths c) (cl c)) as (Hf&[F HF]&_).
  { apply (reach_invariant start code own_inv own_ret steps Inv) with (init_cfg g n held) h;
      [..|done|split|exact Hr|lia].
    - intros m g' ts k t o k' Hm [[F HI] Hid] Ht Ho. split; [|lia]. exists F.
      by eapply PoolInv_invoke.
    - intros m g' ts k t l Hm [[F HI] Hid] Ht.
      pose proof (pool_code _ _ _ _ _ _ _ (id_ g) m HI Ht Hid ltac:(lia)) as H.
      destruct (code g' l) as [g1 l1|g1 r|]; [| |done]; destruct H as [(F'&H&_) H']; (split; [by exists F'|done]).
    - by apply well_formed_PoolInv.
    - destruct Hwf as (?&?&?&?&?&?). simpl. lia. }
  split_and!; [done|exists F; split; apply HF|].
  pose proof (PoolInv_NoDup HF) as H. apply NoDup_app in H as (_&_&H).
  by apply NoDup_app in H as (_&_&H).
Qed.

(** ** The pool as a stack of free buffers *)

(** [AllocBuffer] and [ReleaseBuffer] in one step. *)
Definition pool_spec (free : list nat) (o : op) : list nat * res :=
  match o, free with
  | OAlloc, [] => ([], RAlloc None)
  | OAlloc, n :: free' => (free', RAlloc (Some n))
  | ORelease n, _ => (n :: free, RRelease)
  end.

(** Where the abstract operation of a thread is. *)
Definition abstract (x : tstate loc) : athread (Op:=op) (R:=res) :=
  match x with
  | Idle => AIdle
  | Run (AllocClearLo n) | Run (AllocClearHi n) => ADone (RAlloc (Some n))
  | Run (ReleaseId n) | Run (ReleaseRead n _) | Run (ReleaseNextLo n _ _)
  | Run (ReleaseNextHi n _ _) | Run (ReleaseCas n _ _) => APend (ORelease n)
  | Run _ => APend OAlloc
  end.

Definition pool_Rel (size : nat) (id0 : Z) (m : nat) (g : shared) (ts : list (tstate loc)) (held : list nat)
    (free : list nat) (us : list (athread (Op:=op) (R:=res))) : Prop :=
  exists F, PoolInv size F g ts held /\ free = F.*2 /\ us = abstract <$> ts /\ 0 <= id_ g <= id0 + Z.of_nat m.

(** A step that takes nothing from the stack goes on with the same operation. *)
Lemma takes_nothing g l g' l' F F' :
  code g l = Next g' l' -> takes l l' F F' ->
  (abstract (Run l') = abstract (Run l) /\ F' = F) \/
  (exists n, F = n :: F' /\ abstract (Run l) = APend OAlloc /\ abstract (Run l') = ADone (RAlloc (Some n))).
Proof.
  intros Hc Ht. destruct l; simpl in Hc; repeat case_match; simplify_eq/=; auto. right. eauto.
Qed.

Lemma list_fmap_insert_abstract (ts : list (tstate loc)) t x : abstract <$> <[t:=x]> ts = <[t:=abstract x]> (abstract <$> ts).
Proof. apply list_fmap_insert. Qed.

(** From a well-formed state, for any number of threads, the pool is linearizable with
    respect to the stack of its free buffers: every execution of interleaved [AllocBuffer]s and
    [ReleaseBuffer]s, in which clients release what they hold, answers as if each call were
    one step, [AllocBuffer] failing on an empty stack only; no thread uses a null or foreign
    node.  The bound says that the 64-bit counter does not wrap; the constructor's own state
    is not well formed ([constructor_double_alloc]). *)
Theorem LockFreeBuffer_linearizable (size n : nat) (g : shared) (held : list nat) (steps : nat) :
  well_formed size g held -> id_ g + Z.of_nat steps < 2 ^ 64 ->
  exists free, free ++ held ≡ₚ seq 0 size /\
    linearizable_upto start code own_inv own_ret pool_spec steps (init_cfg g n held) (init_acfg free n held).
Proof.
  intros Hwf Hb. destruct (well_formed_PoolInv size g held n Hwf) as [F HF]. exists F.*2. split.
  { pose proof (pi_part _ _ _ _ _ HF) as Hp. by rewrite (gather_idle owner) in Hp. }
  apply (bounded_simulation start code own_inv own_ret pool_spec steps (pool_Rel size (id_ g))).
  - intros m g' ts k s us t (F'&HI&->&->&_) Ht. by rewrite list_lookup_fmap, Ht.
  - intros m g' ts k s us t o k' Hm (F'&HI&->&->&Hid) Ht _ Ho. exists F'. split; [by eapply PoolInv_invoke|].
    split; [done|]. split; [|lia]. rewrite list_fmap_insert_abstract. by destruct o.
  - intros m g' ts k s us t l Hm (F'&HI&->&->&Hid) Ht.
    pose proof (pool_code _ _ _ _ _ _ _ (id_ g) m HI Ht Hid ltac:(lia)) as H.
    assert (Hu : (abstract <$> ts) !! t = Some (abstract (Run l))) by by rewrite list_lookup_fmap, Ht.
    destruct (code g' l) as [g1 l1|g1 r|] eqn:Hc; [| |done]; destruct H as [(F1&H1&H2) Hid1].
    + destruct (takes_nothing _ _ _ _ _ _ Hc H2) as [[E E']|(b&E0&E1&E2)]; [left|right].
      * exists F1. split; [done|]. split; [by rewrite E'|]. split; [|done]. rewrite list_fmap_insert_abstract, E. symmetry. by apply list_insert_id.
      * exists OAlloc. rewrite Hu, E1, E0. split; [done|]. exists F1. split; [done|]. split; [done|]. split; [|done].
        by rewrite list_fmap_insert_abstract, E2.
    + assert (Hus : abstract <$> <[t:=Idle]> ts = <[t:=AIdle]> (abstract <$> ts)) by apply list_fmap_insert_abstract.
      destruct l, r as [[b|]|]; cbn [gives] in H2; try done.
      * right. destruct H2 as [E1 E2]. exists OAlloc. rewrite Hu, E2. split; [done|]. split; [done|].
        exists F1. split; [done|]. split; [by rewrite E1, E2|]. by split.
      * left. destruct H2 as [E1 ->]. rewrite Hu. split; [done|]. exists F1. split; [done|]. by rewrite E1.
      * right. exists (ORelease node). rewrite Hu. split; [done|]. split; [by destruct (F'.*2)|]. exists F1.
        split; [done|]. split; [by destruct (F'.*2)|]. by split.
  - exists F. split; [done|]. split; [done|]. split; [|destruct Hwf as (?&?&?&?&?&?); lia].
    by rewrite fmap_replicate.
Qed.

(** ** The constructor *)

(** Allocating the first buffer and giving it back. *)
Definition warm_up : list (nat * act op) :=
  [(0%nat, Invoke OAlloc)] ++ replicate 6 (0%nat, Step) ++
  [(0%nat, Invoke (ORelease 0))] ++ replicate 5 (0%nat, Step).

(** Nodes [a .. a + m] linked in order, with their index as tag. *)
Lemma chain_seq next m a :
  (forall i, (a <= i < a + m)%nat -> next !! i = Some (Z.of_nat (S i), Some (S i))) ->
  next !! (a + m)%nat = Some null_dp ->
  chain next (Z.of_nat a, Some a) ((fun i => (Z.of_nat i, i)) <$> seq a (S m)).
Proof.
  revert a. induction m as [|m IH]; intros a Hi Hl.
  - rewrite Nat.add_0_r in Hl. simpl. eauto.
  - change (seq a (S (S m))) with (a :: seq (S a) (S m)). rewrite fmap_cons. split; [done|].
    eexists. split; [apply Hi; lia|]. apply IH; [intros; apply Hi; lia|].
    by replace (S a + m)%nat with (a + S m)%nat by lia.
Qed.

(** A pool of at least two buffers is well formed once its first buffer has
    been allocated and released, so from then on [pool_safe] applies. *)
Theorem warm_up_well_formed (size n : nat) :
  (2 <= size)%nat -> Z.of_nat size < 2 ^ 64 ->
  exists c h,
    run start code own_inv own_ret warm_up (init_cfg (InitList size) (S n) []) [] = Some (c, h) /\
    ths c = replicate (S n) Idle /\ cl c = [] /\ well_formed size (sh c) [].
Proof.
  intros Hs Hmax. destruct size as [|[|k]]; [lia..|].
  set (rest := ((fun i => (Z.of_nat (S i), Some (S i))) <$> seq 1 k) ++ [null_dp]).
  exists (Cfg (Shared (Z.of_nat (S k), Some 0%nat) ((1, Some 1%nat) :: rest)
      (u64 (Z.of_nat (S k) + 1))) (replicate (S n) Idle) [] false),
    [EInv 0 OAlloc; ERes 0 (RAlloc (Some 0%nat)); EInv 0 (ORelease 0); ERes 0 RRelease].
  split; [reflexivity|]. split_and!; [done|done|].
  simpl sh. rewrite u64_id by lia.
  exists ((Z.of_nat (S k), 0%nat) :: ((fun i => (Z.of_nat i, i)) <$> seq 1 (S k))).
  split_and!.
  - simpl. unfold rest. rewrite length_app, length_fmap, length_seq. simpl. lia.
  - split; [done|]. exists (1, Some 1%nat). split; [done|]. apply (chain_seq _ k 1).
    + intros [|i] Hi; [lia|]. simpl. unfold rest.
      rewrite lookup_app_l by (rewrite length_fmap, length_seq; lia).
      rewrite list_lookup_fmap, lookup_seq_lt by lia. done.
    + simpl. unfold rest. rewrite lookup_app_r by (rewrite length_fmap, length_seq; lia).
      by rewrite length_fmap, length_seq, Nat.sub_diag.
  - rewrite fmap_cons, <-list_fmap_compose, list_fmap_id, app_nil_r. done.
  - simpl id_. intros t m Hm. apply elem_of_cons in Hm as [[= -> _]|Hm]; [lia|].
    apply list_elem_of_fmap in Hm as (i&[= -> _]&Hi). apply elem_of_seq in Hi. lia.
  - simpl. lia.
Qed.

(** [pool_safe] on an execution of a warmed-up pool of two buffers: thread 1
    takes a buffer. *)
Lemma pool_safe_witness :
  let g := Shared (1, Some 0%nat) [(1, Some 1%nat); null_dp] 2 in
  let c := Cfg (Shared (1, Some 1%nat) [null_dp; null_dp] 2) [Idle; Idle] [0%nat] false in
  well_formed 2 g [] /\ id_ g + 7 < 2 ^ 64 /\
  faulted c = false /\ intact 2 (sh c) (ths c) (cl c) /\ NoDup (cl c).
Proof.
  intros g c.
  assert (well_formed 2 g []) as Hwf.
  { exists [(1, 0%nat); (1, 1%nat)]. split_and!; [done| |done| |simpl; lia].
    - simpl. eauto 10.
    - intros t n Hn. simpl. set_solver by lia. }
  split; [exact Hwf|]. split; [simpl; lia|].
  apply (pool_safe 2 2 g [] 7 [EInv 1 OAlloc; ERes 1 (RAlloc (Some 0%nat))] c Hwf);
    [simpl; lia|].
  apply (run_reach _ _ _ _ ((1%nat, Invoke OAlloc) :: replicate 6 (1%nat, Step))).
  vm_compute. reflexivity.
Defined.

Lemma LockFreeBuffer_linearizable_witness :
  exists free, free ≡ₚ [0; 1]%nat /\
    linearizable_upto start code own_inv own_ret pool_spec 1000
      (init_cfg (Shared (1, Some 0%nat) [(1, Some 1%nat); null_dp] 2) 3 []) (init_acfg free 3 []).
Proof.
  destruct (LockFreeBuffer_linearizable 2 3 (Shared (1, Some 0%nat) [(1, Some 1%nat); null_dp] 2) [] 1000) as (F&Hp&Hl).
  - exists [(1, 0%nat); (1, 1%nat)]. split_and!; [done| |done| |simpl; lia].
    + simpl. eauto 10.
    + intros t n Hn. simpl. set_solver by lia.
  - simpl. lia.
  - exists F. rewrite app_nil_r in Hp. exact (conj Hp Hl).
Defined.

Lemma warm_up_well_formed_witness :
  exists c h,
    run start code own_inv own_ret warm_up (init_cfg (InitList 3) 3 []) [] = Some (c, h) /\
    ths c = replicate 3 Idle /\ cl c = [] /\ well_formed 3 (sh c) [].
Proof. apply (warm_up_well_formed 3 2); lia. Defined.

(** ** The repeated tag

Two nodes; thread 0 takes node 0; thread 1 reads the head [(1, node 1)] in
[AllocBuffer] and is delayed; thread 2 takes node 1 and gives it back: the tag
it draws is again 1.  While it is linking node 1 in front of node 0, thread 1
reads the link, thread 0 takes node 0 again, and thread 1's compare-and-swap on
the head [(1, node 1)] succeeds with the outdated link. *)
Definition steps (t n : nat) : list (nat * act op) := replicate n (t, Step).

Definition double_alloc : list (nat * act op) :=
  [(0%nat, Invoke OAlloc)] ++ steps 0 6 ++
  [(1%nat, Invoke OAlloc)] ++ steps 1 1 ++
  [(2%nat, Invoke OAlloc)] ++ steps 2 6 ++
  [(2%nat, Invoke (ORelease 1))] ++ steps 2 1 ++
  [(0%nat, Invoke (ORelease 0))] ++ steps 0 5 ++
  steps 2 3 ++ steps 1 2 ++
  [(0%nat, Invoke OAlloc)] ++ steps 0 6 ++
  steps 2 5 ++ steps 1 3 ++
  [(0%nat, Invoke OAlloc)] ++ steps 0 6.

(** From the constructor's state of a pool of two buffers, three threads
    that release only what they hold can reach a state in which buffer 0 is
    handed out twice at the same time. *)
Theorem constructor_double_alloc :
  exists n h (c : cfg (G:=shared) (L:=loc) (C:=list nat)),
    reach start code own_inv own_ret (init_cfg (InitList 2) 3 []) n h c /\
    faulted c = false /\ ths c = [Idle; Idle; Idle] /\ cl c = [0; 1; 0]%nat.
Proof.
  eexists _, _, _. split.
  - apply (run_reach _ _ _ _ double_alloc). vm_compute. reflexivity.
  - vm_compute. auto.
Qed.

(** ** Layout *)

Lemma layout_exact (size granularity i : Z) :
  0 <= granularity -> size * (granularity + 32) < 2 ^ 64 -> 0 <= i < size ->
  granularity <= granularity_of granularity < granularity + 16 /\ granularity_of granularity mod 16 = 0 /\
  node_offset granularity i = i * (16 + granularity_of granularity) /\
  raw_size size granularity = size * (16 + granularity_of granularity).
Proof.
  intros H0 H1 Hi. assert (granularity + 32 < 2 ^ 64) by nia.
  destruct (AlignTo_spec granularity 16) as [Hg Hm]; [lia..|].
  unfold node_offset, raw_size, node_stride, sizeof_BufferNode, granularity_of.
  set (G := AlignTo granularity 16) in *. clearbody G.
  split; [done|]. split; [done|]. rewrite !(u64_id (16 + G)) by lia. split; apply u64_id; nia.
Qed.

(** C15. The layout of the pool, computed in [size_t], for every pool that fits the address
    space with 32 bytes more for each buffer than it asks for: the buffers handed out lie
    inside the allocation, start at a multiple of 16, do not overlap one another or a node
    header, and [ReleaseBuffer] finds the node of the buffer it is given.  Without the bound
    the products wrap ([layout_wraps]). *)
Theorem buffers_disjoint (size granularity i j : Z) :
  0 <= granularity -> size * (granularity + 32) < 2 ^ 64 -> 0 <= i < size -> 0 <= j < size ->
  container_of_buffer (buffer_offset granularity i) = node_offset granularity i /\
  0 <= node_offset granularity i /\
  buffer_offset granularity i + granularity <= raw_size size granularity /\
  (i <> j -> buffer_offset granularity i + granularity <= node_offset granularity j \/
     buffer_offset granularity j + granularity <= node_offset granularity i) /\
  buffer_offset granularity i mod 16 = 0.
Proof.
  intros H0 H1 Hi Hj. destruct (layout_exact size granularity i H0 H1 Hi) as (Hg&Hm&Ei&Er).
  destruct (layout_exact size granularity j H0 H1 Hj) as (_&_&Ej&_).
  unfold container_of_buffer, buffer_offset, sizeof_BufferNode. rewrite Ei, Ej, Er.
  set (G := granularity_of granularity) in *. clearbody G.
  split_and!; [lia|nia|nia|intros; destruct (Z.lt_trichotomy i j) as [?|[?|?]]; nia|].
  replace (i * (16 + G) + 16) with ((i + 1) * 16 + i * G) by lia.
  rewrite Z.add_comm, Z.mod_add by lia. rewrite Z.mul_mod, Hm, Z.mul_0_r by lia. done.
Qed.

(** 2^40 buffers of 2^24 - 16 bytes: nothing is allocated. *)
Example layout_wraps : raw_size (2 ^ 40) (2 ^ 24 - 16) = 0 /\ node_offset (2 ^ 24 - 16) (2 ^ 40 - 1) = 2 ^ 64 - 2 ^ 24.
Proof. by vm_compute. Qed.

Lemma buffers_disjoint_witness :
  container_of_buffer (buffer_offset 264 1) = node_offset 264 1 /\
  0 <= node_offset 264 1 /\
  buffer_offset 264 1 + 264 <= raw_size 64 264 /\
  (1 <> 2 -> buffer_offset 264 1 + 264 <= node_offset 264 2 \/
     buffer_offset 264 2 + 264 <= node_offset 264 1) /\
  buffer_offset 264 1 mod 16 = 0.
Proof. apply (buffers_disjoint 64 264 1 2); lia. Defined.
