(* ===== verification/LockFreeList.v ===== *)
(** * LockFreeList.v: [misc/LockFreeList.h] and [misc/src/LockFreeList.cc]

[LockFreeListQueue] is a linked queue with a dummy node (Michael and Scott's) over
a fixed array of nodes; the nodes that are not in the queue form a linked stack.
Links, [in_], [out_] and [head_] are [DoublePointer]s, a tag next to a node.  Every
access to shared memory is one step; a 16-byte access without a [__sync_*] builtin
is two steps.

With one producer and one consumer the code is linearizable with respect to a
FIFO queue of capacity [max_ - 1].  With two producers it is not: a node that is
given back gets the link [NULL] when the stack of free nodes is empty, and the
compare-and-swap of a delayed [Push] on that node's link, which expects [NULL]
without any tag, succeeds; its element is lost. *)

From S2P Require Import Prelude Machine Conc.
From S2P Require LockFreeBuffer.

Abbreviation chain := LockFreeBuffer.chain.
Abbreviation null_dp := InitDoublePointer.

(** [next_] and [data_] are the members of the nodes of [freeList_]. *)
Record shared : Type := Shared {
  id_ : Z;
  in_ : DoublePointer;
  out_ : DoublePointer;
  id2_ : Z;
  head_ : DoublePointer;
  next_ : list DoublePointer;
  data_ : list Z
}.

Definition set_id (i : Z) (g : shared) : shared :=
  Shared i (in_ g) (out_ g) (id2_ g) (head_ g) (next_ g) (data_ g).
Definition set_in (d : DoublePointer) (g : shared) : shared :=
  Shared (id_ g) d (out_ g) (id2_ g) (head_ g) (next_ g) (data_ g).
Definition set_out (d : DoublePointer) (g : shared) : shared :=
  Shared (id_ g) (in_ g) d (id2_ g) (head_ g) (next_ g) (data_ g).
Definition set_id2 (i : Z) (g : shared) : shared :=
  Shared (id_ g) (in_ g) (out_ g) i (head_ g) (next_ g) (data_ g).
Definition set_head (d : DoublePointer) (g : shared) : shared :=
  Shared (id_ g) (in_ g) (out_ g) (id2_ g) d (next_ g) (data_ g).
Definition set_next (l : list DoublePointer) (g : shared) : shared :=
  Shared (id_ g) (in_ g) (out_ g) (id2_ g) (head_ g) l (data_ g).
Definition set_data (l : list Z) (g : shared) : shared :=
  Shared (id_ g) (in_ g) (out_ g) (id2_ g) (head_ g) (next_ g) l.

(** ** Construction *)

(** [InitInternalNodeList]; [junk] is what [new] gives for the data. *)
Definition InitInternalNodeList (max_ : nat) (junk : list Z) : shared :=
  Shared 0 null_dp null_dp (Z.of_nat (max_ - 1)) (SetDoublePointer 0 (Some 0%nat))
    (((fun i => (Z.of_nat (S i), Some (S i))) <$> seq 0 (max_ - 1)) ++ [null_dp]) junk.

(** [LockFreeListQueue(capacity)], where [AllocNode] runs alone. *)
Definition LockFreeListQueue_init (max_ : nat) (junk : list Z) : option shared :=
  let g := InitInternalNodeList max_ junk in
  match head_ g with
  | (_, Some tmp) =>
      nx ← next_ g !! tmp;
      let g1 := set_next (<[tmp:=null_dp]> (next_ g)) (set_head nx g) in
      let g2 := set_in (SetDoublePointer (id_ g1) (Some tmp)) g1 in
      let g3 := set_id 1 g2 in
      Some (set_out (in_ g3) g3)
  | (_, None) => None
  end.

(** ** [Push] and [Pop] *)

Inductive op : Type := OPush (data : Z) | OPop.
Inductive res : Type := RPush (ret : bool) | RPop (ret : option Z).

Inductive loc : Type :=
(* Push: AllocNode *)
| PHead (v : Z)
| PNextLo (v : Z) (old_head : DoublePointer)
| PNextHi (v : Z) (old_head : DoublePointer) (lo : Z)
| PCasHead (v : Z) (old_head tmp : DoublePointer)
| PClearLo (v : Z) (node : nat)
| PClearHi (v : Z) (node : nat)
(* Push: the node is filled and linked *)
| PData (v : Z) (node : nat)
| PNullLo (v : Z) (node : nat)
| PNullHi (v : Z) (node : nat)
| PId (v : Z) (node : nat)
| PReadIn (v : Z) (node : nat) (id : Z)
| PReadNext (v : Z) (node : nat) (id : Z) (dp_in : DoublePointer)
| PHelp (v : Z) (node : nat) (id : Z) (dp_in next : DoublePointer)
| PLink (v : Z) (node : nat) (id : Z) (dp_in : DoublePointer)
| PSwing (dp_in new_node : DoublePointer)
(* Pop *)
| CReadOut
| CReadIn (out : DoublePointer)
| CReadNext (out dp_in : DoublePointer)
| CHelp (out dp_in next : DoublePointer)
| CData (out next : DoublePointer)
| CCas (out next : DoublePointer) (data : Z)
(* Pop: ReleaseNode *)
| CId (node : nat) (data : Z)
| CHead (node : nat) (data : Z) (id : Z)
| CNextLo (node : nat) (data : Z) (id : Z) (old_head : DoublePointer)
| CNextHi (node : nat) (data : Z) (id : Z) (old_head : DoublePointer)
| CCasHead (node : nat) (data : Z) (id : Z) (old_head : DoublePointer).

Definition start (o : op) : loc :=
  match o with OPush v => PHead v | OPop => CReadOut end.

Definition load_next (g : shared) (p : option nat) : option DoublePointer :=
  match p with Some n => next_ g !! n | None => None end.

Definition store_next (g : shared) (n : nat) (f : DoublePointer -> DoublePointer) : shared :=
  set_next (alter f n (next_ g)) g.

Abbreviation out := (outcome shared loc res).

(** [AllocNode], inside [Push]. *)
Definition AllocNode_step (g : shared) (l : loc) : out :=
  match l with
  | PHead v =>
      let old_head := head_ g in
      if IsDoublePointerNull old_head then Ret g (RPush false) else Next g (PNextLo v old_head)
  | PNextLo v h =>
      match load_next g (snd h) with
      | Some dp => Next g (PNextHi v h (fst dp))
      | None => Fault
      end
  | PNextHi v h lo =>
      match load_next g (snd h) with
      | Some dp => Next g (PCasHead v h (lo, snd dp))
      | None => Fault
      end
  | PCasHead v h tmp =>
      let '(ok, x) := atomic_cas (head_ g) h tmp in
      match ok, snd h with
      | true, Some n => Next (set_head x g) (PClearLo v n)
      | true, None => Fault
      | false, _ => Next (set_head x g) (PHead v)
      end
  | PClearLo v n => Next (store_next g n (fun dp => (0, snd dp))) (PClearHi v n)
  | PClearHi v n => Next (store_next g n (fun dp => (fst dp, None))) (PData v n)
  | _ => Fault
  end.

Definition Push_step (g : shared) (l : loc) : out :=
  match l with
  | PData v n => Next (set_data (<[n:=v]> (data_ g)) g) (PNullLo v n)
  | PNullLo v n => Next (store_next g n (fun dp => (0, snd dp))) (PNullHi v n)
  | PNullHi v n => Next (store_next g n (fun dp => (fst dp, None))) (PId v n)
  | PId v n => let '(id, c) := atomic_increment (id_ g) in Next (set_id c g) (PReadIn v n id)
  | PReadIn v n id => Next g (PReadNext v n id (in_ g))
  | PReadNext v n id dp_in =>
      match load_next g (snd dp_in) with
      | Some next =>
          if IsDoublePointerNull next then Next g (PLink v n id dp_in)
          else Next g (PHelp v n id dp_in next)
      | None => Fault
      end
  | PHelp v n id dp_in next =>
      let '(_, x) := atomic_cas (in_ g) dp_in next in Next (set_in x g) (PReadIn v n id)
  | PLink v n id dp_in =>
      match snd dp_in with
      | None => Fault
      | Some tail =>
          match next_ g !! tail with
          | None => Fault
          | Some cur =>
              let new_node := SetDoublePointer id (Some n) in
              let '(ok, x) := atomic_cas cur null_dp new_node in
              let g' := set_next (<[tail:=x]> (next_ g)) g in
              Next g' (if ok then PSwing dp_in new_node else PReadIn v n id)
          end
      end
  | PSwing dp_in new_node =>
      let '(_, x) := atomic_cas (in_ g) dp_in new_node in Ret (set_in x g) (RPush true)
  | _ => AllocNode_step g l
  end.

(** [ReleaseNode], inside [Pop]. *)
Definition ReleaseNode_step (g : shared) (l : loc) : out :=
  match l with
  | CId n v =>
      if bool_decide (n < length (next_ g))%nat then
        let '(id, c) := atomic_increment (id2_ g) in Next (set_id2 c g) (CHead n v id)
      else Fault
  | CHead n v id => Next g (CNextLo n v id (head_ g))
  | CNextLo n v id h => Next (store_next g n (fun dp => (fst h, snd dp))) (CNextHi n v id h)
  | CNextHi n v id h => Next (store_next g n (fun dp => (fst dp, snd h))) (CCasHead n v id h)
  | CCasHead n v id h =>
      let '(ok, x) := atomic_cas (head_ g) h (SetDoublePointer id (Some n)) in
      if ok then Ret (set_head x g) (RPop (Some v)) else Next (set_head x g) (CHead n v id)
  | _ => Fault
  end.

Definition Pop_step (g : shared) (l : loc) : out :=
  match l with
  | CReadOut => Next g (CReadIn (out_ g))
  | CReadIn o => Next g (CReadNext o (in_ g))
  | CReadNext o i =>
      match load_next g (snd o) with
      | Some next =>
          if IsDoublePointerNull next then Ret g (RPop None)
          else if IsDoublePointerEqual i o then Next g (CHelp o i next)
          else Next g (CData o next)
      | None => Fault
      end
  | CHelp o i next =>
      let '(_, x) := atomic_cas (in_ g) i next in Next (set_in x g) CReadOut
  | CData o next =>
      match snd next with
      | Some n => match data_ g !! n with Some v => Next g (CCas o next v) | None => Fault end
      | None => Fault
      end
  | CCas o next v =>
      let '(ok, x) := atomic_cas (out_ g) o next in
      match ok, snd o with
      | true, Some cur => Next (set_out x g) (CId cur v)
      | true, None => Fault
      | false, _ => Next (set_out x g) CReadOut
      end
  | _ => ReleaseNode_step g l
  end.

Definition is_push (l : loc) : bool :=
  match l with
  | PHead _ | PNextLo _ _ | PNextHi _ _ _ | PCasHead _ _ _ | PClearLo _ _ | PClearHi _ _
  | PData _ _ | PNullLo _ _ | PNullHi _ _ | PId _ _ | PReadIn _ _ _ | PReadNext _ _ _ _
  | PHelp _ _ _ _ _ | PLink _ _ _ _ | PSwing _ _ => true
  | _ => false
  end.

Definition code (g : shared) (l : loc) : out :=
  if is_push l then Push_step g l else Pop_step g l.

(** One producer (thread 0) and one consumer (thread 1). *)
Definition spsc_inv (k : unit) (t : nat) (o : op) : option unit :=
  match o, t with
  | OPush _, 0%nat | OPop, 1%nat => Some k
  | _, _ => None
  end.

(** ** The abstract object: a FIFO queue of capacity [max_ - 1] *)
Definition queue_spec (max_ : nat) (s : list Z) (o : op) : list Z * res :=
  match o with
  | OPush v =>
      if bool_decide (length s = max_ - 1)%nat then (s, RPush false) else (s ++ [v], RPush true)
  | OPop => match s with [] => (s, RPop None) | v :: s' => (s', RPop (Some v)) end
  end.

Example push_pop_run :
  match LockFreeListQueue_init 3 [9; 9; 9] with
  | Some g =>
      let sched := [(0%nat, Invoke (OPush 5))] ++ replicate 14 (0%nat, Step) ++
        [(1%nat, Invoke OPop)] ++ replicate 10 (1%nat, Step) in
      match run start code spsc_inv any_ret sched (init_cfg g 2 tt) [] with
      | Some (c, h) => h = [EInv 0%nat (OPush 5); ERes 0%nat (RPush true); EInv 1%nat OPop;
          ERes 1%nat (RPop (Some 5))]
      | None => False
      end
  | None => False
  end.
Proof. vm_compute. reflexivity. Qed.

(** ** The simulation relation *)

Section Spsc.
Variable max_ : nat.

Definition dp (q : Z * nat) : DoublePointer := (q.1, Some q.2).

(** The node a thread owns. *)
Definition node_of (x : tstate loc) : list nat :=
  match x with
  | Run (PClearLo _ n) | Run (PClearHi _ n) | Run (PData _ n) | Run (PNullLo _ n)
  | Run (PNullHi _ n) | Run (PId _ n) | Run (PReadIn _ n _) | Run (PReadNext _ n _ _)
  | Run (PHelp _ n _ _ _) | Run (PLink _ n _ _) => [n]
  | Run (CId n _) | Run (CHead n _ _) | Run (CNextLo n _ _ _) | Run (CNextHi n _ _ _)
  | Run (CCasHead n _ _ _) => [n]
  | _ => []
  end.

(** The element that the consumer has taken out; for the abstract queue it is
    still there, until its node is given back. *)
Definition held (c : tstate loc) : list Z :=
  match c with
  | Run (CId _ v) | Run (CHead _ v _) | Run (CNextLo _ v _ _) | Run (CNextHi _ v _ _)
  | Run (CCasHead _ v _ _) => [v]
  | _ => []
  end.

Abbreviation astate := (athread (Op:=op) (R:=res)).

(** The producer's local copies; [Q] are the links that lead to the nodes of the
    queue, the dummy first, [F] those of the free nodes. *)
Definition prel (g : shared) (Q F : list (Z * nat)) (x : tstate loc) (u : astate) : Prop :=
  match x with
  | Idle => u = AIdle
  | Run (PHead v) => u = APend (OPush v)
  | Run (PNextLo v h) => u = APend (OPush v) /\ exists q, h = dp q /\ q ∈ F
  | Run (PNextHi v h lo) =>
      u = APend (OPush v) /\ exists q hi, h = dp q /\ q ∈ F /\ next_ g !! q.2 = Some (lo, hi)
  | Run (PCasHead v h tmp) =>
      u = APend (OPush v) /\ exists q, h = dp q /\ q ∈ F /\ next_ g !! q.2 = Some tmp
  | Run (PClearLo v n) | Run (PClearHi v n) | Run (PData v n) => u = APend (OPush v)
  | Run (PNullLo v n) => u = APend (OPush v) /\ data_ g !! n = Some v
  | Run (PNullHi v n) =>
      u = APend (OPush v) /\ data_ g !! n = Some v /\ exists hi, next_ g !! n = Some (0, hi)
  | Run (PId v n) | Run (PReadIn v n _) =>
      u = APend (OPush v) /\ data_ g !! n = Some v /\ next_ g !! n = Some null_dp
  | Run (PReadNext v n _ i) | Run (PLink v n _ i) =>
      u = APend (OPush v) /\ data_ g !! n = Some v /\ next_ g !! n = Some null_dp /\
      exists Q1 q, Q = Q1 ++ [q] /\ i = dp q
  | Run (PSwing i nw) =>
      u = ADone (RPush true) /\ exists Q1 q, Q = Q1 ++ [q] /\ nw = dp q /\ snd i <> Some q.2
  | _ => False
  end.

Definition second (Q : list (Z * nat)) (next : DoublePointer) (q1 : Z * nat) : Prop :=
  exists q0 Q', Q = q0 :: q1 :: Q' /\ next = dp q1.

(** The consumer's. *)
Definition crel (g : shared) (Q : list (Z * nat)) (x : tstate loc) (u : astate) : Prop :=
  match x with
  | Idle => u = AIdle
  | Run CReadOut => u = APend OPop
  | Run (CReadIn o) => u = APend OPop /\ o = out_ g
  | Run (CReadNext o i) => u = APend OPop /\ o = out_ g /\ (i = o \/ in_ g <> out_ g)
  | Run (CHelp o i next) =>
      u = APend OPop /\ o = out_ g /\ i = o /\ exists q1, second Q next q1
  | Run (CData o next) =>
      u = APend OPop /\ o = out_ g /\ in_ g <> out_ g /\ exists q1, second Q next q1
  | Run (CCas o next v) =>
      u = APend OPop /\ o = out_ g /\ in_ g <> out_ g /\
      exists q1, second Q next q1 /\ data_ g !! q1.2 = Some v
  | Run (CId _ _) | Run (CHead _ _ _) | Run (CNextLo _ _ _ _) => u = APend OPop
  | Run (CNextHi n _ _ h) => u = APend OPop /\ exists hi, next_ g !! n = Some (fst h, hi)
  | Run (CCasHead n _ _ h) => u = APend OPop /\ next_ g !! n = Some h
  | _ => False
  end.

(** [in_] is the last node, or the one before it while the producer is about to
    move it. *)
Definition in_ok (g : shared) (Q : list (Z * nat)) (p : tstate loc) : Prop :=
  exists Q1 q, Q = Q1 ++ [q] /\
    (in_ g = dp q \/
     match p with
     | Run (PSwing i _) => in_ g = i /\ exists Q2 q', Q1 = Q2 ++ [q'] /\ i = dp q'
     | _ => False
     end).

Record RelL (Q F : list (Z * nat)) (g : shared) (p c : tstate loc) (s : list Z) (up uc : astate) :
    Prop := {
  r_next : length (next_ g) = max_;
  r_data : length (data_ g) = max_;
  r_q : chain (next_ g) (out_ g) Q;
  r_f : chain (next_ g) (head_ g) F;
  r_part : Q.*2 ++ F.*2 ++ node_of p ++ node_of c ≡ₚ seq 0 max_;
  r_in : in_ok g Q p;
  r_s : exists qs, s = held c ++ qs /\ Forall2 (fun q v => data_ g !! q.2 = Some v) (tail Q) qs;
  r_p : prel g Q F p up;
  r_c : crel g Q c uc
}.

Definition Rel (g : shared) (ts : list (tstate loc)) (k : unit) (s : list Z) (us : list astate) :
    Prop :=
  exists p c up uc Q F, ts = [p; c] /\ us = [up; uc] /\ RelL Q F g p c s up uc.

(** ** Chains *)

Lemma chain_app next h Q1 q Q2 :
  chain next h (Q1 ++ q :: Q2) -> exists nx, next !! q.2 = Some nx /\ chain next nx Q2.
Proof.
  revert h. induction Q1 as [|[t n] Q1 IH]; intros h; simpl.
  - destruct q as [t n]. intros (_&nx&?&?). by exists nx.
  - intros (_&nx&_&Hc). by eapply IH.
Qed.

Lemma chain_first next q Q h : chain next h (q :: Q) -> h = dp q.
Proof. destruct q. by intros [-> _]. Qed.

Lemma chain_last next h Q1 q : chain next h (Q1 ++ [q]) -> next !! q.2 = Some null_dp.
Proof. intros Hc. destruct (chain_app _ _ _ _ _ Hc) as (nx&Hn&Hc'). simpl in Hc'. by rewrite Hn, Hc'. Qed.

Lemma chain_insert_ne next h Q n x : n ∉ Q.*2 -> chain next h Q -> chain (<[n:=x]> next) h Q.
Proof.
  revert h. induction Q as [|[t m] Q IH]; intros h; simpl; [done|].
  intros Hn (->&nx&Hm&Hc). split; [done|]. exists nx.
  rewrite list_lookup_insert_ne by set_solver. split; [done|]. apply IH; set_solver.
Qed.

Lemma chain_snoc next h Q1 q id n :
  chain next h (Q1 ++ [q]) -> NoDup ((Q1 ++ [q]).*2) -> n ∉ (Q1 ++ [q]).*2 ->
  next !! n = Some null_dp ->
  chain (<[q.2:=(id, Some n)]> next) h ((Q1 ++ [q]) ++ [(id, n)]).
Proof.
  revert h. induction Q1 as [|[t m] Q1 IH]; intros h Hc Hd Hn Hnx; simpl in *.
  - destruct q as [t m]. destruct Hc as (->&nx&Hm&->). simpl in *. split; [done|].
    exists (id, Some n). rewrite list_lookup_insert_eq by (by eapply lookup_lt_Some).
    split; [done|]. split; [done|]. exists null_dp. rewrite list_lookup_insert_ne by set_solver. done.
  - destruct Hc as (->&nx&Hm&Hc). apply NoDup_cons in Hd as [Hmq Hd]. split; [done|].
    exists nx. rewrite list_lookup_insert_ne.
    + split; [done|]. apply IH; [done|done|set_solver|done].
    + intros E. apply Hmq. rewrite <-E, fmap_app. set_solver.
Qed.

Section Step.
Context {Q F : list (Z * nat)} {g : shared} {p c : tstate loc} {s : list Z} {up uc : astate}.
Hypothesis HR : RelL Q F g p c s up uc.

Lemma part_nodup : NoDup (Q.*2 ++ F.*2 ++ node_of p ++ node_of c).
Proof. rewrite (r_part _ _ _ _ _ _ _ _ HR). apply NoDup_seq. Qed.

Lemma part_lt n : n ∈ Q.*2 ++ F.*2 ++ node_of p ++ node_of c -> (n < max_)%nat.
Proof. rewrite (r_part _ _ _ _ _ _ _ _ HR), elem_of_seq. lia. Qed.

Lemma nodup_q : NoDup (Q.*2).
Proof. pose proof part_nodup as H. by apply NoDup_app in H as (?&_&_). Qed.

(** The owned nodes are in neither chain and are different. *)
Lemma owned_p n : n ∈ node_of p -> n ∉ Q.*2 /\ n ∉ F.*2 /\ n ∉ node_of c.
Proof.
  intros Hn. pose proof part_nodup as H. apply NoDup_app in H as (_&H1&H).
  apply NoDup_app in H as (_&H2&H). apply NoDup_app in H as (_&H3&_).
  split_and!; [intros Hq; apply (H1 n Hq); set_solver|intros Hf; apply (H2 n Hf); set_solver|auto].
Qed.

Lemma owned_c n : n ∈ node_of c -> n ∉ Q.*2 /\ n ∉ F.*2 /\ n ∉ node_of p.
Proof.
  intros Hn. pose proof part_nodup as H. apply NoDup_app in H as (_&H1&H).
  apply NoDup_app in H as (_&H2&H). apply NoDup_app in H as (_&H3&_).
  split_and!; [intros Hq; apply (H1 n Hq); set_solver|intros Hf; apply (H2 n Hf); set_solver|].
  intros Hp. by apply (H3 n Hp).
Qed.

Lemma free_not_q q : q ∈ F -> q.2 ∉ Q.*2 /\ q.2 ∉ node_of p /\ q.2 ∉ node_of c.
Proof.
  intros Hq. assert (q.2 ∈ F.*2) as Hf by (apply list_elem_of_fmap; eauto).
  pose proof part_nodup as H. apply NoDup_app in H as (_&H1&H).
  apply NoDup_app in H as (_&H2&_). split_and!.
  - intros HQ. apply (H1 _ HQ). set_solver.
  - intros Hp. apply (H2 _ Hf). set_solver.
  - intros Hp. apply (H2 _ Hf). set_solver.
Qed.

Lemma nodup_f : NoDup (F.*2).
Proof. pose proof part_nodup as H. apply NoDup_app in H as (_&_&H). by apply NoDup_app in H as (?&_&_). Qed.

Lemma in_f q : q ∈ F -> exists nx, next_ g !! q.2 = Some nx.
Proof.
  intros Hq. apply lookup_lt_is_Some. rewrite (r_next _ _ _ _ _ _ _ _ HR). apply part_lt.
  rewrite !elem_of_app. right; left. apply list_elem_of_fmap. eauto.
Qed.

Lemma next_exists n : n ∈ node_of p ++ node_of c -> exists nx, next_ g !! n = Some nx.
Proof.
  intros Hn. apply lookup_lt_is_Some. rewrite (r_next _ _ _ _ _ _ _ _ HR). apply part_lt. set_solver.
Qed.

Lemma q_nonempty : exists q0 Q', Q = q0 :: Q' /\ out_ g = dp q0.
Proof.
  destruct (r_in _ _ _ _ _ _ _ _ HR) as (Q1&q&E&_). pose proof (r_q _ _ _ _ _ _ _ _ HR) as Hc.
  destruct Q as [|q0 Q']; [by destruct Q1|]. exists q0, Q'. split; [done|]. by eapply chain_first.
Qed.

(** The link of the first node. *)
Lemma first_link nx :
  load_next g (snd (out_ g)) = Some nx ->
  (nx = null_dp /\ length Q = 1%nat) \/ (exists q1, second Q nx q1).
Proof.
  destruct q_nonempty as (q0&Q'&EQ&E). rewrite E. simpl. intros Hn.
  pose proof (r_q _ _ _ _ _ _ _ _ HR) as Hc. rewrite EQ in Hc.
  destruct (chain_app _ _ [] _ _ Hc) as (nx'&Hn'&Hc'). rewrite Hn in Hn'. injection Hn' as <-.
  destruct Q' as [|q1 Q'].
  - left. by rewrite EQ.
  - right. exists q1, q0, Q'. split; [done|]. by eapply chain_first.
Qed.

(** A later node's link is not the first's. *)
Lemma later_ne_out Q1 q0 q1 Q2 : Q = q0 :: Q1 ++ q1 :: Q2 -> dp q1 <> out_ g.
Proof.
  intros E H. destruct q_nonempty as (q0'&Q'&E'&Ho). rewrite E in E'. injection E' as <- _.
  rewrite Ho in H. pose proof nodup_q as Hd. rewrite E in Hd. simpl in Hd.
  apply NoDup_cons in Hd as [Hn _]. apply Hn. rewrite fmap_app. simpl.
  injection H as _ ->. set_solver.
Qed.
End Step.

(** ** What a step of one thread leaves to the other *)

Lemma crel_frame g g' Q R c uc :
  out_ g' = out_ g -> (in_ g <> out_ g -> in_ g' <> out_ g') ->
  (forall n, n ∈ Q.*2 -> data_ g' !! n = data_ g !! n) ->
  (forall n, n ∈ node_of c -> next_ g' !! n = next_ g !! n) ->
  crel g Q c uc -> crel g' (Q ++ R) c uc.
Proof.
  intros Ho Hi Hd Hn H.
  assert (forall next q1, second Q next q1 -> second (Q ++ R) next q1) as Hs.
  { intros next q1 (q0&Q'&->&->). exists q0, (Q' ++ R). done. }
  destruct c as [|[]]; cbn [crel node_of] in *; try done.
  - by rewrite Ho.
  - destruct H as (->&->&[->|H]); rewrite Ho; auto. split_and!; auto. right. rewrite <-Ho. auto.
  - destruct H as (->&->&->&q1&Hq). rewrite Ho. eauto 10.
  - destruct H as (->&->&H&q1&Hq). split_and!; eauto.
  - destruct H as (->&->&H&q1&Hq&Hv). split_and!; auto. exists q1. split; [auto|].
    rewrite Hd; [done|]. destruct Hq as (q0&Q'&->&_). set_solver.
  - rewrite Hn by set_solver. done.
  - rewrite Hn by set_solver. done.
Qed.

Lemma prel_frame g g' Q Q' F F' p up :
  (forall q, q ∈ F -> q ∈ F' /\ next_ g' !! q.2 = next_ g !! q.2) ->
  (forall n, n ∈ node_of p -> next_ g' !! n = next_ g !! n /\ data_ g' !! n = data_ g !! n) ->
  (forall Q1 q, Q = Q1 ++ [q] -> exists Q1', Q' = Q1' ++ [q]) ->
  prel g Q F p up -> prel g' Q' F' p up.
Proof.
  intros Hf Hn Hq H.
  destruct p as [|[]]; cbn [prel node_of] in *; try done.
  - destruct H as (->&q&->&Hq'). split; [done|]. exists q. split; [done|]. by apply Hf.
  - destruct H as (->&q&hi&->&Hq'&Hl). destruct (Hf q Hq') as [? E]. split; [done|].
    exists q, hi. by rewrite E.
  - destruct H as (->&q&->&Hq'&Hl). destruct (Hf q Hq') as [? E]. split; [done|].
    exists q. by rewrite E.
  - destruct (Hn node) as [E1 E2]; [set_solver|]. by rewrite E2.
  - destruct (Hn node) as [E1 E2]; [set_solver|]. by rewrite E1, E2.
  - destruct (Hn node) as [E1 E2]; [set_solver|]. by rewrite E1, E2.
  - destruct (Hn node) as [E1 E2]; [set_solver|]. by rewrite E1, E2.
  - destruct (Hn node) as [E1 E2]; [set_solver|]. rewrite E1, E2.
    destruct H as (?&?&?&Q1&q&HQ&->). destruct (Hq Q1 q HQ) as [Q1' ->]. eauto 10.
  - destruct (Hn node) as [E1 E2]; [set_solver|]. rewrite E1, E2.
    destruct H as (?&?&?&Q1&q&HQ&->). destruct (Hq Q1 q HQ) as [Q1' ->]. eauto 10.
  - destruct H as (?&Q1&q&HQ&->&Hne). destruct (Hq Q1 q HQ) as [Q1' ->]. eauto 10.
Qed.

(** ** The steps *)

Lemma values_same (d d' : list Z) (Q : list (Z * nat)) vs :
  (forall n, n ∈ Q.*2 -> d' !! n = d !! n) ->
  Forall2 (fun q v => d !! q.2 = Some v) Q vs -> Forall2 (fun q v => d' !! q.2 = Some v) Q vs.
Proof.
  intros Hd H. induction H as [|q v Q vs Hq H IH]; constructor.
  - rewrite Hd; [done|]. rewrite fmap_cons. set_solver.
  - apply IH. intros n Hn. apply Hd. rewrite fmap_cons. set_solver.
Qed.

Lemma RelL_prod Q F g p c s up uc Q' F' g' p' s' up' R vs :
  RelL Q F g p c s up uc ->
  length (next_ g') = max_ -> length (data_ g') = max_ -> out_ g' = out_ g -> Q' = Q ++ R ->
  chain (next_ g') (out_ g) Q' -> chain (next_ g') (head_ g') F' ->
  Q'.*2 ++ F'.*2 ++ node_of p' ≡ₚ Q.*2 ++ F.*2 ++ node_of p ->
  in_ok g' Q' p' -> (in_ g <> out_ g -> in_ g' <> out_ g) ->
  (forall n, n ∈ Q.*2 -> data_ g' !! n = data_ g !! n) ->
  (forall n, n ∈ node_of c -> next_ g' !! n = next_ g !! n) ->
  s' = s ++ vs -> Forall2 (fun q v => data_ g' !! q.2 = Some v) R vs ->
  prel g' Q' F' p' up' -> RelL Q' F' g' p' c s' up' uc.
Proof.
  intros HR Hl1 Hl2 Ho -> Hq Hf Hp Hi Hio Hd Hn -> Hvs Hpr.
  constructor; try done.
  - by rewrite Ho.
  - rewrite <-(r_part _ _ _ _ _ _ _ _ HR). rewrite !app_assoc in *. by rewrite Hp.
  - destruct (r_s _ _ _ _ _ _ _ _ HR) as (qs&->&Hqs). exists (qs ++ vs).
    split; [by rewrite app_assoc|]. destruct (q_nonempty HR) as (q0&Q0&EQ&_).
    rewrite EQ in *. simpl in *. apply Forall2_app; [|done].
    eapply values_same; [|exact Hqs]. intros n Hn'. apply Hd. set_solver.
  - apply (crel_frame g g' Q R); try done; [by rewrite Ho|apply HR].
Qed.

Lemma RelL_cons Q F g p c s up uc Q' F' g' c' s' uc' qs :
  RelL Q F g p c s up uc ->
  length (next_ g') = max_ -> length (data_ g') = max_ ->
  chain (next_ g') (out_ g') Q' -> chain (next_ g') (head_ g') F' ->
  Q'.*2 ++ F'.*2 ++ node_of c' ≡ₚ Q.*2 ++ F.*2 ++ node_of c ->
  in_ok g' Q' p ->
  (forall q, q ∈ F -> q ∈ F' /\ next_ g' !! q.2 = next_ g !! q.2) ->
  (forall n, n ∈ node_of p -> next_ g' !! n = next_ g !! n /\ data_ g' !! n = data_ g !! n) ->
  (forall Q1 q, Q = Q1 ++ [q] -> exists Q1', Q' = Q1' ++ [q]) ->
  s' = held c' ++ qs -> Forall2 (fun q v => data_ g' !! q.2 = Some v) (tail Q') qs ->
  crel g' Q' c' uc' -> RelL Q' F' g' p c' s' up uc'.
Proof.
  intros HR Hl1 Hl2 Hq Hf Hp Hi Hfr Hn Hsuf Hs Hqs Hc.
  constructor; try done.
  - rewrite <-(r_part _ _ _ _ _ _ _ _ HR).
    transitivity ((Q'.*2 ++ F'.*2 ++ node_of c') ++ node_of p); [solve_Permutation|].
    rewrite Hp. solve_Permutation.
  - by exists qs.
  - eapply prel_frame; [exact Hfr|exact Hn|exact Hsuf|apply HR].
Qed.

(** A step of the producer, of the consumer, that changes nothing. *)
Lemma p_move Q F g p c s up uc p' :
  RelL Q F g p c s up uc -> node_of p' = node_of p -> in_ok g Q p' -> prel g Q F p' up ->
  RelL Q F g p' c s up uc.
Proof.
  intros HR Hn Hi Hp. pose proof HR as []. apply (RelL_prod Q F g p c s up uc Q F g p' s up [] []); auto.
  - by rewrite app_nil_r.
  - by rewrite Hn.
  - by rewrite app_nil_r.
Qed.

Lemma c_move Q F g p c s up uc c' uc' :
  RelL Q F g p c s up uc -> node_of c' = node_of c -> held c' = held c -> crel g Q c' uc' ->
  RelL Q F g p c' s up uc'.
Proof.
  intros HR Hn Hh Hc. pose proof HR as []. destruct r_s0 as (qs&Hs&Hqs).
  apply (RelL_cons Q F g p c s up uc Q F g c' s uc' qs); eauto.
  - by rewrite Hn.
  - by rewrite Hh.
Qed.

(** [in_ok] of a producer that is not about to move [in_]. *)
Lemma in_ok_last g Q p :
  in_ok g Q p -> match p with Run (PSwing _ _) => False | _ => True end ->
  exists Q1 q, Q = Q1 ++ [q] /\ in_ g = dp q.
Proof. intros (Q1&q&->&[H|H]) Hp; [eauto|]. destruct p as [|[]]; done. Qed.

Lemma in_ok_any g g' Q p p' :
  in_ok g Q p -> match p with Run (PSwing _ _) => False | _ => True end -> in_ g' = in_ g ->
  in_ok g' Q p'.
Proof.
  intros Hi Hp Hg. destruct (in_ok_last g Q p Hi Hp) as (Q1&q&->&H). exists Q1, q.
  split; [done|]. left. by rewrite Hg.
Qed.

(** A store to the node that the producer owns. *)
Lemma p_store Q F g p c s up uc p' n l d :
  RelL Q F g p c s up uc -> node_of p = [n] -> node_of p' = [n] ->
  match p with Run (PSwing _ _) => False | _ => True end ->
  length l = max_ -> length d = max_ ->
  (forall m, m <> n -> l !! m = next_ g !! m /\ d !! m = data_ g !! m) ->
  prel (set_data d (set_next l g)) Q F p' up ->
  RelL Q F (set_data d (set_next l g)) p' c s up uc.
Proof.
  intros HR Hn Hn' Hp Hl Hd Hm Hpr. pose proof HR as [].
  destruct (owned_p HR n) as (HnQ&HnF&Hnc); [rewrite Hn; set_solver|].
  assert (forall h X, n ∉ X.*2 -> chain (next_ g) h X -> chain l h X) as Hch.
  { intros h X HnX. revert h. induction X as [|[t m] X IH]; intros h; simpl; [done|].
    intros (->&nx&E&Hc). split; [done|]. exists nx.
    rewrite (proj1 (Hm m ltac:(set_solver))). split; [done|]. apply IH; [set_solver|done]. }
  apply (RelL_prod Q F g p c s up uc Q F _ p' s up [] []); simpl; auto.
  - by rewrite app_nil_r.
  - by rewrite Hn, Hn'.
  - by eapply in_ok_any.
  - intros m HmQ. apply Hm. intros ->. done.
  - intros m Hmc. apply Hm. intros ->. done.
  - by rewrite app_nil_r.
Qed.

Lemma held_node g Q c uc : crel g Q c uc -> length (held c) = length (node_of c).
Proof. destruct c as [|[]]; done. Qed.

(** How many elements there are. *)
Lemma rel_length Q F g p c s up uc :
  RelL Q F g p c s up uc ->
  (S (length s) + length F + length (node_of p) = max_)%nat.
Proof.
  intros HR. pose proof HR as []. destruct r_s0 as (qs&->&Hqs).
  apply Forall2_length in Hqs. apply Permutation_length in r_part0.
  rewrite !length_app, !length_fmap, length_seq in r_part0.
  destruct (q_nonempty HR) as (q0&Q'&->&_). simpl in *.
  rewrite length_app, (held_node g _ c uc r_c0). lia.
Qed.

Definition push_goal (c : tstate loc) (s : list Z) (up uc : astate) (o : out) : Prop :=
  match o with
  | Next g' l' =>
      exists Q' F',
        RelL Q' F' g' (Run l') c s up uc \/
        exists v, up = APend (OPush v) /\
          RelL Q' F' g' (Run l') c (fst (queue_spec max_ s (OPush v)))
            (ADone (snd (queue_spec max_ s (OPush v)))) uc
  | Ret g' r =>
      exists Q' F',
        (up = ADone r /\ RelL Q' F' g' Idle c s AIdle uc) \/
        exists v, up = APend (OPush v) /\ snd (queue_spec max_ s (OPush v)) = r /\
          RelL Q' F' g' Idle c (fst (queue_spec max_ s (OPush v))) AIdle uc
  | Fault => False
  end.

Lemma set_idem_head g : set_head (head_ g) g = g. Proof. by destruct g. Qed.
Lemma set_idem_in g : set_in (in_ g) g = g. Proof. by destruct g. Qed.
Lemma set_idem_data g : set_data (data_ g) g = g. Proof. by destruct g. Qed.
Lemma set_idem_next g : set_next (next_ g) g = g. Proof. by destruct g. Qed.

Lemma store_as g n f : store_next g n f = set_data (data_ g) (set_next (alter f n (next_ g)) g).
Proof. by destruct g. Qed.

Lemma alloc_node_sim Q F g c s up uc l :
  RelL Q F g (Run l) c s up uc ->
  match l with
  | PHead _ | PNextLo _ _ | PNextHi _ _ _ | PCasHead _ _ _ | PClearLo _ _ | PClearHi _ _ =>
      push_goal c s up uc (AllocNode_step g l)
  | _ => True
  end.
Proof.
  intros HR. pose proof HR as []. destruct l; try done; cbn [prel AllocNode_step] in *.
  - unfold IsDoublePointerNull. case_bool_decide as Hn.
    + exists Q, F. right. exists v. split; [done|].
      assert (F = []) as ->. { rewrite Hn in r_f0. destruct F as [|[t n] F]; [done|by destruct r_f0]. }
      pose proof (rel_length _ _ _ _ _ _ _ _ HR) as Hlen. simpl in Hlen. simpl queue_spec.
      rewrite bool_decide_eq_true_2 by lia. split; [done|]. simpl.
      assert (RelL Q [] g Idle c s AIdle uc); [|done].
      apply (RelL_prod Q [] g (Run (PHead v)) c s up uc Q [] g Idle s AIdle [] []); auto.
      all: try (by rewrite app_nil_r). done.
    + exists Q, F. left. eapply p_move; [exact HR|done|by eapply in_ok_any|]. split; [done|].
      destruct F as [|q F]; [done|]. exists q. split; [by eapply chain_first|set_solver].
  - destruct r_p0 as (->&q&->&Hq). destruct (in_f HR q Hq) as [nx Hnx]. simpl. rewrite Hnx.
    exists Q, F. left. eapply p_move; [exact HR|done|by eapply in_ok_any|]. split; [done|].
    exists q, (snd nx). by destruct nx.
  - destruct r_p0 as (->&q&hi&->&Hq&Hnx). simpl. rewrite Hnx.
    exists Q, F. left. eapply p_move; [exact HR|done|by eapply in_ok_any|]. split; [done|].
    by exists q.
  - destruct r_p0 as (->&q&->&Hq&Hnx). simpl snd. destruct (atomic_cas _ _ _) as [[] m] eqn:Hc.
    + apply atomic_cas_true in Hc as [Hh ->]. destruct F as [|q' F']; [set_solver|].
      assert (q' = q) as ->.
      { pose proof (chain_first _ _ _ _ r_f0) as E. rewrite Hh in E. destruct q, q'.
        unfold dp in E. simpl in E. congruence. }
      destruct (chain_app _ _ [] q F' r_f0) as (nx&Hnx'&Hc'). rewrite Hnx in Hnx'.
      injection Hnx' as <-. exists Q, F'. left.
      apply (RelL_prod Q (q :: F') g _ c s _ uc Q F' _ _ s _ [] [] HR); simpl; auto.
      all: try (by rewrite app_nil_r).
      change (list_fmap _ _ snd F') with (F'.*2). solve_Permutation.
    + apply atomic_cas_false in Hc as [Hh ->]. exists Q, F. left. rewrite set_idem_head.
      eapply p_move; [exact HR|done|by eapply in_ok_any|done].
  - exists Q, F. left. rewrite store_as.
    eapply p_store; [exact HR|done|done|done|by rewrite length_alter|done| |done].
    intros m Hm. by rewrite list_lookup_alter_ne.
  - exists Q, F. left. rewrite store_as.
    eapply p_store; [exact HR|done|done|done|by rewrite length_alter|done| |done].
    intros m Hm. by rewrite list_lookup_alter_ne.
Qed.

Lemma push_sim Q F g c s up uc l :
  RelL Q F g (Run l) c s up uc -> is_push l = true -> push_goal c s up uc (Push_step g l).
Proof.
  intros HR Hl. pose proof (alloc_node_sim _ _ _ _ _ _ _ _ HR) as Hal. pose proof HR as [].
  destruct l; try done; cbn [prel Push_step] in *; try done.
  - exists Q, F. left.
    assert (set_data (<[node:=v]> (data_ g)) g =
      set_data (<[node:=v]> (data_ g)) (set_next (next_ g) g)) as -> by (by destruct g).
    eapply p_store; [exact HR|done|done|done|done|by rewrite length_insert| |].
    + intros m Hm. by rewrite list_lookup_insert_ne.
    + split; [done|]. simpl. apply list_lookup_insert_eq. rewrite r_data0.
      apply (part_lt HR). set_solver.
  - destruct r_p0 as (->&Hd). destruct (next_exists HR node) as [nx Hnx]; [set_solver|].
    exists Q, F. left. rewrite store_as.
    eapply p_store; [exact HR|done|done|done|by rewrite length_alter|done| |].
    + intros m Hm. by rewrite list_lookup_alter_ne.
    + split; [done|]. split; [done|]. exists (snd nx). simpl. by rewrite list_lookup_alter_eq, Hnx.
  - destruct r_p0 as (->&Hd&hi&Hnx). exists Q, F. left. rewrite store_as.
    eapply p_store; [exact HR|done|done|done|by rewrite length_alter|done| |].
    + intros m Hm. by rewrite list_lookup_alter_ne.
    + split; [done|]. split; [done|]. simpl. by rewrite list_lookup_alter_eq, Hnx.
  - exists Q, F. left.
    apply (RelL_prod Q F g _ c s _ uc Q F _ _ s _ [] [] HR); simpl; auto.
    all: by rewrite app_nil_r.
  - destruct r_p0 as (->&Hd&Hnx). exists Q, F. left.
    eapply p_move; [exact HR|done|by eapply in_ok_any|]. split_and!; try done.
    by apply (in_ok_last _ _ _ r_in0).
  - destruct r_p0 as (->&Hd&Hnx&Q1&q&->&->). simpl. rewrite (chain_last _ _ _ _ r_q0). simpl.
    exists (Q1 ++ [q]), F. left. eapply p_move; [exact HR|done|by eapply in_ok_any|].
    split_and!; try done. eauto.
  - destruct r_p0 as (->&Hd&Hnx&Q1&q&->&->). simpl snd. cbv iota.
    rewrite (chain_last _ _ _ _ r_q0). cbv zeta. unfold atomic_cas. rewrite decide_True by done.
    destruct (owned_p HR node) as (HnQ&HnF&Hnc); [set_solver|].
    exists ((Q1 ++ [q]) ++ [(id, node)]), F. right. exists v. split; [done|].
    pose proof (rel_length _ _ _ _ _ _ _ _ HR) as Hlen. simpl in Hlen. simpl queue_spec.
    rewrite bool_decide_eq_false_2 by lia. simpl.
    assert (q.2 ∈ (Q1 ++ [q]).*2) as HqQ by (rewrite fmap_app; set_solver).
    destruct (in_ok_last _ _ _ r_in0 I) as (Q1'&q'&E&Hin).
    apply app_inj_2 in E as [<- [= <-]]; [|done].
    eapply (RelL_prod (Q1 ++ [q]) F g _ c s _ uc _ F _ _ _ _ [(id, node)] [v] HR); simpl; auto.
    + by rewrite length_insert.
    + apply chain_snoc; [done|apply (nodup_q HR)|done|done].
    + apply chain_insert_ne; [|done]. intros HqF. pose proof (part_nodup HR) as Hdj.
      apply NoDup_app in Hdj as (_&Hdj&_). apply (Hdj _ HqQ). set_solver.
    + rewrite (fmap_app _ (Q1 ++ [q])). simpl. rewrite app_nil_r. solve_Permutation.
    + exists (Q1 ++ [q]), (id, node). split; [done|]. right. split; [done|]. by exists Q1, q.
    + intros m Hm. rewrite list_lookup_insert_ne; [done|]. intros <-.
      by destruct (owned_c HR q.2 Hm) as (?&_).
    + split; [done|]. exists (Q1 ++ [q]), (id, node). split_and!; try done. simpl.
      intros [= E]. by rewrite E in HqQ.
  - destruct r_p0 as (->&Q1&q&->&->&Hne). destruct (atomic_cas _ _ _) as [[] m] eqn:Hc.
    + apply atomic_cas_true in Hc as [Hh ->].
      exists (Q1 ++ [q]), F. left. split; [done|].
      apply (RelL_prod (Q1 ++ [q]) F g _ c s _ uc _ F _ _ s _ [] [] HR); simpl; auto.
      * by rewrite app_nil_r.
      * exists Q1, q. split; [done|]. by left.
      * intros _. destruct r_in0 as (Q1'&q'&E&[Hi|(Hi&Q2&q2&->&E2)]).
        { apply app_inj_2 in E as [<- [= <-]]; [|done]. rewrite Hh in Hi. rewrite Hi in Hne. done. }
        apply app_inj_2 in E as [-> [= <-]]; [|done].
        destruct Q2 as [|q0 Q2]; [by apply (later_ne_out HR [] q2 q [])|].
        apply (later_ne_out HR (Q2 ++ [q2]) q0 q []). done.
      * by rewrite app_nil_r.
    + apply atomic_cas_false in Hc as [Hh ->]. rewrite set_idem_in.
      exists (Q1 ++ [q]), F. left. split; [done|].
      apply (RelL_prod (Q1 ++ [q]) F g _ c s _ uc _ F g _ s _ [] [] HR); simpl; auto.
      * by rewrite app_nil_r.
      * destruct r_in0 as (Q1'&q'&E&[Hi|(Hi&_)]); [|done]. exists Q1', q'. auto.
      * by rewrite app_nil_r.
Qed.

Definition pop_goal (p : tstate loc) (s : list Z) (up uc : astate) (o : out) : Prop :=
  match o with
  | Next g' l' => exists Q' F', RelL Q' F' g' p (Run l') s up uc
  | Ret g' r =>
      uc = APend OPop /\ snd (queue_spec max_ s OPop) = r /\
      exists Q' F', RelL Q' F' g' p Idle (fst (queue_spec max_ s OPop)) up AIdle
  | Fault => False
  end.

(** A store to the node that the consumer owns. *)
Lemma c_store Q F g p c s up uc c' n f :
  RelL Q F g p c s up uc -> node_of c = [n] -> node_of c' = [n] -> held c' = held c ->
  crel (store_next g n f) Q c' uc -> RelL Q F (store_next g n f) p c' s up uc.
Proof.
  intros HR Hn Hn' Hh Hc. pose proof HR as []. destruct r_s0 as (qs&Hs&Hqs).
  destruct (owned_c HR n) as (HnQ&HnF&Hnp); [rewrite Hn; set_solver|].
  assert (forall m, m <> n -> next_ (store_next g n f) !! m = next_ g !! m) as Hm.
  { intros m Hm. simpl. by rewrite list_lookup_alter_ne. }
  apply (RelL_cons Q F g p c s up uc Q F _ c' s uc qs HR); try done.
  - simpl. by rewrite length_alter.
  - by apply LockFreeBuffer.chain_alter.
  - by apply LockFreeBuffer.chain_alter.
  - by rewrite Hn, Hn'.
  - intros q Hq. split; [done|]. apply Hm. intros <-. apply HnF, list_elem_of_fmap. eauto.
  - intros m Hmp. split; [|done]. apply Hm. by intros ->.
  - eauto.
  - by rewrite Hh.
Qed.

Lemma release_sim Q F g p s up uc l :
  RelL Q F g p (Run l) s up uc ->
  match l with
  | CId _ _ | CHead _ _ _ | CNextLo _ _ _ _ | CNextHi _ _ _ _ | CCasHead _ _ _ _ =>
      pop_goal p s up uc (ReleaseNode_step g l)
  | _ => True
  end.
Proof.
  intros HR. pose proof HR as []. pose proof r_s0 as (qs&Hs&Hqs).
  destruct l; try done; cbn [crel ReleaseNode_step held] in *.
  - rewrite bool_decide_eq_true_2 by (rewrite r_next0; apply (part_lt HR); set_solver).
    exists Q, F. apply (RelL_cons Q F g p _ s up uc Q F _ _ s uc qs HR); eauto.
  - exists Q, F. by eapply c_move.
  - destruct (next_exists HR node) as [nx Hnx]; [set_solver|].
    exists Q, F. eapply c_store; try done. split; [done|]. exists (snd nx).
    simpl. by rewrite list_lookup_alter_eq, Hnx.
  - destruct r_c0 as (->&hi&Hnx). exists Q, F. eapply c_store; try done. split; [done|].
    simpl. rewrite list_lookup_alter_eq, Hnx. simpl. by destruct old_head.
  - destruct r_c0 as (->&Hnx). destruct (owned_c HR node) as (HnQ&HnF&Hnp); [set_solver|].
    destruct (atomic_cas _ _ _) as [[] m] eqn:Hc.
    + apply atomic_cas_true in Hc as [Hh ->]. split; [done|]. rewrite Hs. simpl. split; [done|].
      exists Q, ((id, node) :: F).
      apply (RelL_cons Q F g p _ s up _ Q _ _ _ _ _ qs HR); simpl; eauto.
      * split; [done|]. exists old_head. split; [done|]. by rewrite <-Hh.
      * change (list_fmap _ _ snd F) with (F.*2). solve_Permutation.
      * intros q Hq. set_solver.
    + apply atomic_cas_false in Hc as [Hh ->]. rewrite set_idem_head. exists Q, F.
      by eapply c_move.
Qed.

Lemma pop_sim Q F g p s up uc l :
  RelL Q F g p (Run l) s up uc -> is_push l = false -> pop_goal p s up uc (Pop_step g l).
Proof.
  intros HR Hl. pose proof (release_sim _ _ _ _ _ _ _ _ HR) as Hrel.
  pose proof HR as []. pose proof r_s0 as (qs&Hs&Hqs).
  destruct (q_nonempty HR) as (q0&Q'&EQ&Eo).
  destruct l; try done; cbn [crel Pop_step held] in *; try done.
  - exists Q, F. by eapply c_move.
  - destruct r_c0 as (->&->). exists Q, F. eapply c_move; try done. split; [done|]. split; [done|].
    destruct (decide (in_ g = out_ g)); auto.
  - destruct r_c0 as (->&->&Hi).
    destruct (load_next g (snd (out_ g))) as [next|] eqn:Hld.
    + destruct (first_link HR next Hld) as [[-> Hone]|(q1&Hsec)].
      * simpl. split; [done|]. assert (s = []) as ->.
        { rewrite EQ in Hone, Hqs. destruct Q'; [|done]. simpl in Hqs. inversion Hqs. by subst. }
        split; [done|]. exists Q, F. by eapply c_move.
      * unfold IsDoublePointerNull. rewrite bool_decide_eq_false_2 by (by destruct Hsec as (?&?&_&->)).
        unfold IsDoublePointerEqual. case_bool_decide as He.
        -- exists Q, F. eapply c_move; try done. split_and!; try done. eauto.
        -- exists Q, F. eapply c_move; try done. destruct Hi as [->|Hi]; [done|].
           split_and!; try done. eauto.
    + rewrite Eo, EQ in *. simpl in Hld. destruct (chain_app _ _ [] _ _ r_q0) as (nx&Hnx&_).
      by rewrite Hld in Hnx.
  - destruct r_c0 as (->&->&->&q1&Hsec). destruct (atomic_cas _ _ _) as [[] m] eqn:Hc.
    + apply atomic_cas_true in Hc as [Hh ->]. exists Q, F.
      apply (RelL_cons Q F g p _ s up _ Q F _ _ s _ qs HR); simpl; eauto.
      destruct Hsec as (q0'&Q2&E&->). rewrite EQ in E. injection E as <- ->.
      destruct r_in0 as (Q1&q&E1&[Hi|Hi]).
      { exfalso. rewrite Hh in Hi. destruct Q1 as [|q2 Q1]; [by rewrite EQ in E1|].
        rewrite EQ in E1. injection E1 as <- E1.
        apply (later_ne_out HR Q1 q0 q []); [|done]. by rewrite EQ, E1. }
      destruct p as [|[]]; try done. destruct Hi as (Hi&Q3&q'&->&->).
      destruct Q3 as [|q3 Q3].
      { rewrite EQ in E1. injection E1 as _ -> ->. exists [q0], q. split; [done|]. by left. }
      exfalso. rewrite Hh in Hi. rewrite EQ in E1. injection E1 as <- E1.
      apply (later_ne_out HR Q3 q0 q' [q]); [|done]. rewrite EQ, E1. by rewrite <-app_assoc.
    + apply atomic_cas_false in Hc as [Hh ->]. rewrite set_idem_in. exists Q, F. by eapply c_move.
  - destruct r_c0 as (->&->&Hi&q1&Hsec). pose proof Hsec as (q0'&Q2&E&->). simpl.
    assert (exists v, data_ g !! q1.2 = Some v) as [v Hv].
    { rewrite E in Hqs. simpl in Hqs. inversion Hqs. eauto. }
    rewrite Hv. exists Q, F. eapply c_move; [exact HR|done|done|]. split_and!; eauto.
  - destruct r_c0 as (->&->&Hi&q1&Hsec&Hv). unfold atomic_cas. rewrite decide_True by done.
    rewrite Eo. simpl. destruct Hsec as (q0'&Q2&E&->). rewrite EQ in E. injection E as <- ->.
    exists (q1 :: Q2), F. rewrite EQ in Hqs. simpl in Hqs.
    apply Forall2_cons_inv_l in Hqs as (w&qs'&Hw&Hqs'&->). rewrite Hv in Hw. injection Hw as <-.
    apply (RelL_cons _ F g p _ _ up _ (q1 :: Q2) F _ _ _ _ qs' HR); simpl; eauto.
    + rewrite EQ in r_q0. destruct (chain_app _ _ [] q0 _ r_q0) as (nx&_&Hc'). simpl in Hc'.
      by rewrite <-(chain_first _ _ _ _ Hc').
    + rewrite EQ. simpl. change (list_fmap _ _ snd Q2) with (Q2.*2). solve_Permutation.
    + rewrite EQ in r_in0. destruct r_in0 as (Q1&q&E1&Hin). destruct Q1 as [|q2 Q1]; [done|].
      injection E1 as <- E1. exists Q1, q. split; [done|].
      destruct Hin as [?|Hin]; [by left|]. right. destruct p as [|[]]; try done.
      destruct Hin as (Hin&Q3&q'&E3&->). split; [done|].
      destruct Q3 as [|q3 Q3]; [|injection E3 as -> ->; by exists Q3, q'].
      injection E3 as -> ->. exfalso. apply Hi. by rewrite Hin, Eo.
    + intros Q1 q E1. rewrite EQ in E1. destruct Q1 as [|q2 Q1]; [done|]. injection E1 as _ E1.
      by exists Q1.
Qed.

End Spsc.

Lemma list_Rel_init max_ junk g :
  (0 < max_)%nat -> length junk = max_ -> LockFreeListQueue_init max_ junk = Some g ->
  Rel max_ g (replicate 2 Idle) tt [] (replicate 2 AIdle).
Proof.
  intros H0 Hj Hg. exists Idle, Idle, AIdle, AIdle, [(0, 0%nat)], (tail ((fun i => (Z.of_nat i, i)) <$> seq 0 max_)).
  split; [done|]. split; [done|].
  destruct max_ as [|k]; [lia|]. clear H0.
  unfold LockFreeListQueue_init, InitInternalNodeList in Hg. simpl in Hg.
  rewrite !Nat.sub_0_r in Hg.
  set (nx := (((fun i => (Z.of_nat (S i), Some (S i))) <$> seq 0 k) ++ [null_dp])) in Hg.
  assert (length nx = S k) as Hlen.
  { unfold nx. rewrite length_app, length_fmap, length_seq. simpl. lia. }
  assert (forall i, (i < k)%nat -> nx !! i = Some (Z.of_nat (S i), Some (S i))) as Hnx.
  { intros i Hi. unfold nx. rewrite lookup_app_l by (by rewrite length_fmap, length_seq).
    by rewrite list_lookup_fmap, lookup_seq_lt by done. }
  assert (nx !! k = Some null_dp) as Hk.
  { unfold nx. rewrite lookup_app_r by (by rewrite length_fmap, length_seq).
    by rewrite length_fmap, length_seq, Nat.sub_diag. }
  destruct (nx !! 0%nat) as [nx0|] eqn:E0; [|done]. simpl in Hg. injection Hg as <-.
  assert (forall n j h, (j + n = k)%nat -> (0 < j)%nat -> h = (Z.of_nat j, Some j) ->
    chain (<[0%nat:=null_dp]> nx) h ((fun i => (Z.of_nat i, i)) <$> seq j (S n))) as Hch.
  { intros n. induction n as [|n IH]; intros j h Hjn Hj0 ->.
    - simpl. split; [done|]. exists null_dp. rewrite list_lookup_insert_ne by lia.
      replace j with k by lia. done.
    - change (seq j (S (S n))) with (j :: seq (S j) (S n)). rewrite fmap_cons. split; [done|].
      exists (Z.of_nat (S j), Some (S j)). rewrite list_lookup_insert_ne by lia.
      split; [apply Hnx; lia|]. apply IH; [lia|lia|done]. }
  constructor; simpl; try done.
  - by rewrite length_insert.
  - split; [done|]. exists null_dp. by rewrite list_lookup_insert_eq by lia.
  - destruct k as [|k].
    + simpl. rewrite Hk in E0. by injection E0 as <-.
    + apply Hch; [lia|lia|]. rewrite Hnx in E0 by lia. by injection E0 as <-.
  - rewrite app_nil_r. rewrite <-list_fmap_compose. simpl.
    by rewrite list_fmap_id.
  - exists [], (0, 0%nat). split; [done|]. by left.
  - exists []. split; [done|]. constructor.
Qed.

(** C34. One producer and one consumer: every history of [Push] and [Pop] from the
    constructor's state is a history of a FIFO queue of capacity [max_ - 1] that
    executes each operation at once; no wild pointer is followed and the [assert]
    of [ReleaseNode] holds. *)
Theorem LockFreeList_spsc_linearizable (max_ : nat) (junk : list Z) (g : shared) :
  (0 < max_)%nat -> length junk = max_ -> LockFreeListQueue_init max_ junk = Some g ->
  linearizable start code spsc_inv any_ret (queue_spec max_) (init_cfg g 2 tt) (init_acfg [] 2 tt).
Proof.
  intros H0 Hj Hg. apply forward_simulation with (Rel max_); [..|by eapply list_Rel_init].
  - intros g1 ts k s us t (p&c&up&uc&Q&F&->&->&HR) Ht. pose proof HR as [].
    destruct t as [|[|t]]; by simplify_eq/=.
  - clear H0 Hj Hg. intros g1 ts k s us t o k' (p&c&up&uc&Q&F&->&->&HR) Ht Hu Hk.
    destruct o, t as [|[|t]]; try done; simplify_eq/=.
    + eexists _, _, _, _, Q, F. split; [done|]. split; [done|].
      pose proof HR as []. apply (RelL_prod max_ Q F g1 Idle c s AIdle uc Q F g1 _ s _ [] []); auto.
      all: try (by rewrite app_nil_r). done.
    + eexists _, _, _, _, Q, F. split; [done|]. split; [done|].
      pose proof HR as []. destruct r_s0 as (qs&Hs&Hqs).
      eapply (RelL_cons max_ Q F g1 p Idle s up AIdle Q F g1 (Run CReadOut) s _ qs); eauto. done.
  - clear H0 Hj Hg. intros g1 ts [] s us t l (p&c&up&uc&Q&F&->&->&HR) Ht.
    destruct t as [|[|t]]; simplify_eq/=.
    + assert (is_push l = true) as Hl. { pose proof HR as []. by destruct l. }
      pose proof (push_sim max_ _ _ _ _ _ _ _ _ HR Hl) as H. unfold code. rewrite Hl.
      destruct (Push_step g1 l) as [g' l'|g' r|]; [| |done]; destruct H as (Q'&F'&[H|H]).
      * left. by eexists _, _, _, _, Q', F'.
      * destruct H as (v&->&H). right. exists (OPush v). split; [done|].
        by eexists _, _, _, _, Q', F'.
      * destruct H as (->&H). left. split; [done|]. by eexists _, _, _, _, Q', F'.
      * destruct H as (v&->&Hr&H). right. exists (OPush v). split; [done|]. split; [done|].
        by eexists _, _, _, _, Q', F'.
    + assert (is_push l = false) as Hl. { pose proof HR as []. by destruct l. }
      pose proof (pop_sim max_ _ _ _ _ _ _ _ _ HR Hl) as H. unfold code. rewrite Hl.
      destruct (Pop_step g1 l) as [g' l'|g' r|]; [| |done].
      * left. destruct H as (Q'&F'&H). by eexists _, _, _, _, Q', F'.
      * destruct H as (->&Hr&Q'&F'&H). right. exists OPop. split; [done|]. split; [done|].
        by eexists _, _, _, _, Q', F'.
Qed.

Lemma LockFreeList_spsc_linearizable_witness :
  match LockFreeListQueue_init 3 [9; 9; 9] with
  | Some g =>
      linearizable start code spsc_inv any_ret (queue_spec 3) (init_cfg g 2 tt) (init_acfg [] 2 tt)
  | None => False
  end.
Proof.
  destruct (LockFreeListQueue_init 3 [9; 9; 9]) as [g|] eqn:Hg; [|discriminate Hg].
  apply (LockFreeList_spsc_linearizable 3 [9; 9; 9] g); [lia|reflexivity|exact Hg].
Defined.

(** ** Two producers

Thread 0 is delayed before it links its node behind node 0.  Thread 1 pushes 2
and thread 2 pops it: node 0 is given back, and since no node is free its link
becomes [NULL] again.  Thread 0's compare-and-swap succeeds on a free node. *)
Definition steps (t n : nat) : list (nat * act op) := replicate n (t, Step).

Definition two_producers : list (nat * act op) :=
  [(0%nat, Invoke (OPush 1))] ++ steps 0 12 ++
  [(1%nat, Invoke (OPush 2))] ++ steps 1 14 ++
  [(2%nat, Invoke OPop)] ++ steps 2 10 ++
  steps 0 2 ++
  [(2%nat, Invoke OPop)] ++ steps 2 3.

(** With a second producer [Push] is not safe: from the constructor's state of
    a queue of three nodes there is an execution in which two pushes return [true]
    and one element comes out, and then, with no operation under way, [Pop] finds
    the queue empty: the element of a push that returned [true] is lost. *)
Theorem LockFreeList_two_producers_lose :
  exists g n h c,
    LockFreeListQueue_init 3 [9; 9; 9] = Some g /\
    reach start code any_inv any_ret (init_cfg g 3 tt) n h c /\
    h = [EInv 0%nat (OPush 1); EInv 1%nat (OPush 2); ERes 1%nat (RPush true); EInv 2%nat OPop;
         ERes 2%nat (RPop (Some 2)); ERes 0%nat (RPush true); EInv 2%nat OPop;
         ERes 2%nat (RPop None)] /\
    ths c = [Idle; Idle; Idle].
Proof.
  eexists _, _, _, _. split; [reflexivity|]. split.
  - apply (run_reach _ _ _ _ two_producers). vm_compute. reflexivity.
  - vm_compute. auto.
Qed.
