(* ===== verification/PerThreadMemory.v ===== *)
(** * PerThreadMemory.v: [misc/PerThreadMemory.h] and [misc/src/PerThreadMemory.cc]

[PerThreadMemoryAlloc] gives each thread a list of its own of [population_ + 1]
fixed-size buffers; only the owner takes buffers from its list, any thread gives
them back.  One buffer, the [dummy], is out from the start and is given back when
the owner exits, so that the release of the last buffer finds the count
[population_ + 1] and frees the memory.

The [assert]s on the marks of the nodes are no steps of the model: nothing but a user who
writes outside his buffer can change a mark ([FillPadding_intact], [marks_untouched]).

The first part is the layout of a node; the second one list with its owner (thread
0) and the other threads, one access to shared memory per step.  The list is safe
under every interleaving, although its compare-and-swap has no tag; but
[atomic_increment] returns the old value, so that the test for [population_ + 1]
never succeeds and the memory is never freed. *)

From S2P Require Import Prelude Machine Conc.

(** ** Layout *)

Definition sizeof_Node : Z := 24.

Record layout : Type := Layout { align_ : Z; granularity_ : Z; offset_ : Z }.

(** The initialisers of the constructor. *)
Definition PerThreadMemoryAlloc_layout (granularity align : Z) : layout :=
  let a := AlignTo align 8 in
  let g := AlignTo granularity a in
  Layout a g (g - sizeof_Node mod g).

Definition stride (y : layout) : Z := sizeof_Node + offset_ y + granularity_ y.

(** The size of the block of [population + 1] nodes, the offset of node [i] in it
    and that of its buffer. *)
Definition block_size (y : layout) (population : Z) : Z := stride y * (population + 1).
Definition node_at (y : layout) (i : Z) : Z := i * stride y.
Definition buffer_at (y : layout) (i : Z) : Z := node_at y i + sizeof_Node + offset_ y.

(** [ReleaseBuffer] and [container_of]: from a buffer to its node. *)
Definition node_of_buffer (y : layout) (buf : Z) : Z := buf - offset_ y - sizeof_Node.

(** What [memset(buf, 0, granularity_)] in [DoReleaseBuffer] clears. *)
Definition cleared (y : layout) (i : Z) : Z * Z :=
  (node_at y i + sizeof_Node, node_at y i + sizeof_Node + granularity_ y).

(** ** One list *)

(** [nodes] are the [next] members; [cleaned]: [Cleaner] has freed the memory. *)
Record shared : Type := Shared {
  next : option nat;
  node_number : Z;
  nodes : list (option nat);
  cleaned : bool
}.

Definition set_next (x : option nat) (g : shared) : shared :=
  Shared x (node_number g) (nodes g) (cleaned g).
Definition set_number (x : Z) (g : shared) : shared :=
  Shared (next g) x (nodes g) (cleaned g).
Definition set_nodes (l : list (option nat)) (g : shared) : shared :=
  Shared (next g) (node_number g) l (cleaned g).

(** [atomic_increment] and [atomic_decrement] on an [int]. *)
Definition increment32 (cur : Z) : Z * Z := (cur, i32 (cur + 1)).
Definition decrement32 (cur : Z) : Z * Z := (cur, i32 (cur - 1)).

(** What a release is for: a user's buffer, the exit of the owner,
    [FreeCurThreadMemory]. *)
Inductive why : Type := ByUser | ByExit | ByFree.

Inductive op : Type := OAlloc | ORelease (node : nat) | OExit (dummy : nat) | OFree (dummy : nat).

Inductive res : Type := RAlloc (ret : option nat) | RRelease (w : why) | RNotFree (dummy : nat).

Inductive loc : Type :=
(* GetFreeBufferFromList *)
| GCheck
| GDecr
| GRead
| GNext (node : nat)
| GCas (node : nat) (nx : option nat)
| GClear (node : nat)
(* DoReleaseBuffer *)
| RAssert (w : why) (node : nat)
| RIncr (w : why) (node : nat)
| RRead (w : why) (node : nat) (sz : Z)
| RStore (w : why) (node : nat) (sz : Z) (old_head : option nat)
| RCas (w : why) (node : nat) (sz : Z) (old_head : option nat)
| RTest (w : why) (sz : Z)
(* FreeCurThreadMemory *)
| FCheck (dummy : nat).

Definition start (o : op) : loc :=
  match o with
  | OAlloc => GCheck
  | ORelease n => RAssert ByUser n
  | OExit d => RAssert ByExit d
  | OFree d => FCheck d
  end.

Section List.
Variable population : Z.

Abbreviation out := (outcome shared loc res).

Definition GetFreeBufferFromList_step (g : shared) (l : loc) : out :=
  match l with
  | GCheck => match next g with None => Ret g (RAlloc None) | Some _ => Next g GDecr end
  | GDecr =>
      let '(no, c) := decrement32 (node_number g) in
      if no =? 0 then Fault else Next (set_number c g) GRead
  | GRead => match next g with None => Fault | Some node => Next g (GNext node) end
  | GNext node =>
      match nodes g !! node with None => Fault | Some nx => Next g (GCas node nx) end
  | GCas node nx =>
      let '(ok, x) := atomic_cas (next g) (Some node) nx in
      Next (set_next x g) (if ok then GClear node else GRead)
  | GClear node => Ret (set_nodes (<[node:=None]> (nodes g)) g) (RAlloc (Some node))
  | _ => Fault
  end.

(** The [while] of [Cleaner]: the nodes from [cur] on. *)
Fixpoint count_nodes (fuel : nat) (ns : list (option nat)) (cur : option nat) : option Z :=
  match cur, fuel with
  | None, _ => Some 0
  | Some _, O => None
  | Some n, S fuel' => nx ← ns !! n; co ← count_nodes fuel' ns nx; Some (co + 1)
  end.

Definition Cleaner (g : shared) : option shared :=
  if negb (node_number g =? population + 1) then None else
  match count_nodes (length (nodes g)) (nodes g) (next g) with
  | Some co =>
      if co =? population + 1
      then Some (Shared (next g) (node_number g) (nodes g) true) else None
  | None => None
  end.

Definition DoReleaseBuffer_step (g : shared) (l : loc) : out :=
  match l with
  | RAssert w node =>
      match nodes g !! node with Some None => Next g (RIncr w node) | _ => Fault end
  | RIncr w node =>
      let '(sz, c) := increment32 (node_number g) in
      if sz <=? population + 1 then Next (set_number c g) (RRead w node sz) else Fault
  | RRead w node sz => Next g (RStore w node sz (next g))
  | RStore w node sz h => Next (set_nodes (<[node:=h]> (nodes g)) g) (RCas w node sz h)
  | RCas w node sz h =>
      let '(ok, x) := atomic_cas (next g) h (Some node) in
      Next (set_next x g) (if ok then RTest w sz else RRead w node sz)
  | RTest w sz =>
      if sz =? population + 1 then
        match Cleaner g with Some g' => Ret g' (RRelease w) | None => Fault end
      else Ret g (RRelease w)
  | _ => Fault
  end.

Definition FreeCurThreadMemory_step (g : shared) (l : loc) : out :=
  match l with
  | FCheck d =>
      if node_number g <? population then Ret g (RNotFree d) else Next g (RAssert ByFree d)
  | _ => Fault
  end.

Definition code (g : shared) (l : loc) : out :=
  match l with
  | GCheck | GDecr | GRead | GNext _ | GCas _ _ | GClear _ => GetFreeBufferFromList_step g l
  | FCheck _ => FreeCurThreadMemory_step g l
  | _ => DoReleaseBuffer_step g l
  end.

Definition Size (g : shared) : Z := node_number g.

(** [InitPerThreadList]: the nodes in a row, and one of them taken as the dummy. *)
Definition linked_nodes : shared :=
  let n := Z.to_nat population in
  Shared (Some 0%nat) (population + 1) (((fun i => Some (S i)) <$> seq 0 n) ++ [None]) false.

Definition InitPerThreadList : option (shared * nat) :=
  match solo code 6 linked_nodes GCheck with
  | Ret g (RAlloc (Some dummy)) => Some (g, dummy)
  | _ => None
  end.

(** ** The callers

Thread 0 owns the list: it alone allocates, and gives the dummy back when it exits
or by [FreeCurThreadMemory], after which it does not use this list any more.  A
buffer is released only while it is out, by any thread. *)
Record client : Type := Client { held : list nat; dummy : option nat }.

Fixpoint remove_one (n : nat) (l : list nat) : list nat :=
  match l with
  | [] => []
  | m :: l' => if decide (m = n) then l' else m :: remove_one n l'
  end.

Definition cl_inv (k : client) (t : nat) (o : op) : option client :=
  match o with
  | OAlloc => if decide (t = 0%nat /\ dummy k <> None) then Some k else None
  | ORelease n =>
      if decide (n ∈ held k) then Some (Client (remove_one n (held k)) (dummy k)) else None
  | OExit d | OFree d =>
      if decide (t = 0%nat /\ dummy k = Some d) then Some (Client (held k) None) else None
  end.

Definition cl_ret (k : client) (t : nat) (r : res) : client :=
  match r with
  | RAlloc (Some n) => Client (n :: held k) (dummy k)
  | RNotFree d => Client (held k) (Some d)
  | _ => k
  end.

(** ** The invariant *)

Fixpoint chain (ns : list (option nat)) (h : option nat) (F : list nat) : Prop :=
  match F with
  | [] => h = None
  | n :: F' => h = Some n /\ exists nx, ns !! n = Some nx /\ chain ns nx F'
  end.

(** The node a thread is taking or giving back. *)
Definition owner (x : tstate loc) : list nat :=
  match x with
  | Run (GClear n) | Run (RAssert _ n) | Run (RIncr _ n) | Run (RRead _ n _)
  | Run (RStore _ n _ _) | Run (RCas _ n _ _) | Run (FCheck n) => [n]
  | _ => []
  end.

Abbreviation owned := (gather owner).

(** What a thread's operation adds to [node_number] before it changes the list. *)
Definition ahead (x : tstate loc) : Z :=
  match x with
  | Run GRead | Run (GNext _) | Run (GCas _ _) => -1
  | Run (RRead _ _ _) | Run (RStore _ _ _ _) | Run (RCas _ _ _ _) => 1
  | _ => 0
  end.

Definition tinv (t : nat) (g : shared) (F : list nat) (x : tstate loc) : Prop :=
  match x with
  | Run GCheck => t = 0%nat
  | Run GDecr | Run GRead => t = 0%nat /\ F <> []
  | Run (GNext n) => t = 0%nat /\ n ∈ F
  | Run (GCas n nx) => t = 0%nat /\ n ∈ F /\ nodes g !! n = Some nx
  | Run (GClear n) => t = 0%nat
  | Run (RAssert _ n) => nodes g !! n = Some None
  | Run (FCheck n) => t = 0%nat /\ nodes g !! n = Some None
  | Run (RRead _ _ sz) | Run (RStore _ _ sz _) | Run (RTest _ sz) => sz <= population
  | Run (RCas _ n sz h) => sz <= population /\ nodes g !! n = Some h
  | _ => True
  end.

Record Inv (g : shared) (ts : list (tstate loc)) (k : client) : Prop := {
  i_len : Z.of_nat (length (nodes g)) = population + 1;
  i_ex : exists F,
    chain (nodes g) (next g) F /\
    F ++ owned ts ++ held k ++ option_list (dummy k) ≡ₚ seq 0 (length (nodes g)) /\
    node_number g = Z.of_nat (length F) + sum_with ahead ts /\
    forall t x, ts !! t = Some x -> tinv t g F x;
  i_out : forall m, m ∈ held k ++ option_list (dummy k) -> nodes g !! m = Some None;
  i_free : forall d, ts !! 0%nat = Some (Run (FCheck d)) -> dummy k = None;
  i_clean : cleaned g = false
}.

(** Every node is in the list, being taken or given back, out with a user, or the
    dummy, and in one of these places only. *)
Definition intact (g : shared) (ts : list (tstate loc)) (k : client) : Prop :=
  exists F, chain (nodes g) (next g) F /\
    F ++ owned ts ++ held k ++ option_list (dummy k) ≡ₚ seq 0 (length (nodes g)).

(** ** Lemmas on the list *)

Lemma list_alter ns ns' h F :
  (forall m, m ∈ F -> ns' !! m = ns !! m) -> chain ns h F -> chain ns' h F.
Proof.
  revert h. induction F as [|n F IH]; intros h Hs Hc; [done|].
  destruct Hc as (->&nx&Hn&Hc). split; [done|]. exists nx.
  split; [rewrite Hs; set_solver|]. apply IH; [set_solver|done].
Qed.

Lemma list_head ns h n F : chain ns h F -> h = Some n -> exists F', F = n :: F'.
Proof. destruct F as [|m F]; simpl; [intros -> [=]|]. intros (->&_) [= ->]. eauto. Qed.

Lemma list_head_exists ns h F : chain ns h F -> F <> [] -> exists n, h = Some n /\ n ∈ F.
Proof. destruct F as [|m F]; [done|]. intros (->&_) _. exists m. set_solver. Qed.

Lemma list_not_null ns h F : chain ns h F -> h <> None -> F <> [].
Proof. by destruct F. Qed.

Lemma ahead_le x : ahead x <= Z.of_nat (length (owner x)).
Proof. destruct x as [|[]]; simpl; lia. Qed.

Lemma sum_ahead_le ts : sum_with ahead ts <= Z.of_nat (length (owned ts)).
Proof.
  induction ts as [|x ts IH]; [done|]. change (owned (x :: ts)) with (owner x ++ owned ts).
  rewrite length_app. pose proof (ahead_le x). simpl. lia.
Qed.

Lemma tinv_frame t g g' F F' z :
  (forall m, m ∈ owner z \/ m ∈ F -> nodes g' !! m = nodes g !! m) ->
  t <> 0%nat \/ F ⊆ F' -> tinv t g F z -> tinv t g' F' z.
Proof.
  intros Hm HF. assert (F <> [] -> t = 0%nat -> F' <> []) as Hne.
  { destruct F as [|n F]; [done|]. intros _ ->. destruct HF as [|HF]; [done|]. intros ->. set_solver. }
  destruct z as [|[]]; simpl; try done; try (rewrite Hm; [done|set_solver]).
  - intros [??]; auto.
  - intros [??]; auto.
  - intros [-> ?]. destruct HF as [|HF]; [done|]. set_solver.
  - intros (->&?&?). rewrite Hm by auto. destruct HF as [|HF]; [done|]. set_solver.
Qed.

(** Only the owner takes a node from the list, and only when there is one. *)
Lemma sum_ahead_ge x ts :
  (forall i y, ts !! i = Some y -> 0 <= ahead y) -> ahead x <= sum_with ahead (x :: ts).
Proof.
  intros Hge. simpl. enough (0 <= sum_with ahead ts) by lia.
  induction ts as [|y ts IH]; simpl; [done|].
  pose proof (Hge 0%nat y eq_refl). specialize (IH (fun i => Hge (S i))). lia.
Qed.

Lemma owner_ahead g F x ts :
  (forall t y, (x :: ts) !! t = Some y -> tinv t g F y) -> ahead x <= sum_with ahead (x :: ts).
Proof.
  intros Ht. apply sum_ahead_ge. intros i y Hy. specialize (Ht (S i) y Hy).
  destruct y as [|[]]; simpl in *; lia.
Qed.

Lemma count_nonneg g F ts :
  (forall t x, ts !! t = Some x -> tinv t g F x) -> 0 <= Z.of_nat (length F) + sum_with ahead ts.
Proof.
  intros Ht. destruct ts as [|x ts]; [simpl; lia|]. pose proof (owner_ahead g F x ts Ht) as H.
  specialize (Ht 0%nat x eq_refl). destruct F; [|destruct x as [|[]]; simpl in *; lia].
  destruct x as [|[]]; simpl in *; try lia; [by destruct Ht|set_solver..].
Qed.

(** ** One step *)

Section Step.
Context {F : list nat} {g : shared} {ts : list (tstate loc)} {k : client} {t : nat} {x : tstate loc}.
Hypothesis Hchain : chain (nodes g) (next g) F.
Hypothesis Hpart :
  F ++ owned ts ++ held k ++ option_list (dummy k) ≡ₚ seq 0 (length (nodes g)).
Hypothesis Hlen : Z.of_nat (length (nodes g)) = population + 1.
Hypothesis Hnum : node_number g = Z.of_nat (length F) + sum_with ahead ts.
Hypothesis Hthr : forall t x, ts !! t = Some x -> tinv t g F x.
Hypothesis Hout : forall m, m ∈ held k ++ option_list (dummy k) -> nodes g !! m = Some None.
Hypothesis Hfree : forall d, ts !! 0%nat = Some (Run (FCheck d)) -> dummy k = None.
Hypothesis Hclean : cleaned g = false.
Hypothesis Ht : ts !! t = Some x.

Lemma part_length :
  Z.of_nat (length F + length (owned ts) + length (held k)) <= population + 1.
Proof.
  rewrite <-Hlen. apply Permutation_length in Hpart. rewrite !length_app, length_seq in Hpart. lia.
Qed.

Lemma owned_apart m :
  m ∈ owner x -> m ∉ F /\ m ∉ held k ++ option_list (dummy k) /\ (m < length (nodes g))%nat /\
  forall t' y, t' <> t -> ts !! t' = Some y -> m ∉ owner y.
Proof.
  clear Hchain Hlen Hnum Hthr Hout Hclean Hfree.
  intros Hm. destruct (gather_insert owner ts t x Ht) as (rest&Hr&Hins).
  assert (NoDup (F ++ (owner x ++ rest) ++ held k ++ option_list (dummy k))) as Hnd.
  { rewrite <-Hr, Hpart. apply NoDup_seq. }
  assert (m ∈ seq 0 (length (nodes g))) as Hs.
  { rewrite <-Hpart, Hr. set_solver. }
  apply elem_of_seq in Hs. apply NoDup_app in Hnd as (_&HF&Hnd).
  rewrite <-app_assoc in Hnd. apply NoDup_app in Hnd as (_&Hx&_).
  split_and!; [set_solver|set_solver|lia|]. intros t' y Hne Hy Hmy.
  apply (Hx m Hm), elem_of_app. left. rewrite <-(app_nil_l rest).
  rewrite <-(Hins Idle). apply (gather_lookup owner _ t' y); [|done].
  by rewrite list_lookup_insert_ne.
Qed.

(** Thread [t] moves from [x] to [y]: it may change the nodes it owns, the list and
    the count; what the others know stays true. *)
Lemma Inv_update F' g' k' y :
  length (nodes g') = length (nodes g) ->
  (forall m, m ∉ owner x -> nodes g' !! m = nodes g !! m) ->
  chain (nodes g') (next g') F' ->
  F' ++ owner y ++ held k' ++ option_list (dummy k') ≡ₚ
    F ++ owner x ++ held k ++ option_list (dummy k) ->
  node_number g' - Z.of_nat (length F') - ahead y =
    node_number g - Z.of_nat (length F) - ahead x ->
  (t = 0%nat \/ F ⊆ F') ->
  tinv t g' F' y ->
  (forall m, m ∈ held k' ++ option_list (dummy k') ->
    m ∈ held k ++ option_list (dummy k) \/ nodes g' !! m = Some None) ->
  (forall d, y = Run (FCheck d) -> dummy k' = None) ->
  (t = 0%nat \/ dummy k' = dummy k \/ dummy k' = None) ->
  cleaned g' = cleaned g ->
  Inv g' (<[t:=y]> ts) k'.
Proof.
  clear Hchain. intros Hl Hs Hc Hp Hn HF Hy Ho Hd1 Hd2 Hcl. constructor.
  - by rewrite Hl.
  - exists F'. split; [done|]. split_and!.
    + destruct (gather_insert owner ts t x Ht) as (rest&Hr&Hins).
      rewrite (Hins y), Hl, <-Hpart, Hr.
      transitivity (rest ++ (F' ++ owner y ++ held k' ++ option_list (dummy k')));
        [solve_Permutation|]. rewrite Hp. solve_Permutation.
    + rewrite (sum_with_insert _ _ _ _ _ Ht). lia.
    + intros t' z Hz. apply list_insert_inv in Hz as [[-> ->]|[Hne Hz]]; [done|].
      pose proof (Hthr t' z Hz) as Hi.
      assert (forall m, m ∈ owner z \/ m ∈ F -> nodes g' !! m = nodes g !! m) as Hm.
      { intros m Hm. apply Hs. intros Hx. destruct (owned_apart m Hx) as (H1&_&_&H2).
        destruct Hm as [Hm|Hm]; [|done]. by apply (H2 t' z). }
      apply (tinv_frame t' g g' F F' z Hm); [|done]. destruct HF as [->|]; auto.
  - intros m Hm. destruct (Ho m Hm) as [Hk|]; [|done]. rewrite Hs; [by apply Hout|].
    intros Hx. by destruct (owned_apart m Hx) as (_&?&_).
  - intros d Hd. apply list_insert_inv in Hd as [[<- <-]|[Hne Hd]]; [by eapply Hd1|].
    destruct Hd2 as [->|[->| ]]; [done|by eapply Hfree|done].
  - by rewrite Hcl.
Qed.

End Step.

Lemma set_next_same g : set_next (next g) g = g.
Proof. by destruct g. Qed.

(** The next place a thread is at, without a change of the shared state. *)
Lemma Inv_local g ts k t x y :
  Inv g ts k -> ts !! t = Some x -> owner y = owner x -> ahead y = ahead x ->
  (forall d, y <> Run (FCheck d)) ->
  (forall F, chain (nodes g) (next g) F -> tinv t g F x -> tinv t g F y) ->
  Inv g (<[t:=y]> ts) k.
Proof.
  intros [Hl (F&Hc&Hp&Hn&Ht) Ho Hf Hcl] Hx Hy Ha Hd Hi.
  apply (Inv_update Hp Hl Hn Ht Ho Hf Hcl Hx F); rewrite ?Hy; auto; try lia.
  intros d ->. by destruct (Hd d).
Qed.

Ltac upd F' :=
  match goal with
  | Hp : _ ≡ₚ seq _ _, Hl : _ = population + 1, Hn : _ = _ + sum_with _ _,
    Ht : context [tinv], Ho : context [_ -> _ = Some None],
    Hf : context [_ -> dummy _ = None], Hcl : cleaned _ = false, Hx : _ !! _ = Some (Run _) |- _ =>
      apply (Inv_update Hp Hl Hn Ht Ho Hf Hcl Hx F');
      simpl; rewrite ?length_insert; auto; try lia; try done; try solve_Permutation
  end.

Lemma take_sim g ts k t l :
  0 <= population -> population + 1 < 2 ^ 31 ->
  Inv g ts k -> ts !! t = Some (Run l) ->
  match l with
  | GCheck | GDecr | GRead | GNext _ | GCas _ _ | GClear _ =>
      match GetFreeBufferFromList_step g l with
      | Next g' l' => Inv g' (<[t:=Run l']> ts) k
      | Ret g' r => Inv g' (<[t:=Idle]> ts) (cl_ret k t r)
      | Fault => False
      end
  | _ => True
  end.
Proof.
  intros H0 Hmax HI Hx. pose proof HI as [Hl (F&Hc&Hp&Hn&Ht) Ho Hf Hcl].
  pose proof (Ht t _ Hx) as Hi. destruct l; try done; simpl in *.
  - destruct (next g) eqn:E; apply (Inv_local _ _ _ _ _ _ HI Hx); try done.
    intros F' Hc' _. split; [done|]. apply (list_not_null _ _ _ Hc'). by rewrite E.
  - destruct Hi as [-> HF].
    assert (0 <= sum_with ahead ts) as Hpos.
    { destruct ts as [|x ts']; [done|]. simpl in Hx. simplify_eq. by apply (owner_ahead g F (Run GDecr)). }
    pose proof (part_length Hp Hl). pose proof (sum_ahead_le ts).
    assert (1 <= length F)%nat by (destruct F; simpl; [done|lia]).
    destruct (Z.eqb_spec (node_number g) 0) as [E|E]; [lia|]. rewrite i32_id by lia. upd F.
  - destruct Hi as [-> HF]. destruct (list_head_exists _ _ _ Hc HF) as (n&E&HnF). rewrite E.
    apply (Inv_local _ _ _ _ _ _ HI Hx); try done. intros F' Hc' [_ HF']. split; [done|].
    destruct (list_head _ _ _ _ Hc' E) as (F''&->). set_solver.
  - destruct Hi as [-> HnF].
    assert (node < length (nodes g))%nat as Hlt.
    { assert (node ∈ seq 0 (length (nodes g))) as Hs by (rewrite <-Hp; set_solver).
      apply elem_of_seq in Hs. lia. }
    apply lookup_lt_is_Some_2 in Hlt as [nx Hnx]. rewrite Hnx.
    apply (Inv_local _ _ _ _ _ _ HI Hx); try done. by intros F' _ [_ ?].
  - destruct Hi as (->&HnF&Hnx). destruct (atomic_cas _ _ _) as [[] m] eqn:Hcas.
    + apply atomic_cas_true in Hcas as [Hh ->]. destruct (list_head _ _ _ _ Hc Hh) as (F'&->).
      destruct Hc as (_&nx'&Hnx'&Hc). simplify_eq. upd F'.
    + apply atomic_cas_false in Hcas as [Hh ->]. rewrite set_next_same.
      apply (Inv_local _ _ _ _ _ _ HI Hx); try done. intros F' _ (_&HF&_). split; [done|].
      intros ->. set_solver.
  - destruct (owned_apart Hp Hx node) as (HnF&Hno&Hlt&_); [set_solver|]. upd F.
    + intros m Hm. rewrite list_lookup_insert_ne; [done|set_solver].
    + apply (list_alter (nodes g)); [|done]. intros m Hm.
      rewrite list_lookup_insert_ne; [done|]. by intros ->.
    + intros m Hm. apply elem_of_cons in Hm as [->|Hm]; [right|by left].
      by rewrite list_lookup_insert_eq.
Qed.

Lemma give_back_sim g ts k t l :
  0 <= population -> population + 1 < 2 ^ 31 ->
  Inv g ts k -> ts !! t = Some (Run l) ->
  match l with
  | GCheck | GDecr | GRead | GNext _ | GCas _ _ | GClear _ => True
  | _ =>
      match code g l with
      | Next g' l' => Inv g' (<[t:=Run l']> ts) k
      | Ret g' r => Inv g' (<[t:=Idle]> ts) (cl_ret k t r)
      | Fault => False
      end
  end.
Proof.
  intros H0 Hmax HI Hx. pose proof HI as [Hl (F&Hc&Hp&Hn&Ht) Ho Hf Hcl].
  pose proof (Ht t _ Hx) as Hi. pose proof (part_length Hp Hl). pose proof (sum_ahead_le ts).
  destruct l; try done; simpl in *.
  - rewrite Hi. by apply (Inv_local _ _ _ _ _ _ HI Hx).
  - destruct (owned_apart Hp Hx node) as (HnF&Hno&Hlt&_); [set_solver|].
    pose proof (sum_with_insert ahead ts t _ (Run (RRead w node 0)) Hx) as Hs.
    pose proof (sum_ahead_le (<[t:=Run (RRead w node 0)]> ts)) as Hs'.
    destruct (gather_insert owner ts t _ Hx) as (rest&Hr&Hins).
    rewrite (Hins (Run (RRead w node 0))), <-Hr in Hs'. simpl in Hs, Hs'.
    pose proof (count_nonneg g F ts Ht).
    destruct (Z.leb_spec (node_number g) (population + 1)); [|lia].
    rewrite i32_id by lia. upd F.
  - by apply (Inv_local _ _ _ _ _ _ HI Hx).
  - destruct (owned_apart Hp Hx node) as (HnF&Hno&Hlt&_); [set_solver|]. upd F.
    + intros m Hm. rewrite list_lookup_insert_ne; [done|set_solver].
    + apply (list_alter (nodes g)); [|done]. intros m Hm.
      rewrite list_lookup_insert_ne; [done|]. by intros ->.
    + split; [done|]. by rewrite list_lookup_insert_eq.
  - destruct Hi as [Hsz Hnx]. destruct (atomic_cas _ _ _) as [[] m] eqn:Hcas.
    + apply atomic_cas_true in Hcas as [Hh ->]. upd (node :: F).
      * split; [done|]. exists old_head. split; [done|]. by rewrite <-Hh.
      * right. set_solver.
    + apply atomic_cas_false in Hcas as [Hh ->]. rewrite set_next_same.
      apply (Inv_local _ _ _ _ _ _ HI Hx); try done.
  - destruct (Z.eqb_spec sz (population + 1)); [lia|].
    by destruct w; apply (Inv_local _ _ _ _ _ _ HI Hx).
  - destruct (node_number g <? population).
    + destruct Hi as [-> Hi]. pose proof (Hf _ Hx) as Hd. upd F; rewrite Hd; [simpl; solve_Permutation|].
      intros m Hm. apply elem_of_app in Hm as [Hm|Hm]; [left; set_solver|right].
      by apply list_elem_of_singleton in Hm as ->.
    + apply (Inv_local _ _ _ _ _ _ HI Hx); try done. by intros F' _ [_ ?].
Qed.

Lemma remove_one_perm m l : m ∈ l -> m :: remove_one m l ≡ₚ l.
Proof.
  induction l as [|m' l IH]; [set_solver|]. simpl. intros Hm.
  case_decide as E; [by subst|]. rewrite Permutation_swap, IH; [done|]. set_solver.
Qed.

Lemma call_sim g ts k t o k' :
  Inv g ts k -> ts !! t = Some Idle -> cl_inv k t o = Some k' ->
  Inv g (<[t:=Run (start o)]> ts) k'.
Proof.
  intros [Hl (F&Hc&Hp&Hn&Ht) Ho Hf Hcl] Hx Hi.
  destruct o; simpl in *; case_decide as Hd; simplify_eq;
    apply (Inv_update Hp Hl Hn Ht Ho Hf Hcl Hx F); simpl; try done; try lia; auto; try apply Hd.
  - by rewrite <-(remove_one_perm node (held k)) at 2.
  - apply Ho. set_solver.
  - intros m Hm. left. rewrite <-(remove_one_perm node (held k)) by done. set_solver.
  - destruct Hd as [_ ->]. simpl. solve_Permutation.
  - destruct Hd as [_ E]. apply Ho. rewrite E. set_solver.
  - intros m Hm. left. set_solver.
  - destruct Hd as [_ ->]. simpl. solve_Permutation.
  - destruct Hd as [? E]. split; [done|]. apply Ho. rewrite E. set_solver.
  - intros m Hm. left. set_solver.
Qed.

(** ** The initial list *)

Lemma linked_chain ns a m :
  (forall i, (a <= i < a + m)%nat -> ns !! i = Some (Some (S i))) ->
  ns !! (a + m)%nat = Some None -> chain ns (Some a) (seq a (S m)).
Proof.
  revert a. induction m as [|m IH]; intros a Hi Hl.
  - rewrite Nat.add_0_r in Hl. simpl. eauto.
  - change (seq a (S (S m))) with (a :: seq (S a) (S m)). split; [done|].
    eexists. split; [apply Hi; lia|]. apply IH; [intros; apply Hi; lia|].
    by replace (S a + m)%nat with (a + S m)%nat by lia.
Qed.

Lemma InitPerThreadList_Inv n :
  0 <= population -> population + 1 < 2 ^ 31 ->
  exists g dummy, InitPerThreadList = Some (g, dummy) /\
    Inv g (replicate n Idle) (Client [] (Some dummy)).
Proof.
  intros H0 Hmax. unfold InitPerThreadList, linked_nodes.
  set (ns := ((fun i => Some (S i)) <$> seq 0 (Z.to_nat population)) ++ [None]).
  assert (length ns = S (Z.to_nat population)) as Hl.
  { unfold ns. rewrite length_app, length_fmap, length_seq. simpl. lia. }
  assert (forall i, (i < Z.to_nat population)%nat -> ns !! i = Some (Some (S i))) as Hi.
  { intros i Hlt. unfold ns. rewrite lookup_app_l by (rewrite length_fmap, length_seq; lia).
    by rewrite list_lookup_fmap, lookup_seq_lt by lia. }
  assert (ns !! Z.to_nat population = Some None) as Hlast.
  { unfold ns. rewrite lookup_app_r by (rewrite length_fmap, length_seq; lia).
    by rewrite length_fmap, length_seq, Nat.sub_diag. }
  destruct (lookup_lt_is_Some_2 ns 0%nat) as [nx Hnx]; [lia|].
  exists (Shared nx population (<[0%nat:=None]> ns) false), 0%nat. split.
  - cbn [solo code GetFreeBufferFromList_step next node_number decrement32 set_number nodes].
    destruct (Z.eqb_spec (population + 1) 0); [lia|].
    replace (population + 1 - 1) with population by lia. rewrite i32_id by lia.
    cbn -[ns lookup insert]. rewrite Hnx. done.
  - constructor; simpl; rewrite ?length_insert; [lia|..].
    + exists (seq 1 (Z.to_nat population)). split_and!.
      * destruct (Z.to_nat population) as [|m] eqn:E; [by simplify_eq|].
        rewrite Hi in Hnx by lia. simplify_eq. apply linked_chain.
        -- intros i Hr. rewrite list_lookup_insert_ne by lia. apply Hi. lia.
        -- by rewrite list_lookup_insert_ne.
      * rewrite gather_idle by done. rewrite Hl. simpl. solve_Permutation.
      * rewrite length_seq, sum_with_replicate. simpl. lia.
      * intros t x Hx. by apply lookup_replicate in Hx as [-> _].
    + intros m Hm. apply list_elem_of_singleton in Hm as ->. apply list_lookup_insert_eq. lia.
    + intros d Hd. by apply lookup_replicate in Hd as [[=] _].
    + done.
Qed.

(** From the list of a new thread, for any number of threads and any
    interleaving in which only the owner allocates and a buffer is given back only
    while it is out, no assertion fails and no thread follows a null pointer; every
    node is free, in hand, with a user, or the dummy, in one place only - so a buffer
    that is out is not handed out again, with no tag on the compare-and-swap - and
    [Cleaner] is never reached: the memory of the thread is never freed, whatever is
    released and whether or not the owner has exited. *)
Theorem per_thread_list_safe (n steps : nat) h g d c :
  0 <= population -> population + 1 < 2 ^ 31 ->
  InitPerThreadList = Some (g, d) ->
  reach start code cl_inv cl_ret (init_cfg g n (Client [] (Some d))) steps h c ->
  faulted c = false /\ intact (sh c) (ths c) (cl c) /\ NoDup (held (cl c)) /\
  cleaned (sh c) = false.
Proof.
  intros H0 Hmax Hg Hr. destruct (InitPerThreadList_Inv n H0 Hmax) as (g'&d'&Hg'&HI).
  assert (faulted c = false /\ Inv (sh c) (ths c) (cl c)) as (Hf&[_ (F&Hc&Hp&_) _ _ Hcl]).
  { apply (reach_invariant start code cl_inv cl_ret steps (fun _ => Inv)) with
      (init_cfg g n (Client [] (Some d))) steps h; [..|done| |exact Hr|lia].
    - intros m g1 ts k t o k' _ HI' Ht Hk. by eapply call_sim.
    - intros m g1 ts k t l _ HI' Ht.
      pose proof (take_sim _ _ _ _ _ H0 Hmax HI' Ht) as H1.
      pose proof (give_back_sim _ _ _ _ _ H0 Hmax HI' Ht) as H2. by destruct l.
    - by simplify_eq. }
  split_and!; [done|by exists F| |done].
  assert (NoDup (F ++ owned (ths c) ++ held (cl c) ++ option_list (dummy (cl c)))) as Hnd.
  { rewrite Hp. apply NoDup_seq. }
  apply NoDup_app in Hnd as (_&_&Hnd). apply NoDup_app in Hnd as (_&_&Hnd).
  by apply NoDup_app in Hnd as (Hnd&_&_).
Qed.

End List.

(** Two buffers and the dummy: the owner takes buffer 1, thread 1 gives it back, the
    owner exits. *)
Abbreviation all_returned :=
  ([(0%nat, Invoke OAlloc)] ++ replicate 6 (0%nat, Step) ++
   [(1%nat, Invoke (ORelease 1))] ++ replicate 6 (1%nat, Step) ++
   [(0%nat, Invoke (OExit 0))] ++ replicate 6 (0%nat, Step)).

(** Every node is back and [node_number] is [population_ + 1], but the last release
    saw the count before its own: [Cleaner] has not run. *)
Example memory_is_kept :
  run start (code 2) cl_inv cl_ret all_returned
    (init_cfg (Shared (Some 1%nat) 2 [None; Some 2%nat; None] false) 2 (Client [] (Some 0%nat))) [] =
  Some (Cfg (Shared (Some 0%nat) 3 [Some 1%nat; Some 2%nat; None] false) [Idle; Idle]
      (Client [] None) false,
    [EInv 0 OAlloc; ERes 0 (RAlloc (Some 1%nat)); EInv 1 (ORelease 1); ERes 1 (RRelease ByUser);
     EInv 0 (OExit 0); ERes 0 (RRelease ByExit)]).
Proof. vm_compute. reflexivity. Qed.

Lemma per_thread_list_safe_witness :
  let c := Cfg (Shared (Some 0%nat) 3 [Some 1%nat; Some 2%nat; None] false) [@Idle loc; Idle]
      (Client [] None) false in
  faulted c = false /\ intact (sh c) (ths c) (cl c) /\ NoDup (held (cl c)) /\
  cleaned (sh c) = false.
Proof.
  intros c.
  apply (per_thread_list_safe 2 2 21
    [EInv 0 OAlloc; ERes 0 (RAlloc (Some 1%nat)); EInv 1 (ORelease 1); ERes 1 (RRelease ByUser);
     EInv 0 (OExit 0); ERes 0 (RRelease ByExit)]
    (Shared (Some 1%nat) 2 [None; Some 2%nat; None] false) 0 c); [lia|lia|reflexivity|].
  apply (run_reach _ _ _ _ all_returned). exact memory_is_kept.
Defined.

(** ** Layout *)

Lemma layout_spec granularity align :
  0 < granularity -> 0 < align -> granularity + align + 8 < 2 ^ 31 ->
  let y := PerThreadMemoryAlloc_layout granularity align in
  granularity <= granularity_ y /\ align_ y mod 8 = 0 /\ granularity_ y mod align_ y = 0 /\
  0 < offset_ y <= granularity_ y /\ (sizeof_Node + offset_ y) mod granularity_ y = 0.
Proof.
  intros Hg Ha Hmax y. unfold y, PerThreadMemoryAlloc_layout. cbn [granularity_ align_ offset_].
  destruct (AlignTo_spec align 8) as [H1 H2]; [lia..|].
  destruct (AlignTo_spec granularity (AlignTo align 8)) as [H3 H4]; [lia..|].
  set (g := AlignTo granularity (AlignTo align 8)) in *. clearbody g.
  pose proof (Z.mod_pos_bound sizeof_Node g ltac:(lia)). split_and!; try done; try lia.
  replace (sizeof_Node + (g - sizeof_Node mod g)) with ((sizeof_Node / g + 1) * g).
  - by apply Z_mod_mult.
  - pose proof (Z.div_mod sizeof_Node g). lia.
Qed.

(** The buffers start at multiples of the granularity, lie in the block, do not overlap
    one another or a node, and [ReleaseBuffer] finds the node of a buffer. *)
Lemma per_thread_buffers_disjoint granularity align population i j :
  0 < granularity -> 0 < align -> granularity + align + 8 < 2 ^ 31 ->
  0 <= i <= population -> 0 <= j <= population ->
  let y := PerThreadMemoryAlloc_layout granularity align in
  node_of_buffer y (buffer_at y i) = node_at y i /\
  buffer_at y i mod granularity_ y = 0 /\
  0 <= node_at y i /\ buffer_at y i + granularity_ y <= block_size y population /\
  (i < j -> buffer_at y i + granularity_ y <= node_at y j).
Proof.
  intros Hg Ha Hmax Hi Hj y. destruct (layout_spec granularity align Hg Ha Hmax) as (H1&H2&H3&H4&H5).
  fold y in H1, H2, H3, H4, H5. unfold node_of_buffer, buffer_at, node_at, block_size, stride.
  set (s := sizeof_Node + offset_ y) in *. set (g := granularity_ y) in *.
  assert (s = sizeof_Node + offset_ y /\ 0 < s) as [Es Hs] by (unfold s, sizeof_Node; lia).
  clearbody s g. split_and!; try nia.
  replace (i * (s + g) + sizeof_Node + offset_ y) with ((i + 1) * s + i * g) by lia.
  rewrite Z.mod_add by lia. rewrite Z.mul_mod, H5, Z.mul_0_r by lia. by apply Z.mod_0_l; lia.
Qed.

(** [memset] on release starts [offset_] bytes before the buffer: of the buffer itself
    only the first [sizeof(Node) % granularity_] bytes are cleared. *)
Lemma cleared_part granularity align i :
  let y := PerThreadMemoryAlloc_layout granularity align in
  cleared y i = (buffer_at y i - offset_ y, buffer_at y i + sizeof_Node mod granularity_ y).
Proof. intros y. unfold cleared, buffer_at, y, PerThreadMemoryAlloc_layout; simpl. f_equal; lia. Qed.

(** ** The marks around a node *)

Definition gs_padding_char : bytes * bytes :=
  (["050"; nul; nul; nul]%char, ["035"; nul; nul; nul]%char).

Definition FillPadding (mem : bytes) (buf : nat) : bytes :=
  blit (blit mem buf gs_padding_char.1) (buf + 4) gs_padding_char.2.

Definition IsPaddingCorrupt (mem : bytes) (buf : nat) : bool :=
  negb (bool_decide (slice mem buf 4 = gs_padding_char.1)) ||
  negb (bool_decide (slice mem (buf + 4) 4 = gs_padding_char.2)).

(** A filled mark passes the check. *)
Lemma FillPadding_intact mem buf :
  (buf + 8 <= length mem)%nat -> IsPaddingCorrupt (FillPadding mem buf) buf = false.
Proof.
  intros H. unfold IsPaddingCorrupt, FillPadding.
  assert (length (blit mem buf gs_padding_char.1) = length mem) as Hl.
  { apply length_blit. simpl. lia. }
  rewrite slice_blit_before by (rewrite ?Hl; lia).
  rewrite (slice_blit mem gs_padding_char.1) by (simpl; lia).
  rewrite (slice_blit _ gs_padding_char.2) by (rewrite Hl; simpl; lia).
  by rewrite !bool_decide_true.
Qed.

(** Where the mark of node [i] is. *)
Definition mark_at (y : layout) (i : Z) : Z := node_at y i + 16.

Lemma slice_blit_after {A} (mem data : list A) off o n :
  (off + length data <= o)%nat -> (off + length data <= length mem)%nat ->
  slice (blit mem off data) o n = slice mem o n.
Proof.
  intros H1 H2. unfold slice, blit. f_equal.
  rewrite app_assoc, drop_app_ge; rewrite length_app, length_take, Nat.min_l by lia; [|lia].
  rewrite drop_drop. f_equal. lia.
Qed.

(** The code writes into the block at nodes, in buffers and in what [memset] clears; none of
    it reaches a mark, and neither does a user who stays in his buffer: the [assert]s on the
    marks, of which the steps above have none, hold as long as nobody writes outside his
    buffer. *)
Lemma marks_untouched granularity align i j mem p data :
  0 < granularity -> 0 < align -> granularity + align + 8 < 2 ^ 31 -> 0 <= i -> 0 <= j ->
  let y := PerThreadMemoryAlloc_layout granularity align in
  (buffer_at y i <= p /\ p + blen data <= buffer_at y i + granularity_ y) \/
  ((cleared y i).1 <= p /\ p + blen data <= (cleared y i).2) ->
  p + blen data <= blen mem ->
  IsPaddingCorrupt (blit mem (Z.to_nat p) data) (Z.to_nat (mark_at y j)) =
  IsPaddingCorrupt mem (Z.to_nat (mark_at y j)).
Proof.
  intros Hg Ha Hmax Hi Hj y Hp Hm. destruct (layout_spec granularity align Hg Ha Hmax) as (H1&_&_&H4&_).
  fold y in H1, H4. unfold cleared, buffer_at, mark_at, node_at in *. cbn [fst snd] in Hp.
  set (st := stride y) in *. assert (Hst : st = sizeof_Node + offset_ y + granularity_ y) by done.
  unfold sizeof_Node, blen in *. assert (0 <= p) by nia.
  assert (Hor : (Z.to_nat (j * st + 16) + 8 <= Z.to_nat p \/ Z.to_nat p + length data <= Z.to_nat (j * st + 16))%nat).
  { destruct (Z.le_gt_cases j i); [left; nia|right; nia]. }
  unfold IsPaddingCorrupt.
  destruct Hor; [rewrite !slice_blit_before by lia|rewrite !slice_blit_after by lia]; done.
Qed.
