(* ===== verification/PerThreadAlloc.v ===== *)
(** * PerThreadAlloc.v: the whole [PerThreadMemoryAlloc] - every thread with its list

[misc/src/PerThreadMemory.cc] over all threads of a process: [pthread_getspecific] is
[tls], a list for each thread; [AllocBuffer] makes the list of a thread that has none and
takes a buffer from it, [ReleaseBuffer] gives a buffer back to the list it comes from,
whichever thread calls it, [FreeCurThreadMemory] and [OnThreadExit] give the dummy back.
Every list is a configuration of PerThreadMemory.v, in which its owner is thread 0; a call
that has begun goes on in steps ([Go]), interleaved with those of the other threads.

The theorem: under any interleaving every list stays intact, no buffer is handed out
twice, no two threads share a list, and while no call is under way [Size] is the number of
buffers that are not out.  Nothing is ever freed: a thread that calls
[FreeCurThreadMemory], which reports success, gets a new list with its next buffer
([free_leaks]). *)

From S2P Require Import Prelude Machine Conc PerThreadMemory.

Abbreviation list_cfg := (cfg (G:=shared) (L:=loc) (C:=client)).

(** A thread is outside of a call, with what the last one returned, in a call on the list
    [j], or has exited. *)
Inductive tst : Type := TIdle (last : option res) | TBusy (j : nat) | TGone.

(** A list has the thread that made it. *)
Record alloc : Type := Alloc {
  lists : list (nat * list_cfg); tls : list (option nat); threads : list tst
}.

Definition alloc_init (n : nat) : alloc := Alloc [] (replicate n None) (replicate n (TIdle None)).

(** The number of the thread [u] in the list of [o], in which [o] is 0. *)
Definition seat (o u : nat) : nat := if decide (u = o) then 0%nat else if decide (u = 0%nat) then o else u.

Inductive aact : Type :=
| AllocBuffer (u : nat) (malloc_ok : bool)
| ReleaseBuffer (u j node : nat)        (* the buffer of [node] of the list [j] *)
| FreeCurThreadMemory (u : nat)
| OnThreadExit (u : nat)
| Go (u : nat).                         (* the next step of the call of [u] *)

Section Alloc.
Variable population : Z.

(** The call of [u] is over. *)
Definition finish (u : nat) (r : res) (w : alloc) : alloc :=
  match r with
  | RRelease ByFree => Alloc (lists w) (<[u := None]> (tls w)) (<[u := TIdle (Some r)]> (threads w))
  | RRelease ByExit => Alloc (lists w) (<[u := None]> (tls w)) (<[u := TGone]> (threads w))
  | _ => Alloc (lists w) (tls w) (<[u := TIdle (Some r)]> (threads w))
  end.

(** [u] calls an operation of the list [j], or goes on in it. *)
Definition call (u j : nat) (a : act op) (w : alloc) : option alloc :=
  match lists w !! j with
  | None => None
  | Some (o, c) =>
      match cstep start (code population) cl_inv cl_ret c (seat o u) a with
      | None => None
      | Some (c', e) =>
          let w' := Alloc (<[j := (o, c')]> (lists w)) (tls w) (<[u := TBusy j]> (threads w)) in
          Some (match e with ERes _ r :: _ => finish u r w' | _ => w' end)
      end
  end.

(** [InitPerThreadList]: the new list of [u]; [None] is a failed [assert]. *)
Definition new_list (u : nat) (w : alloc) : option (nat * alloc) :=
  match InitPerThreadList population with
  | Some (g, d) =>
      Some (length (lists w),
        Alloc (lists w ++ [(u, init_cfg g (length (threads w)) (Client [] (Some d)))])
          (<[u := Some (length (lists w))]> (tls w)) (threads w))
  | None => None
  end.

(** The dummy of the list [j], as [FreeCurThreadMemory] and [OnThreadExit] read it. *)
Definition dummy_of (j : nat) (w : alloc) : option nat :=
  match lists w !! j with Some (_, c) => dummy (cl c) | None => None end.

Definition astep (a : aact) (w : alloc) : option alloc :=
  match a with
  | AllocBuffer u ok =>
      match threads w !! u, tls w !! u with
      | Some (TIdle _), Some (Some j) => call u j (Invoke OAlloc) w
      | Some (TIdle _), Some None =>
          if ok then
            match new_list u w with Some (j, w) => call u j (Invoke OAlloc) w | None => None end
          else Some (Alloc (lists w) (tls w) (<[u := TIdle (Some (RAlloc None))]> (threads w)))   (* out of memory *)
      | _, _ => None
      end
  | ReleaseBuffer u j n =>
      match threads w !! u with Some (TIdle _) => call u j (Invoke (ORelease n)) w | _ => None end
  | FreeCurThreadMemory u =>
      match threads w !! u, tls w !! u with
      | Some (TIdle _), Some (Some j) =>
          match dummy_of j w with Some d => call u j (Invoke (OFree d)) w | None => None end
      | Some (TIdle _), Some None => Some (Alloc (lists w) (tls w) (<[u := TIdle None]> (threads w)))  (* [false] *)
      | _, _ => None
      end
  | OnThreadExit u =>
      match threads w !! u, tls w !! u with
      | Some (TIdle _), Some (Some j) =>
          match dummy_of j w with Some d => call u j (Invoke (OExit d)) w | None => None end
      | Some (TIdle _), Some None => Some (Alloc (lists w) (tls w) (<[u := TGone]> (threads w)))
      | _, _ => None
      end
  | Go u => match threads w !! u with Some (TBusy j) => call u j Step w | _ => None end
  end.

Fixpoint asteps (l : list aact) (w : alloc) : option alloc :=
  match l with
  | [] => Some w
  | a :: l' => match astep a w with Some w' => asteps l' w' | None => None end
  end.

Definition Size (u : nat) (w : alloc) : Z :=
  match tls w !! u with
  | Some (Some j) => match lists w !! j with Some (_, c) => PerThreadMemory.Size (sh c) | None => 0 end
  | _ => 0
  end.

(** ** One list *)

Abbreviation lstep := (cstep start (code population) cl_inv cl_ret).
Abbreviation linv c := (Inv population (sh c) (ths c) (cl c)).

Hypothesis population_nonneg : 0 <= population.
Hypothesis population_max : population + 1 < 2 ^ 31.

Lemma list_step (c c' : list_cfg) t a e :
  linv c -> faulted c = false -> lstep c t a = Some (c', e) ->
  linv c' /\ faulted c' = false /\ length (ths c') = length (ths c).
Proof.
  intros HI Hf H.
  assert (Hr : reach start (code population) cl_inv cl_ret c 1 ([] ++ e) c') by (econstructor; [constructor|exact H]).
  destruct (reach_invariant start (code population) cl_inv cl_ret 1 (fun _ => Inv population)) with c 1%nat ([] ++ e) c'
    as [Hf' HI']; try done.
  - intros m g ts k s o k' _ HI1 Ht Hk. by eapply call_sim.
  - intros m g ts k s l _ HI1 Ht.
    pose proof (take_sim population g ts k s l population_nonneg population_max HI1 Ht) as H1.
    pose proof (give_back_sim population g ts k s l population_nonneg population_max HI1 Ht) as H2. by destruct l.
  - split; [done|]. split; [done|].
    apply cstep_inv in H as [_ [(?&?&_&_&_&->&_)|[(?&?&?&_&_&_&->&_)|[(?&?&?&_&_&_&->&_)|(?&_&_&_&->&_)]]]];
      cbn; by rewrite ?length_insert.
Qed.

(** The owner is giving the dummy back. *)
Definition closing (x : tstate loc) : bool :=
  match x with
  | Run (FCheck _) => true
  | Run (RAssert w _ | RIncr w _ | RRead w _ _ | RStore w _ _ _ | RCas w _ _ _ | RTest w _) =>
      match w with ByUser => false | _ => true end
  | _ => false
  end.

Definition in_use (c : list_cfg) : Prop :=
  dummy (cl c) <> None \/ exists x, ths c !! 0%nat = Some x /\ closing x = true.

Lemma closing_step g l :
  closing (Run l) = true ->
  match code population g l with
  | Next g' l' => closing (Run l') = true
  | Ret g' r => (exists d, r = RNotFree d) \/ exists w, r = RRelease w /\ w <> ByUser
  | Fault => True
  end.
Proof.
  destruct l; cbn; try done; intros H; repeat case_match; simplify_eq/=; eauto.
Qed.

Lemma in_use_step (c c' : list_cfg) t a e :
  in_use c -> lstep c t a = Some (c', e) -> in_use c' \/ exists w, e = [ERes t (RRelease w)] /\ w <> ByUser /\ t = 0%nat.
Proof.
  intros Hu H. apply cstep_inv in H as [_ [(o&k&->&Ht&Hk&->&->)|[(l&g&l'&->&Ht&Hc&->&->)|[(l&g&r&->&Ht&Hc&->&->)|
    (l&->&Ht&Hc&->&->)]]]]; cbn.
  - left. destruct (decide (t = 0%nat)) as [->|Hne].
    + destruct Hu as [Hd|(x&Hx&Hcl)]; [|rewrite Ht in Hx; by injection Hx as <-].
      destruct o; cbn in Hk; case_decide; simplify_eq/=; [by left|by left|right..];
        eexists; (split; [apply list_lookup_insert_eq; by eapply lookup_lt_Some|done]).
    + destruct Hu as [Hd|(x&Hx&Hcl)].
      * left. destruct o; cbn in Hk; case_decide; simplify_eq/=; [done|done|tauto..].
      * right. exists x. cbn. by rewrite list_lookup_insert_ne.
  - left. destruct Hu as [Hd|(x&Hx&Hcl)]; [by left|right]. destruct (decide (t = 0%nat)) as [->|Hne].
    + rewrite Ht in Hx. injection Hx as <-. pose proof (closing_step (sh c) l Hcl) as H. rewrite Hc in H.
      eexists. split; [apply list_lookup_insert_eq; by eapply lookup_lt_Some|exact H].
    + exists x. cbn. by rewrite list_lookup_insert_ne.
  - destruct Hu as [Hd|(x&Hx&Hcl)].
    + left. left. destruct r as [[]| |]; cbn; done.
    + destruct (decide (t = 0%nat)) as [->|Hne].
      * rewrite Ht in Hx. injection Hx as <-. pose proof (closing_step (sh c) l Hcl) as H. rewrite Hc in H.
        destruct H as [[d ->]|(w&->&Hw)]; [left; by left|right; by exists w].
      * left. right. exists x. cbn. by rewrite list_lookup_insert_ne.
  - by left.
Qed.

(** ** All lists *)

Lemma seat_own o : seat o o = 0%nat.
Proof. unfold seat. by rewrite decide_True. Qed.

Lemma seat_zero o u : seat o u = 0%nat -> u = o.
Proof. unfold seat. repeat case_decide; congruence. Qed.

Lemma seat_inj o u v : seat o u = seat o v -> u = v.
Proof. unfold seat. repeat case_decide; congruence. Qed.

Lemma seat_lt o u n : (o < n)%nat -> (u < n)%nat -> (seat o u < n)%nat.
Proof. unfold seat. repeat case_decide; lia. Qed.

Record ainv (w : alloc) : Prop := {
  ai_len : length (tls w) = length (threads w);
  ai_list : forall j o c, lists w !! j = Some (o, c) ->
    linv c /\ faulted c = false /\ length (ths c) = length (threads w) /\ (o < length (threads w))%nat;
  ai_busy : forall j o c u l, lists w !! j = Some (o, c) -> (u < length (threads w))%nat ->
    ths c !! seat o u = Some (Run l) -> threads w !! u = Some (TBusy j);
  ai_tls : forall u j, tls w !! u = Some (Some j) -> exists c, lists w !! j = Some (u, c) /\ in_use c
}.

Lemma ainv_init n : ainv (alloc_init n).
Proof.
  split; cbn.
  - by rewrite !length_replicate.
  - intros j o c Hj. by rewrite lookup_nil in Hj.
  - intros j o c u l Hj. by rewrite lookup_nil in Hj.
  - intros u j Hu. by apply lookup_replicate in Hu as [[=] _].
Qed.

(** What [finish] changes. *)
Lemma finish_fields u r w :
  lists (finish u r w) = lists w /\ length (tls (finish u r w)) = length (tls w) /\
  length (threads (finish u r w)) = length (threads w) /\
  (forall v, v <> u -> tls (finish u r w) !! v = tls w !! v /\ threads (finish u r w) !! v = threads w !! v) /\
  (tls (finish u r w) = tls w \/ tls (finish u r w) = <[u := None]> (tls w)) /\
  (forall x, r = RRelease x -> x <> ByUser -> tls (finish u r w) = <[u := None]> (tls w)).
Proof.
  destruct r as [|[]|]; cbn; rewrite ?length_insert; split_and!; auto; try (by intros x [= <-]);
    intros v Hv; by rewrite !list_lookup_insert_ne.
Qed.

(** A step moves one thread of its list, and ends its call with the response. *)
Lemma lstep_other (c c' : list_cfg) t a e v : lstep c t a = Some (c', e) -> v <> t -> ths c' !! v = ths c !! v.
Proof.
  intros E Hv. apply cstep_inv in E as [_ [(?&?&_&_&_&->&_)|[(?&?&?&_&_&_&->&_)|[(?&?&?&_&_&_&->&_)|(?&_&_&_&->&_)]]]];
    cbn; by rewrite ?list_lookup_insert_ne.
Qed.

Lemma lstep_ret (c c' : list_cfg) t a t' r e' : lstep c t a = Some (c', ERes t' r :: e') -> ths c' !! t = Some Idle.
Proof.
  intros E. apply cstep_inv in E as [_ [(?&?&_&_&_&_&[=])|[(?&?&?&_&_&_&_&[=])|[(?&?&?&_&Ht&_&->&_)|(?&_&_&_&_&[=])]]]].
  cbn. apply list_lookup_insert_eq. by eapply lookup_lt_Some.
Qed.

(** The step of a call by [u], which has no other call: the list [j] goes from [c] to [c'],
    and the state before the response is [w1]. *)
Section Call.
Context {w : alloc} {u j o : nat} {c c' : list_cfg} {a : act op} {e : list (event op res)}.
Hypothesis Hinv : ainv w.
Hypothesis Hu : (u < length (threads w))%nat.
Hypothesis Hbusy : (exists r, threads w !! u = Some (TIdle r)) \/ threads w !! u = Some (TBusy j).
Hypothesis Hj : lists w !! j = Some (o, c).
Hypothesis E : lstep c (seat o u) a = Some (c', e).

Abbreviation w1 := (Alloc (<[j:=(o, c')]> (lists w)) (tls w) (<[u:=TBusy j]> (threads w))).

Lemma call_lookup x cx : lists w1 !! x = Some cx -> (x = j /\ cx = (o, c')) \/ (x <> j /\ lists w !! x = Some cx).
Proof. cbn. intros Hx. apply list_insert_inv in Hx as [[-> ->]|[? ?]]; auto. Qed.

Lemma call_list y oy cy :
  lists w1 !! y = Some (oy, cy) ->
  linv cy /\ faulted cy = false /\ length (ths cy) = length (threads w) /\ (oy < length (threads w))%nat.
Proof.
  intros Hy. destruct (call_lookup _ _ Hy) as [[-> [= -> ->]]|[_ Hy']]; [|by apply (ai_list _ Hinv y)].
  destruct (ai_list _ Hinv j o c Hj) as (HI&Hf&Hn&Ho).
  destruct (list_step c c' _ a e HI Hf E) as (HI'&Hf'&Hn'). split_and!; [done..|by rewrite Hn'|done].
Qed.

(** The other lists know nothing of [u]. *)
Lemma call_elsewhere x ox cx l : x <> j -> lists w !! x = Some (ox, cx) -> ths cx !! seat ox u <> Some (Run l).
Proof. intros Hne Hx Hr. pose proof (ai_busy _ Hinv x ox cx u l Hx Hu Hr). destruct Hbusy as [[? ?]|?]; congruence. Qed.

Lemma call_busy v y oy cy l :
  lists w1 !! y = Some (oy, cy) -> (v < length (threads w))%nat -> ths cy !! seat oy v = Some (Run l) ->
  threads w1 !! v = Some (TBusy y).
Proof.
  intros Hy Hvl Hr. cbn. destruct (call_lookup _ _ Hy) as [[-> [= -> ->]]|[Hne Hy']].
  - destruct (decide (v = u)) as [->|Hvu]; [by rewrite list_lookup_insert_eq|].
    rewrite list_lookup_insert_ne by done. rewrite (lstep_other _ _ _ _ _ _ E) in Hr by (by intros Hs%seat_inj).
    by eapply (ai_busy _ Hinv).
  - destruct (decide (v = u)) as [->|Hvu]; [by destruct (call_elsewhere _ _ _ _ Hne Hy' Hr)|].
    rewrite list_lookup_insert_ne by done. by eapply (ai_busy _ Hinv).
Qed.

(** A list stays in use until its owner has given the dummy back. *)
Lemma call_tls v y :
  tls w !! v = Some (Some y) ->
  (exists cx, lists w1 !! y = Some (v, cx) /\ in_use cx) \/
  exists x, e = [ERes (seat o u) (RRelease x)] /\ x <> ByUser /\ v = u.
Proof.
  intros Hv. destruct (ai_tls _ Hinv v y Hv) as (cx&Hx&Hux). cbn. destruct (decide (y = j)) as [->|Hne].
  - rewrite Hj in Hx. injection Hx as -> ->.
    destruct (in_use_step _ _ _ _ _ Hux E) as [?|(x&He&Hx&Hs)].
    + left. exists c'. rewrite list_lookup_insert_eq by (by eapply lookup_lt_Some). done.
    + right. exists x. split; [done|]. split; [done|]. by apply seat_zero in Hs.
  - left. exists cx. by rewrite list_lookup_insert_ne.
Qed.

Lemma call_inv_next : (forall t r e', e <> ERes t r :: e') -> ainv w1.
Proof.
  intros Hne. split; cbn [threads]; rewrite ?length_insert.
  - apply (ai_len _ Hinv).
  - intros y oy cy. apply call_list.
  - intros y oy cy v l. apply call_busy.
  - intros v y Hv. destruct (call_tls v y Hv) as [?|(x&He&_)]; [done|by destruct (Hne _ _ _ He)].
Qed.

Lemma call_inv_ret t r e' : e = ERes t r :: e' -> ainv (finish u r w1).
Proof.
  intros He. destruct (finish_fields u r w1) as (F1&F2&F3&F4&F5&F6).
  assert (Hidle : ths c' !! seat o u = Some Idle) by (rewrite He in E; by eapply lstep_ret).
  split.
  - rewrite F2, F3. cbn. rewrite length_insert. apply (ai_len _ Hinv).
  - intros y oy cy Hy. rewrite F1 in Hy. rewrite F3. cbn [threads]. rewrite length_insert. by apply (call_list y).
  - intros y oy cy v l Hy Hvl Hr. rewrite F1 in Hy. rewrite F3 in Hvl. cbn in Hvl. rewrite length_insert in Hvl.
    destruct (decide (v = u)) as [->|Hvu].
    + exfalso. destruct (call_lookup _ _ Hy) as [[-> [= -> ->]]|[Hne Hy']]; [congruence|].
      by apply (call_elsewhere _ _ _ l Hne Hy').
    + destruct (F4 v Hvu) as [_ ->]. by eapply call_busy.
  - intros v y Hv. rewrite F1.
    assert (Hv' : tls w !! v = Some (Some y)).
    { destruct F5 as [Eq|Eq]; rewrite Eq in Hv; [exact Hv|]. by apply list_insert_inv in Hv as [[_ [=]]|[_ Hv]]. }
    destruct (call_tls v y Hv') as [?|(x&He'&Hx&->)]; [done|]. exfalso. rewrite He in He'. injection He' as _ -> _.
    rewrite (F6 x eq_refl Hx) in Hv. rewrite list_lookup_insert_eq in Hv; [done|].
    cbn. by rewrite (ai_len _ Hinv).
Qed.
End Call.

Lemma call_inv u j a w w' :
  ainv w -> (exists r, threads w !! u = Some (TIdle r)) \/ threads w !! u = Some (TBusy j) -> call u j a w = Some w' -> ainv w'.
Proof.
  intros Hinv Hbusy H. assert (Hu : (u < length (threads w))%nat) by (destruct Hbusy as [[? ?]|?]; by eapply lookup_lt_Some).
  unfold call in H. destruct (lists w !! j) as [[o c]|] eqn:Hj; [|done].
  destruct (lstep c (seat o u) a) as [[c' e]|] eqn:E; [|done]. injection H as <-.
  destruct e as [|[t q|t r] e'].
  - by eapply call_inv_next.
  - by eapply call_inv_next.
  - by eapply call_inv_ret.
Qed.

Lemma new_list_inv u w j w' :
  ainv w -> (u < length (threads w))%nat -> new_list u w = Some (j, w') -> ainv w' /\ threads w' = threads w.
Proof.
  intros [Hlen Hl Hb Ht] Hu. unfold new_list.
  destruct (InitPerThreadList_Inv population (length (threads w)) population_nonneg population_max) as (g&d&->&HI).
  intros [= <- <-]. split; [|done]. split; cbn.
  - by rewrite length_insert.
  - intros y oy cy Hy. apply lookup_app_Some in Hy as [Hy|[Hge Hy]]; [by apply (Hl y)|].
    apply list_lookup_singleton_Some in Hy as [_ [= <- <-]]. cbn. by rewrite length_replicate.
  - intros y oy cy v l Hy Hvl Hr. apply lookup_app_Some in Hy as [Hy|[Hge Hy]]; [by eapply Hb|].
    apply list_lookup_singleton_Some in Hy as [_ [= <- <-]]. cbn in Hr. by apply lookup_replicate in Hr as [[=] _].
  - intros v y Hv. apply list_insert_inv in Hv as [[-> [= ->]]|[_ Hv]].
    + eexists. rewrite lookup_app_r, Nat.sub_diag by lia. split; [done|]. by left.
    + destruct (Ht v y Hv) as (cx&Hx&Hux). exists cx. split; [|done]. by apply lookup_app_l_Some.
Qed.

(** A thread outside of calls stays outside of calls. *)
Lemma idle_inv u r x w :
  ainv w -> threads w !! u = Some (TIdle r) -> (forall y, x <> TBusy y) ->
  ainv (Alloc (lists w) (tls w) (<[u := x]> (threads w))).
Proof.
  intros [Hlen Hl Hb Ht] Hu Hx. split; cbn; rewrite ?length_insert; try done.
  intros y oy cy v l Hy Hvl Hr. rewrite list_lookup_insert_ne; [by eapply Hb|]. intros ->.
  pose proof (Hb _ _ _ _ _ Hy Hvl Hr). congruence.
Qed.

Lemma astep_inv a w w' : ainv w -> astep a w = Some w' -> ainv w'.
Proof.
  intros HI H. destruct a as [u ok|u j n|u|u|u]; cbn [astep] in H;
    destruct (threads w !! u) as [[r|x|]|] eqn:Hu; try discriminate H.
  - destruct (tls w !! u) as [[y|]|]; [by eapply call_inv; eauto| |done].
    destruct ok; [|injection H as <-; by eapply idle_inv]. destruct (new_list u w) as [[y w1]|] eqn:En; [|done].
    destruct (new_list_inv u w y w1 HI) as [HI1 Hth]; [by eapply lookup_lt_Some|done|].
    eapply (call_inv u y); [exact HI1|by left; exists r; rewrite Hth|exact H].
  - by eapply call_inv; eauto.
  - destruct (tls w !! u) as [[y|]|]; [|injection H as <-; by eapply idle_inv|done]. destruct (dummy_of y w); [|done].
    by eapply call_inv; eauto.
  - destruct (tls w !! u) as [[y|]|] eqn:Et; [| |done].
    + destruct (dummy_of y w); [|done]. by eapply call_inv; eauto.
    + injection H as <-. by eapply idle_inv.
  - by eapply call_inv; eauto.
Qed.

Lemma asteps_inv l w w' : ainv w -> asteps l w = Some w' -> ainv w'.
Proof.
  revert w. induction l as [|a l IH]; intros w HI H; cbn in H; [by injection H as <-|].
  destruct (astep a w) as [w1|] eqn:E; [|done]. apply (IH w1); [|done]. by eapply astep_inv.
Qed.

(** Between calls the count of a list is the number of its free buffers. *)
Lemma idle_count (c : list_cfg) :
  linv c -> (forall x, x ∈ ths c -> x = Idle) ->
  node_number (sh c) = population + 1 - Z.of_nat (length (held (cl c) ++ option_list (dummy (cl c)))).
Proof.
  intros [Hl (F&Hc&Hp&Hn&_) _ _ _] Hidle.
  assert (Hall : ths c = replicate (length (ths c)) Idle) by (symmetry; by apply replicate_as_elem_of).
  rewrite Hall, gather_idle in Hp by done. rewrite Hall, sum_with_replicate in Hn. change (ahead Idle) with 0 in Hn.
  apply Permutation_length in Hp. rewrite !length_app, length_seq in Hp. cbn [length] in Hp.
  rewrite length_app. lia.
Qed.

Lemma quiet_count w j o c :
  ainv w -> lists w !! j = Some (o, c) -> (forall u, threads w !! u <> Some (TBusy j)) ->
  node_number (sh c) = population + 1 - Z.of_nat (length (held (cl c) ++ option_list (dummy (cl c)))).
Proof.
  intros HI Hj Hq. destruct (ai_list _ HI j o c Hj) as (Hl&_&Hlen&Ho). apply idle_count; [done|].
  intros x Hx. apply list_elem_of_lookup in Hx as [i Hi]. destruct x as [|l]; [done|exfalso].
  assert (Hs : exists u, (u < length (threads w))%nat /\ seat o u = i).
  { pose proof (lookup_lt_Some _ _ _ Hi). unfold seat.
    exists (if decide (i = 0%nat) then o else if decide (i = o) then 0%nat else i).
    repeat case_decide; split; lia. }
  destruct Hs as (u&Hu&<-). by apply (Hq u), (ai_busy _ HI j o c u l Hj Hu).
Qed.

(** C13. The allocator as a whole, for any number of threads, with any of them allocating,
    releasing each other's buffers, giving their memory back or exiting, and under any
    interleaving: no assertion fails; in every list each buffer is free, in hand, with a user
    or the dummy, in one place only, so that no buffer is out twice; no two threads allocate
    from the same list; while no call is under way in it [Size] of a thread is the number of
    buffers of its list that are not out; and no memory is ever freed. *)
Theorem allocator_safe (n : nat) (l : list aact) (w : alloc) :
  asteps l (alloc_init n) = Some w ->
  (forall j o c, lists w !! j = Some (o, c) ->
     faulted c = false /\ intact (sh c) (ths c) (cl c) /\ NoDup (held (cl c)) /\ cleaned (sh c) = false) /\
  (forall u v j, tls w !! u = Some (Some j) -> tls w !! v = Some (Some j) -> u = v) /\
  (forall u j o c, tls w !! u = Some (Some j) -> lists w !! j = Some (o, c) ->
     (forall v, threads w !! v <> Some (TBusy j)) -> Size u w = population - Z.of_nat (length (held (cl c)))).
Proof.
  intros H. assert (HI : ainv w) by (eapply asteps_inv; [apply ainv_init|exact H]). split_and!.
  - intros j o c Hj. destruct (ai_list _ HI j o c Hj) as ([_ (F&Hc&Hp&_) _ _ Hcl]&Hf&_).
    split; [done|]. split; [by exists F|]. split; [|done].
    assert (Hnd : NoDup (F ++ gather owner (ths c) ++ held (cl c) ++ option_list (dummy (cl c)))) by (rewrite Hp; apply NoDup_seq).
    apply NoDup_app in Hnd as (_&_&Hnd). apply NoDup_app in Hnd as (_&_&Hnd). by apply NoDup_app in Hnd as (Hnd&_&_).
  - intros u v j Hu Hv. destruct (ai_tls _ HI u j Hu) as (c1&H1&_). destruct (ai_tls _ HI v j Hv) as (c2&H2&_). congruence.
  - intros u j o c Hu Hj Hq. unfold Size. rewrite Hu, Hj. unfold PerThreadMemory.Size.
    rewrite (quiet_count w j o c HI Hj Hq). destruct (ai_tls _ HI u j Hu) as (cx&Hx&Hux).
    rewrite Hj in Hx. injection Hx as -> ->. destruct Hux as [Hd|(x&Hx&Hcl)].
    + destruct (dummy (cl cx)); [|done]. rewrite length_app. cbn. lia.
    + exfalso. destruct x as [|l0]; [done|]. apply (Hq u), (ai_busy _ HI j u cx u l0 Hj).
      * destruct (ai_list _ HI j u cx Hj) as (_&_&_&Ho). exact Ho.
      * by rewrite seat_own.
Qed.
End Alloc.

(** ** Two threads *)

(** Thread 0 allocates; thread 1 gives the buffer back, allocates for itself and exits;
    thread 0 frees its memory. *)
Definition demo_acts : list aact :=
  AllocBuffer 0 true :: replicate 6 (Go 0) ++ ReleaseBuffer 1 0 1 :: replicate 6 (Go 1) ++
  AllocBuffer 1 true :: replicate 6 (Go 1) ++ OnThreadExit 1 :: replicate 6 (Go 1) ++
  FreeCurThreadMemory 0 :: replicate 7 (Go 0).

Definition demo_alloc : alloc := default (alloc_init 2) (asteps 2 demo_acts (alloc_init 2)).

Lemma allocator_safe_witness :
  (forall j o c, lists demo_alloc !! j = Some (o, c) ->
     faulted c = false /\ intact (sh c) (ths c) (cl c) /\ NoDup (held (cl c)) /\ cleaned (sh c) = false) /\
  (forall u v j, tls demo_alloc !! u = Some (Some j) -> tls demo_alloc !! v = Some (Some j) -> u = v) /\
  (forall u j o c, tls demo_alloc !! u = Some (Some j) -> lists demo_alloc !! j = Some (o, c) ->
     (forall v, threads demo_alloc !! v <> Some (TBusy j)) ->
     Size u demo_alloc = 2 - Z.of_nat (length (held (cl c)))).
Proof. apply (allocator_safe 2 ltac:(lia) ltac:(lia) 2 demo_acts demo_alloc). vm_compute. reflexivity. Defined.

(** [FreeCurThreadMemory] has taken the dummy back and forgotten the list, which is whole
    again and still allocated: the next buffer of thread 0 comes from a new list. *)
Example free_leaks :
  tls demo_alloc = [None; None] /\ threads demo_alloc = [TIdle (Some (RRelease ByFree)); TGone] /\
  map (fun x => (node_number (sh (snd x)), cleaned (sh (snd x)))) (lists demo_alloc) = [(3, false); (2, false)] /\
  match asteps 2 (AllocBuffer 0 true :: replicate 6 (Go 0)) demo_alloc with
  | Some w => tls w = [Some 2%nat; None] /\ length (lists w) = 3%nat /\ Size 0 w = 1
  | None => False
  end.
Proof. by vm_compute. Qed.
