(* ===== verification/PerThreadTest.v ===== *)
(** * PerThreadTest.v: [misc/unittest/PerThreadMemoryTest.cc] as a client of the allocator

The threads of the test run [TestProc] over one [PerThreadMemoryAlloc], in any interleaving
of the steps of PerThreadAlloc.v: they allocate, release, count and give back, and compare
what they get with what the test expects.  The theorem: for any number of threads and rounds
no expectation fails.  The last part of the test, in which tasks of a thread pool pass a
buffer on, is not part of it. *)

From S2P Require Import Prelude Machine Conc PerThreadMemory PerThreadAlloc.

(** ** The program *)

(** [IAlloc]: [AllocBuffer], with what the test expects of the result; [ISize n]:
    [EXPECT_EQ(n, alloc.Size())]; [IFlag], [ILoad], [IStore]: the test of [gs_flag] and its
    increment.  [IExit] is the end of the thread's function. *)
Inductive instr : Type :=
| IAlloc (expect : option bool)
| IRelease
| ISize (n : Z)
| IFlag | ILoad | IStore (v : Z) | IFree
| IExit.

Section Program.
Variable population : Z.

Definition TestProc : list instr :=
  [IAlloc None; ISize (population - 1); IRelease; ISize population;
   IAlloc None; IAlloc None; ISize (population - 2); IRelease; IRelease; ISize population] ++
  replicate (Z.to_nat population) (IAlloc (Some true)) ++
  [ISize 0; IAlloc (Some false)] ++
  mjoin (map (fun i => [IRelease; ISize (Z.of_nat i + 1)]) (seq 0 (Z.to_nat population))) ++
  [IFlag].

(** [Run] of a task, which looks at its stop flag before every round, and the part of the
    main thread: so many rounds. *)
Definition test_thread (rounds : nat) : list instr :=
  ISize 0 :: mjoin (replicate rounds TestProc) ++ [IExit].

(** A thread: what it has to do, its buffers (list and node) from the oldest on, the
    expectation of the call of [AllocBuffer] that it is in, and whether all went well. *)
Record env : Type := Env {
  todo : list instr; bufs : list (nat * nat); expects : option (option bool); passed : bool
}.

Record test : Type := Test { allocator : alloc; gs_flag : Z; envs : list env }.

Definition set_env (u : nat) (e : env) (s : test) : test := Test (allocator s) (gs_flag s) (<[u := e]> (envs s)).

(** The thread [u] calls the allocator and continues with [e]. *)
Definition call_alloc (a : aact) (u : nat) (e : env) (s : test) : option test :=
  match astep population a (allocator s) with
  | Some w => Some (Test w (gs_flag s) (<[u := e]> (envs s)))
  | None => None
  end.

(** The expectation [x] of a buffer that is not [NULL], or that is. *)
Definition meets (x : option bool) (r : option nat) : bool :=
  match x, r with
  | None, _ | Some true, Some _ | Some false, None => true
  | _, _ => false
  end.

(** [AllocBuffer] has returned [r]. *)
Definition take_buffer (u : nat) (x : option bool) (r : option nat) (e : env) (s : test) : option test :=
  match r, tls (allocator s) !! u with
  | Some n, Some (Some j) =>
      Some (set_env u (Env (todo e) (bufs e ++ [(j, n)]) None (passed e && meets x r)) s)
  | None, _ => Some (set_env u (Env (todo e) (bufs e) None (passed e && meets x r)) s)
  | _, _ => None
  end.

(** The next step of the thread [u], which is not in a call. *)
Definition test_instr (u : nat) (e : env) (s : test) : option test :=
  match todo e with
  | [] => None
  | IAlloc x :: l => call_alloc (AllocBuffer u true) u (Env l (bufs e) (Some x) (passed e)) s
  | IRelease :: l =>
      match bufs e with
      | (j, n) :: bs => call_alloc (ReleaseBuffer u j n) u (Env l bs None (passed e)) s
      | [] => None
      end
  | ISize n :: l =>
      Some (set_env u (Env l (bufs e) None (passed e && (Size u (allocator s) =? n))) s)
  | IFlag :: l =>
      Some (set_env u (Env ((if gs_flag s <? 2 then [ILoad; IFree; ISize 0] else [ISize population]) ++ l)
        (bufs e) None (passed e)) s)
  | ILoad :: l => Some (set_env u (Env (IStore (gs_flag s + 1) :: l) (bufs e) None (passed e)) s)
  | IStore v :: l => Some (Test (allocator s) v (<[u := Env l (bufs e) None (passed e)]> (envs s)))
  | IFree :: l => call_alloc (FreeCurThreadMemory u) u (Env l (bufs e) None (passed e)) s
  | IExit :: l => call_alloc (OnThreadExit u) u (Env l (bufs e) None (passed e)) s
  end.

Definition test_step (u : nat) (s : test) : option test :=
  match envs s !! u, threads (allocator s) !! u with
  | Some e, Some (TBusy _) => call_alloc (Go u) u e s
  | Some e, Some (TIdle r) =>
      match expects e, r with
      | Some x, Some (RAlloc b) => take_buffer u x b e s
      | Some _, _ => None
      | None, _ => test_instr u e s
      end
  | _, _ => None
  end.

Fixpoint test_run (l : list nat) (s : test) : option test :=
  match l with
  | [] => Some s
  | u :: l' => match test_step u s with Some s' => test_run l' s' | None => None end
  end.

(** One thread for every entry of [rounds]. *)
Definition test_init (rounds : list nat) : test :=
  Test (alloc_init (length rounds)) 0 (map (fun k => Env (test_thread k) [] None true) rounds).
End Program.

(** ** A list that only its owner uses *)

Section Alone.
Variable population : Z.
Hypothesis population_nonneg : 0 <= population.
Hypothesis population_max : population + 1 < 2 ^ 31.

Abbreviation lstep := (cstep start (code population) cl_inv cl_ret).
Abbreviation linv c := (Inv population (sh c) (ths c) (cl c)).

Definition alone (c : list_cfg) : Prop := forall i x, ths c !! S i = Some x -> x = Idle.

Lemma alone_threads c x :
  alone c -> ths c !! 0%nat = Some x -> ths c = x :: replicate (length (ths c) - 1) Idle.
Proof.
  intros Ha Hx. destruct (ths c) as [|y l] eqn:E; [done|]. injection Hx as ->. cbn. rewrite Nat.sub_0_r. f_equal.
  symmetry. apply replicate_as_elem_of. split; [done|]. intros y Hy. apply list_elem_of_lookup in Hy as [i Hi].
  apply (Ha i). by rewrite E.
Qed.

(** The free nodes, from the place of the owner. *)
Lemma alone_count c x :
  linv c -> alone c -> ths c !! 0%nat = Some x ->
  exists F, chain (nodes (sh c)) (next (sh c)) F /\
    Z.of_nat (length F) + Z.of_nat (length (owner x) + length (held (cl c)) + length (option_list (dummy (cl c)))) =
      population + 1 /\
    node_number (sh c) = Z.of_nat (length F) + ahead x.
Proof.
  intros [Hl (F&Hc&Hp&Hn&_) _ _ _] Ha Hx. exists F. split; [done|].
  rewrite (alone_threads c x Ha Hx) in Hp, Hn. set (l := replicate _ _) in *.
  change (gather owner (x :: l)) with (owner x ++ gather owner l) in Hp. subst l.
  cbn [sum_with] in Hn. rewrite sum_with_replicate in Hn. change (ahead Idle) with 0 in Hn.
  apply Permutation_length in Hp. rewrite !length_app, length_seq, gather_idle in Hp by done. cbn [length] in Hp.
  split; lia.
Qed.

(** What the owner is doing: nothing, or in a call; for [PAlloc] a buffer is there once the
    first test is over. *)
Inductive phase : Type := PIdle | PAlloc | PRelease | PFree | PExit.

Definition alloc_loc (l : loc) : bool :=
  match l with GCheck | GDecr | GRead | GNext _ | GCas _ _ | GClear _ => true | _ => false end.

Definition release_loc (w : why) (l : loc) : Prop :=
  match l with
  | RAssert v _ | RIncr v _ | RRead v _ _ | RStore v _ _ _ | RCas v _ _ _ | RTest v _ => v = w
  | _ => False
  end.

Definition doing (ph : phase) (c : list_cfg) (x : tstate loc) (k : Z) : Prop :=
  match ph, x with
  | PIdle, Idle => dummy (cl c) <> None
  | PAlloc, Run l => dummy (cl c) <> None /\ alloc_loc l = true /\ (l <> GCheck -> k < population)
  | PRelease, Run l => dummy (cl c) <> None /\ release_loc ByUser l
  | PFree, Run (FCheck _) => k = 0
  | PFree, Run l => release_loc ByFree l
  | PExit, Run l => release_loc ByExit l
  | _, _ => False
  end.

Record owned_by (c : list_cfg) (ph : phase) (hs : list nat) : Prop := {
  ow_inv : linv c;
  ow_safe : faulted c = false;
  ow_alone : alone c;
  ow_held : held (cl c) ≡ₚ hs;
  ow_doing : exists x, ths c !! 0%nat = Some x /\ doing ph c x (Z.of_nat (length hs))
}.

(** What the end of a call tells. *)
Definition answers (c : list_cfg) (ph : phase) (hs : list nat) (r : res) : Prop :=
  match ph with
  | PAlloc => (exists n, r = RAlloc (Some n) /\ Z.of_nat (length hs) < population /\ owned_by c PIdle (n :: hs)) \/
      (r = RAlloc None /\ population <= Z.of_nat (length hs) /\ owned_by c PIdle hs)
  | PRelease => r = RRelease ByUser /\ owned_by c PIdle hs
  | PFree => r = RRelease ByFree
  | PExit => r = RRelease ByExit
  | PIdle => False
  end.

Lemma code_release g l w :
  release_loc w l ->
  match code population g l with
  | Next _ l' => release_loc w l'
  | Ret _ r => r = RRelease w
  | Fault => True
  end.
Proof. destruct l; cbn; intros H; try done; repeat case_match; simplify_eq/=; done. Qed.

Lemma code_alloc g l :
  alloc_loc l = true ->
  match code population g l with
  | Next _ l' => alloc_loc l' = true /\ l' <> GCheck
  | Ret _ (RAlloc None) => l = GCheck /\ next g = None
  | Ret _ (RAlloc (Some _)) => l <> GCheck
  | Ret _ _ => False
  | Fault => True
  end.
Proof. destruct l; cbn; intros H; try done; repeat case_match; simplify_eq/=; done. Qed.

Lemma alone_insert c g k f x : alone c -> alone (Cfg g (<[0%nat := x]> (ths c)) k f).
Proof. intros Ha i y Hy. cbn in Hy. rewrite list_lookup_insert_ne in Hy by done. by eapply Ha. Qed.

(** The first test of [AllocBuffer] by the owner. *)
Lemma check_free c k :
  linv c -> alone c -> ths c !! 0%nat = Some (Run GCheck) -> dummy (cl c) <> None ->
  Z.of_nat (length (held (cl c))) = k -> if decide (next (sh c) = None) then population <= k else k < population.
Proof.
  intros HI Ha Hx Hd Hk. destruct (alone_count c _ HI Ha Hx) as (F&Hc&Hn&_). cbn [owner length] in Hn.
  destruct (dummy (cl c)); [|done]. cbn in Hn. destruct F as [|f F]; cbn in Hc.
  - rewrite decide_True by done. cbn in Hn. lia.
  - destruct Hc as [-> _]. rewrite decide_False by done. cbn in Hn. lia.
Qed.

(** [FreeCurThreadMemory] finds all buffers of the user at home. *)
Lemma check_whole c d :
  linv c -> alone c -> ths c !! 0%nat = Some (Run (FCheck d)) -> held (cl c) = [] -> node_number (sh c) = population.
Proof.
  intros HI Ha Hx Hh. destruct (alone_count c _ HI Ha Hx) as (F&_&Hn&->). cbn [owner length ahead] in *.
  rewrite Hh, (i_free _ _ _ _ HI d Hx) in Hn. cbn in Hn. lia.
Qed.

Lemma owned_step c ph hs c' e :
  owned_by c ph hs -> lstep c 0 Step = Some (c', e) ->
  (e = [] /\ owned_by c' ph hs) \/ exists r, e = [ERes 0%nat r] /\ answers c' ph hs r.
Proof.
  intros [HI Hf Ha Hh (x&Hx&Hd)] H. destruct (list_step population population_nonneg population_max c c' 0 Step e HI Hf H) as (HI'&Hf'&_).
  pose proof (Permutation_length Hh) as Hlen. pose proof (lookup_lt_Some _ _ _ Hx) as Hlt.
  apply cstep_inv in H as [_ [(o&k&[=]&_)|[(l&g&l'&_&Ht&Hc&->&->)|[(l&g&r&_&Ht&Hc&->&->)|(l&_&Ht&Hc&->&->)]]]];
    [..|discriminate Hf']; rewrite Hx in Ht; injection Ht as ->.
  - left. split; [done|]. split; [done|done|by apply alone_insert|done|]. exists (Run l'). cbn [ths].
    split; [by apply list_lookup_insert_eq|]. destruct ph; cbn [doing] in *; [done|..].
    + destruct Hd as (Hdu&Hal&Hk). pose proof (code_alloc (sh c) l Hal) as Hm. rewrite Hc in Hm. destruct Hm as [Hm _].
      split; [done|]. split; [done|]. intros _. assert (Hg : l = GCheck \/ l <> GCheck) by (destruct l; first [by left|by right]).
      destruct Hg as [->|Hne]; [|by apply Hk].
      pose proof (check_free c _ HI Ha Hx Hdu eq_refl) as Hck. rewrite Hlen in Hck. cbn in Hc.
      destruct (next (sh c)); [by rewrite decide_False in Hck|done].
    + destruct Hd as [Hdu Hr]. split; [done|]. pose proof (code_release (sh c) l ByUser Hr) as Hm. by rewrite Hc in Hm.
    + assert (Hr : release_loc ByFree l' ); [|by destruct l'].
      destruct l; try (pose proof (code_release (sh c) _ ByFree Hd) as Hm; by rewrite Hc in Hm); [done..|].
      cbn in Hc. case_match; [done|]. injection Hc as _ <-. done.
    + pose proof (code_release (sh c) l ByExit Hd) as Hm. by rewrite Hc in Hm.
  - right. exists r. split; [done|].
    assert (Hown : forall hs', held (cl_ret (cl c) 0 r) ≡ₚ hs' -> dummy (cl_ret (cl c) 0 r) <> None ->
      owned_by (Cfg g (<[0%nat:=Idle]> (ths c)) (cl_ret (cl c) 0 r) false) PIdle hs').
    { intros hs' H1 H2. split; [done|done|by apply alone_insert|done|]. exists Idle. cbn [ths].
      split; [by apply list_lookup_insert_eq|done]. }
    destruct ph; cbn [doing answers] in *; [done|..].
    + destruct Hd as (Hdu&Hal&Hk). pose proof (code_alloc (sh c) l Hal) as Hm. rewrite Hc in Hm.
      destruct r as [[n|]| |]; [|destruct Hm as [-> Hm]|done..].
      * left. exists n. split; [done|]. split; [by apply Hk|]. apply Hown; cbn; [by rewrite Hh|done].
      * right. split; [done|]. pose proof (check_free c _ HI Ha Hx Hdu eq_refl) as Hck.
        rewrite Hlen, decide_True in Hck by done. split; [done|]. by apply Hown.
    + destruct Hd as [Hdu Hr]. pose proof (code_release (sh c) l ByUser Hr) as Hm. rewrite Hc in Hm. subst r.
      split; [done|]. by apply Hown.
    + destruct l; try (pose proof (code_release (sh c) _ ByFree Hd) as Hm; by rewrite Hc in Hm); [done..|].
      exfalso. assert (held (cl c) = []) as Hnil by (apply length_zero_iff_nil; lia).
      cbn in Hc. rewrite (check_whole c dummy HI Ha Hx Hnil), Z.ltb_irrefl in Hc. done.
    + pose proof (code_release (sh c) l ByExit Hd) as Hm. by rewrite Hc in Hm.
Qed.

(** A call begins. *)
Lemma owned_invoke c hs o c' e :
  owned_by c PIdle hs -> lstep c 0 (Invoke o) = Some (c', e) ->
  e = [EInv 0%nat o] /\
  match o with
  | OAlloc => owned_by c' PAlloc hs
  | ORelease n => forall hs', hs ≡ₚ n :: hs' -> owned_by c' PRelease hs'
  | OFree _ => hs = [] -> owned_by c' PFree hs
  | OExit _ => owned_by c' PExit hs
  end.
Proof.
  intros [HI Hf Ha Hh (x&Hx&Hd)] H. destruct (list_step population population_nonneg population_max c c' 0 _ e HI Hf H) as (HI'&Hf'&_).
  pose proof (lookup_lt_Some _ _ _ Hx) as Hlt. destruct x as [|l]; [|done]. cbn in Hd.
  apply cstep_inv in H as [_ [(o'&k&[= <-]&_&Hk&->&->)|[(?&?&?&[=]&_)|[(?&?&?&[=]&_)|(?&[=]&_)]]]]. split; [done|].
  assert (Hown : forall ph hs', held k ≡ₚ hs' ->
    doing ph (Cfg (sh c) (<[0%nat := Run (start o)]> (ths c)) k false) (Run (start o)) (Z.of_nat (length hs')) ->
    owned_by (Cfg (sh c) (<[0%nat := Run (start o)]> (ths c)) k false) ph hs').
  { intros ph hs' H1 H2. split; [done|done|by apply alone_insert|done|]. exists (Run (start o)).
    split; [by apply list_lookup_insert_eq|done]. }
  destruct o as [|n|d|d]; cbn in Hk; case_decide as Hn; try done; injection Hk as <-.
  - apply Hown; [done|]. done.
  - intros hs' Hp. apply Hown; [|done]. cbn. apply (Permutation_cons_inv (a:=n)).
    by rewrite remove_one_perm, Hh, Hp.
  - by apply Hown.
  - intros ->. by apply Hown.
Qed.

Lemma owned_perm c ph hs hs' : hs ≡ₚ hs' -> owned_by c ph hs -> owned_by c ph hs'.
Proof.
  intros Hp [H1 H2 H3 H4 H5]. split; [done|done|done|by rewrite <-Hp|]. by rewrite <-(Permutation_length Hp).
Qed.

Lemma owned_size c hs : owned_by c PIdle hs -> node_number (sh c) = population - Z.of_nat (length hs).
Proof.
  intros [HI _ Ha Hh (x&Hx&Hd)]. destruct x as [|l]; [|done]. cbn in Hd.
  destruct (alone_count c Idle HI Ha Hx) as (F&_&Hn&->). rewrite (Permutation_length Hh) in Hn.
  destruct (dummy (cl c)); [|done]. cbn in *. lia.
Qed.

Lemma new_list_owned n g d :
  (0 < n)%nat -> InitPerThreadList population = Some (g, d) -> owned_by (init_cfg g n (Client [] (Some d))) PIdle [].
Proof.
  intros Hn E. destruct (InitPerThreadList_Inv population n population_nonneg population_max) as (g'&d'&E'&HI).
  rewrite E in E'. injection E' as <- <-. split; cbn; try done.
  - intros i x Hx. by apply lookup_replicate in Hx as [-> _].
  - exists Idle. split; [|done]. by apply lookup_replicate.
Qed.
End Alone.

(** ** A program that expects what the allocator does *)

Section Test.
Variable population : Z.
Hypothesis population_pos : 2 <= population.
Hypothesis population_max : population + 1 < 2 ^ 31.

(** A program with [k] buffers of its list, if it has one. *)
Fixpoint expectable (l : list instr) (k : nat) (live : bool) : Prop :=
  match l with
  | [] => True
  | IAlloc x :: l' =>
      if Z.of_nat k <? population then x <> Some false /\ expectable l' (S k) true
      else x <> Some true /\ expectable l' k true
  | IRelease :: l' => match k with O => False | S k' => expectable l' k' live end
  | ISize n :: l' => n = (if live then population - Z.of_nat k else 0) /\ expectable l' k live
  | IFlag :: l' => k = 0%nat /\ live = true /\ expectable l' 0 false /\ expectable l' 0 true
  | ILoad :: l' | IStore _ :: l' => expectable l' k live
  | IFree :: l' => k = 0%nat /\ expectable l' 0 false
  | IExit :: l' => l' = []
  end.

Lemma expectable_allocs m l k live :
  Z.of_nat (k + m) <= population -> (0 < m)%nat -> expectable l (k + m) true ->
  expectable (replicate m (IAlloc (Some true)) ++ l) k live.
Proof.
  revert k live. induction m as [|m IH]; intros k live Hk Hm Hl; [lia|]. cbn.
  rewrite (proj2 (Z.ltb_lt _ _)) by lia. split; [done|]. destruct m as [|m].
  - cbn. by rewrite Nat.add_1_r in Hl.
  - apply IH; [lia|lia|]. by replace (S k + S m)%nat with (k + S (S m))%nat by lia.
Qed.

Lemma expectable_releases m i l :
  Z.of_nat (i + m) = population -> expectable l 0 true ->
  expectable (mjoin (map (fun i => [IRelease; ISize (Z.of_nat i + 1)]) (seq i m)) ++ l) m true.
Proof.
  revert i. induction m as [|m IH]; intros i Hi Hl; [done|]. cbn. split; [lia|]. apply IH; [lia|done].
Qed.

(** [TestProc] fits a thread without buffers, with or without a list. *)
Lemma TestProc_expectable l live :
  expectable l 0 false -> expectable l 0 true -> expectable (TestProc population ++ l) 0 live.
Proof.
  intros H1 H2. unfold TestProc. rewrite <-!app_assoc. cbn.
  repeat (rewrite (proj2 (Z.ltb_lt _ _)) by lia). split_and?; try done; try lia.
  apply (expectable_allocs (Z.to_nat population)); [lia|lia|]. cbn. split; [lia|].
  rewrite (proj2 (Z.ltb_ge _ _)) by lia. split; [done|].
  apply (expectable_releases _ 0); [lia|]. done.
Qed.

Lemma test_thread_expectable rounds : expectable (test_thread population rounds) 0 false.
Proof.
  split; [done|]. generalize false. induction rounds as [|n IH]; intros live; [done|].
  change (expectable ((TestProc population ++ mjoin (replicate n (TestProc population))) ++ [IExit]) 0 live).
  rewrite <-app_assoc. apply TestProc_expectable; apply IH.
Qed.

(** ** The threads of the test *)

Abbreviation nodes_of e := (map snd (bufs e)).
Abbreviation count_of e := (length (bufs e)).

(** The thread with the environment [e] is at [t], and [c] is its list [j]. *)
Definition with_list (t : tst) (e : env) (j : nat) (c : list_cfg) : Prop :=
  match t, expects e with
  | TIdle _, None => owned_by population c PIdle (nodes_of e) /\ expectable (todo e) (count_of e) true
  | TIdle r, Some x =>
      (exists n, r = Some (RAlloc (Some n)) /\ owned_by population c PIdle (n :: nodes_of e) /\ x <> Some false /\
        expectable (todo e) (S (count_of e)) true) \/
      (r = Some (RAlloc None) /\ owned_by population c PIdle (nodes_of e) /\ x <> Some true /\
        expectable (todo e) (count_of e) true)
  | TBusy i, Some x => i = j /\ owned_by population c PAlloc (nodes_of e) /\ expectable (IAlloc x :: todo e) (count_of e) true
  | TBusy i, None => i = j /\
      ((owned_by population c PRelease (nodes_of e) /\ expectable (todo e) (count_of e) true) \/
       (owned_by population c PFree [] /\ bufs e = [] /\ expectable (todo e) 0 false) \/
       (owned_by population c PExit (nodes_of e) /\ todo e = []))
  | TGone, _ => False
  end.

Definition without_list (t : tst) (e : env) : Prop :=
  match t with
  | TIdle _ => bufs e = [] /\ expects e = None /\ expectable (todo e) 0 false
  | TBusy _ => False
  | TGone => todo e = []
  end.

Definition fits (w : alloc) (u : nat) (e : env) : Prop :=
  passed e = true /\
  exists t x, threads w !! u = Some t /\ tls w !! u = Some x /\
    match x with
    | Some j => Forall (fun b => fst b = j) (bufs e) /\ exists c, lists w !! j = Some (u, c) /\ with_list t e j c
    | None => without_list t e
    end.

(** What a step of the thread [u] leaves alone. *)
Definition frame (u : nat) (w w' : alloc) : Prop :=
  (forall v, v <> u -> threads w' !! v = threads w !! v /\ tls w' !! v = tls w !! v) /\
  forall j o c, o <> u -> lists w !! j = Some (o, c) -> lists w' !! j = Some (o, c).

Lemma fits_frame u v w w' e : frame u w w' -> v <> u -> fits w v e -> fits w' v e.
Proof.
  intros [F1 F2] Hne (Hp&t&x&Ht&Hx&H). destruct (F1 v Hne) as [E1 E2]. split; [done|]. exists t, x.
  rewrite E1, E2. split_and!; [done..|]. destruct x as [j|]; [|done]. destruct H as (Hb&c&Hc&H).
  split; [done|]. exists c. split; [by apply F2|done].
Qed.

(** A call of [u] on its own list. *)
Lemma call_home u j a w w' c :
  lists w !! j = Some (u, c) -> call population u j a w = Some w' ->
  exists c' e, cstep start (code population) cl_inv cl_ret c 0 a = Some (c', e) /\ lists w' !! j = Some (u, c') /\
    frame u w w' /\
    match e with
    | ERes _ r :: _ => w' = finish u r (Alloc (<[j := (u, c')]> (lists w)) (tls w) (<[u := TBusy j]> (threads w)))
    | _ => threads w' = <[u := TBusy j]> (threads w) /\ tls w' = tls w
    end.
Proof.
  intros Hj H. unfold call in H. rewrite Hj, seat_own in H.
  destruct (cstep start (code population) cl_inv cl_ret c 0 a) as [[c' e]|] eqn:E; [|done]. injection H as Hw.
  exists c', e. split; [done|]. pose proof (lookup_lt_Some _ _ _ Hj) as Hlt.
  assert (Hfr : forall w1, lists w1 = <[j := (u, c')]> (lists w) ->
    (forall v, v <> u -> threads w1 !! v = threads w !! v /\ tls w1 !! v = tls w !! v) ->
    lists w1 !! j = Some (u, c') /\ frame u w w1).
  { intros w1 E1 E2. rewrite E1. split; [by apply list_lookup_insert_eq|]. split; [exact E2|].
    intros i o y Ho Hy. rewrite E1, list_lookup_insert_ne; [done|]. intros ->. congruence. }
  set (w1 := Alloc _ _ _) in Hw. assert (Hw1 : forall v, v <> u -> threads w1 !! v = threads w !! v /\ tls w1 !! v = tls w !! v).
  { intros v Hv. cbn. by rewrite list_lookup_insert_ne. }
  destruct e as [|[t q|t r] e']; subst w'; [by edestruct (Hfr w1)..|].
  destruct (finish_fields u r w1) as (F1&_&_&F4&_). destruct (Hfr (finish u r w1)); [done| |done].
  intros v Hv. destruct (F4 v Hv) as [-> ->]. by apply Hw1.
Qed.

Lemma rframe_refl u w : frame u w w.
Proof. by split. Qed.

(** The call of a thread begins, or takes a step without an answer. *)
Lemma fits_busy w w' u j c' e :
  passed e = true -> Forall (fun b => fst b = j) (bufs e) -> lists w' !! j = Some (u, c') ->
  threads w' = <[u := TBusy j]> (threads w) -> tls w' = tls w -> (u < length (threads w))%nat ->
  tls w !! u = Some (Some j) -> with_list (TBusy j) e j c' -> fits w' u e.
Proof.
  intros Hp Hb Hc Ht Hl Hu Hx H. split; [done|]. exists (TBusy j), (Some j). rewrite Ht, Hl.
  split; [by apply list_lookup_insert_eq|]. split; [done|]. split; [done|]. by exists c'.
Qed.

(** A thread in a call. *)
Lemma fits_go w w' u i e :
  fits w u e -> threads w !! u = Some (TBusy i) -> call population u i Step w = Some w' -> fits w' u e /\ frame u w w'.
Proof.
  intros (Hp&t&x&Ht&Hx&H) Hi Hw. rewrite Hi in Ht. injection Ht as <-. destruct x as [j|]; [|done].
  destruct H as (Hb&c&Hc&H). pose proof (lookup_lt_Some _ _ _ Hi) as Hu. pose proof (lookup_lt_Some _ _ _ Hx) as Hux.
  assert (i = j) as -> by (cbn in H; destruct (expects e); apply H).
  destruct (call_home u j Step w w' c Hc Hw) as (c'&ev&E&Hc'&Hfr&Hw'). split; [|done].
  assert (Hstep : forall ph hs, owned_by population c ph hs ->
    (ev = [] /\ owned_by population c' ph hs) \/ exists r, ev = [ERes 0%nat r] /\ answers population c' ph hs r)
    by (intros ph hs Ho; eapply owned_step; [lia|done|exact Ho|exact E]).
  (* the answer [r], when the thread keeps its list *)
  assert (Hkeep : forall r, ev = [ERes 0%nat r] -> (forall v, r = RRelease v -> v = ByUser) ->
    with_list (TIdle (Some r)) e j c' -> fits w' u e).
  { intros r -> Hr Hwl. split; [done|]. exists (TIdle (Some r)), (Some j). subst w'.
    assert (Hfin : forall w1, threads w1 !! u = Some (TBusy j) -> threads (finish u r w1) !! u = Some (TIdle (Some r)) /\ tls (finish u r w1) = tls w1).
    { intros w1 H1. destruct r as [|v|]; cbn; [| |]; try (split; [by apply list_lookup_insert_eq; eapply lookup_lt_Some|done]).
      rewrite (Hr v eq_refl). cbn. split; [by apply list_lookup_insert_eq; eapply lookup_lt_Some|done]. }
    destruct (Hfin (Alloc (<[j := (u, c')]> (lists w)) (tls w) (<[u := TBusy j]> (threads w)))) as [-> ->];
      [by apply list_lookup_insert_eq|]. split; [done|]. split; [done|]. split; [done|]. by exists c'. }
  cbn in H. destruct (expects e) as [x|] eqn:Ee.
  - destruct H as (_&Ho&Hx'). destruct (Hstep _ _ Ho) as [[-> Ho']|(r&->&Hr)].
    + destruct Hw' as [E1 E2]. eapply fits_busy; [done..|]. cbn. by rewrite Ee.
    + cbn in Hr, Hx'. rewrite length_map in Hr. apply (Hkeep r eq_refl).
      * by destruct Hr as [(n&->&_)|(->&_)].
      * cbn. rewrite Ee. destruct Hr as [(n&->&Hlt&Ho')|(->&Hge&Ho')]; [left; exists n|right].
        -- rewrite (proj2 (Z.ltb_lt _ _)) in Hx' by done. by destruct Hx'.
        -- rewrite (proj2 (Z.ltb_ge _ _)) in Hx' by done. by destruct Hx'.
  - destruct H as (_&[[Ho Hex]|[(Ho&Hnil&Hex)|[Ho Hex]]]); destruct (Hstep _ _ Ho) as [[-> Ho']|(r&->&Hr)];
      try (destruct Hw'; eapply fits_busy; [done..|]; cbn; rewrite Ee; by auto 10).
    + cbn in Hr. destruct Hr as [-> Ho']. apply (Hkeep _ eq_refl); [by intros v [= <-]|]. cbn. by rewrite Ee.
    + cbn in Hr. subst r. cbn in Hw'. subst w'. split; [done|]. exists (TIdle (Some (RRelease ByFree))), None. cbn.
      rewrite !list_lookup_insert_eq by (rewrite ?length_insert; done). done.
    + cbn in Hr. subst r. cbn in Hw'. subst w'. split; [done|]. exists TGone, None. cbn.
      rewrite !list_lookup_insert_eq by (rewrite ?length_insert; done). done.
Qed.

(** A thread outside of calls begins one on its list. *)
Lemma fits_call w w' u j c o e hs :
  threads w !! u <> None -> tls w !! u = Some (Some j) -> lists w !! j = Some (u, c) -> owned_by population c PIdle hs ->
  call population u j (Invoke o) w = Some w' -> passed e = true -> Forall (fun b => fst b = j) (bufs e) ->
  (forall c', match o with
    | OAlloc => owned_by population c' PAlloc hs
    | ORelease n => forall hs', hs ≡ₚ n :: hs' -> owned_by population c' PRelease hs'
    | OFree _ => hs = [] -> owned_by population c' PFree hs
    | OExit _ => owned_by population c' PExit hs
    end -> with_list (TBusy j) e j c') ->
  fits w' u e /\ frame u w w'.
Proof.
  intros Ht Hx Hc Ho Hw Hp Hb H. destruct (call_home u j _ w w' c Hc Hw) as (c'&ev&E&Hc'&Hfr&Hw'). split; [|done].
  destruct (owned_invoke population ltac:(lia) population_max c hs o c' ev Ho E) as [-> Ho'].
  destruct Hw' as [E1 E2]. assert (u < length (threads w))%nat by (by apply lookup_lt_is_Some_1, not_eq_None_Some).
  eapply fits_busy; [done..|]. by apply H.
Qed.

Lemma fits_alone w u r x e :
  threads w !! u = Some (TIdle r) -> tls w !! u = Some x -> passed e = true -> expects e = None ->
  match x with
  | Some j => Forall (fun b => fst b = j) (bufs e) /\ exists c, lists w !! j = Some (u, c) /\
      owned_by population c PIdle (nodes_of e) /\ expectable (todo e) (count_of e) true
  | None => bufs e = [] /\ expectable (todo e) 0 false
  end -> fits w u e.
Proof.
  intros Ht Hx Hp He H. split; [done|]. exists (TIdle r), x. split; [done|]. split; [done|].
  destruct x as [j|]; [|by destruct H]. destruct H as (Hb&c&Hc&H). split; [done|]. exists c. split; [done|].
  cbn. by rewrite He.
Qed.

(** The first call of [AllocBuffer] makes the list. *)
Lemma fits_first w w' u r e x :
  threads w !! u = Some (TIdle r) -> tls w !! u = Some None -> bufs e = [] ->
  astep population (AllocBuffer u true) w = Some w' -> expects e = Some x -> passed e = true ->
  expectable (IAlloc x :: todo e) 0 true -> fits w' u e /\ frame u w w'.
Proof.
  intros Ht Hx Hb H Hex Hp Hok. cbn in H. rewrite Ht, Hx in H. unfold new_list in H.
  destruct (InitPerThreadList population) as [[g d]|] eqn:E; [|done]. cbn in H.
  set (j := length (lists w)) in *. set (w1 := Alloc _ _ _) in H.
  pose proof (lookup_lt_Some _ _ _ Ht) as Hu. pose proof (lookup_lt_Some _ _ _ Hx) as Hux.
  assert (Hj : lists w1 !! j = Some (u, init_cfg g (length (threads w)) (Client [] (Some d))))
    by (cbn; by rewrite lookup_app_r, Nat.sub_diag by done).
  assert (Hown : owned_by population (init_cfg g (length (threads w)) (Client [] (Some d))) PIdle [])
    by (apply new_list_owned; [lia|lia|lia|done]).
  destruct (fits_call w1 w' u j _ OAlloc e [] ltac:(cbn; congruence) ltac:(by apply list_lookup_insert_eq) Hj Hown H Hp
    ltac:(by rewrite Hb)) as [H1 [F1 F2]].
  { intros c' Ho. cbn. rewrite Hex. split; [done|]. by rewrite Hb. }
  split; [done|]. split.
  - intros v Hv. destruct (F1 v Hv) as [-> ->]. cbn. by rewrite list_lookup_insert_ne.
  - intros i o c Ho Hi. apply F2; [done|]. cbn. by apply lookup_app_l_Some.
Qed.

(** What a step of the thread [u] has to show. *)
Definition advances (u : nat) (s s' : test) : Prop :=
  exists e', envs s' = <[u := e']> (envs s) /\ fits (allocator s') u e' /\ frame u (allocator s) (allocator s').

Lemma advances_call u a e s s' :
  call_alloc population a u e s = Some s' ->
  (forall w', astep population a (allocator s) = Some w' -> fits w' u e /\ frame u (allocator s) w') -> advances u s s'.
Proof.
  unfold call_alloc. intros H Hw. destruct (astep population a (allocator s)) as [w'|] eqn:E; [|done].
  injection H as <-. exists e. split; [done|]. by apply Hw.
Qed.

Lemma advances_local u e s v : fits (allocator s) u e -> advances u s (Test (allocator s) v (<[u := e]> (envs s))).
Proof. intros H. exists e. split; [done|]. split; [done|apply rframe_refl]. Qed.

(** The next instruction of a thread without a list. *)
Lemma instr_without u e s s' r :
  threads (allocator s) !! u = Some (TIdle r) -> tls (allocator s) !! u = Some None -> passed e = true ->
  bufs e = [] -> expectable (todo e) 0 false -> test_instr population u e s = Some s' -> advances u s s'.
Proof.
  intros Ht Hx Hp Hb Hok H. unfold test_instr in H. destruct (todo e) as [|[x| |n| | |v| |] l]; [done|..]; cbn in Hok.
  - apply (advances_call _ _ _ _ _ H). intros w' Hw. by eapply fits_first.
  - by rewrite Hb in H.
  - injection H as <-. destruct Hok as [-> Hok]. apply advances_local. eapply fits_alone; [done|done| |done|done]. cbn.
    unfold Size. by rewrite Hp, Hx.
  - by destruct Hok as (_&?&_).
  - injection H as <-. apply advances_local. by eapply fits_alone.
  - injection H as <-. apply advances_local. by eapply fits_alone.
  - apply (advances_call _ _ _ _ _ H). intros w' Hw. cbn in Hw. rewrite Ht, Hx in Hw. injection Hw as <-. destruct Hok as [_ Hok].
    split; [|split; [|done]]; [|intros y Hy; cbn; by rewrite list_lookup_insert_ne].
    eapply fits_alone; [cbn; by apply list_lookup_insert_eq; eapply lookup_lt_Some|done..].
  - apply (advances_call _ _ _ _ _ H). intros w' Hw. cbn in Hw. rewrite Ht, Hx in Hw. injection Hw as <-. subst l.
    split; [|split; [|done]]; [|intros y Hy; cbn; by rewrite list_lookup_insert_ne].
    split; [done|]. exists TGone, None. cbn. rewrite list_lookup_insert_eq by (by eapply lookup_lt_Some). done.
Qed.

Lemma instr_with u e s s' r j c :
  threads (allocator s) !! u = Some (TIdle r) -> tls (allocator s) !! u = Some (Some j) -> passed e = true ->
  Forall (fun b => fst b = j) (bufs e) -> lists (allocator s) !! j = Some (u, c) ->
  owned_by population c PIdle (nodes_of e) -> expectable (todo e) (count_of e) true ->
  test_instr population u e s = Some s' -> advances u s s'.
Proof.
  intros Ht Hx Hp Hb Hc Ho Hok H. unfold test_instr in H.
  assert (Hnn : threads (allocator s) !! u <> None) by congruence.
  destruct (todo e) as [|[x| |n| | |v| |] l]; [done|..]; cbn [expectable] in Hok.
  - apply (advances_call _ _ _ _ _ H). intros w' Hw. cbn in Hw. rewrite Ht, Hx in Hw.
    eapply fits_call; [done|exact Hx|exact Hc|exact Ho|exact Hw|done|done|]. by cbn.
  - destruct (bufs e) as [|[j' n] bs] eqn:Eb; [done|]. apply Forall_cons in Hb as [Hj Hb]. cbn in Hj. subst j'.
    apply (advances_call _ _ _ _ _ H). intros w' Hw. cbn in Hw. rewrite Ht in Hw.
    eapply fits_call; [done|exact Hx|exact Hc|exact Ho|exact Hw|done|done|]. intros c' Hc'. cbn.
    split; [done|]. left. split; [by apply Hc'|done].
  - injection H as <-. destruct Hok as [-> Hok]. apply advances_local. eapply fits_alone; [done|done| |done|].
    + cbn. unfold Size. rewrite Hp, Hx, Hc. unfold PerThreadMemory.Size.
      rewrite (owned_size population c _ Ho), length_map. by rewrite Z.eqb_refl.
    + cbn. split; [done|]. by exists c.
  - injection H as <-. destruct Hok as (Hk&_&H0&H1). apply advances_local. eapply fits_alone; [done|done|done|done|].
    cbn. split; [done|]. exists c. split; [done|]. split; [done|]. rewrite Hk. case_match; cbn; [by split_and!|].
    split; [lia|done].
  - injection H as <-. apply advances_local. eapply fits_alone; [done|done|done|done|]. cbn. split; [done|]. by exists c.
  - injection H as <-. apply advances_local. eapply fits_alone; [done|done|done|done|]. cbn. split; [done|]. by exists c.
  - destruct Hok as [Hk Hok]. apply length_zero_iff_nil in Hk. apply (advances_call _ _ _ _ _ H). intros w' Hw. cbn in Hw.
    rewrite Ht, Hx in Hw. destruct (dummy_of j (allocator s)) as [d|]; [|done].
    eapply fits_call; [done|exact Hx|exact Hc|exact Ho|exact Hw|done|done|]. intros c' Hc'. cbn. split; [done|]. right. left.
    rewrite Hk in *. by split_and!; [apply Hc'| |].
  - apply (advances_call _ _ _ _ _ H). intros w' Hw. cbn in Hw. rewrite Ht, Hx in Hw.
    destruct (dummy_of j (allocator s)) as [d|]; [|done].
    eapply fits_call; [done|exact Hx|exact Hc|exact Ho|exact Hw|done|done|]. intros c' Hc'. cbn. split; [done|]. by right; right.
Qed.

Definition all_fit (s : test) : Prop := forall v e, envs s !! v = Some e -> fits (allocator s) v e.

Lemma advances_fit u s s' : all_fit s -> advances u s s' -> all_fit s'.
Proof.
  intros Hall (e'&He&Hf&Hfr) v e Hv. rewrite He in Hv. apply list_insert_inv in Hv as [[-> ->]|[Hne Hv]]; [done|].
  eapply fits_frame; [done..|]. by apply Hall.
Qed.

Lemma takef_ok u x b e s s' :
  threads (allocator s) !! u = Some (TIdle (Some (RAlloc b))) -> fits (allocator s) u e -> expects e = Some x ->
  take_buffer u x b e s = Some s' -> advances u s s'.
Proof.
  intros Ht (Hp&t&y&Ht'&Hy&H) He Htk. rewrite Ht in Ht'. injection Ht' as <-. unfold take_buffer in Htk. rewrite Hy in Htk.
  destruct y as [j|]; [|destruct H as (_&He'&_); congruence].
  destruct H as (Hb&c&Hc&H). cbn in H. rewrite He in H. destruct H as [(n&[= ->]&Ho&Hx&Hok)|([= ->]&Ho&Hx&Hok)].
  - injection Htk as <-. apply advances_local. eapply fits_alone; [done|done| |done|].
    + cbn. rewrite Hp. by destruct x as [[]|].
    + cbn. split; [apply Forall_app_2; [done|by constructor]|]. exists c. split; [done|]. rewrite map_app, length_app. cbn.
      rewrite Nat.add_1_r. split; [|done]. eapply owned_perm; [|exact Ho]. apply Permutation_cons_append.
  - injection Htk as <-. apply advances_local. eapply fits_alone; [done|done| |done|].
    + cbn. rewrite Hp. by destruct x as [[]|].
    + cbn. split; [done|]. by exists c.
Qed.

Lemma step_fits u s s' : all_fit s -> test_step population u s = Some s' -> all_fit s'.
Proof.
  intros Hall H. unfold test_step in H. destruct (envs s !! u) as [e|] eqn:He; [|done].
  pose proof (Hall u e He) as Hf. destruct (threads (allocator s) !! u) as [[r|i|]|] eqn:Ht; [| |done|done].
  - apply (advances_fit u s); [done|]. destruct (expects e) as [x|] eqn:Ee.
    + destruct r as [[b| |]|]; try done. by eapply takef_ok.
    + destruct Hf as (Hp&t&y&Ht'&Hy&Hfit). rewrite Ht in Ht'. injection Ht' as <-. destruct y as [j|].
      * destruct Hfit as (Hb&c&Hc&Hw). cbn in Hw. rewrite Ee in Hw. destruct Hw. by eapply instr_with.
      * destruct Hfit as (Hb&_&Hok). by eapply instr_without.
  - apply (advances_fit u s); [done|]. apply (advances_call _ _ _ _ _ H). intros w' Hw. cbn in Hw. rewrite Ht in Hw.
    by eapply fits_go.
Qed.

Lemma run_fits l s s' : all_fit s -> test_run population l s = Some s' -> all_fit s'.
Proof.
  revert s. induction l as [|u l IH]; intros s Hs H; cbn in H; [by injection H as <-|].
  destruct (test_step population u s) as [s1|] eqn:E; [|done]. apply (IH s1); [|done]. by eapply step_fits.
Qed.

Lemma init_fits rounds : all_fit (test_init population rounds).
Proof.
  intros v e Hv. cbn in Hv. rewrite list_lookup_fmap in Hv. apply fmap_Some in Hv as (k&Hk&->).
  pose proof (lookup_lt_Some _ _ _ Hk) as Hlt. split; [done|]. exists (TIdle None), None. cbn [allocator test_init alloc_init threads tls].
  split; [by apply lookup_replicate|]. split; [by apply lookup_replicate|]. split_and!; [done..|].
  apply test_thread_expectable.
Qed.

(** C14. The threads of the test, any number of them with any number of rounds each and in any
    interleaving: no expectation fails.  A buffer is there exactly as long as fewer than
    [population] are out, [Size] counts those that are left, and after [FreeCurThreadMemory]
    the next round starts anew, whatever the other threads do. *)
Theorem per_thread_test_passes (rounds : list nat) (sched : list nat) (s : test) :
  test_run population sched (test_init population rounds) = Some s -> Forall (fun e => passed e = true) (envs s).
Proof.
  intros H. apply Forall_lookup. intros u e He. by apply (run_fits _ _ _ (init_fits rounds) H u e).
Qed.
End Test.

(** Two threads with three and one rounds, in lists of two buffers, first in turns and then
    run to their ends. *)
Definition two_threads : list nat := mjoin (replicate 60 [0; 1]%nat) ++ replicate 229 0%nat ++ replicate 35 1%nat.

Example two_threads_run :
  match test_run 2 two_threads (test_init 2 [3; 1]%nat) with
  | Some s => map todo (envs s) = [[]; []] /\ threads (allocator s) = [TGone; TGone] /\ length (lists (allocator s)) = 4%nat
  | None => False
  end.
Proof. by vm_compute. Qed.

Lemma per_thread_test_passes_witness :
  match test_run 2 two_threads (test_init 2 [3; 1]%nat) with
  | Some s => Forall (fun e => passed e = true) (envs s)
  | None => False
  end.
Proof.
  pose proof two_threads_run as Hd. destruct (test_run 2 two_threads (test_init 2 [3; 1]%nat)) as [s|] eqn:E; [|done].
  apply (per_thread_test_passes 2 ltac:(lia) ltac:(lia) [3; 1]%nat two_threads s E).
Defined.
