(* ===== verification/SpinlockQueue.v ===== *)
(** * SpinlockQueue.v: [misc/SpinlockQueue.h]

[SpinlockQueue<Type, QUEUE>] guards a container with a spin lock.  What it needs
of [QUEUE] is the typeclass [Container] with its laws [ContainerSpec];
[std::queue]/[DequeQueue] and [PriorityQueue] are instances.  Every access to
the lock and to the container is a step of Conc.v, and the operations are shown
linearizable: each runs as one indivisible operation on the container, so that a
queue over [std::deque] is a bounded FIFO queue for any number of threads. *)

From S2P Require Import Prelude Machine Conc.

(** ** The containers *)

(** The member functions [SpinlockQueue] calls.  [front] is undefined behaviour
    on an empty container ([None]). *)
Class Container (V Q : Type) : Type := {
  empty : Q -> bool;
  front : Q -> option V;
  pop : Q -> Q;
  push : V -> Q -> Q;
  size : Q -> Z;
  clear : Q -> Q
}.

(** What it relies on: [elems] lists the elements in the order in which [pop]
    would remove them. *)
Class ContainerSpec (V Q : Type) `{Container V Q} (elems : Q -> list V) : Prop := {
  empty_spec q : empty q = bool_decide (elems q = []);
  front_spec q : front q = head (elems q);
  pop_spec q : elems (pop q) = tail (elems q);
  push_spec v q : elems (push v q) ≡ₚ v :: elems q;
  size_spec q : size q = Z.of_nat (length (elems q));
  clear_spec q : elems (clear q) = []
}.

(** [DequeQueue], and [std::queue] whose default container is the same
    [std::deque]. *)
Section DequeQueue.
Context {V : Type}.

Record DequeQueue : Type := Deque { queue_ : list V }.

Definition deque_empty (q : DequeQueue) : bool := match queue_ q with [] => true | _ => false end.
Definition deque_front (q : DequeQueue) : option V := head (queue_ q).
Definition deque_pop (q : DequeQueue) : DequeQueue := Deque (tail (queue_ q)).
Definition deque_push (v : V) (q : DequeQueue) : DequeQueue := Deque (queue_ q ++ [v]).
Definition deque_push_front (v : V) (q : DequeQueue) : DequeQueue := Deque (v :: queue_ q).
Definition deque_size (q : DequeQueue) : Z := Z.of_nat (length (queue_ q)).
Definition deque_clear (q : DequeQueue) : DequeQueue := Deque [].

#[export] Instance DequeQueue_container : Container V DequeQueue := {|
  empty := deque_empty; front := deque_front; pop := deque_pop; push := deque_push;
  size := deque_size; clear := deque_clear
|}.

#[export] Instance DequeQueue_spec : ContainerSpec V DequeQueue queue_.
Proof.
  split; try done; intros.
  - cbv [empty DequeQueue_container deque_empty]. by destruct (queue_ q).
  - cbn. by rewrite Permutation_app_comm.
Qed.
End DequeQueue.
Arguments DequeQueue : clear implicits.

(** [PriorityQueue]: the elements of the vector, in any order; [top] is the
    index of the element [std::priority_queue] presents next.  Which one it is
    among equals is up to the library. *)
Section PriorityQueue.
Context {V : Type}.
Variable top : list V -> nat.

Record PriorityQueue : Type := Prio { pq_elems : list V }.

Definition prio_empty (q : PriorityQueue) : bool := match pq_elems q with [] => true | _ => false end.
Definition prio_front (q : PriorityQueue) : option V := pq_elems q !! top (pq_elems q).
Definition prio_pop (q : PriorityQueue) : PriorityQueue := Prio (delete (top (pq_elems q)) (pq_elems q)).
Definition prio_push (v : V) (q : PriorityQueue) : PriorityQueue := Prio (pq_elems q ++ [v]).
Definition prio_size (q : PriorityQueue) : Z := Z.of_nat (length (pq_elems q)).
Definition prio_clear (q : PriorityQueue) : PriorityQueue := Prio [].

#[export] Instance PriorityQueue_container : Container V PriorityQueue := {|
  empty := prio_empty; front := prio_front; pop := prio_pop; push := prio_push;
  size := prio_size; clear := prio_clear
|}.

(** [std::priority_queue] presents one of its elements. *)
Class TopIn : Prop := top_in l : l <> [] -> (top l < length l)%nat.

(** What its documentation promises for a comparator [cmp] that is a strict weak order. *)
Class TopSpec (cmp : V -> V -> bool) : Prop := {
  top_present :: TopIn;
  top_max l x y : l !! top l = Some x -> y ∈ l -> cmp x y = false
}.

(** The order in which the elements leave. *)
Fixpoint drain (n : nat) (l : list V) : list V :=
  match n, l !! top l with
  | S n', Some x => x :: drain n' (delete (top l) l)
  | _, _ => []
  end.

Definition prio_order (q : PriorityQueue) : list V := drain (length (pq_elems q)) (pq_elems q).

Context {Htop : TopIn}.

Lemma top_lookup l : l <> [] -> exists x, l !! top l = Some x.
Proof. intros H. apply lookup_lt_is_Some_2. by apply top_in. Qed.

Lemma drain_cons n l x :
  n = length l -> l !! top l = Some x -> drain n l = x :: drain (pred n) (delete (top l) l).
Proof.
  intros -> Hx. destruct l as [|y l]; [done|]. cbn [length drain pred].
  by rewrite Hx.
Qed.

Lemma drain_perm n l : n = length l -> drain n l ≡ₚ l.
Proof.
  revert l. induction n as [|n IH]; intros l Hn; [by destruct l|].
  destruct (top_lookup l) as [x Hx]; [by intros ->|].
  rewrite (drain_cons _ l x) by done. cbn [pred]. rewrite IH.
  - symmetry. by apply delete_Permutation.
  - pose proof (lookup_lt_Some _ _ _ Hx). rewrite length_delete; [lia|by eexists].
Qed.

#[export] Instance PriorityQueue_spec : ContainerSpec V PriorityQueue prio_order.
Proof.
  assert (Hl : forall q, length (prio_order q) = length (pq_elems q)).
  { intros q. unfold prio_order. by rewrite drain_perm. }
  split; intros.
  - cbn. unfold prio_empty. specialize (Hl q). destruct (pq_elems q), (prio_order q); done.
  - cbn. unfold prio_front, prio_order. destruct (decide (pq_elems q = [])) as [->|Hn]; [done|].
    destruct (top_lookup _ Hn) as [x Hx]. by rewrite (drain_cons _ _ x).
  - cbn. unfold prio_pop, prio_order. cbn. destruct (decide (pq_elems q = [])) as [->|Hn].
    { cbn. by destruct (top []). }
    destruct (top_lookup _ Hn) as [x Hx]. rewrite (drain_cons (length (pq_elems q)) _ x) by done.
    cbn. rewrite length_delete by by eexists. f_equal. lia.
  - unfold prio_order. cbn. rewrite !drain_perm by done. by rewrite Permutation_app_comm.
  - cbn. unfold prio_size. by rewrite Hl.
  - done.
Qed.
End PriorityQueue.
Arguments PriorityQueue : clear implicits.

(** ** The queue *)

Section SpinlockQueue.
Context {V Q : Type} `{CQ : Container V Q} {elems : Q -> list V} `{!ContainerSpec V Q elems}.
(** [push_front] of the container, where it has one: only
    [SpinlockWeakPriorityQueue] uses it. *)
Variable push_front : option (V -> Q -> Q).
(** The constructor's argument: [maxSz_] is its conversion to [size_t]. *)
Variable Maxsize : Z.

Definition maxSz_ : Z := u64 Maxsize.

Record shared : Type := Shared { lock_ : bool; q_ : Q }.

Inductive op : Type :=
| OPopFront | OPushBack (val : V) | OPushFront (val : V) | OClear | OSize | OIsEmpty.

Inductive res : Type :=
| RPop (ret : option V)      (* [false], or [true] with [*ret] *)
| RPush (ret : bool)
| RClear
| RSize (count : Z)
| REmpty (ret : bool).

Inductive loc : Type :=
| Lock (o : op)
| PopTest | PopFront1 | PopPop (val : V)
| PushTest (val : V) | PushDo (val : V)
| PushFrontTest (val : V) | PushFrontDo (val : V)
| ClearDo | SizeRead | EmptyRead
| Unlock (r : res).

Definition start (o : op) : loc := Lock o.

(** The first step inside the critical section. *)
Definition enter (o : op) : loc :=
  match o with
  | OPopFront => PopTest
  | OPushBack v => PushTest v
  | OPushFront v => PushFrontTest v
  | OClear => ClearDo
  | OSize => SizeRead
  | OIsEmpty => EmptyRead
  end.

Definition set_lock (b : bool) (g : shared) : shared := Shared b (q_ g).
Definition set_q (q : Q) (g : shared) : shared := Shared (lock_ g) q.

Definition pthread_spin_lock (g : shared) (o : op) : outcome shared loc res :=
  if lock_ g then Next g (Lock o) else Next (set_lock true g) (enter o).

Definition pthread_spin_unlock (g : shared) (r : res) : outcome shared loc res :=
  Ret (set_lock false g) r.

Definition PopFront_step (g : shared) (l : loc) : outcome shared loc res :=
  match l with
  | PopTest => Next g (if empty (q_ g) then Unlock (RPop None) else PopFront1)
  | PopFront1 => match front (q_ g) with Some v => Next g (PopPop v) | None => Fault end
  | PopPop v => Next (set_q (pop (q_ g)) g) (Unlock (RPop (Some v)))
  | _ => Fault
  end.

Definition PushBack_step (g : shared) (l : loc) : outcome shared loc res :=
  match l with
  | PushTest v => Next g (if size (q_ g) >=? maxSz_ then Unlock (RPush false) else PushDo v)
  | PushDo v => Next (set_q (push v (q_ g)) g) (Unlock (RPush true))
  | _ => Fault
  end.

Definition PushFront_step (g : shared) (l : loc) : outcome shared loc res :=
  match l with
  | PushFrontTest v =>
      Next g (if size (q_ g) >=? maxSz_ then Unlock (RPush false) else PushFrontDo v)
  | PushFrontDo v =>
      match push_front with
      | Some pf => Next (set_q (pf v (q_ g)) g) (Unlock (RPush true))
      | None => Fault
      end
  | _ => Fault
  end.

Definition Clear_step (g : shared) : outcome shared loc res :=
  Next (set_q (clear (q_ g)) g) (Unlock RClear).

(** [int count = queue_.size()] *)
Definition Size_step (g : shared) : outcome shared loc res :=
  Next g (Unlock (RSize (i32 (size (q_ g))))).

Definition IsEmpty_step (g : shared) : outcome shared loc res :=
  Next g (Unlock (REmpty (empty (q_ g)))).

Definition code (g : shared) (l : loc) : outcome shared loc res :=
  match l with
  | Lock o => pthread_spin_lock g o
  | PopTest | PopFront1 | PopPop _ => PopFront_step g l
  | PushTest _ | PushDo _ => PushBack_step g l
  | PushFrontTest _ | PushFrontDo _ => PushFront_step g l
  | ClearDo => Clear_step g
  | SizeRead => Size_step g
  | EmptyRead => IsEmpty_step g
  | Unlock r => pthread_spin_unlock g r
  end.

(** [PushFront] is a member of [SpinlockWeakPriorityQueue] only. *)
Definition member_inv (k : unit) (t : nat) (o : op) : option unit :=
  match o, push_front with OPushFront _, None => None | _, _ => Some k end.

(** The abstract object: each operation in one step on the container. *)
Definition container_spec (q : Q) (o : op) : Q * res :=
  match o with
  | OPopFront =>
      match front q with
      | Some v => (pop q, RPop (Some v))
      | None => (q, RPop None)
      end
  | OPushBack v => if size q >=? maxSz_ then (q, RPush false) else (push v q, RPush true)
  | OPushFront v =>
      if size q >=? maxSz_ then (q, RPush false)
      else match push_front with Some pf => (pf v q, RPush true) | None => (q, RPush false) end
  | OClear => (clear q, RClear)
  | OSize => (q, RSize (i32 (size q)))
  | OIsEmpty => (q, REmpty (empty q))
  end.

(** ** Mutual exclusion and the simulation relation *)

Definition in_cs (x : tstate loc) : Z :=
  match x with Idle | Run (Lock _) => 0 | Run _ => 1 end.

Definition allowed (o : op) : Prop :=
  match o, push_front with OPushFront _, None => False | _, _ => True end.

(** What a thread's position says of its abstract operation, given the queue. *)
Definition srel (q : Q) (x : tstate loc) (u : athread (Op:=op) (R:=res)) : Prop :=
  match x with
  | Idle => u = AIdle
  | Run (Lock o) => u = APend o /\ allowed o
  | Run PopTest => u = APend OPopFront
  | Run PopFront1 => u = APend OPopFront /\ empty q = false
  | Run (PopPop v) => u = APend OPopFront /\ front q = Some v
  | Run (PushTest v) => u = APend (OPushBack v)
  | Run (PushDo v) => u = APend (OPushBack v) /\ (size q >=? maxSz_) = false
  | Run (PushFrontTest v) => u = APend (OPushFront v) /\ allowed (OPushFront v)
  | Run (PushFrontDo v) =>
      u = APend (OPushFront v) /\ allowed (OPushFront v) /\ (size q >=? maxSz_) = false
  | Run ClearDo => u = APend OClear
  | Run SizeRead => u = APend OSize
  | Run EmptyRead => u = APend OIsEmpty
  | Run (Unlock r) => u = ADone r
  end.

Record SRel (g : shared) (ts : list (tstate loc)) (k : unit) (s : Q)
    (us : list (athread (Op:=op) (R:=res))) : Prop := {
  sr_queue : s = q_ g;
  sr_lock : sum_with in_cs ts = if lock_ g then 1 else 0;
  sr_threads : Forall2 (srel (q_ g)) ts us
}.

Lemma in_cs_bound x : 0 <= in_cs x <= 1.
Proof. destruct x as [|[]]; simpl; lia. Qed.

(** The positions outside the critical section say nothing of the queue. *)
Lemma srel_outside q q' x u : in_cs x = 0 -> srel q x u -> srel q' x u.
Proof. by destruct x as [|[]]. Qed.

(** While [t] is in the critical section the others are outside. *)
Lemma others_outside g ts k s us t x t' y :
  SRel g ts k s us -> ts !! t = Some x -> in_cs x = 1 -> ts !! t' = Some y -> t' <> t ->
  in_cs y = 0.
Proof.
  intros HR Ht Hx Ht' Hne. pose proof (sr_lock _ _ _ _ _ HR) as Hl.
  assert (Hs : sum_with in_cs (<[t:=Idle]> ts) = 0).
  { rewrite (sum_with_insert _ _ _ x) by done. pose proof (sum_with_lookup_le in_cs ts t x) as Hle.
    rewrite Hx in *. assert (1 <= sum_with in_cs ts) by (apply Hle; [apply in_cs_bound|done]).
    simpl. destruct (lock_ g); lia. }
  eapply sum_with_zero; [apply in_cs_bound|exact Hs|]. by rewrite list_lookup_insert_ne.
Qed.

(** The thread [t] in the critical section moves: the lock, the queue and its
    own abstract state may change. *)
Lemma SRel_move g ts k s us t x x' g' u' :
  SRel g ts k s us -> ts !! t = Some x -> in_cs x = 1 ->
  (if lock_ g' then 1 else 0) = in_cs x' -> srel (q_ g') x' u' ->
  SRel g' (<[t:=x']> ts) k (q_ g') (<[t:=u']> us).
Proof.
  intros HR Ht Hx Hl Hu. split; [done| |].
  - rewrite (sum_with_insert _ _ _ x) by done. rewrite (sr_lock _ _ _ _ _ HR).
    pose proof (sum_with_lookup_le in_cs ts t x) as Hle. rewrite Hx in *.
    rewrite (sr_lock _ _ _ _ _ HR) in Hle.
    assert (1 <= if lock_ g then 1 else 0) by (apply Hle; [apply in_cs_bound|done]).
    destruct (lock_ g); lia.
  - apply Forall2_same_length_lookup. pose proof (sr_threads _ _ _ _ _ HR) as HF.
    split; [rewrite !length_insert; by eapply Forall2_length|].
    intros i y v Hy Hv. apply list_insert_inv in Hy as [[-> ->]|[Hne Hy]].
    + rewrite list_lookup_insert_eq in Hv by (rewrite <-(Forall2_length _ _ _ HF);
        by eapply lookup_lt_Some). by simplify_eq.
    + rewrite list_lookup_insert_ne in Hv by done.
      eapply srel_outside; [by eapply (others_outside g ts k s us t x i y)|].
      by eapply Forall2_lookup_lr.
Qed.

(** The same when the abstract thread does not move. *)
Lemma SRel_stay g ts k s us t x x' g' u :
  SRel g ts k s us -> ts !! t = Some x -> us !! t = Some u -> in_cs x = 1 ->
  (if lock_ g' then 1 else 0) = in_cs x' -> q_ g' = q_ g -> srel (q_ g') x' u ->
  SRel g' (<[t:=x']> ts) k s us.
Proof.
  intros HR Ht Hu Hx Hl Hq Hr. rewrite <-(list_insert_id us t u) by done.
  rewrite (sr_queue _ _ _ _ _ HR), <-Hq. by eapply SRel_move.
Qed.

(** A thread outside moves without touching the lock or the queue, or takes the
    lock when it is free. *)
Lemma SRel_outside g ts k s us t x x' u' (b : bool) :
  SRel g ts k s us -> ts !! t = Some x -> in_cs x = 0 ->
  (if b then 1 else 0) = (if lock_ g then 1 else 0) + in_cs x' -> srel (q_ g) x' u' ->
  SRel (set_lock b g) (<[t:=x']> ts) k s (<[t:=u']> us).
Proof.
  intros HR Ht Hx Hl Hu. split; [apply HR| |].
  - rewrite (sum_with_insert _ _ _ x) by done. rewrite (sr_lock _ _ _ _ _ HR), Hx. simpl. lia.
  - apply Forall2_insert; [apply HR|done].
Qed.

Lemma front_nonempty q : empty q = false -> exists v, front q = Some v.
Proof.
  rewrite empty_spec, front_spec. destruct (elems q); [done|]. by eexists.
Qed.

Lemma front_empty q : empty q = true -> front q = None.
Proof. rewrite empty_spec, front_spec. by destruct (elems q). Qed.

Lemma SRel_code g ts k s us t l u :
  SRel g ts k s us -> ts !! t = Some (Run l) -> us !! t = Some u -> srel (q_ g) (Run l) u ->
  match code g l with
  | Next g' l' =>
      SRel g' (<[t:=Run l']> ts) k s us \/
      (exists o, us !! t = Some (APend o) /\
         SRel g' (<[t:=Run l']> ts) k (fst (container_spec s o))
           (<[t:=ADone (snd (container_spec s o))]> us))
  | Ret g' r => us !! t = Some (ADone r) /\ SRel g' (<[t:=Idle]> ts) k s (<[t:=AIdle]> us)
  | Fault => False
  end.
Proof.
  intros HR Ht Hu Hx. pose proof (sr_queue _ _ _ _ _ HR) as ->.
  pose proof (sr_lock _ _ _ _ _ HR) as Hl.
  assert (Hlk : in_cs (Run l) = 1 -> lock_ g = true).
  { intros H1. pose proof (sum_with_lookup_le in_cs ts t _ ltac:(apply in_cs_bound) Ht).
    destruct (lock_ g); [done|]. lia. }
  assert (Hmv : forall g' l' o, in_cs (Run l) = 1 -> in_cs (Run l') = 1 -> u = APend o ->
    lock_ g' = lock_ g -> fst (container_spec (q_ g) o) = q_ g' ->
    l' = Unlock (snd (container_spec (q_ g) o)) ->
    exists o, us !! t = Some (APend o) /\
         SRel g' (<[t:=Run l']> ts) k (fst (container_spec (q_ g) o))
           (<[t:=ADone (snd (container_spec (q_ g) o))]> us)).
  { intros g' l' o H1 H2 -> H3 H4 ->. exists o. split; [done|]. rewrite H4.
    eapply SRel_move; [exact HR|exact Ht|done| |done]. rewrite H3, Hlk; done. }
  assert (Hst : forall g' l', in_cs (Run l) = 1 -> in_cs (Run l') = 1 ->
    lock_ g' = lock_ g -> q_ g' = q_ g -> srel (q_ g') (Run l') u ->
    SRel g' (<[t:=Run l']> ts) k (q_ g) us).
  { intros g' l' H1 H2 H3 H4 H5. eapply SRel_stay; [exact HR|exact Ht|exact Hu|done| |done|done].
    rewrite H3, Hlk; done. }
  destruct l as [o| | |v|v|v|v|v| | | |r]; cbn in Hx.
  - destruct Hx as [-> Ho]. cbn. unfold pthread_spin_lock. destruct (lock_ g) eqn:E.
    + left. rewrite <-(list_insert_id us t (APend o)) by done.
      replace g with (set_lock true g) by (destruct g; simpl in *; by subst).
      eapply SRel_outside; [exact HR|exact Ht|done|by rewrite E|done].
    + left. rewrite <-(list_insert_id us t (APend o)) by done.
      eapply SRel_outside; [exact HR|exact Ht|done|rewrite E; by destruct o|by destruct o].
  - subst u. cbn. destruct (empty (q_ g)) eqn:E.
    + right. eapply Hmv; [done..| |]; cbn; by rewrite front_empty.
    + left. by apply Hst.
  - destruct Hx as [-> E]. destruct (front_nonempty _ E) as [v Hv]. cbn. rewrite Hv. left.
    by apply Hst.
  - destruct Hx as [-> E]. cbn. right. eapply Hmv; [done..| |]; cbn; by rewrite E.
  - subst u. cbn. destruct (size (q_ g) >=? maxSz_) eqn:E.
    + right. eapply Hmv; [done..| |]; cbn; by rewrite E.
    + left. by apply Hst.
  - destruct Hx as [-> E]. cbn. right. eapply Hmv; [done..| |]; cbn; by rewrite E.
  - destruct Hx as [-> Ho]. cbn. destruct (size (q_ g) >=? maxSz_) eqn:E.
    + right. eapply Hmv; [done..| |]; cbn; by rewrite E.
    + left. by apply Hst.
  - destruct Hx as (->&Ho&E). cbn. unfold allowed in Ho. destruct push_front eqn:Ef; [|done].
    right. eapply Hmv; [done..| |]; cbn; rewrite E; by rewrite ?Ef.
  - subst u. cbn. right. by eapply Hmv.
  - subst u. cbn. right. by eapply Hmv.
  - subst u. cbn. right. by eapply Hmv.
  - subst u. cbn. split; [done|].
    by apply (SRel_move g ts k (q_ g) us t _ Idle (set_lock false g) AIdle HR Ht).
Qed.

(** C16. For any number of threads and any container, every history of [PopFront],
    [PushBack], [PushFront], [Clear], [Size] and [IsEmpty] is a history in which
    each operation runs at once on the container: the spin lock makes them
    atomic, and [front] is never called on an empty container. *)
Theorem SpinlockQueue_linearizable (q : Q) (n : nat) :
  linearizable start code member_inv any_ret container_spec
    (init_cfg (Shared false q) n tt) (init_acfg q n tt).
Proof.
  apply forward_simulation with SRel.
  - intros g ts k s us t HR Ht.
    destruct (Forall2_lookup_l _ _ _ _ _ (sr_threads _ _ _ _ _ HR) Ht) as (u&Hu&Hx).
    simpl in Hx. by subst.
  - intros g ts k s us t o k' HR Ht Hu Hk.
    replace g with (set_lock (lock_ g) g) by by destruct g.
    destruct k, k'. eapply SRel_outside; [exact HR|exact Ht|done|simpl; lia|].
    simpl. split; [done|]. unfold member_inv in Hk. unfold allowed.
    by destruct o, push_front.
  - intros g ts k s us t l HR Ht.
    destruct (Forall2_lookup_l _ _ _ _ _ (sr_threads _ _ _ _ _ HR) Ht) as (u&Hu&Hx).
    pose proof (SRel_code g ts k s us t l u HR Ht Hu Hx) as H.
    destruct (code g l); [done| |done]. left. by destruct k.
  - split; simpl; [done| |].
    + by rewrite sum_with_replicate, Z.mul_0_r.
    + by apply Forall2_replicate.
Qed.

(** ** Sequences of operations on the abstract queue *)

Fixpoint run_ops (q : Q) (os : list op) : Q * list res :=
  match os with
  | [] => (q, [])
  | o :: os' =>
      let '(q1, r) := container_spec q o in let '(q2, rs) := run_ops q1 os' in (q2, r :: rs)
  end.

(** The elements [PushBack] accepted and those [PopFront] delivered. *)
Fixpoint accepted (os : list op) (rs : list res) : list V :=
  match os, rs with
  | OPushBack v :: os', RPush true :: rs' => v :: accepted os' rs'
  | _ :: os', _ :: rs' => accepted os' rs'
  | _, _ => []
  end.

Fixpoint delivered (rs : list res) : list V :=
  match rs with
  | RPop (Some v) :: rs' => v :: delivered rs'
  | _ :: rs' => delivered rs'
  | [] => []
  end.

(** Operations that neither clear the queue nor jump it. *)
Definition plain (o : op) : Prop := match o with OClear | OPushFront _ => False | _ => True end.

Lemma pop_elems q v : front q = Some v -> elems q = v :: elems (pop q).
Proof. rewrite front_spec, pop_spec. destruct (elems q); [done|]. simpl. congruence. Qed.

Lemma container_spec_bounded q o :
  plain o -> size q <= maxSz_ -> size (fst (container_spec q o)) <= maxSz_.
Proof.
  intros Hp Hs. destruct o; try done; simpl.
  - destruct (front q) eqn:E; simpl; [|lia]. rewrite size_spec in *.
    rewrite (pop_elems _ _ E) in Hs. simpl in Hs. lia.
  - destruct (Z.geb_spec (size q) maxSz_); simpl; [lia|].
    rewrite size_spec in *. rewrite push_spec. simpl. lia.
Qed.

(** Nothing is lost or duplicated and the bound holds: after any sequence of
    operations without [Clear], what [PushBack] accepted is what [PopFront] has
    delivered and what is still in the container, and the container never holds
    more than [maxSz_] elements. *)
Lemma SpinlockQueue_conserves (q : Q) (os : list op) :
  Forall plain os -> size q <= maxSz_ ->
  let '(q', rs) := run_ops q os in
  elems q ++ accepted os rs ≡ₚ delivered rs ++ elems q' /\ size q' <= maxSz_.
Proof.
  intros Hp. revert q. induction Hp as [|o os Ho Hp IH]; intros q Hs; simpl.
  { split; [by rewrite app_nil_r|done]. }
  pose proof (container_spec_bounded q o Ho Hs) as Hb.
  destruct (container_spec q o) as [q1 r] eqn:Eo. specialize (IH q1 Hb).
  destruct (run_ops q1 os) as [q2 rs]. destruct IH as [IH Hb2]. split; [|done].
  destruct o; try done; simpl in Eo.
  - destruct (front q) as [v|] eqn:E; simplify_eq; simpl; [|done].
    rewrite (pop_elems _ _ E). simpl. by rewrite IH.
  - destruct (size q >=? maxSz_); simplify_eq; simpl; [done|].
    rewrite <-IH, push_spec. simpl. by rewrite Permutation_middle.
  - by simplify_eq.
  - by simplify_eq.
Qed.
End SpinlockQueue.
Arguments shared Q : clear implicits.
Arguments op V : clear implicits.

(** ** [SpinlockQueue<Type>] over [std::queue] *)

(** A [SpinlockQueue] over [std::queue] is first in, first out: the elements
    [PushBack] accepted come out of [PopFront] in that order, and those that have
    not come out are in the queue, in that order. *)
Theorem SpinlockQueue_fifo {V : Type} (Maxsize : Z) (l : list V) (os : list (op V)) :
  Forall plain os ->
  let '(q', rs) := run_ops None Maxsize (Deque l) os in
  l ++ accepted os rs = delivered rs ++ queue_ q'.
Proof.
  intros Hp. revert l. induction Hp as [|o os Ho Hp IH]; intros l; simpl.
  { by rewrite app_nil_r. }
  destruct o as [|v|v| | |]; try done; simpl.
  - destruct l as [|x l]; simpl; [specialize (IH [])|specialize (IH l)];
      cbn [deque_pop queue_ tail] in *; destruct (run_ops _ _ _ os); simpl in *; [done|].
    by f_equal.
  - destruct (_ >=? _); [specialize (IH l)|specialize (IH (l ++ [v]))].
    + by destruct (run_ops _ _ _ os).
    + cbn. unfold deque_push. cbn. destruct (run_ops _ _ _ os). simpl. by rewrite <-IH, <-app_assoc.
  - specialize (IH l). by destruct (run_ops _ _ _ os).
  - specialize (IH l). by destruct (run_ops _ _ _ os).
Qed.

Lemma SpinlockQueue_fifo_witness :
  let '(q', rs) := run_ops None 2 (Deque [7]) [OPushBack 1; OPushBack 2; OPopFront; OPushBack 3] in
  [7] ++ accepted [OPushBack 1; OPushBack 2; OPopFront; OPushBack 3] rs = delivered rs ++ queue_ q'.
Proof. apply (SpinlockQueue_fifo 2 [7]). repeat constructor. Defined.

Lemma SpinlockQueue_linearizable_witness :
  linearizable start (code (V:=Z) None 2) (member_inv (Q:=DequeQueue Z) None) any_ret (container_spec None 2)
    (init_cfg (Shared false (Deque [])) 3 tt) (init_acfg (Deque []) 3 tt).
Proof. apply (SpinlockQueue_linearizable None 2 (Deque []) 3). Defined.
