(* ===== verification/Worker.v ===== *)
(** * Worker.v: [thread/WorkerBodyBase.h], [thread/src/WorkerBodyBase.cc],
    [thread/ITask.h], [thread/Worker.h] and [thread/src/Worker.cc]

A worker thread runs [WorkerBodyBase::Run]: it waits on the semaphore [sem_] and
takes one internal command or one task per token; other threads post tasks and
the exit command.  Each operation on the semaphore, on a queue (atomic by
SpinlockQueue.v), on a flag and each call-back is one step of Conc.v.

The theorems: a token always stands for an element, so that the worker never
gets a [NULL] task; every accepted task is run exactly once (and deleted at most
once), in order for a first-in-first-out container; a worker left alone runs
every task of its mailbox; [ClearAllTask] ends and empties the container. *)

From S2P Require Import Prelude Machine Conc SpinlockQueue.

Inductive TaskPriority : Type := TP_EXTREME | TP_HIGH | TP_NORMAL | TP_LOW.

(** [ITask], without its [Run]: the object is identified by [addr]. *)
Record ITask : Type := Task {
  addr : nat; thread_ : Z; affinity_ : Z; deleteAfterRun_ : bool; priority_ : TaskPriority
}.

Definition new_ITask (addr : nat) (autoDel : bool) (prio : TaskPriority) : ITask :=
  Task addr (-1) (-1) autoDel prio.

Definition SetAffinity (t : ITask) (aff : Z) : ITask :=
  Task (addr t) (thread_ t) aff (deleteAfterRun_ t) (priority_ t).
Definition SetThreadId (t : ITask) (id : Z) : ITask :=
  Task (addr t) id (affinity_ t) (deleteAfterRun_ t) (priority_ t).
Definition SetPriority (t : ITask) (prio : TaskPriority) : TaskPriority * ITask :=
  (priority_ t, Task (addr t) (thread_ t) (affinity_ t) (deleteAfterRun_ t) prio).

Definition DEFAULT_WORKER_TASK_MSG_SIZE : Z := 1024.

Section WorkerBody.
(** The container of [PushTaskToContainer] and [GetTaskFromContainer]: a
    [DequeQueue] for [WorkerBody], a [PriorityQueue] for [Dispatcher]. *)
Context {Q : Type} `{CQ : Container ITask Q} {elems : Q -> list ITask} `{!ContainerSpec ITask Q elems}.
Variable maxMsgSize : Z.
(** [notifyer_ != NULL]. *)
Variable notifyer_ : bool.
(** What [HandleTask] returns: [true] for [WorkerBody], [false] for
    [Dispatcher]. *)
Variable HandleTask_ret : bool.

Definition reqThreshold_ : Z := 3.

(** What the outside sees of the body. *)
Inductive effect : Type :=
| ERun (t : ITask)      (* [HandleTask(t)] *)
| EDelete (t : ITask)   (* [delete t] *)
| ENotify (type : Z).   (* [notifyer_->Notify(type)] *)

(** The members of [WorkerBodyBase] and the container.  The elements of [cmd_]
    are all [DummyExitTask]s.  [timer] tells, for each time the clock is asked,
    whether the wait is over; [effects_] is the trace of the body's calls;
    [accepted_] records the tasks whose push succeeded and is read by no code. *)
Record body : Type := Body {
  tasks_ : Q; cmd_ : nat; sem_ : Z; isRuning_ : Z; done_ : Z; notify_ : bool;
  ShouldStop_ : bool; timer : list bool; effects_ : list effect; accepted_ : list ITask
}.

Definition set_tasks q g := Body q (cmd_ g) (sem_ g) (isRuning_ g) (done_ g) (notify_ g) (ShouldStop_ g) (timer g) (effects_ g) (accepted_ g).
Definition set_cmd c g := Body (tasks_ g) c (sem_ g) (isRuning_ g) (done_ g) (notify_ g) (ShouldStop_ g) (timer g) (effects_ g) (accepted_ g).
Definition set_sem s g := Body (tasks_ g) (cmd_ g) s (isRuning_ g) (done_ g) (notify_ g) (ShouldStop_ g) (timer g) (effects_ g) (accepted_ g).
Definition set_isRuning r g := Body (tasks_ g) (cmd_ g) (sem_ g) r (done_ g) (notify_ g) (ShouldStop_ g) (timer g) (effects_ g) (accepted_ g).
Definition set_done d g := Body (tasks_ g) (cmd_ g) (sem_ g) (isRuning_ g) d (notify_ g) (ShouldStop_ g) (timer g) (effects_ g) (accepted_ g).
Definition set_notify b g := Body (tasks_ g) (cmd_ g) (sem_ g) (isRuning_ g) (done_ g) b (ShouldStop_ g) (timer g) (effects_ g) (accepted_ g).
Definition set_stop b g := Body (tasks_ g) (cmd_ g) (sem_ g) (isRuning_ g) (done_ g) (notify_ g) b (timer g) (effects_ g) (accepted_ g).
Definition set_timer x g := Body (tasks_ g) (cmd_ g) (sem_ g) (isRuning_ g) (done_ g) (notify_ g) (ShouldStop_ g) x (effects_ g) (accepted_ g).
Definition emit e g := Body (tasks_ g) (cmd_ g) (sem_ g) (isRuning_ g) (done_ g) (notify_ g) (ShouldStop_ g) (timer g) (effects_ g ++ [e]) (accepted_ g).
Definition accept t g := Body (tasks_ g) (cmd_ g) (sem_ g) (isRuning_ g) (done_ g) (notify_ g) (ShouldStop_ g) (timer g) (effects_ g) (accepted_ g ++ [t]).

(** The constructor; [EnableNotify] is [set_notify]. *)
Definition WorkerBodyBase_init (q : Q) (tm : list bool) : body :=
  Body q 0 0 0 0 false false tm [] [].

Definition EnableNotify (enable : bool) (g : body) : body := set_notify enable g.

(** ** The operations of the queues and of the semaphore *)

Definition PushTaskToContainer (t : ITask) (g : body) : body * bool :=
  match container_spec None maxMsgSize (tasks_ g) (OPushBack t) with
  | (q, RPush true) => (accept t (set_tasks q g), true)
  | (q, _) => (set_tasks q g, false)
  end.

Definition GetTaskFromContainer (g : body) : body * option ITask :=
  match container_spec None maxMsgSize (tasks_ g) OPopFront with
  | (q, RPop r) => (set_tasks q g, r)
  | (q, _) => (set_tasks q g, None)
  end.

Definition HasTask (g : body) : bool := negb (empty (tasks_ g)).

Definition GetContainerSize (g : body) : Z := i32 (size (tasks_ g)).

Definition GetTaskNumber (g : body) : Z := i32 (GetContainerSize g + isRuning_ g).

Definition IsRunning (g : body) : bool := negb (isRuning_ g =? 0).

(** [cmd_.PushBack] on the default capacity. *)
Definition PushInternalCmd (g : body) : body * bool :=
  if Z.of_nat (cmd_ g) >=? DEFAULT_WORKER_TASK_MSG_SIZE then (g, false)
  else (set_cmd (S (cmd_ g)) g, true).

Definition SignalPost (g : body) : body := set_sem (sem_ g + 1) g.

(** [sem_trywait] *)
Definition TryConsume (g : body) : body * bool :=
  if 0 <? sem_ g then (set_sem (sem_ g - 1) g, true) else (g, false).

(** Ask the clock. *)
Definition tick (g : body) : body * bool :=
  match timer g with [] => (g, true) | b :: tm => (set_timer tm g, b) end.

(** ** The operations *)

Inductive op : Type := ORun | OPostTask (t : ITask) | OPostExit | OTryGetTask | OClearAllTask.

Inductive res : Type :=
| RRun | RPost (ret : bool) | RExit (ret : bool) | RTask (t : option ITask) | RClearAll.

Inductive loc : Type :=
| RunStart
| GetRunTask (req : Z)            (* the loop of [GetRunTask] *)
| Consume                         (* [SignalConsume] *)
| Try (req : Z) | Ask (req : Z)
| ConsumeTimeout (req : Z)        (* [clock_gettime] *)
| TimedWait (req : Z)             (* [sem_timedwait] *)
| CmdIsEmpty | CmdPop | TakeTask
| SetBusy (t : ITask) | Handle (t : ITask) | CleanRunTask (t : ITask) | IncDone | ClearBusy
| ProcessInternalCmd
| StopTest | NotifyDone
| PostTaskPush (t : ITask) | PostTaskSignal
| PostExitPush | PostExitSignal
| TryGetConsume | TryGetTake
| ClearHasTask | ClearConsume | ClearTake | ClearDelete (t : option ITask).

Definition start (o : op) : loc :=
  match o with
  | ORun => RunStart
  | OPostTask t => PostTaskPush t
  | OPostExit => PostExitPush
  | OTryGetTask => TryGetConsume
  | OClearAllTask => ClearHasTask
  end.

Definition GetRunTask_step (g : body) (l : loc) : outcome body loc res :=
  match l with
  | GetRunTask req =>
      Next g (if negb (notify_ g) || (reqThreshold_ <? req) then Consume else Try req)
  | Consume => let '(g', ok) := TryConsume g in Next g' (if ok then CmdIsEmpty else Consume)
  | Try req => let '(g', ok) := TryConsume g in Next g' (if ok then CmdIsEmpty else Ask req)
  | Ask req =>
      Next (if notifyer_ then emit (ENotify 0) g else g) (ConsumeTimeout (req + 1))
  | ConsumeTimeout req =>
      let '(g', failed) := tick g in Next g' (if failed then GetRunTask req else TimedWait req)
  | TimedWait req =>
      let '(g', ok) := TryConsume g in
      if ok then Next g' CmdIsEmpty
      else let '(g', timedout) := tick g in
           Next g' (if timedout then GetRunTask req else TimedWait req)
  | CmdIsEmpty => Next g (match cmd_ g with O => TakeTask | S _ => CmdPop end)
  | CmdPop =>
      match cmd_ g with
      | S c => Next (set_cmd c g) ProcessInternalCmd
      | O => Next g TakeTask
      end
  | TakeTask =>
      match GetTaskFromContainer g with
      | (g', Some t) => Next g' (SetBusy t)
      | (_, None) => Fault     (* [HandleTask(NULL)] *)
      end
  | _ => Fault
  end.

Definition Run_step (g : body) (l : loc) : outcome body loc res :=
  match l with
  | RunStart => Next (set_stop false g) (GetRunTask 0)
  | SetBusy t => Next (set_isRuning (snd (atomic_cas (isRuning_ g) 0 1)) g) (Handle t)
  | Handle t =>
      Next (emit (ERun t) g) (if HandleTask_ret then CleanRunTask t else IncDone)
  | CleanRunTask t => Next (if deleteAfterRun_ t then emit (EDelete t) g else g) IncDone
  | IncDone => Next (set_done (i32 (done_ g + 1)) g) ClearBusy
  | ClearBusy => Next (set_isRuning (snd (atomic_cas (isRuning_ g) 1 0)) g) StopTest
  | ProcessInternalCmd => Next (set_stop true g) StopTest
  | StopTest => if ShouldStop_ g then Ret g RRun else Next g NotifyDone
  | NotifyDone =>
      Next (if notify_ g && notifyer_ then emit (ENotify (-1)) g else g) (GetRunTask 0)
  | _ => GetRunTask_step g l
  end.

Definition PostTask_step (g : body) (l : loc) : outcome body loc res :=
  match l with
  | PostTaskPush t =>
      let '(g', ret) := PushTaskToContainer t g in
      if ret then Next g' PostTaskSignal else Ret g' (RPost false)
  | PostTaskSignal => Ret (SignalPost g) (RPost true)
  | _ => Fault
  end.

(** [PostExit] and [PostInternalCmd]. *)
Definition PostExit_step (g : body) (l : loc) : outcome body loc res :=
  match l with
  | PostExitPush =>
      let '(g', ret) := PushInternalCmd g in
      if ret then Next g' PostExitSignal else Ret g' (RExit false)
  | PostExitSignal => Ret (SignalPost g) (RExit true)
  | _ => Fault
  end.

Definition TryGetTask_step (g : body) (l : loc) : outcome body loc res :=
  match l with
  | TryGetConsume =>
      let '(g', ok) := TryConsume g in if ok then Next g' TryGetTake else Ret g' (RTask None)
  | TryGetTake => let '(g', t) := GetTaskFromContainer g in Ret g' (RTask t)
  | _ => Fault
  end.

Definition ClearAllTask_step (g : body) (l : loc) : outcome body loc res :=
  match l with
  | ClearHasTask => if HasTask g then Next g ClearConsume else Ret g RClearAll
  | ClearConsume =>
      let '(g', ok) := TryConsume g in Next g' (if ok then ClearTake else ClearDelete None)
  | ClearTake => let '(g', t) := GetTaskFromContainer g in Next g' (ClearDelete t)
  | ClearDelete (Some t) => Next (if deleteAfterRun_ t then emit (EDelete t) g else g) ClearHasTask
  | ClearDelete None => Next g ClearHasTask
  | _ => Fault
  end.

Definition code (g : body) (l : loc) : outcome body loc res :=
  match l with
  | PostTaskPush _ | PostTaskSignal => PostTask_step g l
  | PostExitPush | PostExitSignal => PostExit_step g l
  | TryGetConsume | TryGetTake => TryGetTask_step g l
  | ClearHasTask | ClearConsume | ClearTake | ClearDelete _ => ClearAllTask_step g l
  | _ => Run_step g l
  end.

(** Thread 0 is the worker; the others post. *)
Definition worker_inv (k : unit) (t : nat) (o : op) : option unit :=
  match o, t with
  | ORun, 0%nat => Some k
  | (OPostTask _ | OPostExit), S _ => Some k
  | _, _ => None
  end.

(** ** The invariant *)

(** The tokens a thread still owes to, or holds from, the semaphore. *)
Definition owed (x : tstate loc) : Z :=
  match x with
  | Run (PostTaskSignal | PostExitSignal | CmdIsEmpty | CmdPop | TakeTask) => 1
  | _ => 0
  end.

Definition items (g : body) : Z := Z.of_nat (length (elems (tasks_ g)) + cmd_ g).

(** The task the worker has taken and not yet run. *)
Definition in_hand (x : tstate loc) : list ITask :=
  match x with Run (SetBusy t | Handle t) => [t] | _ => [] end.

(** The task the worker has run and will delete. *)
Definition to_delete (x : tstate loc) : list ITask :=
  match x with Run (CleanRunTask t) => filter deleteAfterRun_ [t] | _ => [] end.

Definition uncounted (x : tstate loc) : Z :=
  match x with Run (CleanRunTask _ | IncDone) => 1 | _ => 0 end.

Definition busy (x : tstate loc) : Z :=
  match x with Run (Handle _ | CleanRunTask _ | IncDone | ClearBusy) => 1 | _ => 0 end.

Definition runs (es : list effect) : list ITask :=
  omap (fun e => match e with ERun t => Some t | _ => None end) es.

Definition deletes (es : list effect) : list ITask :=
  omap (fun e => match e with EDelete t => Some t | _ => None end) es.

(** The container appends. *)
Definition fifo : Prop := forall v q, elems (push v q) = elems q ++ [v].

(** Every accepted task is run, about to be run, or in the container. *)
Definition conserved (g : body) (hand : list ITask) : Prop :=
  accepted_ g ≡ₚ runs (effects_ g) ++ hand ++ elems (tasks_ g) /\
  (fifo -> accepted_ g = runs (effects_ g) ++ hand ++ elems (tasks_ g)).

(** What holds of the members when the worker is at [x]. *)
Record worker_data (g : body) (x : tstate loc) : Prop := {
  wd_tasks : conserved g (in_hand x);
  wd_deletes : deletes (effects_ g) ++ to_delete x =
    if HandleTask_ret then filter deleteAfterRun_ (runs (effects_ g)) else [];
  wd_done : done_ g = i32 (Z.of_nat (length (runs (effects_ g))) - uncounted x);
  wd_busy : isRuning_ g = busy x
}.

(** Which thread may be where, and what the worker knows of the queues. *)
Definition placed (g : body) (t : nat) (x : tstate loc) : Prop :=
  match x, t with
  | Idle, _ => True
  | Run (PostTaskPush _ | PostTaskSignal | PostExitPush | PostExitSignal), S _ => True
  | Run (PostTaskPush _ | PostTaskSignal | PostExitPush | PostExitSignal), O => False
  | Run (TryGetConsume | TryGetTake | ClearHasTask | ClearConsume | ClearTake | ClearDelete _), _ => False
  | Run (CleanRunTask _), O => HandleTask_ret = true
  | Run CmdPop, O => (0 < cmd_ g)%nat
  | Run TakeTask, O => elems (tasks_ g) <> []
  | _, O => True
  | _, S _ => False
  end.

Definition worker_of (ts : list (tstate loc)) : tstate loc := default Idle (ts !! 0%nat).

Record WInv (n : nat) (g : body) (ts : list (tstate loc)) (k : unit) : Prop := {
  wi_sem : 0 <= sem_ g;
  wi_tokens : sem_ g + sum_with owed ts = items g;
  wi_placed : forall t x, ts !! t = Some x -> placed g t x;
  wi_data : worker_data g (worker_of ts)
}.

Lemma placed_poster g g' t x : placed g (S t) x -> placed g' (S t) x.
Proof. by destruct x as [|[]]. Qed.

Lemma placed_mono g g' t x :
  (cmd_ g <= cmd_ g')%nat -> (elems (tasks_ g) <> [] -> elems (tasks_ g') <> []) ->
  placed g t x -> placed g' t x.
Proof. intros Hc He. destruct x as [|[]], t; simpl; try done; first [lia|auto]. Qed.

(** A step of the worker. *)
Lemma WInv_worker n g ts k x g' x' :
  WInv n g ts k -> ts !! 0%nat = Some x -> 0 <= sem_ g' ->
  sem_ g' + owed x' - items g' = sem_ g + owed x - items g ->
  placed g' 0 x' -> worker_data g' x' -> WInv (S n) g' (<[0%nat:=x']> ts) k.
Proof.
  intros HI Ht Hs Hi Hp Hd. split; [done| | |].
  - rewrite (sum_with_insert _ _ _ x) by done. pose proof (wi_tokens _ _ _ _ HI). lia.
  - intros t y Hy. apply list_insert_inv in Hy as [[-> ->]|[Hne Hy]]; [done|].
    destruct t as [|t]; [done|]. eapply placed_poster, (wi_placed _ _ _ _ HI), Hy.
  - unfold worker_of. rewrite list_lookup_insert_eq by by eapply lookup_lt_Some. done.
Qed.

(** A step of a poster. *)
Lemma WInv_poster n g ts k t x g' x' :
  WInv n g ts k -> ts !! S t = Some x -> 0 <= sem_ g' ->
  sem_ g' + owed x' - items g' = sem_ g + owed x - items g ->
  (cmd_ g <= cmd_ g')%nat -> (elems (tasks_ g) <> [] -> elems (tasks_ g') <> []) ->
  placed g' (S t) x' -> (forall y, worker_data g y -> worker_data g' y) ->
  WInv (S n) g' (<[S t:=x']> ts) k.
Proof.
  intros HI Ht Hs Hi Hc He Hp Hd. split; [done| | |].
  - rewrite (sum_with_insert _ _ _ x) by done. pose proof (wi_tokens _ _ _ _ HI). lia.
  - intros t' y Hy. apply list_insert_inv in Hy as [[-> ->]|[Hne Hy]]; [done|].
    eapply placed_mono; [done|done|]. by apply (wi_placed _ _ _ _ HI).
  - unfold worker_of. rewrite list_lookup_insert_ne by done. apply Hd, HI.
Qed.

(** Steps that leave the data alone. *)
Lemma worker_data_same g x g' x' :
  worker_data g x -> tasks_ g' = tasks_ g -> effects_ g' = effects_ g ->
  accepted_ g' = accepted_ g -> done_ g' = done_ g -> isRuning_ g' = isRuning_ g ->
  in_hand x' = in_hand x -> to_delete x' = to_delete x -> uncounted x' = uncounted x ->
  busy x' = busy x -> worker_data g' x'.
Proof.
  intros [H1 H2 H3 H4] E1 E2 E3 E4 E5 F1 F2 F3 F4.
  split; [unfold conserved in *|..]; rewrite ?E1, ?E2, ?E3, ?E4, ?E5, ?F1, ?F2, ?F3, ?F4; done.
Qed.

Lemma runs_app es1 es2 : runs (es1 ++ es2) = runs es1 ++ runs es2.
Proof. apply omap_app. Qed.

Lemma deletes_app es1 es2 : deletes (es1 ++ es2) = deletes es1 ++ deletes es2.
Proof. apply omap_app. Qed.

Lemma worker_data_notify g x ty x' :
  worker_data g x -> in_hand x' = in_hand x -> to_delete x' = to_delete x ->
  uncounted x' = uncounted x -> busy x' = busy x -> worker_data (emit (ENotify ty) g) x'.
Proof.
  intros [H1 H2 H3 H4] F1 F2 F3 F4.
  split; [unfold conserved in *|..]; cbn;
    rewrite ?runs_app, ?deletes_app; cbn; rewrite ?app_nil_r, ?F1, ?F2, ?F3, ?F4; done.
Qed.

Lemma take_task_elems g g' t :
  GetTaskFromContainer g = (g', Some t) ->
  elems (tasks_ g) = t :: elems (tasks_ g') /\ g' = set_tasks (tasks_ g') g.
Proof.
  unfold GetTaskFromContainer. cbn. destruct (front (tasks_ g)) as [v|] eqn:E; [|done].
  intros [= <- ->]. cbn. split; [|done].
  by apply (SpinlockQueue.pop_elems (elems:=elems) (tasks_ g) t).
Qed.

Lemma take_task_some g : elems (tasks_ g) <> [] -> exists t g', GetTaskFromContainer g = (g', Some t).
Proof.
  intros He. unfold GetTaskFromContainer. cbn.
  rewrite front_spec. destruct (elems (tasks_ g)); [done|]. cbn. eauto.
Qed.

Lemma push_task_spec g t g' ret :
  PushTaskToContainer t g = (g', ret) ->
  if ret then
    g' = accept t (set_tasks (tasks_ g') g) /\ elems (tasks_ g') ≡ₚ t :: elems (tasks_ g) /\
    (fifo -> elems (tasks_ g') = elems (tasks_ g) ++ [t])
  else g' = g.
Proof.
  unfold PushTaskToContainer. cbn. destruct (_ >=? _); intros [= <- <-]; [by destruct g|].
  cbn. split; [done|]. split; [by rewrite push_spec|]. intros Hf. by rewrite Hf.
Qed.

Ltac worker HI Ht := eapply (WInv_worker _ _ _ _ _ _ _ HI Ht); [..|].

(** A test of the semaphore by the worker with nothing in hand. *)
Lemma WInv_consume n g ts k l ok g' l' :
  WInv n g ts k -> ts !! 0%nat = Some (Run l) -> TryConsume g = (g', ok) ->
  match l with Consume | Try _ | TimedWait _ => True | _ => False end ->
  (ok = true -> l' = CmdIsEmpty) ->
  (ok = false -> match l' with Consume | Ask _ => True | _ => False end) ->
  WInv (S n) g' (<[0%nat:=Run l']> ts) k.
Proof.
  intros HI Ht E Hl Ht' Hf. pose proof (wi_data _ _ _ _ HI) as Hd. unfold worker_of in Hd.
  rewrite Ht in Hd. simpl in Hd. pose proof (wi_sem _ _ _ _ HI) as Hsem.
  unfold TryConsume in E. destruct (Z.ltb_spec 0 (sem_ g)); simplify_eq.
  - rewrite Ht' by done. worker HI Ht; cbn [sem_ set_sem]; [lia| |done|].
    + destruct l; try done; unfold items; cbn; lia.
    + eapply worker_data_same; [exact Hd|done..| | | |]; by destruct l.
  - specialize (Hf eq_refl). worker HI Ht; [done|by destruct l', l|by destruct l'|].
    eapply worker_data_same; [exact Hd|done..| | | |]; by destruct l, l'.
Qed.

(** The worker outside the handling of a task: waiting, commands, notifications. *)
Lemma WInv_wait n g ts k l :
  WInv n g ts k -> ts !! 0%nat = Some (Run l) ->
  match l with
  | GetRunTask _ | Consume | Try _ | Ask _ | ConsumeTimeout _ | TimedWait _ | CmdIsEmpty
  | CmdPop | TakeTask => True
  | _ => False
  end ->
  match GetRunTask_step g l with
  | Next g' l' => WInv (S n) g' (<[0%nat:=Run l']> ts) k
  | _ => False
  end.
Proof.
  intros HI Ht Hl. pose proof (wi_data _ _ _ _ HI) as Hd. unfold worker_of in Hd.
  rewrite Ht in Hd. simpl in Hd. pose proof (wi_sem _ _ _ _ HI) as Hsem.
  destruct l; try done; cbn.
  - worker HI Ht; [done|by case_match|by case_match|]. eapply worker_data_same; [exact Hd|done..| | | |];
      by case_match.
  - destruct (TryConsume g) as [g' ok] eqn:E. eapply WInv_consume; [exact HI|exact Ht|exact E|done| |]; by intros ->.
  - destruct (TryConsume g) as [g' ok] eqn:E. eapply WInv_consume; [exact HI|exact Ht|exact E|done| |]; by intros ->.
  - worker HI Ht; [by case_match|by case_match|done|].
    case_match; [by eapply worker_data_notify|]. by eapply worker_data_same.
  - unfold tick. destruct (timer g) as [|b tm].
    + worker HI Ht; [done..|]. by eapply worker_data_same.
    + destruct b; (worker HI Ht; [done..|]; by eapply worker_data_same).
  - destruct (TryConsume g) as [g' ok] eqn:E. destruct ok.
    { by eapply WInv_consume; [exact HI|exact Ht|exact E|..]. }
    unfold TryConsume in E. destruct (0 <? sem_ g); [done|]. simplify_eq. unfold tick.
    destruct (timer g') as [|b tm].
    + worker HI Ht; [done..|]. by eapply worker_data_same.
    + destruct b; (worker HI Ht; [done..|]; by eapply worker_data_same).
  - worker HI Ht; [done|by case_match| |eapply worker_data_same; [exact Hd|done..| | | |]; by case_match].
    destruct (cmd_ g) eqn:Ec; simpl; [|lia].
    intros He. pose proof (wi_tokens _ _ _ _ HI) as Htk. unfold items in Htk. rewrite He, Ec in Htk.
    pose proof (sum_with_lookup_le owed ts 0 _ ltac:(by intros [|[]]) Ht). simpl in *. lia.
  - pose proof (wi_placed _ _ _ _ HI _ _ Ht) as Hp. simpl in Hp.
    destruct (cmd_ g) as [|c] eqn:Ec; [lia|].
    worker HI Ht; [done|unfold items; cbn; rewrite Ec; lia|done|]. by eapply worker_data_same.
  - pose proof (wi_placed _ _ _ _ HI _ _ Ht) as Hp. simpl in Hp.
    destruct (take_task_some g Hp) as (t&g'&E). rewrite E.
    apply take_task_elems in E as [He Eg]. rewrite Eg.
    worker HI Ht; [done|unfold items; cbn; rewrite He; cbn; lia|done|].
    destruct Hd as [[D1 D1'] D2 D3 D4]. split; cbn; [|done..]. unfold conserved. cbn.
    simpl in D1, D1'. by rewrite He in D1, D1'.
Qed.

(** The worker from a task in hand to the next round. *)
Lemma WInv_handle n g ts k l :
  WInv n g ts k -> ts !! 0%nat = Some (Run l) ->
  match l with
  | RunStart | SetBusy _ | Handle _ | CleanRunTask _ | IncDone | ClearBusy | ProcessInternalCmd
  | StopTest | NotifyDone => True
  | _ => False
  end ->
  match Run_step g l with
  | Next g' l' => WInv (S n) g' (<[0%nat:=Run l']> ts) k
  | Ret g' r => WInv (S n) g' (<[0%nat:=Idle]> ts) k
  | Fault => False
  end.
Proof.
  intros HI Ht Hl. pose proof (wi_data _ _ _ _ HI) as Hd. unfold worker_of in Hd.
  rewrite Ht in Hd. simpl in Hd. pose proof (wi_sem _ _ _ _ HI) as Hsem.
  pose proof (wi_placed _ _ _ _ HI _ _ Ht) as Hp. simpl in Hp.
  destruct l; try done; cbn.
  - worker HI Ht; [done..|]. by eapply worker_data_same.
  - worker HI Ht; [done..|]. destruct Hd as [D1 D2 D3 D4]. split; try done.
    cbn in *. by rewrite D4.
  - destruct Hd as [[D1 D1'] D2 D3 D4]. destruct HandleTask_ret eqn:Er.
    + worker HI Ht; [done..|]. split; cbn; try done.
      * unfold conserved. cbn. rewrite runs_app, <-app_assoc. done.
      * rewrite runs_app, deletes_app, filter_app. cbn in *. rewrite !app_nil_r in *.
        by rewrite D2, Er.
      * rewrite runs_app, length_app. cbn. rewrite D3. f_equal. simpl. lia.
    + worker HI Ht; [done..|]. split; cbn; try done.
      * unfold conserved. cbn. rewrite runs_app, <-app_assoc. done.
      * rewrite deletes_app, Er. cbn in *. by rewrite !app_nil_r in *.
      * rewrite runs_app, length_app. cbn. rewrite D3. f_equal. simpl. lia.
  - destruct Hd as [[D1 D1'] D2 D3 D4]. cbn in D2.
    destruct (decide (deleteAfterRun_ t)) as [Ed|Ed]; destruct (deleteAfterRun_ t); try done;
      (worker HI Ht; [done..|]); split; cbn; unfold conserved; cbn;
      rewrite ?runs_app, ?deletes_app; cbn; rewrite ?app_nil_r in *; done.
  - worker HI Ht; [done..|]. destruct Hd as [D1 D2 D3 D4]. split; cbn; try done.
    rewrite D3, i32_add. apply (f_equal i32). cbn [uncounted]. unfold runs. lia.
  - worker HI Ht; [done..|]. destruct Hd as [D1 D2 D3 D4]. split; cbn; try done.
    cbn in *. by rewrite D4.
  - worker HI Ht; [done..|]. by eapply worker_data_same.
  - destruct (ShouldStop_ g); (worker HI Ht; [done..|]); by eapply worker_data_same.
  - worker HI Ht; [by case_match|by case_match|done|].
    case_match; [by eapply worker_data_notify|]. by eapply worker_data_same.
Qed.

Lemma worker_data_accept g t g' y :
  g' = accept t (set_tasks (tasks_ g') g) -> elems (tasks_ g') ≡ₚ t :: elems (tasks_ g) ->
  (fifo -> elems (tasks_ g') = elems (tasks_ g) ++ [t]) ->
  worker_data g y -> worker_data g' y.
Proof.
  intros -> Hp Hf [[D1 D1'] D2 D3 D4]. split; cbn in *; try done. split; cbn in *.
  - rewrite Hp, D1. solve_Permutation.
  - intros F. rewrite (Hf F), (D1' F). by rewrite <-!app_assoc.
Qed.

(** The posters. *)
Lemma WInv_post n g ts k t l :
  WInv n g ts k -> ts !! S t = Some (Run l) ->
  match code g l with
  | Next g' l' => WInv (S n) g' (<[S t:=Run l']> ts) k
  | Ret g' r => WInv (S n) g' (<[S t:=Idle]> ts) k
  | Fault => False
  end.
Proof.
  intros HI Ht. pose proof (wi_sem _ _ _ _ HI) as Hsem.
  pose proof (wi_placed _ _ _ _ HI _ _ Ht) as Hp. destruct l; try done; cbn -[PushTaskToContainer].
  - destruct (PushTaskToContainer t0 g) as [g' ret] eqn:E. apply push_task_spec in E.
    destruct ret.
    + destruct E as (E&Hpm&Hf). eapply (WInv_poster _ _ _ _ _ _ _ _ HI Ht);
        [by rewrite E| |by rewrite E| |done|by intros y; eapply worker_data_accept].
      * assert (sem_ g' = sem_ g /\ cmd_ g' = cmd_ g) as [-> Ec] by (rewrite E; done).
        unfold items. rewrite Hpm, Ec. simpl. lia.
      * intros _ Hn. rewrite Hn in Hpm. by apply Permutation_nil_cons in Hpm.
    + subst. by eapply (WInv_poster _ _ _ _ _ _ _ _ HI Ht).
  - eapply (WInv_poster _ _ _ _ _ _ _ _ HI Ht); cbn; [lia|unfold items; cbn; lia|done..|].
    intros y Hy. by eapply worker_data_same.
  - unfold PushInternalCmd. destruct (_ >=? _).
    + by eapply (WInv_poster _ _ _ _ _ _ _ _ HI Ht).
    + eapply (WInv_poster _ _ _ _ _ _ _ _ HI Ht); cbn;
        [lia|unfold items; cbn; lia|lia|done..|]. intros y Hy. by eapply worker_data_same.
  - eapply (WInv_poster _ _ _ _ _ _ _ _ HI Ht); cbn; [lia|unfold items; cbn; lia|done..|].
    intros y Hy. by eapply worker_data_same.
Qed.

Lemma WInv_init q tm n nb :
  elems q = [] -> WInv 0 (EnableNotify nb (WorkerBodyBase_init q tm)) (replicate n Idle) tt.
Proof.
  intros Hq. assert (Hw : worker_of (replicate n Idle) = Idle).
  { unfold worker_of. by destruct n. }
  split; cbn; [done| | |].
  - rewrite sum_with_replicate. unfold items. cbn. rewrite Hq. simpl. lia.
  - intros t x Hx. apply lookup_replicate in Hx as [-> _]. done.
  - rewrite Hw. split; try done.
    + unfold conserved. cbn. by rewrite Hq.
    + cbn. by destruct HandleTask_ret.
Qed.

(** A step of the worker. *)
Lemma WInv_code n g ts k l :
  WInv n g ts k -> ts !! 0%nat = Some (Run l) ->
  match code g l with
  | Next g' l' => WInv (S n) g' (<[0%nat:=Run l']> ts) k
  | Ret g' r => WInv (S n) g' (<[0%nat:=Idle]> ts) k
  | Fault => False
  end.
Proof.
  intros HI Ht. pose proof (wi_placed _ _ _ _ HI _ _ Ht) as Hp.
  pose proof (WInv_wait _ _ _ _ _ HI Ht) as H1. pose proof (WInv_handle _ _ _ _ _ HI Ht) as H2.
  destruct l; try done; cbn [code Run_step]; try (by apply H2).
  all: destruct (GetRunTask_step _ _); try done; by apply H1.
Qed.

Lemma WInv_invoke n g ts k t o k' :
  WInv n g ts k -> ts !! t = Some Idle -> worker_inv k t o = Some k' ->
  WInv (S n) g (<[t:=Run (start o)]> ts) k'.
Proof.
  intros HI Ht Hk. destruct k, k'. destruct t as [|t]; destruct o; try done.
  - eapply (WInv_worker _ _ _ _ _ _ _ HI Ht); [apply HI|done..|].
    pose proof (wi_data _ _ _ _ HI) as Hd. unfold worker_of in Hd. rewrite Ht in Hd.
    by eapply worker_data_same.
  - eapply (WInv_poster _ _ _ _ _ _ _ _ HI Ht); [apply HI|done..].
  - eapply (WInv_poster _ _ _ _ _ _ _ _ HI Ht); [apply HI|done..].
Qed.

(** A step of any thread. *)
Lemma WInv_cstep n c t a c' e :
  WInv n (sh c) (ths c) (cl c) -> cstep start code worker_inv any_ret c t a = Some (c', e) ->
  faulted c' = false /\ WInv (S n) (sh c') (ths c') (cl c').
Proof.
  intros HI H. apply cstep_inv in H as [_ [(o&k&->&Ht&Hk&->&->)|[(l&g&l'&->&Ht&Hc&->&->)|
    [(l&g&r&->&Ht&Hc&->&->)|(l&->&Ht&Hc&->&->)]]]]; cbn.
  - split; [done|]. by eapply WInv_invoke.
  - destruct t as [|t];
      [pose proof (WInv_code _ _ _ _ _ HI Ht) as H|pose proof (WInv_post _ _ _ _ _ _ HI Ht) as H];
      rewrite Hc in H; done.
  - destruct t as [|t];
      [pose proof (WInv_code _ _ _ _ _ HI Ht) as H|pose proof (WInv_post _ _ _ _ _ _ HI Ht) as H];
      rewrite Hc in H; done.
  - destruct t as [|t];
      [pose proof (WInv_code _ _ _ _ _ HI Ht) as H|pose proof (WInv_post _ _ _ _ _ _ HI Ht) as H];
      rewrite Hc in H; done.
Qed.

(** C17. One worker and any number of threads that post tasks and exit commands,
    interleaved in any way: the worker is never handed a [NULL] task, and at
    every moment the tasks accepted are those that were run, the one in hand and
    those in the container (in the order of acceptance for a first-in-first-out
    container), each run task with [deleteAfterRun_] has been deleted exactly
    once or is about to be, [done_] counts the runs and [isRuning_] says whether
    one is under way. *)
Theorem worker_runs_every_task q tm nb threads n h c :
  elems q = [] ->
  reach start code worker_inv any_ret
    (init_cfg (EnableNotify nb (WorkerBodyBase_init q tm)) threads tt) n h c ->
  faulted c = false /\ worker_data (sh c) (worker_of (ths c)).
Proof.
  intros Hq Hr. eapply (reach_invariant start code worker_inv any_ret n WInv) in Hr;
    [|..|exact (WInv_init q tm threads nb Hq)|lia].
  - destruct Hr as [? Hr]. split; [done|apply Hr].
  - intros m g ts k t o k' _ HI Ht Hk. by eapply WInv_invoke.
  - intros m g ts k t l _ HI Ht. unfold any_ret. destruct t as [|t]; [by apply WInv_code|by apply WInv_post].
  - done.
Qed.

(** ** A worker left alone *)

(** One round of the loop of [Run] on the next task of the container. *)
Lemma worker_round g t ts :
  elems (tasks_ g) = t :: ts -> 0 < sem_ g -> cmd_ g = 0%nat -> ShouldStop_ g = false ->
  exists n g', solo code n g (GetRunTask 0) = Next g' (GetRunTask 0) /\
    elems (tasks_ g') = ts /\ sem_ g' = sem_ g - 1 /\ cmd_ g' = 0%nat /\ ShouldStop_ g' = false /\
    runs (effects_ g') = runs (effects_ g) ++ [t].
Proof.
  intros He Hs Hc Hst. destruct g as [q c s r d nt st tm es ac]. cbn in *. subst.
  assert (Hs' : (0 <? s) = true) by lia.
  assert (Hf : front q = Some t) by (by rewrite front_spec, He).
  assert (Hp : elems (pop q) = ts) by (by rewrite pop_spec, He).
  exists (if HandleTask_ret then 11%nat else 10%nat).
  set (es1 := es ++ [ERun t]).
  set (es2 := if HandleTask_ret && deleteAfterRun_ t then es1 ++ [EDelete t] else es1).
  set (es3 := if nt && notifyer_ then es2 ++ [ENotify (-1)] else es2).
  exists (Body (pop q) 0 (s - 1) (snd (atomic_cas (snd (atomic_cas r 0 1)) 1 0)) (i32 (d + 1)) nt
    false tm es3 ac).
  split.
  - subst es1 es2 es3. destruct HandleTask_ret eqn:Er, nt; cbn;
      unfold TryConsume; cbn; rewrite ?Hs'; cbn; unfold GetTaskFromContainer; cbn; rewrite Hf; cbn;
      rewrite ?Er; cbn; destruct (deleteAfterRun_ t); cbn; destruct notifyer_; reflexivity.
  - cbn. repeat (split; [done|]). subst es1 es2 es3.
    repeat case_match; rewrite ?runs_app; cbn; by rewrite ?app_nil_r.
Qed.

(** C18. Progress: a worker that holds one token per task of its mailbox and has
    no command pending runs, left alone, every one of them, in the container's
    order, and is back at its wait with an empty mailbox and no token. *)
Theorem worker_drains (g : body) :
  sem_ g = items g -> cmd_ g = 0%nat -> ShouldStop_ g = false ->
  exists n g', solo code n g (GetRunTask 0) = Next g' (GetRunTask 0) /\
    elems (tasks_ g') = [] /\ sem_ g' = 0 /\
    runs (effects_ g') = runs (effects_ g) ++ elems (tasks_ g).
Proof.
  unfold items. remember (elems (tasks_ g)) as l eqn:He. symmetry in He. revert g He.
  induction l as [|t l IH]; intros g He Hs Hc Hst; rewrite Hc in Hs; simpl in Hs.
  { exists 0%nat, g. rewrite app_nil_r. repeat (split; [done|]). done. }
  destruct (worker_round g t l) as (n&g1&Hn&He1&Hs1&Hc1&Hst1&Hr1); [done|lia|done|done|].
  destruct (IH g1 He1) as (m&g2&Hm&He2&Hs2&Hr2); [rewrite Hc1; lia|done|done|].
  exists (n + m)%nat, g2. split; [by erewrite solo_add|]. repeat (split; [done|]).
  by rewrite Hr2, Hr1, <-app_assoc.
Qed.

(** A posted exit command stops the worker at its next round: [Run] returns,
    whatever tasks are pending, and leaves them in the container. *)
Lemma worker_exits (g : body) :
  0 < sem_ g -> (0 < cmd_ g)%nat ->
  exists g', solo code 6 g (GetRunTask 0) = Ret g' RRun /\
    tasks_ g' = tasks_ g /\ effects_ g' = effects_ g /\ sem_ g' = sem_ g - 1 /\
    cmd_ g' = Nat.pred (cmd_ g).
Proof.
  intros Hs Hc. destruct g as [q [|c] s r d nt st tm es ac]; cbn in *; [lia|].
  exists (Body q c (s - 1) r d nt true tm es ac). split; [|done].
  assert (Hs' : (0 <? s) = true) by lia.
  destruct nt; cbn; unfold TryConsume; cbn; rewrite Hs'; reflexivity.
Qed.

(** [ClearAllTask] with a token for every task: the container is emptied, the tasks that own
    themselves are deleted, nothing else changes. *)
Lemma ClearAllTask_solo (g : body) :
  Z.of_nat (length (elems (tasks_ g))) <= sem_ g ->
  exists n g', solo code n g ClearHasTask = Ret g' RClearAll /\ elems (tasks_ g') = [] /\
    sem_ g' = sem_ g - Z.of_nat (length (elems (tasks_ g))) /\
    deletes (effects_ g') = deletes (effects_ g) ++ filter deleteAfterRun_ (elems (tasks_ g)) /\
    runs (effects_ g') = runs (effects_ g).
Proof.
  remember (elems (tasks_ g)) as l eqn:He. symmetry in He. revert g He.
  induction l as [|t l IH]; intros g He Hs; simpl in Hs.
  { exists 1%nat, g. cbn. unfold HasTask. rewrite empty_spec, He, app_nil_r. cbn.
    repeat (split; [done|]). split; [lia|done]. }
  destruct g as [q c s r d nt st tm es ac]. cbn in *.
  assert (Hs' : (0 <? s) = true) by lia.
  assert (Hf : front q = Some t) by (by rewrite front_spec, He).
  assert (Hp : elems (pop q) = l) by (by rewrite pop_spec, He).
  assert (Hem : empty q = false) by (by rewrite empty_spec, He).
  set (g1 := Body (pop q) c (s - 1) r d nt st tm
    (if deleteAfterRun_ t then es ++ [EDelete t] else es) ac).
  assert (H1 : solo code 4 (Body q c s r d nt st tm es ac) ClearHasTask = Next g1 ClearHasTask).
  { cbn. unfold HasTask. cbn. rewrite Hem. cbn. unfold TryConsume. cbn. rewrite Hs'. cbn.
    unfold GetTaskFromContainer. cbn. rewrite Hf. cbn. subst g1. by destruct (deleteAfterRun_ t). }
  destruct (IH g1 Hp) as (m&g2&Hm&He2&Hs2&Hd2&Hr2); [cbn; lia|].
  exists (4 + m)%nat, g2. split; [by erewrite solo_add|]. split; [done|].
  split; [rewrite Hs2; subst g1; cbn; lia|]. rewrite Hd2, Hr2. subst g1. cbn.
  destruct (deleteAfterRun_ t) eqn:Ed; rewrite ?deletes_app, ?runs_app; cbn.
  - rewrite <-app_assoc, app_nil_r. by destruct (decide _).
  - by destruct (decide _).
Qed.

(** C19. [ClearAllTask] ends whenever the semaphore has a token for every task of
    the container; the container is then empty and the tasks that own themselves
    have been deleted, once each. *)
Theorem ClearAllTask_empties (g : body) :
  Z.of_nat (length (elems (tasks_ g))) <= sem_ g ->
  exists n g', solo code n g ClearHasTask = Ret g' RClearAll /\ elems (tasks_ g') = [] /\
    sem_ g' = sem_ g - Z.of_nat (length (elems (tasks_ g))) /\
    deletes (effects_ g') = deletes (effects_ g) ++ filter deleteAfterRun_ (elems (tasks_ g)).
Proof.
  intros H. destruct (ClearAllTask_solo g H) as (n&g'&Hn&He&Hs&Hd&_). by exists n, g'.
Qed.

(** Without the token the loop of [ClearAllTask] does not end. *)
Lemma ClearAllTask_spins (g : body) n :
  elems (tasks_ g) <> [] -> sem_ g = 0 ->
  exists l, solo code n g ClearHasTask = Next g l /\
    (l = ClearHasTask \/ l = ClearConsume \/ l = ClearDelete None).
Proof.
  intros He Hs. assert (Hh : HasTask g = true).
  { unfold HasTask. rewrite empty_spec, bool_decide_false by done. done. }
  assert (Ht : TryConsume g = (g, false)) by (unfold TryConsume; by rewrite Hs).
  enough (H : forall l, l = ClearHasTask \/ l = ClearConsume \/ l = ClearDelete None ->
    exists l', solo code n g l = Next g l' /\
      (l' = ClearHasTask \/ l' = ClearConsume \/ l' = ClearDelete None)) by (apply H; by left).
  induction n as [|n IH]; intros l Hl; [by exists l|].
  destruct Hl as [->|[->| ->]]; cbn; [rewrite Hh|rewrite Ht|]; apply IH; auto.
Qed.
End WorkerBody.

(** ** [WorkerBody]: a mailbox that is a [SpinlockWeakPriorityQueue] *)

Abbreviation mailbox := (DequeQueue ITask).

Lemma mailbox_fifo : fifo (Q:=mailbox) (elems:=queue_).
Proof. done. Qed.

Definition worker_code : body (Q:=mailbox) -> loc -> outcome (body (Q:=mailbox)) loc res :=
  code DEFAULT_WORKER_TASK_MSG_SIZE true true.

Definition task (n : nat) : ITask := new_ITask n true TP_NORMAL.

(** The worker waits; thread 1 posts a task, thread 2 an exit command. *)
Definition demo : list (nat * act op) :=
  [(0%nat, Invoke ORun)] ++ replicate 3 (0%nat, Step) ++
  [(1%nat, Invoke (OPostTask (task 7)))] ++ replicate 2 (1%nat, Step) ++
  replicate 3 (0%nat, Step).

Definition mailbox_init : body (Q:=mailbox) := EnableNotify true (WorkerBodyBase_init (Deque []) []).

Lemma worker_runs_every_task_witness :
  let c := default (init_cfg mailbox_init 3 tt, []) (run start worker_code worker_inv any_ret demo
    (init_cfg mailbox_init 3 tt) []) in
  faulted (fst c) = false /\ worker_data (elems:=queue_) true (sh (fst c)) (worker_of (ths (fst c))).
Proof.
  apply (worker_runs_every_task (elems:=queue_) DEFAULT_WORKER_TASK_MSG_SIZE true true (Deque []) [] true 3
    (length demo) [EInv 0 ORun; EInv 1 (OPostTask (task 7)); ERes 1 (RPost true)]); [reflexivity|].
  apply run_reach. vm_compute. reflexivity.
Defined.

Definition two_tasks : body (Q:=mailbox) :=
  Body (Deque [task 1; task 2]) 0 2 0 0 true false [] [] [task 1; task 2].

Lemma worker_drains_witness :
  exists n g', solo worker_code n two_tasks (GetRunTask 0) = Next g' (GetRunTask 0) /\
    queue_ (tasks_ g') = [] /\ sem_ g' = 0 /\ runs (effects_ g') = [task 1; task 2].
Proof.
  apply (worker_drains (elems:=queue_) DEFAULT_WORKER_TASK_MSG_SIZE true true two_tasks); reflexivity.
Defined.

Lemma ClearAllTask_empties_witness :
  exists n g', solo worker_code n two_tasks ClearHasTask = Ret g' RClearAll /\
    queue_ (tasks_ g') = [] /\ sem_ g' = 0 /\ deletes (effects_ g') = [task 1; task 2].
Proof.
  apply (ClearAllTask_empties (elems:=queue_) DEFAULT_WORKER_TASK_MSG_SIZE true true two_tasks).
  vm_compute. discriminate.
Defined.

(** ** [TryGetTask] from another thread *)

Definition steal : list (nat * act op) :=
  [(1%nat, Invoke OPostExit)] ++ replicate 2 (1%nat, Step) ++
  [(1%nat, Invoke OTryGetTask)] ++ replicate 2 (1%nat, Step) ++
  [(0%nat, Invoke ORun)] ++ replicate 2 (0%nat, Step).

(** [TryGetTask] takes a token without looking whether it stands for a task
    or for a command: called while an exit command is pending it returns [NULL],
    and the worker then waits for ever with the command in its queue although
    [PostExit] returned [true]. *)
Theorem TryGetTask_steals_exit :
  exists n h c,
    reach start worker_code any_inv any_ret
      (init_cfg (WorkerBodyBase_init (Deque []) []) 2 tt) n h c /\
    h = [EInv 1 OPostExit; ERes 1 (RExit true); EInv 1 OTryGetTask; ERes 1 (RTask None); EInv 0 ORun] /\
    cmd_ (sh c) = 1%nat /\ ths c = [Run Consume; Idle] /\
    forall m, solo worker_code m (sh c) Consume = Next (sh c) Consume.
Proof.
  eexists _, _, _. split.
  - apply (run_reach _ _ _ _ steal). vm_compute. reflexivity.
  - split; [reflexivity|]. split; [reflexivity|]. split; [reflexivity|].
    intros m. induction m as [|m IH]; [done|]. exact IH.
Qed.
