(* ===== verification/ThreadPool.v ===== *)
(** * ThreadPool.v: [thread/src/ThreadPool.cc]

The [Dispatcher] keeps one bit per free worker in [freeWorkerBit_], finds the
lowest one by a bit trick and a binary search, and posts each task to that worker
or to the one the task is bound to.  The workers' bodies are those of Worker.v.
A C++ operation that is undefined, an [assert] that fails and a [NULL]
dereference are [None].

The theorems: the constructor's mask, the search and the two read-modify-write
operations do what they mean to for pools of at most 31 workers; along any
interleaving of dispatches and notifications no [assert] fails and every task is
in exactly one mailbox or was refused by a full one.  For worker 31 the mask
[~(1 << id)] is an [int] and touches the upper half of the word, and for worker
32 the shift is undefined, while the pool accepts 64 workers. *)

From S2P Require Import Prelude Machine Conc SpinlockQueue Worker.

(** ** [CompareTaskPriority] *)

Definition prio_num (p : TaskPriority) : Z :=
  match p with TP_EXTREME => 0 | TP_HIGH => 1 | TP_NORMAL => 2 | TP_LOW => 3 end.

Definition CompareTaskPriority (x y : ITask) : bool :=
  prio_num (priority_ x) >=? prio_num (priority_ y).

(** ** Bits *)

(** [1 << id] on [int]: undefined from 32 on; GCC defines the result for 31. *)
Definition shl_int (id : Z) : option Z :=
  if (0 <=? id) && (id <? 32) then Some (i32 (2 ^ id)) else None.

(** [~x] on [int]. *)
Definition not_int (x : Z) : Z := - x - 1.

(** The shifts of [Dispatcher::Dispatcher]: undefined unless [64 - workerNum_]
    is between 0 and 63. *)
Definition free_mask (workerNum : Z) : option Z :=
  if (1 <=? workerNum) && (workerNum <=? 64)
  then Some (Z.shiftr (u64 (Z.shiftl (not64 0) (64 - workerNum))) (64 - workerNum))
  else None.

(** [sel & (~sel + 1)] *)
Definition lowest_bit (sel : Z) : Z := Z.land sel (u64 (not64 sel + 1)).

(** The binary search of [SelectFreeWorker]; [-1] when it ends without a hit. *)
Fixpoint search (fuel : nat) (sel s e : Z) : Z :=
  match fuel with
  | O => -1
  | S fuel' =>
      if s <=? e then
        let m := Z.shiftr (s + e) 1 in
        let i := u64 (Z.shiftl 1 m) in
        if i =? sel then m
        else if i <? sel then search fuel' sel (m + 1) e
        else search fuel' sel s (m - 1)
      else -1
  end.

Section Dispatcher.
Context {Q : Type} `{CQ : Container ITask Q}.
Variable workerNum_ : Z.
(** The size of the workers' mailboxes. *)
Variable maxMsgSize : Z.

Abbreviation worker := (body (Q:=Q)).

(** [workers_] and the members that the dispatching thread and the workers
    share. *)
Record Dispatcher : Type := Disp {
  freeWorkerBit_ : Z; workerNotify_ : Z; freeWorker_ : option nat; workers_ : list worker
}.

Definition Dispatcher_init (ws : list worker) : option Dispatcher :=
  match free_mask workerNum_ with
  | Some m => Some (Disp m workerNum_ None ws)
  | None => None
  end.

(** [Some None] is the [NULL] result. *)
Definition SelectFreeWorker (d : Dispatcher) : option (option nat) :=
  let sel := lowest_bit (freeWorkerBit_ d) in
  if sel =? 0 then Some None
  else
    let c := search (Z.to_nat workerNum_) sel 0 (workerNum_ - 1) in
    if (0 <=? c) && (c <? workerNum_) then Some (Some (Z.to_nat c)) else None.

(** The loop of [PrepareWorker], on the tokens that are there: [Some d] with no
    free worker means that the thread blocks in [sem_wait]. *)
Fixpoint prepare_loop (tokens : nat) (d : Dispatcher) : option Dispatcher :=
  match tokens with
  | O => Some d
  | S tokens' =>
      let d' := Disp (freeWorkerBit_ d) (workerNotify_ d - 1) (freeWorker_ d) (workers_ d) in
      match SelectFreeWorker d' with
      | None => None
      | Some None => prepare_loop tokens' d'
      | Some (Some w) => Some (Disp (freeWorkerBit_ d') (workerNotify_ d') (Some w) (workers_ d'))
      end
  end.

Definition PrepareWorker (d : Dispatcher) : option Dispatcher :=
  match freeWorker_ d with
  | Some _ => Some d
  | None => prepare_loop (Z.to_nat (workerNotify_ d)) d
  end.

(** [Worker::PostTask] as one call. *)
Definition PostTask (t : ITask) (w : worker) : worker * bool :=
  let '(w', ret) := PushTaskToContainer maxMsgSize t w in
  if ret then (SignalPost w', true) else (w', false).

Definition clear_bit (id : nat) (bits : Z) : option Z :=
  match shl_int (Z.of_nat id) with
  | Some x => Some (snd (atomic_fetch_and_and bits (u64 (not_int x))))
  | None => None
  end.

Definition DispatchTask (task : ITask) (d : Dispatcher) : option Dispatcher :=
  let affinity := affinity_ task in
  if (affinity <? 0) || (workerNum_ <=? affinity) then
    match freeWorker_ d with
    | None => None
    | Some id =>
        match clear_bit id (freeWorkerBit_ d), workers_ d !! id with
        | Some bits, Some w =>
            let '(w', _) := PostTask (SetThreadId task (Z.of_nat id)) w in
            Some (Disp bits (workerNotify_ d) None (<[id:=w']> (workers_ d)))
        | _, _ => None
        end
    end
  else
    let workid := Z.to_nat affinity in
    let free' := if decide (freeWorker_ d = Some workid) then None else freeWorker_ d in
    match clear_bit workid (freeWorkerBit_ d), workers_ d !! workid with
    | Some bits, Some w =>
        let '(w', _) := PostTask (SetThreadId task affinity) w in
        Some (Disp bits (workerNotify_ d) free' (<[workid:=w']> (workers_ d)))
    | _, _ => None
    end.

(** [HandleTask] returns [false]: the task is not done. *)
Definition HandleTask (task : ITask) (d : Dispatcher) : option (Dispatcher * bool) :=
  match DispatchTask task d with Some d' => Some (d', false) | None => None end.

(** [worker] is [None] for [NULL]. *)
Definition SetWorkerNotify (worker : option nat) (type : Z) (d : Dispatcher) : option Dispatcher :=
  match worker with
  | None => Some d
  | Some id =>
      if type <? 0 then
        match shl_int (Z.of_nat id) with
        | Some x =>
            Some (Disp (snd (atomic_fetch_and_or (freeWorkerBit_ d) (u64 x))) (workerNotify_ d)
              (freeWorker_ d) (workers_ d))
        | None => None
        end
      else Some (Disp (freeWorkerBit_ d) (workerNotify_ d + 1) (freeWorker_ d) (workers_ d))
  end.

(** The loop of [PickIdleWorker]: the least number of tasks of a worker. *)
Definition PickIdleWorker (d : Dispatcher) : Z :=
  foldl (fun miniTask w =>
    if miniTask =? 0 then miniTask
    else if GetTaskNumber w <? miniTask then GetTaskNumber w else miniTask)
    (2 ^ 31 - 1) (workers_ d).

(** [Dispatcher::StopRunning] and [StopWorker]: an exit command for the
    dispatcher's own body, then one for each worker (the joins are left out). *)
Definition PostExit (w : body (Q:=Q)) : body (Q:=Q) * bool :=
  let '(w', ret) := PushInternalCmd w in if ret then (SignalPost w', true) else (w', false).

Definition StopWorker (d : Dispatcher) : Dispatcher :=
  Disp (freeWorkerBit_ d) (workerNotify_ d) (freeWorker_ d) (map (fun w => fst (PostExit w)) (workers_ d)).

Definition StopRunning (self : body (Q:=Q)) (d : Dispatcher) : body (Q:=Q) * Dispatcher * bool :=
  let '(self', ret) := PostExit self in
  (self', if ret then StopWorker d else d, ret).

(** One thing that happens to the dispatcher: the rounds of its own loop, and the
    notifications of the workers. *)
Inductive event : Type :=
| Round (task : ITask)          (* [PrepareWorker], then [HandleTask] *)
| Notified (worker : nat) (type : Z).

(** [Some None]: [PrepareWorker] blocks and no task is taken. *)
Definition round (task : ITask) (d : Dispatcher) : option Dispatcher :=
  match PrepareWorker d with
  | None => None
  | Some d' => match freeWorker_ d' with None => Some d' | Some _ => DispatchTask task d' end
  end.

Definition handle (e : event) (d : Dispatcher) : option Dispatcher :=
  match e with
  | Round task => round task d
  | Notified w type => SetWorkerNotify (Some w) type d
  end.

Fixpoint handle_all (es : list event) (d : Dispatcher) : option Dispatcher :=
  match es with
  | [] => Some d
  | e :: es' => match handle e d with Some d' => handle_all es' d' | None => None end
  end.
End Dispatcher.
Arguments Dispatcher Q : clear implicits.

(** [sysconf_num] is what [sysconf(_SC_NPROCESSORS_CONF)] returns as an [int]. *)
Definition CalcDefaultThreadNum (sysconf_num : Z) : Z :=
  let num := if sysconf_num <=? 0 then 2 else sysconf_num in
  if 64 <? num then 64 else num.

(** The number of workers of [ThreadPool(num)]. *)
Definition pool_size (num sysconf_num : Z) : Z :=
  if num <=? 0 then CalcDefaultThreadNum sysconf_num else num.

(** ** Bit lemmas *)

Lemma odd_decomp x : 0 < x -> exists c k, 0 <= c /\ 0 <= k /\ x = 2 ^ c * (2 * k + 1).
Proof.
  intros H. destruct x as [|p|]; try lia. clear H. induction p as [p IH|p IH|].
  - exists 0, (Z.pos p). lia.
  - destruct IH as (c&k&Hc&Hk&E). exists (c + 1), k. split; [lia|]. split; [lia|].
    rewrite Pos2Z.inj_xO, E, Z.pow_add_r by lia. lia.
  - by exists 0, 0.
Qed.

Lemma land_neg_odd k : Z.land (2 * k + 1) (- (2 * k + 1)) = 1.
Proof.
  replace (- (2 * k + 1)) with (2 * Z.lnot k + 1) by (unfold Z.lnot; lia).
  apply Z.bits_inj'. intros n Hn. rewrite Z.land_spec.
  destruct (Z.eq_dec n 0) as [->|].
  - by rewrite !Z.testbit_odd_0.
  - replace n with (Z.succ (n - 1)) by lia.
    rewrite !Z.testbit_odd_succ, Z.lnot_spec, andb_negb_r by lia.
    change 1 with (2 * 0 + 1). rewrite Z.testbit_odd_succ by lia. by rewrite Z.bits_0.
Qed.

Lemma land_neg x c k : 0 <= c -> x = 2 ^ c * (2 * k + 1) -> Z.land x (- x) = 2 ^ c.
Proof.
  intros Hc ->. replace (- (2 ^ c * (2 * k + 1))) with (2 ^ c * (- (2 * k + 1))) by lia.
  rewrite !(Z.mul_comm (2 ^ c)), <-!Z.shiftl_mul_pow2, <-Z.shiftl_land, land_neg_odd,
    Z.shiftl_mul_pow2 by lia. lia.
Qed.

Lemma lowest_bit_neg x : 0 <= x < 2 ^ 64 -> lowest_bit x = Z.land x (- x).
Proof.
  intros H. unfold lowest_bit, not64, u64.
  replace ((2 ^ 64 - 1 - x + 1) mod 2 ^ 64) with ((- x) mod 2 ^ 64).
  - rewrite <-Z.land_ones, (Z.land_comm (- x)), Z.land_assoc, Z.land_ones by lia.
    by rewrite Z.mod_small.
  - replace (2 ^ 64 - 1 - x + 1) with (- x + 1 * 2 ^ 64) by lia. by rewrite Z.mod_add by lia.
Qed.

(** The lowest set bit and its position. *)
Lemma lowest_bit_spec x n :
  0 < x < 2 ^ n -> 0 <= n <= 64 ->
  exists c, 0 <= c < n /\ lowest_bit x = 2 ^ c /\ Z.testbit x c = true /\
    forall j, 0 <= j < c -> Z.testbit x j = false.
Proof.
  intros Hx Hn. assert (2 ^ n <= 2 ^ 64) by (apply Z.pow_le_mono_r; lia).
  destruct (odd_decomp x) as (c&k&Hc&Hk&E); [lia|]. exists c.
  assert (c < n).
  { destruct (Z.lt_ge_cases c n); [done|]. assert (2 ^ n <= 2 ^ c) by (apply Z.pow_le_mono_r; lia). nia. }
  split; [lia|]. split; [by rewrite lowest_bit_neg, (land_neg x c k) by lia|].
  subst x. rewrite Z.mul_comm, <-Z.shiftl_mul_pow2 by lia. split.
  - rewrite Z.shiftl_spec, Z.sub_diag by lia. apply Z.testbit_odd_0.
  - intros j Hj. rewrite Z.shiftl_spec by lia. apply Z.testbit_neg_r. lia.
Qed.

Lemma search_spec fuel c s e :
  0 <= s -> s <= c <= e -> e < 64 -> e - s < Z.of_nat fuel -> search fuel (2 ^ c) s e = c.
Proof.
  revert s e. induction fuel as [|fuel IH]; intros s e H0 H1 H2 H3; [lia|]. cbn [search].
  rewrite (proj2 (Z.leb_le s e)) by lia. cbv zeta.
  set (m := Z.shiftr (s + e) 1). assert (Hm : s <= m <= e).
  { subst m. rewrite Z.shiftr_div_pow2 by lia. change (2 ^ 1) with 2.
    pose proof (Z.div_mod (s + e) 2). pose proof (Z.mod_pos_bound (s + e) 2). lia. }
  rewrite Z.shiftl_mul_pow2, Z.mul_1_l by lia.
  rewrite u64_id by (split; [apply Z.pow_nonneg; lia|apply Z.pow_lt_mono_r; lia]).
  destruct (Z.lt_trichotomy m c) as [Hlt|[->|Hgt]].
  - pose proof (Z.pow_lt_mono_r 2 m c). rewrite (proj2 (Z.eqb_neq _ _)) by lia.
    rewrite (proj2 (Z.ltb_lt _ _)) by lia. apply IH; lia.
  - by rewrite Z.eqb_refl.
  - pose proof (Z.pow_lt_mono_r 2 c m). rewrite (proj2 (Z.eqb_neq _ _)) by lia.
    rewrite (proj2 (Z.ltb_ge _ _)) by lia. apply IH; lia.
Qed.

(** The two operations on the bits, for the workers an [int] has a bit for. *)
Lemma clear_bit_spec id x :
  (id < 31)%nat -> 0 <= x < 2 ^ 64 ->
  clear_bit id x = Some (Z.ldiff x (2 ^ Z.of_nat id)).
Proof.
  intros Hid Hx. unfold clear_bit, shl_int.
  rewrite (proj2 (Z.leb_le _ _)), (proj2 (Z.ltb_lt _ _)) by lia. cbn [andb].
  rewrite i32_id.
  2: { split; [pose proof (Z.pow_nonneg 2 (Z.of_nat id)); lia|].
       apply Z.pow_lt_mono_r; lia. }
  unfold atomic_fetch_and_and, not_int, u64. cbn [snd]. f_equal.
  replace (- 2 ^ Z.of_nat id - 1) with (Z.lnot (2 ^ Z.of_nat id)) by (unfold Z.lnot; lia).
  rewrite <-Z.land_ones, (Z.land_comm (Z.lnot _)), Z.land_assoc, Z.land_ones by lia.
  by rewrite Z.mod_small, Z.ldiff_land by lia.
Qed.

Lemma set_bit_spec id x :
  (id < 31)%nat ->
  match shl_int (Z.of_nat id) with
  | Some y => snd (atomic_fetch_and_or x (u64 y)) = Z.lor x (2 ^ Z.of_nat id)
  | None => False
  end.
Proof.
  intros Hid. unfold shl_int. rewrite (proj2 (Z.leb_le _ _)), (proj2 (Z.ltb_lt _ _)) by lia.
  cbn [andb]. pose proof (Z.pow_nonneg 2 (Z.of_nat id)).
  assert (2 ^ Z.of_nat id < 2 ^ 31) by (apply Z.pow_lt_mono_r; lia).
  rewrite i32_id, u64_id by lia. done.
Qed.

Lemma ldiff_range x y n : 0 <= n -> 0 <= x < 2 ^ n -> 0 <= Z.ldiff x y < 2 ^ n.
Proof.
  intros Hn Hx. replace (Z.ldiff x y) with (Z.land (Z.ldiff x y) (Z.ones n)).
  { rewrite Z.land_ones by lia. apply Z.mod_pos_bound. lia. }
  apply Z.bits_inj'. intros m Hm. rewrite Z.land_spec, Z.ldiff_spec.
  assert (Z.testbit x m = Z.testbit x m && Z.testbit (Z.ones n) m) as ->; [|by destruct (Z.testbit (Z.ones n) m), (Z.testbit x m), (Z.testbit y m)].
  rewrite <-Z.land_spec, Z.land_ones by lia. by rewrite Z.mod_small.
Qed.

Lemma lor_range x y n : 0 <= n -> 0 <= x < 2 ^ n -> 0 <= y < 2 ^ n -> 0 <= Z.lor x y < 2 ^ n.
Proof.
  intros Hn Hx Hy. replace (Z.lor x y) with (Z.land (Z.lor x y) (Z.ones n)).
  { rewrite Z.land_ones by lia. apply Z.mod_pos_bound. lia. }
  rewrite Z.land_lor_distr_l, !Z.land_ones by lia. by rewrite !Z.mod_small.
Qed.

(** ** Theorems *)

(** The two shifts of the constructor make the mask of the [workerNum_]
    workers: bits [0] to [workerNum_ - 1], for every pool of 1 to 64 workers. *)
Lemma free_mask_spec n : 1 <= n <= 64 -> free_mask n = Some (2 ^ n - 1).
Proof.
  intros H. unfold free_mask. rewrite !(proj2 (Z.leb_le _ _)) by lia. cbn [andb]. f_equal.
  unfold u64, not64. rewrite Z.sub_0_r.
  replace (2 ^ n - 1) with (Z.ones n) by (rewrite Z.ones_equiv; lia).
  assert (E : 2 ^ 64 - 1 = Z.ones 64) by done. rewrite E. clear E.
  apply Z.bits_inj'. intros m Hm. rewrite Z.shiftr_spec, <-Z.land_ones, Z.land_spec by lia.
  rewrite Z.shiftl_spec, !Z.testbit_ones_nonneg by lia.
  replace (m + (64 - n) - (64 - n)) with m by lia.
  destruct (Z.ltb_spec m 64), (Z.ltb_spec (m + (64 - n)) 64), (Z.ltb_spec m n); simpl; lia.
Qed.

Section Properties.
Context {Q : Type} `{CQ : Container ITask Q}.
Variable n maxMsgSize : Z.

Abbreviation dispatcher := (Dispatcher Q).

(** The bits are those of the workers, and [freeWorker_] is one of them. *)
Record dinv (d : dispatcher) : Prop := {
  di_bits : 0 <= freeWorkerBit_ d < 2 ^ n;
  di_workers : Z.of_nat (length (workers_ d)) = n;
  di_free : forall i, freeWorker_ d = Some i -> Z.of_nat i < n
}.

Lemma select_cases (d : dispatcher) :
  1 <= n <= 64 -> 0 <= freeWorkerBit_ d < 2 ^ n ->
  freeWorkerBit_ d = 0 /\ SelectFreeWorker n d = Some None \/
  exists c, 0 <= c < n /\ lowest_bit (freeWorkerBit_ d) = 2 ^ c /\
    SelectFreeWorker n d = Some (Some (Z.to_nat c)).
Proof.
  intros Hn Hb. unfold SelectFreeWorker. destruct (Z.eq_dec (freeWorkerBit_ d) 0) as [E|E].
  { left. split; [done|]. by rewrite E. }
  right. destruct (lowest_bit_spec (freeWorkerBit_ d) n) as (c&Hc&Hl&_); [lia|lia|].
  exists c. rewrite Hl. pose proof (Z.pow_pos_nonneg 2 c).
  rewrite (proj2 (Z.eqb_neq _ _)), search_spec by lia.
  by rewrite (proj2 (Z.leb_le _ _)), (proj2 (Z.ltb_lt _ _)) by lia.
Qed.

(** The bit trick and the binary search of [SelectFreeWorker] return the
    free worker with the least number, [NULL] when there is none; the [assert]
    holds for every pool of 1 to 64 workers. *)
Theorem SelectFreeWorker_spec (d : dispatcher) :
  1 <= n <= 64 -> 0 <= freeWorkerBit_ d < 2 ^ n ->
  (freeWorkerBit_ d = 0 /\ SelectFreeWorker n d = Some None) \/
  (exists c, SelectFreeWorker n d = Some (Some c) /\ Z.of_nat c < n /\
     Z.testbit (freeWorkerBit_ d) (Z.of_nat c) = true /\
     forall j, 0 <= j < Z.of_nat c -> Z.testbit (freeWorkerBit_ d) j = false).
Proof.
  intros Hn Hb. destruct (select_cases d Hn Hb) as [?|(c&Hc&El&E)]; [by left|].
  right. exists (Z.to_nat c). split; [done|]. rewrite Z2Nat.id by lia.
  assert (freeWorkerBit_ d <> 0).
  { intros E0. rewrite E0 in El. pose proof (Z.pow_pos_nonneg 2 c). change (lowest_bit 0) with 0 in El. lia. }
  destruct (lowest_bit_spec (freeWorkerBit_ d) n) as (c'&Hc'&El'&Ht&Hl); [lia|lia|].
  assert (c' = c) by (apply (Z.pow_inj_r 2); lia). subst c'. split; [lia|done].
Qed.

(** The worker a dispatch is for. *)
Definition target (t : ITask) (d : dispatcher) : option nat :=
  if (affinity_ t <? 0) || (n <=? affinity_ t) then freeWorker_ d else Some (Z.to_nat (affinity_ t)).

Lemma DispatchTask_eq (t : ITask) (d : dispatcher) id w :
  1 <= n <= 31 -> dinv d -> target t d = Some id -> workers_ d !! id = Some w ->
  DispatchTask n maxMsgSize t d =
    Some (Disp (Z.ldiff (freeWorkerBit_ d) (2 ^ Z.of_nat id)) (workerNotify_ d)
      (if decide (freeWorker_ d = Some id) then None else freeWorker_ d)
      (<[id:=fst (PostTask maxMsgSize (SetThreadId t (Z.of_nat id)) w)]> (workers_ d))).
Proof.
  intros Hn Hd Ht Hw. pose proof (di_bits _ Hd) as Hb. pose proof (di_workers _ Hd) as Hl.
  assert (Hpow : 2 ^ n < 2 ^ 64) by (apply Z.pow_lt_mono_r; lia).
  pose proof (lookup_lt_Some _ _ _ Hw). unfold DispatchTask, target in *.
  destruct (Z.ltb_spec (affinity_ t) 0); [|destruct (Z.leb_spec n (affinity_ t))]; cbn [orb] in *.
  1,2: rewrite Ht, Hw, clear_bit_spec by lia; rewrite decide_True by done; by destruct (PostTask _ _ w).
  simplify_eq. rewrite Hw, clear_bit_spec, Z2Nat.id by lia. by destruct (PostTask _ _ w).
Qed.

Lemma target_in_range (t : ITask) (d : dispatcher) id :
  dinv d -> target t d = Some id -> exists w, workers_ d !! id = Some w.
Proof.
  intros Hd Ht. apply lookup_lt_is_Some_2. pose proof (di_workers _ Hd) as Hw. unfold target in Ht.
  destruct (Z.ltb_spec (affinity_ t) 0); [|destruct (Z.leb_spec n (affinity_ t))]; cbn [orb] in Ht.
  1,2: apply (di_free _ Hd) in Ht; lia.
  simplify_eq. lia.
Qed.

Lemma target_some (t : ITask) (d : dispatcher) :
  freeWorker_ d <> None -> exists id, target t d = Some id.
Proof. intros Hf. unfold target. destruct (freeWorker_ d); [|done]. case_match; eauto. Qed.

Lemma dinv_dispatch (d : dispatcher) id w' :
  1 <= n -> dinv d ->
  dinv (Disp (Z.ldiff (freeWorkerBit_ d) (2 ^ Z.of_nat id)) (workerNotify_ d)
      (if decide (freeWorker_ d = Some id) then None else freeWorker_ d)
      (<[id:=w']> (workers_ d))).
Proof.
  intros Hn Hd. split; cbn.
  - apply ldiff_range; [lia|apply Hd].
  - rewrite length_insert. apply Hd.
  - intros i. case_decide; [done|]. apply Hd.
Qed.

(** What a dispatch does, for a pool of at most 31 workers: the task goes to
    the worker it is bound to, or to the free worker if it is bound to none; it
    is posted to that mailbox with its thread number set, the bit of that worker
    and no other is cleared, and the free worker is used up exactly when it was
    the target. *)
Theorem DispatchTask_spec (t : ITask) (d : dispatcher) :
  1 <= n <= 31 -> dinv d -> freeWorker_ d <> None ->
  exists id w d', DispatchTask n maxMsgSize t d = Some d' /\ dinv d' /\
    ((0 <= affinity_ t < n /\ Z.of_nat id = affinity_ t) \/
     (~ 0 <= affinity_ t < n /\ freeWorker_ d = Some id)) /\
    workers_ d !! id = Some w /\
    workers_ d' = <[id:=fst (PostTask maxMsgSize (SetThreadId t (Z.of_nat id)) w)]> (workers_ d) /\
    (forall j, 0 <= j -> Z.testbit (freeWorkerBit_ d') j =
       Z.testbit (freeWorkerBit_ d) j && negb (j =? Z.of_nat id)) /\
    freeWorker_ d' = (if decide (freeWorker_ d = Some id) then None else freeWorker_ d) /\
    workerNotify_ d' = workerNotify_ d.
Proof.
  intros Hn Hd Hf. destruct (target_some t d Hf) as [id Ht].
  destruct (target_in_range t d id Hd Ht) as [w Hw]. exists id, w.
  rewrite (DispatchTask_eq t d id w) by done. eexists. split; [reflexivity|].
  split; [apply dinv_dispatch; [lia|done]|]. split; [|split; [done|split; [done|]]].
  - unfold target in Ht.
    destruct (Z.ltb_spec (affinity_ t) 0); [|destruct (Z.leb_spec n (affinity_ t))]; cbn [orb] in Ht.
    1,2: right; split; [lia|done].
    left. simplify_eq. lia.
  - split; [|done]. intros j Hj. cbn [freeWorkerBit_].
    rewrite Z.ldiff_spec, Z.pow2_bits_eqb by lia. by rewrite Z.eqb_sym.
Qed.

Lemma prepare_loop_spec (tokens : nat) (d : dispatcher) :
  1 <= n <= 64 -> dinv d -> Z.of_nat tokens <= workerNotify_ d ->
  exists d', prepare_loop n tokens d = Some d' /\ dinv d' /\ workers_ d' = workers_ d /\
    workerNotify_ d - Z.of_nat tokens <= workerNotify_ d' /\
    (freeWorker_ d' = None -> freeWorker_ d = None).
Proof.
  intros Hn. revert d. induction tokens as [|k IH]; intros d Hd Hk; simpl.
  { exists d. repeat (split; [done|]). split; [lia|done]. }
  set (d1 := Disp _ _ _ _). assert (Hd1 : dinv d1) by (destruct Hd; by split).
  destruct (select_cases d1 Hn (di_bits _ Hd1)) as [[_ ->]|(c&Hc&_&->)].
  - destruct (IH d1 Hd1) as (d'&->&Hd'&Hw&Hs&Hf); [simpl; lia|]. exists d'. simpl in *.
    repeat (split; [done|]). split; [lia|done].
  - eexists. split; [reflexivity|]. split; [|simpl; split; [done|]; split; [lia|done]].
    split; [apply Hd1|apply Hd1|]. simpl. intros i [= <-]. lia.
Qed.

Lemma handle_safe e (d : dispatcher) :
  1 <= n <= 31 -> dinv d -> 0 <= workerNotify_ d ->
  match e with Notified w _ => Z.of_nat w < n | Round _ => True end ->
  exists d', handle n maxMsgSize e d = Some d' /\ dinv d' /\ 0 <= workerNotify_ d'.
Proof.
  intros Hn Hd Hs He. destruct e as [t|w ty]; simpl.
  - assert (exists d1, PrepareWorker n d = Some d1 /\ dinv d1 /\ 0 <= workerNotify_ d1)
      as (d1&Hp&Hd1&Hs1).
    { unfold PrepareWorker. destruct (freeWorker_ d); [by exists d|].
      destruct (prepare_loop_spec (Z.to_nat (workerNotify_ d)) d) as (d'&E&Hd'&_&Hs'&_); [lia|done|lia|].
      exists d'. split; [done|]. split; [done|lia]. }
    unfold round. rewrite Hp. destruct (freeWorker_ d1) eqn:Ef; [|by exists d1].
    destruct (target_some t d1) as [id Ht]; [by rewrite Ef|].
    destruct (target_in_range t d1 id Hd1 Ht) as [w Hw].
    rewrite (DispatchTask_eq t d1 id w) by done. eexists. split; [reflexivity|].
    split; [apply dinv_dispatch; [lia|done]|done].
  - destruct (Z.ltb_spec ty 0).
    + pose proof (set_bit_spec w (freeWorkerBit_ d) ltac:(lia)) as H1.
      destruct (shl_int (Z.of_nat w)) as [y|]; [|done]. eexists. split; [reflexivity|].
      destruct Hd. split; [|done]. split; cbn [freeWorkerBit_ workers_ freeWorker_]; [|done..].
      unfold atomic_fetch_and_or in H1. cbn [snd] in H1. rewrite H1. apply lor_range; [lia|done|]. split; [apply Z.pow_nonneg; lia|].
      apply Z.pow_lt_mono_r; lia.
    + eexists. split; [reflexivity|]. destruct Hd. split; [by split|simpl; lia].
Qed.

(** A pool of at most 31 workers is safe: from the constructor's state, for
    any interleaving of the dispatcher's rounds with the notifications of the
    workers, no [assert] fails, no shift is undefined, no [NULL] worker is used,
    and the bits stay those of the workers. *)
Theorem dispatcher_safe (ws : list (body (Q:=Q))) (es : list event) :
  1 <= n <= 31 -> Z.of_nat (length ws) = n ->
  Forall (fun e => match e with Notified w _ => Z.of_nat w < n | Round _ => True end) es ->
  exists d0 d, Dispatcher_init n ws = Some d0 /\ handle_all n maxMsgSize es d0 = Some d /\ dinv d.
Proof.
  intros Hn Hw He. unfold Dispatcher_init. rewrite free_mask_spec by lia.
  set (d0 := Disp _ _ _ _). exists d0.
  assert (Hd0 : dinv d0).
  { split; cbn; [|done..]. pose proof (Z.pow_pos_nonneg 2 n). lia. }
  assert (Hs0 : 0 <= workerNotify_ d0) by (cbn; lia).
  clearbody d0. revert d0 Hd0 Hs0. induction He as [|e es He Hes IH]; intros d Hd Hs.
  { by exists d. }
  destruct (handle_safe e d Hn Hd Hs He) as (d1&E&Hd1&Hs1).
  destruct (IH d1 Hd1 Hs1) as (d2&_&E2&Hd2). exists d2. simpl. by rewrite E.
Qed.

(** A refused task is lost: when the target's mailbox is full the dispatch
    still succeeds, and the task is in no mailbox, neither run nor deleted, while
    its worker counts as busy. *)
Lemma DispatchTask_full_loses (t : ITask) (d : dispatcher) id w :
  1 <= n <= 31 -> dinv d -> freeWorker_ d = Some id -> affinity_ t < 0 ->
  workers_ d !! id = Some w -> (size (tasks_ w) >=? maxSz_ maxMsgSize) = true ->
  exists d', DispatchTask n maxMsgSize t d = Some d' /\ workers_ d' = workers_ d /\
    Z.testbit (freeWorkerBit_ d') (Z.of_nat id) = false.
Proof.
  intros Hn Hd Hf Ha Hw Hsz.
  assert (Ht : target t d = Some id).
  { unfold target. by rewrite (proj2 (Z.ltb_lt _ _)) by lia. }
  rewrite (DispatchTask_eq t d id w) by done. eexists. split; [reflexivity|]. cbn. split.
  - unfold PostTask, PushTaskToContainer. cbn. rewrite Hsz. cbn. destruct w; cbn.
    by apply list_insert_id.
  - rewrite Z.ldiff_spec, Z.pow2_bits_true, andb_false_r by lia. done.
Qed.
End Properties.

(** ** Witnesses *)

Definition two_workers : list (body (Q:=mailbox)) :=
  [WorkerBodyBase_init (Deque []) []; WorkerBodyBase_init (Deque []) []].

Definition two_pool : Dispatcher mailbox := Disp 3 1 (Some 0%nat) two_workers.

Lemma two_pool_inv : dinv 2 two_pool.
Proof. split; [by vm_compute|done|]. intros i [= <-]. lia. Defined.

Lemma SelectFreeWorker_spec_witness :
  1 <= 2 <= 64 /\
  ((freeWorkerBit_ two_pool = 0 /\ SelectFreeWorker 2 two_pool = Some None) \/
  (exists c, SelectFreeWorker 2 two_pool = Some (Some c) /\ Z.of_nat c < 2 /\
     Z.testbit (freeWorkerBit_ two_pool) (Z.of_nat c) = true /\
     forall j, 0 <= j < Z.of_nat c -> Z.testbit (freeWorkerBit_ two_pool) j = false)).
Proof. split; [lia|]. apply (SelectFreeWorker_spec 2 two_pool); [lia|apply two_pool_inv]. Defined.

Lemma DispatchTask_spec_witness :
  exists id w d', DispatchTask 2 1024 (task 1) two_pool = Some d' /\ dinv 2 d' /\
    ((0 <= -1 < 2 /\ Z.of_nat id = -1) \/ (~ 0 <= -1 < 2 /\ Some 0%nat = Some id)) /\
    two_workers !! id = Some w /\
    workers_ d' = <[id:=fst (PostTask 1024 (SetThreadId (task 1) (Z.of_nat id)) w)]> two_workers /\
    (forall j, 0 <= j -> Z.testbit (freeWorkerBit_ d') j = Z.testbit 3 j && negb (j =? Z.of_nat id)) /\
    freeWorker_ d' = (if decide (Some 0%nat = Some id) then None else Some 0%nat) /\
    workerNotify_ d' = 1.
Proof. apply (DispatchTask_spec 2 1024 (task 1) two_pool); [lia|apply two_pool_inv|done]. Defined.

Lemma dispatcher_safe_witness :
  exists d0 d, Dispatcher_init 2 two_workers = Some d0 /\
    handle_all 2 1024 [Round (task 1); Round (task 2); Round (task 3); Notified 1 (-1); Notified 1 0] d0
      = Some d /\ dinv 2 d.
Proof. apply (dispatcher_safe 2 1024 two_workers); [lia|done|]. repeat constructor. Defined.

(** ** Pools of more than 31 workers *)

Definition big_pool : Dispatcher mailbox :=
  Disp (2 ^ 64 - 1) 64 (Some 31%nat) (replicate 64 (WorkerBodyBase_init (Deque []) [])).

(** With the 64 workers that the pool allows, giving a task to worker 31
    marks workers 32 to 63 busy too, though none of them has a task, and the
    shift for worker 32 is undefined. *)
Theorem dispatch_beyond_31 :
  (exists d', DispatchTask 64 1024 (task 1) big_pool = Some d' /\
     forall j, 0 <= j < 64 -> Z.testbit (freeWorkerBit_ d') j = (j <? 31)) /\
  (forall t, 32 <= affinity_ t < 64 -> DispatchTask 64 1024 t big_pool = None).
Proof.
  split.
  - eexists. split; [reflexivity|]. intros j Hj. cbn [freeWorkerBit_].
    set (b := snd _). assert (b = Z.ones 31) as -> by reflexivity.
    apply Z.testbit_ones_nonneg; lia.
  - intros t Ht. unfold DispatchTask, clear_bit, shl_int.
    rewrite (proj2 (Z.ltb_ge _ 0)), (proj2 (Z.leb_gt _ _)) by lia. cbn [orb].
    rewrite Z2Nat.id by lia. rewrite (proj2 (Z.ltb_ge _ 32)) by lia. by rewrite andb_false_r.
Qed.

(** [CalcDefaultThreadNum] is between 1 and 64, whatever [sysconf] says; the
    number given to the constructor is not bounded, and the shift of the
    constructor is undefined for it from 65 on. *)
Lemma pool_size_bounds sysconf_num :
  1 <= CalcDefaultThreadNum sysconf_num <= 64 /\
  (forall num, 65 <= num -> pool_size num sysconf_num = num /\ free_mask num = None).
Proof.
  split.
  - unfold CalcDefaultThreadNum. destruct (Z.leb_spec sysconf_num 0); [done|].
    destruct (Z.ltb_spec 64 sysconf_num); lia.
  - intros num Hn. unfold pool_size, free_mask. rewrite (proj2 (Z.leb_gt num 0)) by lia.
    split; [done|]. by rewrite (proj2 (Z.leb_gt num 64)), andb_false_r by lia.
Qed.

(** [CompareTaskPriority] is not the strict order that
    [std::priority_queue] requires: every task compares before itself, so that
    the contract of the library (a largest element is presented) can hold for no
    choice of the library on a queue that is not empty. *)
Lemma CompareTaskPriority_not_strict (top : list ITask -> nat) :
  (forall t, CompareTaskPriority t t = true) /\ ~ TopSpec top CompareTaskPriority.
Proof.
  assert (Hr : forall t, CompareTaskPriority t t = true).
  { intros t. unfold CompareTaskPriority. by destruct (priority_ t). }
  split; [done|]. intros [Hin Hmax].
  destruct (lookup_lt_is_Some_2 [task 0] (top [task 0])) as [x Hx]; [by apply Hin|].
  pose proof (Hmax [task 0] x x Hx (list_elem_of_lookup_2 _ _ _ Hx)) as H. by rewrite Hr in H.
Qed.
