(* ===== verification/Thread.v ===== *)
(** * Thread.v: [thread/Thread.h] and [thread/src/Thread.cc]

A [Thread] object and the system threads its [Start] creates.  The [pthread_*]
functions are not code of the repository: their results are arguments of the
operations.  The steps are those of the owner (start, join, cancel, change of
the detach state) and those of the created threads ([RunTask] up to and after
the call of [task->Run()]). *)

From S2P Require Import Prelude Machine.

Record Thread : Type := Thr {
  task_ : option nat; tid_ : Z; busy_ : Z; detachable_ : bool
}.

Definition Thread_init (task : option nat) (detachable : bool) : Thread :=
  Thr task 0 0 detachable.

(** [std::swap(task, task_)] *)
Definition SetTask (task : option nat) (t : Thread) : Thread * option nat :=
  (Thr task (tid_ t) (busy_ t) (detachable_ t), task_ t).

Definition IsRunning (t : Thread) : bool := negb (busy_ t =? 0).

(** What the four calls of [Start] return; [newtid] is what [pthread_create]
    stores in [tid_]. *)
Record pthread_results : Type := Results {
  attr_init : Z; attr_setdetachstate : Z; create : Z; newtid : Z
}.

(** The thread, the result and, when a system thread was created, whether it is
    detached. *)
Definition Start (r : pthread_results) (t : Thread) : Thread * bool * option bool :=
  if negb (busy_ t =? 0) || bool_decide (task_ t = None) then (t, false, None)
  else if negb (attr_init r =? 0) then (t, false, None)
  else if negb (attr_setdetachstate r =? 0) then (t, false, None)
  else if create r =? 0
       then (Thr (task_ t) (newtid r) (busy_ t) (detachable_ t), true, Some (detachable_ t))
       else (t, false, None).

Definition Join (join_result : Z) (t : Thread) : bool :=
  if detachable_ t then false else join_result =? 0.

Definition Cancel (cancel_result : Z) (t : Thread) : bool :=
  if busy_ t =? 0 then true else cancel_result =? 0.

Definition SetDetachable (enable : bool) (t : Thread) : Thread * bool :=
  if negb (busy_ t =? 0) then (t, false) else (Thr (task_ t) (tid_ t) (busy_ t) enable, true).

(** [RunTask] before and after [task->Run()]. *)
Definition RunTask_enter (t : Thread) : Thread * option nat :=
  match task_ t with
  | None => (t, None)
  | Some task => (Thr (task_ t) (tid_ t) (snd (atomic_cas (busy_ t) 0 1)) (detachable_ t), Some task)
  end.

Definition RunTask_leave (t : Thread) : Thread :=
  Thr (task_ t) (tid_ t) (snd (atomic_cas (busy_ t) 1 0)) (detachable_ t).

(** ** The object and its system threads *)

Inductive phase : Type := Created | Running (task : nat) | Ended.

Record system : Type := Sys { obj : Thread; spawned : list phase }.

Inductive step : Type :=
| SStart (r : pthread_results)
| SEnter (i : nat)
| SLeave (i : nat)
| SSetDetachable (enable : bool).

Definition sstep (a : step) (s : system) : option system :=
  match a with
  | SStart r =>
      let '(t, _, made) := Start r (obj s) in
      Some (Sys t (match made with Some _ => spawned s ++ [Created] | None => spawned s end))
  | SEnter i =>
      match spawned s !! i with
      | Some Created =>
          match RunTask_enter (obj s) with
          | (t, Some task) => Some (Sys t (<[i:=Running task]> (spawned s)))
          | (t, None) => Some (Sys t (<[i:=Ended]> (spawned s)))
          end
      | _ => None
      end
  | SLeave i =>
      match spawned s !! i with
      | Some (Running _) => Some (Sys (RunTask_leave (obj s)) (<[i:=Ended]> (spawned s)))
      | _ => None
      end
  | SSetDetachable b => Some (Sys (fst (SetDetachable b (obj s))) (spawned s))
  end.

Fixpoint steps (l : list step) (s : system) : option system :=
  match l with
  | [] => Some s
  | a :: l' => match sstep a s with Some s' => steps l' s' | None => None end
  end.

(** The threads that have not ended, and those inside [Run]. *)
Definition live (p : phase) : Z := match p with Ended => 0 | _ => 1 end.
Definition inside (p : phase) : Z := match p with Running _ => 1 | _ => 0 end.

(** The owner starts the object only when the previous thread has ended. *)
Fixpoint one_at_a_time (l : list step) (s : system) : Prop :=
  match l with
  | [] => True
  | a :: l' =>
      match a with SStart _ => sum_with live (spawned s) = 0 | _ => True end /\
      match sstep a s with Some s' => one_at_a_time l' s' | None => True end
  end.

Lemma live_nonneg p : 0 <= live p.
Proof. by destruct p. Qed.

Lemma inside_live p : 0 <= inside p <= live p.
Proof. by destruct p. Qed.

Lemma inside_le_live l : 0 <= sum_with inside l <= sum_with live l.
Proof. induction l as [|p l IH]; simpl; [lia|]. pose proof (inside_live p). lia. Qed.

(** What holds when the object is started once at a time. *)
Definition tinv (s : system) : Prop :=
  busy_ (obj s) = sum_with inside (spawned s) /\ sum_with live (spawned s) <= 1.

Lemma tinv_step a s s' :
  tinv s -> match a with SStart _ => sum_with live (spawned s) = 0 | _ => True end ->
  sstep a s = Some s' -> tinv s'.
Proof.
  intros [Hb Hl] Ha H. pose proof (inside_le_live (spawned s)) as Hle.
  destruct a as [r|i|i|b]; simpl in H.
  - unfold Start in H. repeat case_match; simplify_eq/=; try done. split; cbn.
    + rewrite sum_with_app. simpl. lia.
    + rewrite sum_with_app. simpl. lia.
  - destruct (spawned s !! i) as [[]|] eqn:Ei; try done. unfold RunTask_enter in H.
    pose proof (sum_with_lookup_le live _ _ _ live_nonneg Ei) as H1. simpl in H1.
    destruct (task_ (obj s)); simplify_eq/=; split; cbn;
      rewrite !(sum_with_insert _ _ _ Created) by done; simpl; [|lia|lia|lia].
    assert (Hin : sum_with inside (spawned s) = 0).
    { enough (sum_with inside (<[i:=Ended]> (spawned s)) = 0) as E
        by (rewrite (sum_with_insert _ _ _ Created) in E by done; simpl in E; lia).
      pose proof (inside_le_live (<[i:=Ended]> (spawned s))) as H2.
      rewrite (sum_with_insert live _ _ Created) in H2 by done. simpl in H2. lia. }
    rewrite Hb, Hin. done.
  - destruct (spawned s !! i) as [[]|] eqn:Ei; simplify_eq/=.
    pose proof (sum_with_lookup_le inside _ _ _ (fun p => proj1 (inside_live p)) Ei) as H1.
    simpl in H1. split; cbn; rewrite !(sum_with_insert _ _ _ (Running task)) by done; simpl; [|lia].
    assert (E : busy_ (obj s) = 1) by lia. rewrite E. change (snd (atomic_cas 1 1 0)) with 0. lia.
  - unfold SetDetachable in H. case_match; by simplify_eq/=.
Qed.

(** An object that is started only when its last thread has ended: at every
    moment at most one of its threads is alive, [busy_] is 1 exactly while that
    thread is inside [task->Run()], and a [Start] in the meantime is refused. *)
Theorem thread_busy (task : option nat) (b : bool) (l : list step) s :
  one_at_a_time l (Sys (Thread_init task b) []) -> steps l (Sys (Thread_init task b) []) = Some s ->
  IsRunning (obj s) = bool_decide (sum_with inside (spawned s) = 1) /\
  sum_with live (spawned s) <= 1 /\
  (IsRunning (obj s) = true -> forall r, Start r (obj s) = (obj s, false, None)).
Proof.
  intros Hc Hs. assert (Hi : tinv s).
  { assert (H0 : tinv (Sys (Thread_init task b) [])) by done. revert Hc Hs H0.
    generalize (Sys (Thread_init task b) []). induction l as [|a l IH]; intros s0 Hc Hs H0; simpl in *.
    { by simplify_eq. }
    destruct Hc as [Ha Hc]. destruct (sstep a s0) as [s1|] eqn:E; [|done].
    by apply (IH s1); [| |eapply tinv_step]. }
  destruct Hi as [Hb Hl]. pose proof (inside_le_live (spawned s)) as Hle. unfold IsRunning.
  split; [|split; [done|]].
  - rewrite Hb. destruct (Z.eqb_spec (sum_with inside (spawned s)) 0) as [->|]; [done|].
    symmetry. apply bool_decide_eq_true. lia.
  - intros Hr r. unfold Start. by rewrite Hr.
Qed.

Definition ok_results (tid : Z) : pthread_results := Results 0 0 0 tid.

Lemma thread_busy_witness :
  let s := default (Sys (Thread_init (Some 5%nat) false) [])
    (steps [SStart (ok_results 100); SEnter 0] (Sys (Thread_init (Some 5%nat) false) [])) in
  IsRunning (obj s) = bool_decide (sum_with inside (spawned s) = 1) /\
  sum_with live (spawned s) <= 1 /\
  (IsRunning (obj s) = true -> forall r, Start r (obj s) = (obj s, false, None)).
Proof.
  apply (thread_busy (Some 5%nat) false [SStart (ok_results 100); SEnter 0]); [|reflexivity].
  simpl. auto.
Defined.

(** Without that discipline it fails: [Start] tests [busy_], but only the
    created thread sets it, so that a second [Start] before the first thread has
    run creates a second thread on the same task; the first one's id is lost (it
    can neither be joined nor cancelled), and when one of the two ends the object
    says it is idle while the other still runs the task. *)
Lemma Start_twice :
  exists s, steps [SStart (ok_results 100); SStart (ok_results 101); SEnter 0; SEnter 1; SLeave 0]
      (Sys (Thread_init (Some 5%nat) false) []) = Some s /\
    spawned s = [Ended; Running 5] /\ tid_ (obj s) = 101 /\ IsRunning (obj s) = false.
Proof. eexists. repeat split. Qed.
