(* ===== verification/Pool.v ===== *)
(** * Pool.v: the whole thread pool - the [Dispatcher] and its workers as threads

[ThreadPool], [Dispatcher] and [Worker] of [thread/src/ThreadPool.cc] and
[thread/src/Worker.cc] together.  The body of the dispatcher and the body of each worker
are shared objects of Conc.v over the code of Worker.v; their threads are: 0 the thread
that runs the body, 1 of a worker's body the dispatcher, and the rest the clients of the
pool.  [pstep] moves one thread by one access: the dispatcher's [PrepareWorker], its body
and the three steps of [DispatchTask] (clear the bit, push, signal); a worker's body with
the call-back [Worker::Notify]; a client that posts a task or an exit command.  An
execution of the pool is by construction an execution of Worker.v for every body.

The theorem: in every interleaving no [assert] of the pool fails and every task that the
pool has accepted is in exactly one place - the dispatcher's queue or hand, the mailbox or
hand of one worker, among the tasks that one worker has run, or dropped at a full mailbox.
The last section runs [StopPooling] into a deadlock. *)

From S2P Require Import Prelude Machine Conc SpinlockQueue Worker ThreadPool.

Section Pool.
Context {QD QW : Type} {CD : Container ITask QD} {CW : Container ITask QW}.
Variable workerNum_ : Z.
Variables (max_ maxMsgSize : Z).      (* sizes of the dispatcher's queue and of the mailboxes *)

(** A body with its threads. *)
Abbreviation dcfg := (cfg (G:=body (Q:=QD)) (L:=loc) (C:=unit)).
Abbreviation wcfg := (cfg (G:=body (Q:=QW)) (L:=loc) (C:=unit)).

(** Where the dispatcher's thread is: in [PrepareWorker], in its body, or in [PostTask] of
    the worker [id]. *)
Inductive dphase : Type := Prep | InBody | Posting (t : ITask) (id : nat).

(** [dropped] records the tasks that a full mailbox refused; no code reads it. *)
Record Pool : Type := MkPool {
  running_ : bool; members : Dispatcher QW; d_at : dphase; self : dcfg; ws : list wcfg;
  dropped : list ITask; crashed : bool
}.

(** [Dispatcher] is a body without a notifier whose [HandleTask] keeps the task; [Worker]
    notifies the pool. *)
Definition d_step (c : dcfg) (k : nat) (a : act op) : option (dcfg * list (Conc.event op res)) :=
  cstep start (code max_ false false) worker_inv any_ret c k a.
Definition w_step (c : wcfg) (k : nat) (a : act op) : option (wcfg * list (Conc.event op res)) :=
  cstep start (code maxMsgSize true true) worker_inv any_ret c k a.

Definition crash (p : Pool) : Pool :=
  MkPool (running_ p) (members p) (d_at p) (self p) (ws p) (dropped p) true.
Definition set_members (d : Dispatcher QW) (p : Pool) : Pool :=
  MkPool (running_ p) d (d_at p) (self p) (ws p) (dropped p) (crashed p).
Definition set_self (at' : dphase) (c : dcfg) (p : Pool) : Pool :=
  MkPool (running_ p) (members p) at' c (ws p) (dropped p) (crashed p).
Definition set_worker (i : nat) (c : wcfg) (p : Pool) : Pool :=
  MkPool (running_ p) (members p) (d_at p) (self p) (<[i:=c]> (ws p)) (dropped p) (crashed p).
Definition drop_task (t : ITask) (p : Pool) : Pool :=
  MkPool (running_ p) (members p) (d_at p) (self p) (ws p) (dropped p ++ [t]) (crashed p).
Definition set_running (b : bool) (p : Pool) : Pool :=
  MkPool b (members p) (d_at p) (self p) (ws p) (dropped p) (crashed p).

(** [PrepareWorker]: [None] while [sem_wait] blocks. *)
Definition prepare_step (p : Pool) : option Pool :=
  let d := members p in
  match freeWorker_ d with
  | Some _ => Some (set_self InBody (self p) p)
  | None =>
      if workerNotify_ d <=? 0 then None
      else
        let d := Disp (freeWorkerBit_ d) (workerNotify_ d - 1) None (workers_ d) in
        match SelectFreeWorker workerNum_ d with
        | None => Some (crash p)
        | Some None => Some (set_members d p)
        | Some (Some w) =>
            Some (set_self InBody (self p) (set_members (Disp (freeWorkerBit_ d) (workerNotify_ d) (Some w) (workers_ d)) p))
        end
  end.

(** The first step of [DispatchTask]: the worker is chosen, its bit is cleared, and
    [PostTask] of the worker begins. *)
Definition dispatch_step (t : ITask) (p : Pool) : Pool :=
  let d := members p in
  match target workerNum_ t d with
  | None => crash p
  | Some id =>
      match clear_bit id (freeWorkerBit_ d), ws p !! id with
      | Some bits, Some c =>
          let t := SetThreadId t (Z.of_nat id) in
          match w_step c 1 (Invoke (OPostTask t)) with
          | Some (c, _) =>
              let free := if decide (freeWorker_ d = Some id) then None else freeWorker_ d in
              set_self (Posting t id) (self p)
                (set_worker id c (set_members (Disp bits (workerNotify_ d) free (workers_ d)) p))
          | None => crash p
          end
      | _, _ => crash p
      end
  end.

(** The thread of the dispatcher: its body calls [PrepareWorker] before each round and
    [DispatchTask] for each task. *)
Definition disp_step (p : Pool) : option Pool :=
  match d_at p with
  | Prep => prepare_step p
  | Posting t id =>
      match ws p !! id with
      | None => None
      | Some c =>
          match w_step c 1 Step with
          | None => None
          | Some (c', e) =>
              let p := set_worker id c' p in
              match e with
              | [ERes _ (RPost false)] => Some (set_self InBody (self p) (drop_task t p))
              | [ERes _ _] => Some (set_self InBody (self p) p)
              | _ => Some p
              end
          end
      end
  | InBody =>
      match ths (self p) !! 0%nat with
      | Some (Run l) =>
          match d_step (self p) 0 Step with
          | None => None
          | Some (c, _) =>
              let p := set_self (match ths c !! 0%nat with Some (Run (GetRunTask 0)) => Prep | _ => InBody end) c p in
              match l with Handle t => Some (dispatch_step t p) | _ => Some p end
          end
      | _ => None
      end
  end.

(** [Worker::Notify]: the pool hands the notification to the dispatcher. *)
Definition notify_step (i : nat) (e : effect) (d : Dispatcher QW) : option (Dispatcher QW) :=
  match e with ENotify type => SetWorkerNotify (Some i) type d | _ => Some d end.

Fixpoint notify_all (i : nat) (es : list effect) (d : Dispatcher QW) : option (Dispatcher QW) :=
  match es with
  | [] => Some d
  | e :: es' => match notify_step i e d with Some d' => notify_all i es' d' | None => None end
  end.

(** The thread of worker [i]; what it has added to its trace are its call-backs. *)
Definition worker_step (i : nat) (p : Pool) : option Pool :=
  match ws p !! i with
  | None => None
  | Some c =>
      match w_step c 0 Step with
      | None => None
      | Some (c', _) =>
          let p := set_worker i c' p in
          match notify_all i (drop (length (effects_ (sh c))) (effects_ (sh c'))) (members p) with
          | Some d => Some (set_members d p)
          | None => Some (crash p)
          end
      end
  end.

Inductive pact : Type :=
| ARunning (b : bool)                         (* [running_ = b] *)
| AStartWorker (i : nat) | AStartDispatcher   (* [StartWorking] *)
| ADispatcher | AWorker (i : nat)             (* one step of a thread *)
| AClient (k : nat) (a : act op)              (* client [k] in [PostTask] or [PostExit] of the dispatcher *)
| AStop (i k : nat) (a : act op).             (* client [k] in [PostExit] of worker [i] *)

Definition pstep (a : pact) (p : Pool) : option Pool :=
  if crashed p then None else
  match a with
  | ARunning b => Some (set_running b p)
  | AStartWorker i =>
      match ws p !! i with
      | Some c => match w_step c 0 (Invoke ORun) with Some (c', _) => Some (set_worker i c' p) | None => None end
      | None => None
      end
  | AStartDispatcher =>
      match d_step (self p) 0 (Invoke ORun) with Some (c, _) => Some (set_self InBody c p) | None => None end
  | ADispatcher => disp_step p
  | AWorker i => worker_step i p
  | AClient k a =>
      match d_step (self p) (S k) a with Some (c, _) => Some (set_self (d_at p) c p) | None => None end
  | AStop i k a =>
      match ws p !! i, a with
      | Some c, (Invoke OPostExit | Step) =>
          match w_step c (S (S k)) a with Some (c', _) => Some (set_worker i c' p) | None => None end
      | _, _ => None
      end
  end.

Fixpoint psteps (l : list pact) (p : Pool) : option Pool :=
  match l with
  | [] => Some p
  | a :: l' => match pstep a p with Some p' => psteps l' p' | None => None end
  end.

(** [ThreadPool::ThreadPool] with [clients] client threads; [tm] is what the clocks say. *)
Definition Pool_init (qd : QD) (qw : QW) (tm : list bool) (clients : nat) : option Pool :=
  let w := init_cfg (EnableNotify true (WorkerBodyBase_init qw tm)) (S (S clients)) tt in
  match Dispatcher_init workerNum_ [] with
  | Some d =>
      Some (MkPool false d InBody (init_cfg (EnableNotify false (WorkerBodyBase_init qd tm)) (S clients) tt)
              (replicate (Z.to_nat workerNum_) w) [] false)
  | None => None
  end.

(** [StartPooling], and [StopPooling] by client [k] up to its joins: the dispatcher's exit
    command, then, when it was accepted, one for every worker. *)
Definition StartPooling : list pact :=
  ARunning true :: map AStartWorker (seq 0 (Z.to_nat workerNum_)) ++ [AStartDispatcher].

Definition post_exit (f : act op -> pact) : list pact := [f (Invoke OPostExit); f Step; f Step].

Definition StopPooling (k : nat) : list pact :=
  ARunning false :: post_exit (AClient k) ++
  mjoin (map (fun i => post_exit (AStop i k)) (seq 0 (Z.to_nat workerNum_))).

(** A thread has ended, so that [Join] of it returns. *)
Definition ended {Q} (c : cfg (G:=body (Q:=Q)) (L:=loc) (C:=unit)) : bool :=
  match ths c !! 0%nat with Some Idle => true | _ => false end.
End Pool.
Arguments Pool QD QW : clear implicits.

(** ** One step of a body *)

Section Bodies.
Context {Q : Type} {CQ : Container ITask Q}.

(** Only a push adds to the accepted tasks, only [HandleTask] to the run ones. *)
Lemma code_accepted M nt hr (g : body (Q:=Q)) l :
  match l with PostTaskPush _ => False | _ => True end ->
  match code M nt hr g l with
  | Next g' _ | Ret g' _ => accepted_ g' = accepted_ g
  | Fault => True
  end.
Proof.
  intros Hl. destruct l; try done; cbn; unfold TryConsume, tick, GetTaskFromContainer, PushInternalCmd;
    cbn; repeat (case_match; simplify_eq/=); done.
Qed.

Lemma code_runs M nt hr (g : body (Q:=Q)) l :
  match code M nt hr g l with
  | Next g' _ | Ret g' _ =>
      runs (effects_ g') = runs (effects_ g) ++ match l with Handle t => [t] | _ => [] end
  | Fault => True
  end.
Proof.
  destruct l; cbn; unfold TryConsume, tick, GetTaskFromContainer, PushInternalCmd, PushTaskToContainer;
    cbn; repeat (case_match; simplify_eq/=); rewrite ?runs_app, ?app_nil_r; done.
Qed.

(** The points of the body's round up to [HandleTask]. *)
Definition before_handle (l : loc) : bool :=
  match l with
  | GetRunTask _ | Consume | Try _ | Ask _ | ConsumeTimeout _ | TimedWait _ | CmdIsEmpty | CmdPop
  | TakeTask | SetBusy _ | Handle _ => true
  | _ => false
  end.

Lemma code_before_handle M nt hr (g g' : body (Q:=Q)) l l' :
  code M nt hr g l = Next g' l' -> before_handle l' = true ->
  (before_handle l = true /\ forall t, l <> Handle t) \/ l' = GetRunTask 0.
Proof.
  intros H Hb. destruct l; cbn in H;
    unfold TryConsume, tick, GetTaskFromContainer, PushInternalCmd in H; cbn in H;
    repeat (case_match; simplify_eq/=); simplify_eq/=; first [done|by left|by right].
Qed.

Lemma code_no_push M nt hr (g g' : body (Q:=Q)) l t : code M nt hr g l <> Next g' (PostTaskPush t).
Proof.
  intros H. destruct l; cbn in H;
    unfold TryConsume, tick, GetTaskFromContainer, PushInternalCmd, PushTaskToContainer in H; cbn in H;
    repeat (case_match; simplify_eq/=); discriminate H.
Qed.

(** What one step of a thread adds to the calls of the body: at most one notification. *)
Lemma code_effects M nt hr (g : body (Q:=Q)) l :
  match code M nt hr g l with
  | Next g' _ | Ret g' _ => exists es, effects_ g' = effects_ g ++ es
  | Fault => True
  end.
Proof.
  destruct l; cbn; unfold TryConsume, tick, GetTaskFromContainer, PushInternalCmd, PushTaskToContainer;
    cbn; repeat (case_match; simplify_eq/=);
    first [by eexists | by exists []; rewrite app_nil_r].
Qed.
End Bodies.

(** One step of a thread of a body. *)
Section Steps.
Context {Q : Type} {CQ : Container ITask Q} {elems : Q -> list ITask} {SQ : ContainerSpec ITask Q elems}.
Variables (M : Z) (nt hr : bool).

Abbreviation bcfg := (cfg (G:=body (Q:=Q)) (L:=loc) (C:=unit)).
Abbreviation bstep := (cstep start (code M nt hr) worker_inv any_ret).

(** The body is one of Worker.v. *)
Definition sound (c : bcfg) : Prop :=
  faulted c = false /\ exists m, WInv (elems:=elems) hr m (sh c) (ths c) (cl c).

Lemma sound_step (c c' : bcfg) k a e : sound c -> bstep c k a = Some (c', e) -> sound c'.
Proof. intros [_ [m HI]] H. destruct (WInv_cstep M nt hr m c k a c' e HI H) as [Hf HI']. split; eauto. Qed.

Lemma bstep_other (c c' : bcfg) k a e j : bstep c k a = Some (c', e) -> j <> k -> ths c' !! j = ths c !! j.
Proof.
  intros H Hj. apply cstep_inv in H as [_ [(o&k'&->&Ht&Hk&->&->)|[(l&g&l'&->&Ht&Hc&->&->)|
    [(l&g&r&->&Ht&Hc&->&->)|(l&->&Ht&Hc&->&->)]]]]; cbn; by rewrite ?list_lookup_insert_ne.
Qed.

Lemma bstep_accepted (c c' : bcfg) k a e :
  bstep c k a = Some (c', e) -> (forall t, ths c !! k <> Some (Run (PostTaskPush t))) ->
  accepted_ (sh c') = accepted_ (sh c).
Proof.
  intros H Hp. apply cstep_inv in H as [_ [(o&k'&->&Ht&Hk&->&->)|[(l&g&l'&->&Ht&Hc&->&->)|
    [(l&g&r&->&Ht&Hc&->&->)|(l&->&Ht&Hc&->&->)]]]]; cbn; try done;
    (pose proof (code_accepted M nt hr (sh c) l ltac:(destruct l; try done; by eapply Hp)) as H; by rewrite Hc in H).
Qed.

Lemma bstep_runs (c c' : bcfg) k a e :
  bstep c k a = Some (c', e) ->
  runs (effects_ (sh c')) = runs (effects_ (sh c)) ++
    match a, ths c !! k with Step, Some (Run (Handle t)) => [t] | _, _ => [] end.
Proof.
  intros H. apply cstep_inv in H as [_ [(o&k'&->&Ht&Hk&->&->)|[(l&g&l'&->&Ht&Hc&->&->)|
    [(l&g&r&->&Ht&Hc&->&->)|(l&->&Ht&Hc&->&->)]]]]; cbn.
  - by rewrite app_nil_r.
  - rewrite Ht. pose proof (code_runs M nt hr (sh c) l) as H. rewrite Hc in H. by destruct l.
  - rewrite Ht. pose proof (code_runs M nt hr (sh c) l) as H. rewrite Hc in H. by destruct l.
  - rewrite Ht. destruct l; rewrite ?app_nil_r; done || discriminate Hc.
Qed.

(** No step leads to a push but the call of [PostTask]. *)
Lemma bstep_no_push (c c' : bcfg) k a e t :
  bstep c k a = Some (c', e) -> (forall t', a <> Invoke (OPostTask t')) -> ths c' !! k <> Some (Run (PostTaskPush t)).
Proof.
  intros H Ha. apply cstep_inv in H as [_ [(o&k'&->&Ht&Hk&->&->)|[(l&g&l'&->&Ht&Hc&->&->)|
    [(l&g&r&->&Ht&Hc&->&->)|(l&->&Ht&Hc&->&->)]]]]; cbn;
    rewrite ?list_lookup_insert_eq by (by eapply lookup_lt_Some).
  - intros [= Ho]. destruct o; try done. by eapply Ha.
  - intros [= ->]. by apply code_no_push in Hc.
  - done.
  - rewrite Ht. intros [= ->]. cbn in Hc. by repeat case_match.
Qed.

(** Thread 0 runs the body, the others post. *)
Lemma sound_thread0 c t : sound c -> ths c !! 0%nat <> Some (Run (PostTaskPush t)).
Proof. intros [_ [m HI]] H. by apply (wi_placed _ _ _ _ _ HI) in H. Qed.

Lemma sound_poster c k t : sound c -> ths c !! S k <> Some (Run (Handle t)).
Proof. intros [_ [m HI]] H. by apply (wi_placed _ _ _ _ _ HI) in H. Qed.

(** A posting thread: the push, then the signal. *)
Lemma bstep_push (c c' : bcfg) k t e :
  ths c !! k = Some (Run (PostTaskPush t)) -> bstep c k Step = Some (c', e) ->
  (e = [] /\ ths c' !! k = Some (Run PostTaskSignal) /\ accepted_ (sh c') = accepted_ (sh c) ++ [t]) \/
  (e = [ERes k (RPost false)] /\ ths c' !! k = Some Idle /\ accepted_ (sh c') = accepted_ (sh c)).
Proof.
  intros Ht H. assert (Hl : (k < length (ths c))%nat) by by eapply lookup_lt_Some.
  unfold cstep in H. destruct (faulted c); [done|]. rewrite Ht in H. cbn in H.
  unfold PushTaskToContainer in H. cbn in H. destruct (_ >=? _); cbn in H; injection H as <- <-; cbn;
    rewrite list_lookup_insert_eq by done; [right|left]; done.
Qed.

Lemma bstep_signal (c c' : bcfg) k e :
  ths c !! k = Some (Run PostTaskSignal) -> bstep c k Step = Some (c', e) ->
  e = [ERes k (RPost true)] /\ ths c' !! k = Some Idle /\ accepted_ (sh c') = accepted_ (sh c).
Proof.
  intros Ht H. assert (Hl : (k < length (ths c))%nat) by by eapply lookup_lt_Some.
  unfold cstep in H. destruct (faulted c); [done|]. rewrite Ht in H. cbn in H. injection H as <- <-. cbn.
  by rewrite list_lookup_insert_eq by done.
Qed.

Lemma bstep_invoke (c : bcfg) k t :
  sound c -> ths c !! S k = Some Idle ->
  exists c', bstep c (S k) (Invoke (OPostTask t)) = Some (c', [EInv (S k) (OPostTask t)]) /\
    ths c' !! S k = Some (Run (PostTaskPush t)) /\ sh c' = sh c.
Proof.
  intros [Hf _] Ht. assert (Hl : (S k < length (ths c))%nat) by by eapply lookup_lt_Some.
  unfold cstep. rewrite Hf, Ht. cbn. eexists. split; [reflexivity|]. cbn. by rewrite list_lookup_insert_eq.
Qed.
End Steps.

(** ** The invariant of the pool *)

Section Safety.
Context {QD QW : Type} {CD : Container ITask QD} {CW : Container ITask QW}.
Context {elemsD : QD -> list ITask} {SD : ContainerSpec ITask QD elemsD}.
Context {elemsW : QW -> list ITask} {SW : ContainerSpec ITask QW elemsW}.
Variables (workerNum_ max_ maxMsgSize : Z).

Abbreviation dcfg := (cfg (G:=body (Q:=QD)) (L:=loc) (C:=unit)).
Abbreviation wcfg := (cfg (G:=body (Q:=QW)) (L:=loc) (C:=unit)).
Abbreviation pool := (Pool QD QW).

(** The members that the dispatcher and the workers share. *)
Record members_ok (d : Dispatcher QW) : Prop := {
  mo_bits : 0 <= freeWorkerBit_ d < 2 ^ workerNum_;
  mo_tokens : 0 <= workerNotify_ d;
  mo_free : forall i, freeWorker_ d = Some i -> Z.of_nat i < workerNum_
}.

(** Thread 1 of worker [i] is the dispatcher, the rest only stop the worker. *)
Definition posts (at' : dphase) (i : nat) (c : wcfg) : Prop :=
  match at' with
  | Posting t id =>
      if decide (i = id)
      then ths c !! 1%nat = Some (Run (PostTaskPush t)) \/ ths c !! 1%nat = Some (Run PostTaskSignal)
      else ths c !! 1%nat = Some Idle
  | _ => ths c !! 1%nat = Some Idle
  end.

Definition stoppers (c : wcfg) : Prop :=
  forall k t, ths c !! S (S k) <> Some (Run (PostTaskPush t)).

(** The task between the dispatcher and the mailbox of a worker. *)
Definition inflight (at' : dphase) (l : list wcfg) : list nat :=
  match at' with
  | Posting t id =>
      match l !! id with
      | Some c => match ths c !! 1%nat with Some (Run (PostTaskPush _)) => [addr t] | _ => [] end
      | None => []
      end
  | _ => []
  end.

Definition taken {Q} (c : cfg (G:=body (Q:=Q)) (L:=loc) (C:=unit)) : list nat := map addr (accepted_ (sh c)).
Definition handled {Q} (c : cfg (G:=body (Q:=Q)) (L:=loc) (C:=unit)) : list nat := map addr (runs (effects_ (sh c))).

(** Every task that the dispatcher has handled is at a worker, on its way to one, or
    dropped. *)
Definition accounted (p : pool) : Prop :=
  handled (self p) ≡ₚ gather taken (ws p) ++ inflight (d_at p) (ws p) ++ map addr (dropped p).

(** A round of the dispatcher has a free worker from [PrepareWorker] to [HandleTask]. *)
Definition prepared (p : pool) : Prop :=
  d_at p = InBody -> forall l, ths (self p) !! 0%nat = Some (Run l) -> before_handle l = true ->
  freeWorker_ (members p) <> None.

Record PInv (p : pool) : Prop := {
  pi_safe : crashed p = false;
  pi_members : members_ok (members p);
  pi_len : Z.of_nat (length (ws p)) = workerNum_;
  pi_self : sound (elems:=elemsD) false (self p);
  pi_ws : forall i c, ws p !! i = Some c -> sound (elems:=elemsW) true c /\ stoppers c /\ posts (d_at p) i c;
  pi_post : forall t id, d_at p = Posting t id -> (id < length (ws p))%nat;
  pi_hand : prepared p;
  pi_on : d_at p <> InBody -> exists l, ths (self p) !! 0%nat = Some (Run l) /\
    (d_at p <> Prep -> before_handle l = false);
  pi_tasks : accounted p
}.

Context (Hn : 1 <= workerNum_ <= 31).

Lemma gather_taken (l : list wcfg) i c c' x :
  l !! i = Some c -> taken c' = taken c ++ x -> gather taken (<[i:=c']> l) ≡ₚ gather taken l ++ x.
Proof.
  intros Hc Hx. destruct (gather_insert taken l i c Hc) as (rest&H1&H2).
  rewrite H2, H1, Hx. solve_Permutation.
Qed.

(** The notifications of worker [i]. *)
Lemma notify_all_ok i es (d : Dispatcher QW) :
  Z.of_nat i < workerNum_ -> members_ok d ->
  exists d', notify_all i es d = Some d' /\ members_ok d' /\ freeWorker_ d' = freeWorker_ d.
Proof.
  intros Hi. revert d. induction es as [|e es IH]; intros d Hd; [by exists d|].
  assert (exists d1, notify_step i e d = Some d1 /\ members_ok d1 /\ freeWorker_ d1 = freeWorker_ d)
    as (d1&E&Hd1&Hf1).
  { destruct e as [t|t|ty]; cbn; [by exists d|by exists d|]. destruct Hd as [H1 H2 H3].
    destruct (Z.ltb_spec ty 0).
    - pose proof (set_bit_spec i (freeWorkerBit_ d) ltac:(lia)) as Hb.
      destruct (shl_int (Z.of_nat i)) as [y|]; [|done]. eexists. split; [reflexivity|].
      split; [|done]. split; cbn [freeWorkerBit_ workerNotify_ freeWorker_]; [|done..].
      unfold atomic_fetch_and_or in Hb. cbn [snd] in Hb. rewrite Hb.
      apply lor_range; [lia|done|]. split; [apply Z.pow_nonneg; lia|apply Z.pow_lt_mono_r; lia].
    - eexists. split; [reflexivity|]. split; [|done]. split; cbn; [done|lia|done]. }
  destruct (IH d1 Hd1) as (d2&E2&Hd2&Hf2). exists d2. cbn. rewrite E. split; [done|]. split; [done|congruence].
Qed.

(** A body of a worker takes a step that is not the dispatcher's push. *)
Lemma PInv_worker p i c c' k a e d :
  PInv p -> ws p !! i = Some c -> w_step maxMsgSize c k a = Some (c', e) -> k <> 1%nat ->
  stoppers c' -> members_ok d -> freeWorker_ d = freeWorker_ (members p) ->
  PInv (set_members d (set_worker i c' p)).
Proof.
  intros [P1 P2 P3 P4 P5 P6 P7 P8 P9] Hc E Hk Hst Hd Hf. destruct (P5 i c Hc) as (S1&S2&S3).
  pose proof (sound_step _ _ _ _ _ _ _ _ S1 E) as S1'.
  assert (H1 : ths c' !! 1%nat = ths c !! 1%nat) by (eapply bstep_other; [exact E|done]).
  assert (Ht : taken c' = taken c ++ []).
  { unfold taken. rewrite app_nil_r. f_equal. eapply bstep_accepted; [exact E|].
    intros t Hp. destruct k as [|[|k]]; [by apply (sound_thread0 (elems:=elemsW) true c t S1)|done|by eapply S2]. }
  assert (Hin : inflight (d_at p) (<[i:=c']> (ws p)) = inflight (d_at p) (ws p)).
  { unfold inflight. destruct (d_at p) as [| |t id]; try done. destruct (decide (id = i)) as [->|Hne].
    - rewrite list_lookup_insert_eq by (by eapply lookup_lt_Some). by rewrite Hc, H1.
    - by rewrite list_lookup_insert_ne. }
  split; cbn; try done.
  - by rewrite length_insert.
  - intros j y Hy. apply list_insert_inv in Hy as [[-> ->]|[Hne Hy]]; [|by apply P5].
    split; [done|]. split; [done|]. unfold posts in *. by rewrite H1.
  - intros t id Hp. rewrite length_insert. by eapply P6.
  - unfold prepared in *. cbn. by rewrite Hf.
  - unfold accounted in *. cbn. rewrite Hin, (gather_taken _ _ _ _ _ Hc Ht), app_nil_r. done.
Qed.

Lemma PInv_set_worker p i c c' k a e :
  PInv p -> ws p !! i = Some c -> w_step maxMsgSize c k a = Some (c', e) -> k <> 1%nat ->
  stoppers c' -> PInv (set_worker i c' p).
Proof.
  intros HP Hc E Hk Hst. pose proof (PInv_worker p i c c' k a e (members p) HP Hc E Hk Hst (pi_members _ HP) eq_refl) as H.
  by destruct p.
Qed.

Lemma stoppers_step (c c' : wcfg) k a e :
  stoppers c -> w_step maxMsgSize c k a = Some (c', e) -> (forall t, a <> Invoke (OPostTask t)) -> stoppers c'.
Proof.
  intros Hs E Ha j t. destruct (decide (S (S j) = k)) as [<-|Hne].
  - by eapply bstep_no_push.
  - erewrite bstep_other; [apply Hs|exact E|done].
Qed.

Lemma stoppers_dispatcher (c c' : wcfg) a e : stoppers c -> w_step maxMsgSize c 1 a = Some (c', e) -> stoppers c'.
Proof. intros Hs E j t. erewrite bstep_other; [apply Hs|exact E|done]. Qed.

(** The dispatcher's body changes, the workers do not. *)
Lemma PInv_self p c c' k a e :
  PInv p -> self p = c -> d_step max_ c k a = Some (c', e) -> k <> 0%nat -> PInv (set_self (d_at p) c' p).
Proof.
  intros [P1 P2 P3 P4 P5 P6 P7 P8 P9] <- E Hk.
  assert (H0 : ths c' !! 0%nat = ths (self p) !! 0%nat) by (eapply bstep_other; [exact E|done]).
  split; cbn; try done.
  - by eapply sound_step.
  - unfold prepared in *. cbn. by rewrite H0.
  - by rewrite H0.
  - unfold accounted, handled in *. cbn. rewrite (bstep_runs _ _ _ _ _ _ _ _ E).
    assert (match a, ths (self p) !! k with Step, Some (Run (Handle t)) => [t] | _, _ => [] end = []) as ->;
      [|by rewrite app_nil_r].
    destruct a; [done|]. destruct k as [|k]; [done|].
    destruct (ths (self p) !! S k) as [[|[]]|] eqn:Ht; try done.
    by apply (sound_poster (elems:=elemsD) false _ k t P4) in Ht.
Qed.

Lemma prepare_inv p p' : PInv p -> d_at p = Prep -> prepare_step workerNum_ p = Some p' -> PInv p'.
Proof.
  intros [P1 P2 P3 P4 P5 P6 P7 P8 P9] Hat H. unfold prepare_step in H.
  assert (Hnext : forall d, members_ok d -> freeWorker_ d <> None ->
    PInv (set_self InBody (self p) (set_members d p))).
  { intros d Hd Hf. split; cbn; try done.
    - intros i c Hc. destruct (P5 i c Hc) as (S1&S2&S3). split_and!; [done..|]. unfold posts in *. by rewrite Hat in S3.
    - by intros _ l _ _.
    - unfold accounted in *. cbn. by rewrite Hat in P9. }
  destruct (freeWorker_ (members p)) as [w|] eqn:Ef.
  - injection H as <-. assert (E : set_self InBody (self p) p = set_self InBody (self p) (set_members (members p) p)) by by destruct p.
    rewrite E. apply Hnext; [done|by rewrite Ef].
  - destruct (Z.leb_spec (workerNotify_ (members p)) 0); [done|]. destruct P2 as [M1 M2 M3].
    match type of H with context [SelectFreeWorker _ ?x] => set (d := x) in H end.
    assert (Hd : members_ok d) by (split; cbn; [done|lia|done]).
    destruct (select_cases workerNum_ d) as [[_ E]|(c&Hc&_&E)]; [lia|done|..]; rewrite E in H; injection H as <-.
    + split; cbn; try done. unfold prepared. cbn. by rewrite Hat.
    + apply Hnext; [|done]. split; cbn; [done|lia|]. intros i [= <-]. lia.
Qed.

(** The dispatcher takes the next step of [PostTask]. *)
Lemma posting_inv p p' t id :
  PInv p -> d_at p = Posting t id -> disp_step workerNum_ max_ maxMsgSize p = Some p' -> PInv p'.
Proof.
  intros [P1 P2 P3 P4 P5 P6 P7 P8 P9] Hat H. unfold disp_step in H. rewrite Hat in H.
  destruct (ws p !! id) as [c|] eqn:Hc; [|done].
  destruct (w_step maxMsgSize c 1 Step) as [[c' e]|] eqn:E; [|done].
  destruct (P5 id c Hc) as (S1&S2&S3). rewrite Hat in S3. cbn in S3. rewrite decide_True in S3 by done.
  assert (S1' : sound (elems:=elemsW) true c') by by eapply sound_step.
  assert (S2' : stoppers c') by by eapply stoppers_dispatcher.
  assert (Hlt : (id < length (ws p))%nat) by by eapply lookup_lt_Some.
  destruct (P8 ltac:(by rewrite Hat)) as (l0&Hl0&Hb0). specialize (Hb0 ltac:(by rewrite Hat)).
  (* the new state, once it is known where the task is *)
  assert (Hnext : forall at' ds x, (at' = InBody /\ ths c' !! 1%nat = Some Idle \/
        at' = Posting t id /\ ths c' !! 1%nat = Some (Run PostTaskSignal)) ->
      taken c' = taken c ++ x ->
      handled (self p) ≡ₚ (gather taken (ws p) ++ x) ++ map addr ds ->
      PInv (MkPool (running_ p) (members p) at' (self p) (<[id:=c']> (ws p)) ds (crashed p))).
  { intros at' ds x Hor Hx Hacc. split; cbn; try done.
    - by rewrite length_insert.
    - intros i y Hy. apply list_insert_inv in Hy as [[-> ->]|[Hne Hy]].
      + split_and!; [done..|]. destruct Hor as [[-> ?]|[-> ?]]; cbn; [done|]. rewrite decide_True by done. by right.
      + destruct (P5 i y Hy) as (T1&T2&T3). rewrite Hat in T3. cbn in T3. rewrite decide_False in T3 by done.
        split_and!; [done..|]. destruct Hor as [[-> ?]|[-> ?]]; cbn; [done|]. by rewrite decide_False.
    - intros t' id' Hp. rewrite length_insert. destruct Hor as [[-> _]|[-> _]]; [done|]. by injection Hp as _ <-.
    - intros Hin l Hl. cbn in Hl. rewrite Hl0 in Hl. injection Hl as <-. by rewrite Hb0.
    - intros _. exists l0. split; [done|]. by intros _.
    - unfold accounted. cbn [self ws d_at dropped]. rewrite (gather_taken _ _ _ _ _ Hc Hx), Hacc.
      destruct Hor as [[-> Hi]|[-> Hi]]; cbn; [done|]. by rewrite list_lookup_insert_eq, Hi by done. }
  unfold accounted in P9. rewrite Hat in P9. cbn in P9. rewrite Hc in P9.
  destruct S3 as [Hp|Hp]; rewrite Hp in P9.
  - destruct (bstep_push _ _ _ _ _ _ _ _ Hp E) as [(->&Hi&Ha)|(->&Hi&Ha)]; injection H as <-.
    + unfold set_worker. rewrite Hat. apply (Hnext _ _ [addr t]); [by right| |rewrite P9; by rewrite <-app_assoc].
      unfold taken. by rewrite Ha, map_app.
    + apply (Hnext _ _ []); [by left|unfold taken; by rewrite Ha, app_nil_r|].
      rewrite P9, app_nil_r. cbn. rewrite map_app. cbn. solve_Permutation.
  - destruct (bstep_signal _ _ _ _ _ _ _ Hp E) as (->&Hi&Ha). injection H as <-.
    apply (Hnext _ _ []); [by left|unfold taken; by rewrite Ha, app_nil_r|by rewrite P9, app_nil_r].
Qed.

(** The dispatcher's body takes a step. *)
Lemma disp_body p l c e :
  PInv p -> d_at p = InBody -> ths (self p) !! 0%nat = Some (Run l) -> d_step max_ (self p) 0 Step = Some (c, e) ->
  sound (elems:=elemsD) false c /\
  handled c = handled (self p) ++ match l with Handle t => [addr t] | _ => [] end /\
  (forall l', ths c !! 0%nat = Some (Run l') -> before_handle l' = true ->
     l' = GetRunTask 0 \/ freeWorker_ (members p) <> None) /\
  (forall t, l = Handle t -> ths c !! 0%nat = Some (Run IncDone)).
Proof.
  intros [P1 P2 P3 P4 P5 P6 P7 P8 P9] Hat Hl E. split; [by eapply sound_step|].
  split; [|split].
  - unfold handled. rewrite (bstep_runs _ _ _ _ _ _ _ _ E), Hl, map_app. by destruct l.
  - intros l' Hl' Hb. apply cstep_inv in E as [_ [(o&k'&Ea&_)|[(l1&g&l2&_&Ht&Hc&->&_)|
      [(l1&g&r&_&Ht&Hc&->&_)|(l1&_&Ht&Hc&->&_)]]]]; [done|..]; rewrite Hl in Ht; injection Ht as <-;
      cbn in Hl'; rewrite ?list_lookup_insert_eq in Hl' by (by eapply lookup_lt_Some).
    + injection Hl' as <-. destruct (code_before_handle _ _ _ _ _ _ _ Hc Hb) as [[Hb' _]|?]; [|by left].
      right. by eapply P7.
    + done.
    + rewrite Hl in Hl'. injection Hl' as <-. right. by eapply P7.
  - intros t ->. apply cstep_inv in E as [_ [(o&k'&Ea&_)|[(l1&g&l2&_&Ht&Hc&->&_)|
      [(l1&g&r&_&Ht&Hc&->&_)|(l1&_&Ht&Hc&->&_)]]]]; [done|..]; rewrite Hl in Ht; injection Ht as <-; try done.
    cbn in Hc. injection Hc as _ <-. cbn. by rewrite list_lookup_insert_eq by (by eapply lookup_lt_Some).
Qed.

Lemma body_inv p p' l :
  PInv p -> d_at p = InBody -> ths (self p) !! 0%nat = Some (Run l) -> (forall t, l <> Handle t) ->
  disp_step workerNum_ max_ maxMsgSize p = Some p' -> PInv p'.
Proof.
  intros HP Hat Hl Hnh H. unfold disp_step in H. rewrite Hat, Hl in H.
  destruct (d_step max_ (self p) 0 Step) as [[c e]|] eqn:E; [|done].
  destruct (disp_body p l c e HP Hat Hl E) as (S1&S2&S3&_). destruct HP as [P1 P2 P3 P4 P5 P6 P7 P8 P9].
  set (at' := match ths c !! 0%nat with Some (Run (GetRunTask 0)) => Prep | _ => InBody end) in H.
  assert (Hat' : at' = Prep /\ ths c !! 0%nat = Some (Run (GetRunTask 0)) \/
    at' = InBody /\ ths c !! 0%nat <> Some (Run (GetRunTask 0))).
  { subst at'. destruct (ths c !! 0%nat) as [[|[]]|]; try (by right). destruct req; [by left|by right..]. }
  assert (H' : Some (set_self at' c p) = Some p') by (destruct l; try done; by destruct (Hnh t)).
  injection H' as <-. clear H. split; cbn; try done.
  - intros i y Hy. destruct (P5 i y Hy) as (T1&T2&T3). rewrite Hat in T3. split_and!; [done..|].
    by destruct Hat' as [[-> _]|[-> _]].
  - intros t id Hp. destruct Hat' as [[-> _]|[-> _]]; done.
  - intros Hin l' Hl' Hb. cbn in *. destruct (S3 l' Hl' Hb) as [->|?]; [|done].
    destruct Hat' as [[Ha _]|[_ Hne]]; [congruence|done].
  - intros Hne. destruct Hat' as [[-> Hg]|[Ha _]]; [|by destruct (Hne Ha)]. by eexists.
  - unfold accounted in *. cbn [self ws d_at dropped set_self]. rewrite S2. rewrite Hat in P9.
    assert (match l with Handle t => [addr t] | _ => [] end = []) as -> by (destruct l; try done; by destruct (Hnh t)).
    rewrite app_nil_r, P9. by destruct Hat' as [[-> _]|[-> _]].
Qed.

(** [HandleTask]: there is a worker for the task, and its [PostTask] begins. *)
Lemma handle_inv p p' t :
  PInv p -> d_at p = InBody -> ths (self p) !! 0%nat = Some (Run (Handle t)) ->
  disp_step workerNum_ max_ maxMsgSize p = Some p' -> PInv p'.
Proof.
  intros HP Hat Hl H. unfold disp_step in H. rewrite Hat, Hl in H.
  destruct (d_step max_ (self p) 0 Step) as [[c e]|] eqn:E; [|done].
  destruct (disp_body p _ c e HP Hat Hl E) as (S1&S2&_&S4). rewrite (S4 t eq_refl) in H. injection H as <-.
  destruct HP as [P1 P2 P3 P4 P5 P6 P7 P8 P9].
  assert (Hfree : freeWorker_ (members p) <> None) by (by eapply P7).
  destruct (target_some workerNum_ t (members p) Hfree) as [id Hid].
  assert (Hr : Z.of_nat id < workerNum_).
  { unfold target in Hid. revert Hid.
    destruct (Z.ltb_spec (affinity_ t) 0); [|destruct (Z.leb_spec workerNum_ (affinity_ t))]; cbn [orb];
      [by apply P2..|]. intros [= <-]. lia. }
  destruct (lookup_lt_is_Some_2 (ws p) id ltac:(lia)) as [cw Hcw].
  destruct (P5 id cw Hcw) as (T1&T2&T3). rewrite Hat in T3. cbn in T3.
  destruct (bstep_invoke maxMsgSize true true cw 0 (SetThreadId t (Z.of_nat id)) T1 T3) as (cw'&Ew&Hw1&Hw2).
  unfold dispatch_step. cbn [members self ws set_self]. rewrite Hid, clear_bit_spec, Hcw.
  2: lia.
  2: { destruct P2 as [M1 _ _]. pose proof (Z.pow_lt_mono_r 2 workerNum_ 64). lia. }
  unfold w_step. rewrite Ew.
  split; cbn; try done.
  - destruct P2 as [M1 M2 M3]. split; cbn; [apply ldiff_range; [lia|done]|done|]. intros i. case_decide; [done|]. apply M3.
  - by rewrite length_insert.
  - intros i y Hy. apply list_insert_inv in Hy as [[-> ->]|[Hne Hy]].
    + split_and!; [by eapply sound_step|by eapply stoppers_dispatcher|]. unfold posts. rewrite decide_True by done. by left.
    + destruct (P5 i y Hy) as (U1&U2&U3). rewrite Hat in U3. split_and!; [done..|]. unfold posts. by rewrite decide_False.
  - intros t' id' [= <- <-]. rewrite length_insert. by eapply lookup_lt_Some.
  - intros _. exists IncDone. split; [by apply (S4 t)|done].
  - unfold accounted in *. cbn [self ws d_at dropped set_self set_worker set_members].
    rewrite S2, P9, Hat. rewrite (gather_taken _ _ _ cw' [] Hcw) by (unfold taken; by rewrite Hw2, app_nil_r).
    cbn [inflight]. rewrite list_lookup_insert_eq, Hw1 by (by eapply lookup_lt_Some). cbn. solve_Permutation.
Qed.

Lemma PInv_step a p p' : PInv p -> pstep workerNum_ max_ maxMsgSize a p = Some p' -> PInv p'.
Proof.
  intros HP H. unfold pstep in H. rewrite (pi_safe _ HP) in H. destruct a as [b|i| | |i|k a|i k a].
  - injection H as <-. by destruct HP.
  - destruct (ws p !! i) as [c|] eqn:Hc; [|done]. destruct (w_step maxMsgSize c 0 _) as [[c' e]|] eqn:E; [|done].
    injection H as <-. eapply PInv_set_worker; [done|done|exact E|done|].
    eapply stoppers_step; [|exact E|done]. by apply (pi_ws _ HP i).
  - destruct (d_step max_ (self p) 0 _) as [[c' e]|] eqn:E; [|done]. injection H as <-.
    destruct HP as [P1 P2 P3 P4 P5 P6 P7 P8 P9].
    assert (Hr : ths (self p) !! 0%nat = Some Idle /\ ths c' !! 0%nat = Some (Run RunStart) /\ sh c' = sh (self p)).
    { apply cstep_inv in E as [_ [(o&k'&[= <-]&Ht&_&->&_)|[(l1&?&?&?&_)|[(l1&?&?&?&_)|(l1&?&_)]]]]; try done.
      split; [done|]. cbn. by rewrite list_lookup_insert_eq by (by eapply lookup_lt_Some). }
    destruct Hr as (Hi&Hr&Hsh).
    assert (Hat : d_at p = InBody) by (destruct (d_at p); try done; destruct (P8 ltac:(done)) as (l&Hl&_); congruence).
    rewrite Hat in *. split; cbn; try done.
    + by eapply sound_step.
    + intros _ l Hl. cbn in Hl. rewrite Hr in Hl. injection Hl as <-. done.
    + unfold accounted, handled in *. cbn [self ws d_at dropped set_self]. rewrite Hat in P9. by rewrite Hsh.
  - destruct (d_at p) as [| |t id] eqn:Hat.
    + unfold disp_step in H. rewrite Hat in H. by eapply prepare_inv.
    + destruct (ths (self p) !! 0%nat) as [[|l]|] eqn:Hl; [unfold disp_step in H; by rewrite Hat, Hl in H..| |unfold disp_step in H; by rewrite Hat, Hl in H].
      destruct l; first [by eapply handle_inv | by eapply body_inv].
    + by eapply posting_inv.
  - unfold worker_step in H. destruct (ws p !! i) as [c|] eqn:Hc; [|done].
    destruct (w_step maxMsgSize c 0 Step) as [[c' e]|] eqn:E; [|done]. cbn [members set_worker] in H.
    destruct (notify_all_ok i (drop (length (effects_ (sh c))) (effects_ (sh c'))) (members p)) as (d&Ed&Hd&Hf);
      [pose proof (lookup_lt_Some _ _ _ Hc); pose proof (pi_len _ HP); lia|apply HP|].
    rewrite Ed in H. injection H as <-. eapply PInv_worker; [done|done|exact E|done| |done|done].
    eapply stoppers_step; [|exact E|done]. by apply (pi_ws _ HP i).
  - destruct (d_step max_ (self p) (S k) a) as [[c' e]|] eqn:E; [|done]. injection H as <-.
    by eapply PInv_self.
  - destruct (ws p !! i) as [c|] eqn:Hc; [|done]. assert (Ha : forall t, a <> Invoke (OPostTask t)) by (intros t ->; done).
    assert (exists c' e, w_step maxMsgSize c (S (S k)) a = Some (c', e) /\ Some (set_worker i c' p) = Some p') as (c'&e&E&H').
    { destruct a as [[]|]; try done; destruct (w_step maxMsgSize c (S (S k)) _) as [[c' e]|]; try done; eauto. }
    injection H' as <-. eapply PInv_set_worker; [done|done|exact E|done|].
    eapply stoppers_step; [|exact E|done]. by apply (pi_ws _ HP i).
Qed.

(** ** Every task exactly once *)

(** The tasks at a worker: run, in hand, in the mailbox. *)
Definition worker_tasks (c : wcfg) : list nat :=
  map addr (runs (effects_ (sh c)) ++ in_hand (worker_of (ths c)) ++ elemsW (tasks_ (sh c))).

(** Where the tasks of the pool are. *)
Definition whereabouts (p : pool) : list nat :=
  map addr (elemsD (tasks_ (sh (self p)))) ++ map addr (in_hand (worker_of (ths (self p)))) ++
  inflight (d_at p) (ws p) ++ gather worker_tasks (ws p) ++ map addr (dropped p).

Lemma sound_conserved {Q} {CQ : Container ITask Q} {elems : Q -> list ITask} hr (c : cfg (G:=body (Q:=Q)) (L:=loc) (C:=unit)) :
  sound (elems:=elems) hr c ->
  taken c ≡ₚ map addr (runs (effects_ (sh c)) ++ in_hand (worker_of (ths c)) ++ elems (tasks_ (sh c))).
Proof. intros [_ [m HI]]. unfold taken. by rewrite (proj1 (wd_tasks _ _ _ (wi_data _ _ _ _ _ HI))). Qed.

Lemma gather_perm {X A} (f g : X -> list A) l :
  (forall i x, l !! i = Some x -> f x ≡ₚ g x) -> gather f l ≡ₚ gather g l.
Proof.
  unfold gather. induction l as [|x l IH]; intros H; cbn; [done|].
  rewrite (H 0%nat x eq_refl). apply Permutation_app_head, IH. intros i y Hy. by apply (H (S i)).
Qed.

Lemma Pool_init_inv qd qw tm clients :
  elemsD qd = [] -> elemsW qw = [] ->
  exists p, Pool_init workerNum_ qd qw tm clients = Some p /\ PInv p.
Proof.
  intros Hqd Hqw. unfold Pool_init, Dispatcher_init. rewrite free_mask_spec by lia. eexists. split; [reflexivity|].
  assert (Hr : forall k m x, replicate (A:=tstate loc) m Idle !! k = Some x -> x = Idle)
    by (intros k m x Hx; by apply lookup_replicate in Hx as [-> _]).
  split; cbn [crashed members ws self d_at]; try done.
  - split; cbn; [pose proof (Z.pow_pos_nonneg 2 workerNum_); lia|lia|done].
  - rewrite length_replicate. lia.
  - split; [done|]. exists 0%nat. by apply WInv_init.
  - intros i c Hc. apply lookup_replicate in Hc as [-> _]. split_and!; [|by intros k t Hk; apply Hr in Hk|done].
    split; [done|]. exists 0%nat. by apply WInv_init.
  - unfold accounted. cbn [self ws d_at dropped inflight].
    assert (forall m (c : wcfg), taken c = [] -> gather taken (replicate m c) = []) as ->; [|done..].
    intros m c E. unfold gather. induction m; cbn; [done|]. by rewrite E.
Qed.

Lemma psteps_inv l p p' : PInv p -> psteps workerNum_ max_ maxMsgSize l p = Some p' -> PInv p'.
Proof.
  revert p. induction l as [|a l IH]; intros p HP H; cbn in H; [by injection H as <-|].
  destruct (pstep workerNum_ max_ maxMsgSize a p) as [p1|] eqn:E; [|done].
  eapply IH; [|exact H]. by eapply PInv_step.
Qed.

Lemma PInv_whereabouts p : PInv p -> taken (self p) ≡ₚ whereabouts p.
Proof.
  intros [P1 P2 P3 P4 P5 P6 P7 P8 P9].
  rewrite (sound_conserved _ _ P4), !map_app. change (map addr (runs (effects_ (sh (self p))))) with (handled (self p)).
  unfold accounted in P9. rewrite P9. assert (Hg : gather taken (ws p) ≡ₚ gather worker_tasks (ws p)).
  { apply gather_perm. intros i c Hc. by apply (sound_conserved true), (P5 i c Hc). }
  rewrite Hg. unfold whereabouts. solve_Permutation.
Qed.

(** C8. The pool as a whole, for 1 to 31 workers and any interleaving of its dispatcher, its
    workers and its clients, from the constructor on: no [assert] fails, no undefined shift
    or [NULL] worker or task is used, and the tasks that the pool has accepted are exactly
    those in the dispatcher's queue, in its hand, on their way to a mailbox, in the mailbox
    or hand of one worker, run by one worker (once), or dropped at a full mailbox. *)
Theorem pool_exactly_once (qd : QD) (qw : QW) (tm : list bool) (clients : nat) (acts : list pact) :
  elemsD qd = [] -> elemsW qw = [] ->
  exists p0, Pool_init workerNum_ qd qw tm clients = Some p0 /\
    forall p, psteps workerNum_ max_ maxMsgSize acts p0 = Some p ->
      crashed p = false /\ faulted (self p) = false /\ Forall (fun c => faulted c = false) (ws p) /\
      taken (self p) ≡ₚ whereabouts p.
Proof.
  intros Hqd Hqw. destruct (Pool_init_inv qd qw tm clients Hqd Hqw) as (p0&E&HP0).
  exists p0. split; [done|]. intros p H. pose proof (psteps_inv _ _ _ HP0 H) as HP.
  split; [apply HP|]. split; [apply (pi_self _ HP)|]. split; [|by apply PInv_whereabouts].
  apply Forall_lookup. intros i c Hc. by destruct (pi_ws _ HP i c Hc) as [[Hf _] _].
Qed.
End Safety.

(** ** A pool that does not stop *)

Section Stuck.
Context {QD QW : Type} {CD : Container ITask QD} {CW : Container ITask QW}.
Variables (workerNum_ max_ maxMsgSize : Z).

(** The dispatcher waits in [PrepareWorker], no token is left and every worker has ended. *)
Record stuck (p : Pool QD QW) : Prop := {
  st_prep : d_at p = Prep;
  st_free : freeWorker_ (members p) = None;
  st_tokens : workerNotify_ (members p) <= 0;
  st_workers : forall i c, ws p !! i = Some c -> ended c = true;
  st_thread : ended (self p) = false
}.

Lemma ended_other {Q} {CQ : Container ITask Q} M nt hr (c c' : cfg (G:=body (Q:=Q)) (L:=loc) (C:=unit)) k a e :
  cstep start (code M nt hr) worker_inv any_ret c (S k) a = Some (c', e) -> ended c' = ended c.
Proof. intros H. unfold ended. by erewrite bstep_other. Qed.

(** Nothing but the start of a worker wakes it up. *)
Lemma stuck_step a p p' :
  stuck p -> (forall i, a <> AStartWorker i) -> pstep workerNum_ max_ maxMsgSize a p = Some p' -> stuck p'.
Proof.
  intros [H1 H2 H3 H4 H5] Ha H. unfold pstep in H. destruct (crashed p); [done|].
  destruct a as [b|i| | |i|k a|i k a].
  - by injection H as <-.
  - by destruct (Ha i).
  - destruct (d_step max_ (self p) 0 _) as [[c e]|] eqn:E; [|done]. apply cstep_inv in E as [_ E].
    unfold ended in H5. destruct E as [(o&k'&_&Ht&_)|[(l&?&?&?&_)|[(l&?&?&?&_)|(l&?&_)]]]; try done.
    by rewrite Ht in H5.
  - unfold disp_step, prepare_step in H. rewrite H1, H2 in H. by rewrite (proj2 (Z.leb_le _ _)) in H.
  - unfold worker_step in H. destruct (ws p !! i) as [c|] eqn:Hc; [|done]. specialize (H4 i c Hc).
    unfold ended in H4. unfold w_step, cstep in H. destruct (faulted c); [done|].
    by destruct (ths c !! 0%nat) as [[|]|].
  - destruct (d_step max_ (self p) (S k) a) as [[c e]|] eqn:E; [|done]. injection H as <-.
    split; cbn; try done. by rewrite (ended_other _ _ _ _ _ _ _ _ E).
  - destruct (ws p !! i) as [c|] eqn:Hc; [|done].
    assert (exists c' e, w_step maxMsgSize c (S (S k)) a = Some (c', e) /\ Some (set_worker i c' p) = Some p') as (c'&e&E&H').
    { destruct a as [[]|]; try done; destruct (w_step maxMsgSize c (S (S k)) _) as [[c' e]|]; try done; eauto. }
    injection H' as <-. split; cbn; try done. intros j y Hy. apply list_insert_inv in Hy as [[-> ->]|[_ Hy]]; [|by eapply H4].
    rewrite (ended_other _ _ _ _ _ _ _ _ E). by eapply H4.
Qed.

Lemma stuck_forever l p p' :
  stuck p -> (forall i, AStartWorker i ∉ l) -> psteps workerNum_ max_ maxMsgSize l p = Some p' -> ended (self p') = false.
Proof.
  revert p. induction l as [|a l IH]; intros p Hp Hl H; cbn in H; [injection H as <-; apply Hp|].
  destruct (pstep workerNum_ max_ maxMsgSize a p) as [p1|] eqn:E; [|done].
  apply (IH p1); [|intros i Hi; apply (Hl i); by right|done].
  eapply stuck_step; [done| |exact E]. intros i ->. apply (Hl i). by left.
Qed.
End Stuck.

(** The queue of the dispatcher presents a task of highest priority. *)
Fixpoint best (l : list ITask) : nat :=
  match l with
  | [] => 0%nat
  | x :: l' =>
      match l' !! best l' with
      | Some y => if prio_num (priority_ y) <? prio_num (priority_ x) then S (best l') else 0%nat
      | None => 0%nat
      end
  end.

#[export] Instance best_in : TopIn best.
Proof.
  intros l. induction l as [|x l IH]; intros Hl; [by destruct Hl|]. cbn.
  destruct (l !! best l) as [y|] eqn:E; [|lia]. apply lookup_lt_Some in E. case_match; lia.
Qed.

Abbreviation prio_queue := (PriorityQueue ITask).
#[local] Instance prio_container : Container ITask prio_queue := PriorityQueue_container best.
#[local] Instance prio_spec : ContainerSpec ITask prio_queue (prio_order best) := PriorityQueue_spec best.

(** A pool of [n] workers with one client. *)
Abbreviation demo_pool n := (Pool_init (QD:=prio_queue) n (Prio []) (Deque (V:=ITask) []) [] 1).
Abbreviation demo_steps n := (psteps (CD:=prio_container) (QW:=mailbox) n 1024 1024).

Definition post (t : ITask) : list pact := [AClient 0 (Invoke (OPostTask t)); AClient 0 Step; AClient 0 Step].

(** Two tasks of different priority for two workers. *)
Definition two_posts : list pact :=
  StartPooling 2 ++ post (new_ITask 1 true TP_LOW) ++ post (new_ITask 2 true TP_HIGH) ++
  replicate 26 ADispatcher ++ replicate 12 (AWorker 0) ++ replicate 8 (AWorker 1).

Lemma pool_exactly_once_witness :
  exists p0, demo_pool 2 = Some p0 /\
    forall p, demo_steps 2 two_posts p0 = Some p ->
      crashed p = false /\ faulted (self p) = false /\ Forall (fun c => faulted c = false) (ws p) /\
      taken (self p) ≡ₚ whereabouts (elemsD:=prio_order best) (elemsW:=queue_) p.
Proof.
  apply (pool_exactly_once (elemsD:=prio_order best) (elemsW:=queue_) 2 1024 1024 ltac:(lia)); reflexivity.
Defined.

(** The task of higher priority was dispatched first; both have been run. *)
Example two_posts_run :
  match demo_pool 2 with
  | Some p0 =>
      match demo_steps 2 two_posts p0 with
      | Some p => map handled (ws p) = [[2%nat]; [1%nat]] /\ whereabouts (elemsD:=prio_order best) (elemsW:=queue_) p = [2%nat; 1%nat]
      | None => False
      end
  | None => False
  end.
Proof. by vm_compute. Qed.

(** A pool of one worker: the worker runs a task, the dispatcher is back in [PrepareWorker];
    [StopPooling] is called, the worker ends its task and then itself. *)
Definition hanging_stop : list pact :=
  StartPooling 1 ++ post (task 7) ++ replicate 14 ADispatcher ++ replicate 7 (AWorker 0) ++
  StopPooling 1 0 ++ replicate 11 (AWorker 0).

(** C39. [StopPooling] can wait forever: from the constructor on there is a run of
    [StartPooling], one task and [StopPooling] after which the only worker has ended, while
    the dispatcher waits in [PrepareWorker] for a notification that no step of any thread
    sends, short of starting the worker again; its [Join] never returns. *)
Theorem StopPooling_hangs :
  exists p0 p, demo_pool 1 = Some p0 /\ demo_steps 1 hanging_stop p0 = Some p /\
    Forall (fun c => ended c = true) (ws p) /\
    forall l p', (forall i, AStartWorker i ∉ l) -> demo_steps 1 l p = Some p' -> ended (self p') = false.
Proof.
  eexists _, _. split; [vm_compute; reflexivity|]. split; [vm_compute; reflexivity|].
  split; [by repeat constructor|]. intros l p' Hl H. eapply stuck_forever; [|exact Hl|exact H].
  split; [done|done|done| |done]. intros i c Hc. destruct i as [|i]; [by injection Hc as <-|]. by destruct i.
Qed.
