(* ===== verification/PoolProgress.v ===== *)
(** * PoolProgress.v: the thread pool does not fall asleep on its work

[Dispatcher::PrepareWorker] waits for a token that some worker must post, a worker waits for
a task that only the dispatcher hands out ([thread/src/ThreadPool.cc],
[thread/src/WorkerBodyBase.cc]).  Over the interleavings of Pool.v in which no worker is told
to exit: a worker whose bit is clear has a task before it, and when the dispatcher waits
without a token some worker is still going to ask.  So the pool cannot come to rest with a
task that is not done.

A worker asks at most four times in a row, and the dispatcher can spend all its tokens on
another worker: the last section runs a pool into a state in which one worker sleeps and the
dispatcher, with a task, waits for the other. *)

From S2P Require Import Prelude Machine Conc SpinlockQueue Worker ThreadPool Pool.

(** A worker that has asked for the last time: nothing but a task wakes it up. *)
Definition dozing (l : loc) : bool :=
  match l with
  | Consume => true
  | GetRunTask r | Try r | Ask r | ConsumeTimeout r | TimedWait r => reqThreshold_ <? r
  | _ => false
  end.

(** Between the task and the notification that it is done. *)
Definition at_work (l : loc) : bool :=
  match l with
  | SetBusy _ | Handle _ | CleanRunTask _ | IncDone | ClearBusy | StopTest | NotifyDone => true
  | _ => false
  end.

Section Progress.
Context {QD QW : Type} {CD : Container ITask QD} {CW : Container ITask QW}.
Context {elemsD : QD -> list ITask} {SD : ContainerSpec ITask QD elemsD}.
Context {elemsW : QW -> list ITask} {SW : ContainerSpec ITask QW elemsW}.
Variables (workerNum_ max_ maxMsgSize : Z).

Abbreviation dcfg := (cfg (G:=body (Q:=QD)) (L:=loc) (C:=unit)).
Abbreviation wcfg := (cfg (G:=body (Q:=QW)) (L:=loc) (C:=unit)).
Abbreviation pool := (Pool QD QW).
Abbreviation wsound := (sound (elems:=elemsW) true).

(** ** The notifications of a worker *)

(** The locations of [Run] that a worker without exit commands can be at. *)
Definition in_round (l : loc) : bool :=
  match l with
  | PostTaskPush _ | PostTaskSignal | PostExitPush | PostExitSignal | TryGetConsume | TryGetTake
  | ClearHasTask | ClearConsume | ClearTake | ClearDelete _ | CmdPop | ProcessInternalCmd => false
  | _ => true
  end.

(** No exit command has been or is being given to the worker. *)
Record quiet (c : wcfg) : Prop := {
  qu_cmd : cmd_ (sh c) = 0%nat;
  qu_stop : ShouldStop_ (sh c) = false;
  qu_notify : notify_ (sh c) = true;
  qu_run : forall l, ths c !! 0%nat = Some (Run l) -> in_round l = true;
  qu_poster : ths c !! 1%nat <> Some (Run PostExitPush) /\ ths c !! 1%nat <> Some (Run PostExitSignal);
  qu_idle : forall k x, ths c !! S (S k) = Some x -> x = Idle
}.

(** What the call-backs of one step do to the dispatcher's members. *)
Record notified (i : nat) (l : loc) (d d' : Dispatcher QW) : Prop := {
  no_free : freeWorker_ d' = freeWorker_ d;
  no_tokens : workerNotify_ d' = workerNotify_ d + match l with Ask _ => 1 | _ => 0 end;
  no_bits : forall j, 0 <= j -> Z.testbit (freeWorkerBit_ d) j = true -> Z.testbit (freeWorkerBit_ d') j = true;
  no_done : l = NotifyDone -> Z.testbit (freeWorkerBit_ d') (Z.of_nat i) = true
}.

(** The call-backs of a step. *)
Definition calls (l : loc) : list effect :=
  match l with
  | Ask _ => [ENotify 0]
  | NotifyDone => [ENotify (-1)]
  | Handle t => [ERun t]
  | CleanRunTask t => if deleteAfterRun_ t then [EDelete t] else []
  | _ => []
  end.

Lemma code_moves (g : body (Q:=QW)) l :
  cmd_ g = 0%nat -> ShouldStop_ g = false -> notify_ g = true -> in_round l = true ->
  match code maxMsgSize true true g l with
  | Next g' l' =>
      cmd_ g' = 0%nat /\ ShouldStop_ g' = false /\ notify_ g' = true /\ in_round l' = true /\
      effects_ g' = effects_ g ++ calls l /\ (tasks_ g' = tasks_ g \/ at_work l' = true) /\
      (at_work l = true -> at_work l' = true \/ l = NotifyDone) /\
      (dozing l = false -> dozing l' = false \/ exists r, l = Ask r)
  | Ret _ _ => False
  | Fault => True
  end.
Proof.
  intros H1 H2 H3 H4. destruct l; try done; cbn; unfold TryConsume, tick, GetTaskFromContainer;
    rewrite ?H1, ?H2, ?H3; cbn; repeat (case_match; cbn in *; simplify_eq/=);
    rewrite ?app_nil_r; split_and?; try done; eauto; try congruence.
Qed.

Lemma notify_calls i l (d d' : Dispatcher QW) :
  (i < 31)%nat -> notify_all i (calls l) d = Some d' -> notified i l d d'.
Proof.
  intros Hi H. destruct l; cbn in H;
    try (injection H as <-; split; [done|cbn; lia|done|done]).
  - case_match; injection H as <-; split; done || (cbn; lia).
  - pose proof (set_bit_spec i (freeWorkerBit_ d) Hi) as Hb.
    destruct (shl_int (Z.of_nat i)) as [y|]; [|done]. injection H as <-. unfold atomic_fetch_and_or in Hb.
    cbn [snd] in Hb. rewrite Hb. split; cbn [freeWorker_ workerNotify_ freeWorkerBit_]; [done|lia|..].
    + intros j Hj Hd. by rewrite Z.lor_spec, Hd.
    + intros _. rewrite Z.lor_spec, Z.pow2_bits_true by lia. apply orb_true_r.
Qed.

(** A step of the worker's thread: the location changes, the mailbox only by taking a task. *)
Lemma worker_moves i (c c' : wcfg) e d d' :
  (i < 31)%nat -> wsound c -> quiet c -> w_step maxMsgSize c 0 Step = Some (c', e) ->
  notify_all i (drop (length (effects_ (sh c))) (effects_ (sh c'))) d = Some d' ->
  exists l l', ths c !! 0%nat = Some (Run l) /\ ths c' !! 0%nat = Some (Run l') /\ quiet c' /\
    (tasks_ (sh c') = tasks_ (sh c) \/ at_work l' = true) /\
    (at_work l = true -> at_work l' = true \/ l = NotifyDone) /\
    (dozing l = false -> dozing l' = false \/ exists r, l = Ask r) /\
    notified i l d d'.
Proof.
  intros Hi Hs [Q1 Q2 Q3 Q4 Q5 Q6] H Hn. pose proof (sound_step _ _ _ _ _ _ _ _ Hs H) as [Hf' _].
  apply cstep_inv in H as [_ [(o&k&[=]&_)|[(l&g&l'&_&Ht&Hc&->&_)|[(l&g&r&_&Ht&Hc&->&_)|(l&_&Ht&Hc&->&_)]]]];
    [..|discriminate Hf'];
    pose proof (code_moves (sh c) l Q1 Q2 Q3 (Q4 l Ht)) as Hm; rewrite Hc in Hm; [|done].
  destruct Hm as (M1&M2&M3&M4&M5&M6&M7&M8). cbn [sh] in Hn. rewrite M5, drop_app_length in Hn.
  exists l, l'. cbn [sh ths]. rewrite list_lookup_insert_eq by (by eapply lookup_lt_Some).
  split_and!; try done; [|by apply notify_calls].
  split; cbn [sh ths]; try done.
  - intros x Hx. rewrite list_lookup_insert_eq in Hx by (by eapply lookup_lt_Some). by injection Hx as <-.
  - by rewrite list_lookup_insert_ne.
  - intros k x Hx. rewrite list_lookup_insert_ne in Hx by done. by eapply Q6.
Qed.

(** ** Work and wake-ups *)

(** A task is at the worker, or its thread has not notified the end of one. *)
Definition loaded (c : wcfg) : Prop :=
  elemsW (tasks_ (sh c)) <> [] \/ exists l, ths c !! 0%nat = Some (Run l) /\ at_work l = true.

(** The dispatcher is handing a task to worker [i]. *)
Definition handing (at' : dphase) (i : nat) : Prop := exists t, at' = Posting t i.

(** The worker is still going to notify the dispatcher. *)
Definition awake (c : wcfg) : Prop :=
  elemsW (tasks_ (sh c)) <> [] \/ ths c !! 0%nat = Some Idle \/
  exists l, ths c !! 0%nat = Some (Run l) /\ dozing l = false.

Lemma loaded_awake c : loaded c -> awake c.
Proof. intros [H|(l&Hl&Hw)]; [by left|]. right. right. exists l. split; [done|]. by destruct l. Qed.

(** A clear bit is a task; a dispatcher without a free worker and without a token can count
    on a worker. *)
Record progress (p : pool) : Prop := {
  pr_quiet : forall i c, ws p !! i = Some c -> quiet c;
  pr_bits : forall i c, ws p !! i = Some c ->
    Z.testbit (freeWorkerBit_ (members p)) (Z.of_nat i) = true \/ handing (d_at p) i \/ loaded c;
  pr_wake : freeWorker_ (members p) <> None \/ 0 < workerNotify_ (members p) \/
    exists i c, ws p !! i = Some c /\ (handing (d_at p) i \/ awake c)
}.

Context (Hn : 1 <= workerNum_ <= 31) (Hm : 0 < maxMsgSize < 2 ^ 31).
Abbreviation pinv := (PInv (elemsD:=elemsD) (elemsW:=elemsW) workerNum_).

(** The dispatcher's thread at a worker moves from [l0] to [x]; it does not command. *)
Lemma quiet_poster (c : wcfg) (g : body) x :
  quiet c -> cmd_ g = 0%nat -> ShouldStop_ g = false -> notify_ g = true ->
  x <> Run PostExitPush -> x <> Run PostExitSignal -> quiet (Cfg g (<[1%nat := x]> (ths c)) tt false).
Proof.
  intros [Q1 Q2 Q3 Q4 Q5 Q6] H1 H2 H3 Hx Hy. split; cbn [sh ths]; try done.
  - intros l Hl. rewrite list_lookup_insert_ne in Hl by done. by apply Q4.
  - split; intros Hl; apply list_lookup_insert_Some in Hl as [(_&->&_)|[Hne _]]; done.
  - intros k y Hy'. rewrite list_lookup_insert_ne in Hy' by done. by eapply Q6.
Qed.

(** When the dispatcher hands over a task, the mailbox is not empty afterwards. *)
Lemma handed_over t i (c c' : wcfg) e :
  wsound c -> quiet c -> posts (Posting t i) i c -> w_step maxMsgSize c 1 Step = Some (c', e) ->
  elemsW (tasks_ (sh c')) <> [] /\ quiet c'.
Proof.
  intros [Hf [m HI]] HQ Hp H. cbn in Hp. rewrite decide_True in Hp by done.
  assert (Hsig : ths c !! 1%nat = Some (Run PostTaskSignal) -> elemsW (tasks_ (sh c)) <> []).
  { intros Hs Hnil. destruct HI as [I1 I2 _ _]. unfold items in I2. rewrite Hnil, (qu_cmd _ HQ) in I2.
    pose proof (sum_with_lookup_le owed (ths c) 1 _ ltac:(by intros [|[]]) Hs). cbn in *. lia. }
  unfold w_step, cstep in H. rewrite Hf in H. destruct (cl c). pose proof HQ as [Q1 Q2 Q3 _ _ _].
  destruct Hp as [Hp|Hp]; rewrite Hp in H; cbn in H.
  - unfold PushTaskToContainer in H. cbn in H. unfold maxSz_ in H. rewrite u64_id in H by lia.
    destruct (Z.geb_spec (size (tasks_ (sh c))) maxMsgSize) as [Hs|Hs]; cbn in H; injection H as <- <-; cbn [sh].
    + rewrite size_spec in Hs. split; [|by apply quiet_poster]. destruct (sh c); cbn in *.
      destruct (elemsW _); [cbn in Hs; lia|done].
    + split; [|by apply quiet_poster]. cbn. intros Hnil. pose proof (push_spec t (tasks_ (sh c))) as Hp'.
      rewrite Hnil in Hp'. by apply Permutation_nil_cons in Hp'.
  - injection H as <- <-. split; [|by apply quiet_poster]. cbn [sh SignalPost set_sem tasks_]. by apply Hsig.
Qed.

(** ** One step of the pool *)

Lemma at_work_not_dozing l : at_work l = true -> dozing l = false.
Proof. by destruct l. Qed.

Lemma progress_worker i p p' : pinv p -> progress p -> worker_step maxMsgSize i p = Some p' -> progress p'.
Proof.
  intros HP [G1 G2 G3] H. unfold worker_step in H. destruct (ws p !! i) as [c|] eqn:Hc; [|done].
  destruct (w_step maxMsgSize c 0 Step) as [[c' e]|] eqn:E; [|done]. cbn [members set_worker] in H.
  pose proof (lookup_lt_Some _ _ _ Hc) as Hlt. pose proof (pi_len _ _ HP) as Hlen.
  destruct (pi_ws _ _ HP i c Hc) as (Hs&_&_).
  destruct (notify_all_ok workerNum_ Hn i (drop (length (effects_ (sh c))) (effects_ (sh c'))) (members p))
    as (d&Ed&_); [lia|apply HP|]. rewrite Ed in H. injection H as <-.
  destruct (worker_moves i c c' e (members p) d ltac:(lia) Hs (G1 i c Hc) E Ed)
    as (l&l'&Hl&Hl'&HQ&Ht&Hw&Hd&[N1 N2 N3 N4]).
  split; cbn [ws members d_at set_members set_worker].
  - intros j y Hy. apply list_insert_inv in Hy as [[-> ->]|[_ Hy]]; [done|by eapply G1].
  - intros j y Hy. apply list_insert_inv in Hy as [[-> ->]|[Hne Hy]].
    + destruct (G2 i c Hc) as [Hb|[Hh|[He|(x&Hx&Hxw)]]]; [left; apply N3; [lia|done]|by right; left|..].
      * right. right. destruct Ht as [Ht|Ht]; [left; by rewrite Ht|right; by exists l'].
      * rewrite Hl in Hx. injection Hx as <-. destruct (Hw Hxw) as [Hw'| ->]; [|left; by apply N4].
        right. right. right. by exists l'.
    + destruct (G2 j y Hy) as [Hb|Hb]; [left; apply N3; [lia|done]|by right].
  - rewrite N1, N2. destruct G3 as [Hf|[Hk|(j&y&Hy&Hay)]]; [by left|right; left; destruct l; lia|].
    destruct (decide (i = j)) as [<-|Hne].
    2: { right. right. exists j, y. by rewrite list_lookup_insert_ne. }
    rewrite Hc in Hy. injection Hy as <-.
    assert (Haw : (handing (d_at p) i \/ awake c') \/ exists r, l = Ask r).
    { destruct Hay as [Hh|[He|[Hi|(x&Hx&Hxd)]]]; [by left; left|..].
      - left. right. destruct Ht as [Ht|Ht]; [left; by rewrite Ht|]. right. right. exists l'.
        split; [done|by apply at_work_not_dozing].
      - congruence.
      - rewrite Hl in Hx. injection Hx as <-. destruct (Hd Hxd) as [Hd'|Hr]; [|by right]. left. right. right. right. by exists l'. }
    destruct Haw as [Haw|[r ->]].
    + right. right. exists i, c'. by rewrite list_lookup_insert_eq.
    + right. left. pose proof (mo_tokens _ _ (pi_members _ _ HP)). lia.
Qed.

(** [PrepareWorker]. *)
Lemma progress_prepare p p' : pinv p -> progress p -> d_at p = Prep -> prepare_step workerNum_ p = Some p' -> progress p'.
Proof.
  intros HP [G1 G2 G3] Hat H. unfold prepare_step in H. rewrite Hat in *.
  assert (Hh : forall i, ~ handing Prep i) by by intros i [t Ht].
  assert (Hbits : forall i c, ws p !! i = Some c ->
    Z.testbit (freeWorkerBit_ (members p)) (Z.of_nat i) = true \/ loaded c).
  { intros i c Hc. destruct (G2 i c Hc) as [?|[Hx|?]]; [by left|by destruct (Hh i)|by right]. }
  destruct (freeWorker_ (members p)) as [w|] eqn:Ef.
  - injection H as <-. split; cbn; [done|..]; [|left; by rewrite Ef].
    intros i c Hc. destruct (Hbits i c Hc); auto.
  - destruct (Z.leb_spec (workerNotify_ (members p)) 0); [done|].
    pose proof (pi_members _ _ HP) as [M1 M2 M3].
    match type of H with context [SelectFreeWorker _ ?x] => set (d := x) in H end.
    destruct (select_cases workerNum_ d) as [[Hz E]|(c&Hc&_&E)]; [lia|done|..]; rewrite E in H; injection H as <-;
      split; cbn; rewrite ?Hat; try done.
    + right. right. pose proof (pi_len _ _ HP) as Hlen. destruct (lookup_lt_is_Some_2 (ws p) 0 ltac:(lia)) as [c Hc].
      exists 0%nat, c. split; [done|]. right. apply loaded_awake. destruct (Hbits 0%nat c Hc) as [Hb|]; [|done].
      cbn in Hz. rewrite Hz in Hb. by rewrite Z.bits_0 in Hb.
    + intros i y Hy. destruct (Hbits i y Hy); auto.
    + by left.
Qed.

(** The next step of [PostTask]. *)
Lemma progress_posting p p' t id :
  pinv p -> progress p -> d_at p = Posting t id -> disp_step workerNum_ max_ maxMsgSize p = Some p' -> progress p'.
Proof.
  intros HP [G1 G2 G3] Hat H. unfold disp_step in H. rewrite Hat in *.
  destruct (ws p !! id) as [c|] eqn:Hc; [|done].
  destruct (w_step maxMsgSize c 1 Step) as [[c' e]|] eqn:E; [|done].
  destruct (pi_ws _ _ HP id c Hc) as (S1&S2&S3). rewrite Hat in S3.
  destruct (handed_over t id c c' e S1 (G1 id c Hc) S3 E) as [Hne HQ].
  pose proof (lookup_lt_Some _ _ _ Hc) as Hlt.
  assert (Hh : forall i, handing (Posting t id) i -> i = id) by by intros i [x [= _ ->]].
  assert (Hnext : forall at' p1, members p1 = members p -> ws p1 = <[id:=c']> (ws p) -> d_at p1 = at' -> progress p1).
  { intros at' p1 E1 E2 E3. split; rewrite ?E1, ?E2, ?E3.
    - intros j y Hy. apply list_insert_inv in Hy as [[-> ->]|[_ Hy]]; [done|by eapply G1].
    - intros j y Hy. apply list_insert_inv in Hy as [[-> ->]|[Hji Hy]]; [by right; right; left|].
      destruct (G2 j y Hy) as [?|[Hx|?]]; [by left|by apply Hh in Hx|by right; right].
    - destruct G3 as [?|[?|_]]; [by left|by right; left|]. right. right. exists id, c'.
      rewrite list_lookup_insert_eq by done. split; [done|]. right. by left. }
  cbn in H. repeat case_match; injection H as <-; by eapply Hnext.
Qed.

(** The dispatcher's own body, but for [HandleTask]. *)
Lemma progress_phase p at' c :
  progress p -> (forall i, ~ handing (d_at p) i) -> progress (set_self at' c p).
Proof.
  intros [G1 G2 G3] Hh. split; cbn; [done|..].
  - intros i y Hy. destruct (G2 i y Hy) as [?|[Hx|?]]; [by left|by destruct (Hh i)|by right; right].
  - destruct G3 as [?|[?|(i&y&Hy&[Hx|Ha])]]; [by left|by right; left|by destruct (Hh i)|].
    right. right. exists i, y. auto.
Qed.

(** [DispatchTask]: the chosen worker has its bit cleared and a task on its way. *)
Lemma progress_dispatch p p' s t :
  pinv p -> progress p -> d_at p = InBody -> dispatch_step workerNum_ maxMsgSize t (set_self InBody s p) = p' ->
  crashed p' = false -> progress p'.
Proof.
  intros HP [G1 G2 G3] Hat H Hcr. unfold dispatch_step in H. rewrite Hat in *. cbn [members ws set_self] in H.
  destruct (target workerNum_ t (members p)) as [id|]; [|by subst].
  destruct (clear_bit id (freeWorkerBit_ (members p))) as [bits|] eqn:Eb; [|by subst].
  destruct (ws p !! id) as [c|] eqn:Hc; [|by subst].
  pose proof (lookup_lt_Some _ _ _ Hc) as Hlt. pose proof (pi_len _ _ HP) as Hlen.
  destruct (pi_ws _ _ HP id c Hc) as (S1&S2&S3). rewrite Hat in S3. cbn in S3.
  destruct (bstep_invoke maxMsgSize true true c 0 (SetThreadId t (Z.of_nat id)) S1 S3) as (c'&Ew&Hw1&Hw2).
  unfold w_step in H. rewrite Ew in H. subst p'. rewrite clear_bit_spec in Eb.
  2: lia.
  2: { pose proof (mo_bits _ _ (pi_members _ _ HP)). pose proof (Z.pow_lt_mono_r 2 workerNum_ 64). lia. }
  injection Eb as <-. assert (HQ : quiet c').
  { destruct (G1 id c Hc) as [Q1 Q2 Q3 Q4 Q5 Q6].
    assert (Ho : forall k, k <> 1%nat -> ths c' !! k = ths c !! k) by (intros k Hk; by eapply bstep_other).
    split; rewrite ?Hw2, ?Hw1, ?Ho by done; try done. intros k x. rewrite Ho by done. apply Q6. }
  split; cbn.
  - intros j y Hy. apply list_insert_inv in Hy as [[-> ->]|[_ Hy]]; [done|by eapply G1].
  - intros j y Hy. apply list_insert_inv in Hy as [[-> ->]|[Hji Hy]]; [by right; left; eexists|].
    destruct (G2 j y Hy) as [Hb|[[x Hx]|?]]; [|done|by right; right]. left.
    rewrite Z.ldiff_spec, Hb, Z.pow2_bits_false by lia. done.
  - right. right. exists id, c'. rewrite list_lookup_insert_eq by done. split; [done|]. left. by eexists.
Qed.

Lemma progress_disp p p' :
  pinv p -> progress p -> disp_step workerNum_ max_ maxMsgSize p = Some p' -> crashed p' = false -> progress p'.
Proof.
  intros HP HG H Hcr. destruct (d_at p) as [| |t id] eqn:Hat.
  - unfold disp_step in H. rewrite Hat in H. by eapply progress_prepare.
  - assert (Hh : forall i, ~ handing (d_at p) i) by (intros i [t Ht]; congruence).
    unfold disp_step in H. rewrite Hat in H. destruct (ths (self p) !! 0%nat) as [[|l]|] eqn:Hl; [done| |done].
    destruct (d_step max_ (self p) 0 Step) as [[c e]|] eqn:E; [|done].
    destruct l; try (injection H as <-; by apply progress_phase).
    injection H as <-. destruct (disp_body (elemsD:=elemsD) (elemsW:=elemsW) workerNum_ max_ p _ c e HP Hat Hl E) as (S1&S2&_&S4).
    rewrite (S4 t eq_refl) in *. by eapply progress_dispatch.
  - by eapply progress_posting.
Qed.

Definition spares_workers (a : pact) : Prop := forall i k, a <> AStop i k (Invoke OPostExit).

Lemma progress_start i p p' :
  pinv p -> progress p -> pstep workerNum_ max_ maxMsgSize (AStartWorker i) p = Some p' -> progress p'.
Proof.
  intros HP [G1 G2 G3] H. unfold pstep in H. rewrite (pi_safe _ _ HP) in H.
  destruct (ws p !! i) as [c|] eqn:Hc; [|done]. destruct (w_step maxMsgSize c 0 _) as [[c' e]|] eqn:E; [|done].
  injection H as <-. pose proof (lookup_lt_Some _ _ _ Hc) as Hlt.
  assert (Hc' : exists k, c' = Cfg (sh c) (<[0%nat := Run RunStart]> (ths c)) k false /\ ths c !! 0%nat = Some Idle).
  { apply cstep_inv in E as [_ [(o&k&[= <-]&Ht&_&->&_)|[(?&?&?&[=]&_)|[(?&?&?&[=]&_)|(?&[=]&_)]]]]. by exists k. }
  destruct Hc' as (k&->&Hi). pose proof (lookup_lt_Some _ _ _ Hi) as Hlt0.
  assert (Hr : <[0%nat := Run RunStart]> (ths c) !! 0%nat = Some (Run RunStart)) by by rewrite list_lookup_insert_eq.
  split; cbn [ws members d_at set_worker].
  - intros j y Hy. apply list_insert_inv in Hy as [[-> ->]|[_ Hy]]; [|by eapply G1].
    destruct (G1 i c Hc) as [Q1 Q2 Q3 Q4 Q5 Q6]. split; cbn [sh ths]; try done.
    + intros l Hl. rewrite Hr in Hl. by injection Hl as <-.
    + by rewrite list_lookup_insert_ne.
    + intros m x Hx. rewrite list_lookup_insert_ne in Hx by done. by eapply Q6.
  - intros j y Hy. apply list_insert_inv in Hy as [[-> ->]|[_ Hy]]; [|by eapply G2].
    destruct (G2 i c Hc) as [?|[?|[?|(l&Hl&_)]]]; [by left|by right; left|by right; right; left|congruence].
  - destruct G3 as [?|[?|(j&y&Hy&Hay)]]; [by left|by right; left|]. right. right.
    destruct (decide (i = j)) as [<-|Hne]; [|exists j, y; by rewrite list_lookup_insert_ne].
    eexists i, _. rewrite list_lookup_insert_eq by done. split; [reflexivity|]. right. right. right. by exists RunStart.
Qed.

Lemma progress_step a p p' :
  pinv p -> progress p -> spares_workers a -> pstep workerNum_ max_ maxMsgSize a p = Some p' -> progress p'.
Proof.
  intros HP HG Ha H. pose proof (PInv_step (elemsD:=elemsD) (elemsW:=elemsW) _ _ _ Hn a p p' HP H) as HP'.
  destruct a as [b|i| | |i|k a|i k a]; [|exact (progress_start i p p' HP HG H)|..];
    unfold pstep in H; rewrite (pi_safe _ _ HP) in H.
  - injection H as <-. by destruct HG.
  - destruct (d_step max_ (self p) 0 _) as [[c e]|] eqn:E; [|done]. injection H as <-.
    apply progress_phase; [done|]. intros i [t Ht]. destruct (pi_on _ _ HP ltac:(by rewrite Ht)) as (l&Hl&_).
    apply cstep_inv in E as [_ [(o&k&_&Hi&_)|[(?&?&?&[=]&_)|[(?&?&?&[=]&_)|(?&[=]&_)]]]]. congruence.
  - eapply progress_disp; [exact HP|exact HG|exact H|apply HP'].
  - exact (progress_worker i p p' HP HG H).
  - destruct (d_step max_ (self p) (S k) a) as [[c e]|] eqn:E; [|done]. injection H as <-. by destruct HG.
  - destruct (ws p !! i) as [c|] eqn:Hc; [|done]. exfalso.
    destruct a as [[]|]; try done; [by destruct (Ha i k)|]. unfold w_step, cstep in H.
    destruct (faulted c); [done|]. destruct (ths c !! S (S k)) as [x|] eqn:Hx; [|done].
    by rewrite (qu_idle _ (pr_quiet _ HG i c Hc) k x Hx) in H.
Qed.

Lemma progress_steps l p p' :
  pinv p -> progress p -> Forall spares_workers l -> psteps workerNum_ max_ maxMsgSize l p = Some p' ->
  pinv p' /\ progress p'.
Proof.
  revert p. induction l as [|a l IH]; intros p HP HG Hl H; cbn in H; [by injection H as <-|].
  destruct (pstep workerNum_ max_ maxMsgSize a p) as [p1|] eqn:E; [|done]. apply Forall_cons in Hl as [Ha Hl].
  apply (IH p1); [exact (PInv_step _ _ _ Hn a p p1 HP E)|exact (progress_step a p p1 HP HG Ha E)|done..].
Qed.

Lemma progress_init qd qw tm clients p :
  Pool_init workerNum_ qd qw tm clients = Some p -> progress p.
Proof.
  unfold Pool_init, Dispatcher_init. rewrite free_mask_spec by lia. intros H. injection H as <-.
  assert (Hr : forall k m x, replicate (A:=tstate loc) m Idle !! k = Some x -> x = Idle)
    by (intros k m x Hx; by apply lookup_replicate in Hx as [-> _]).
  split; cbn [ws members d_at].
  - intros i c Hc. apply lookup_replicate in Hc as [-> _]. split; cbn [sh ths init_cfg]; try done.
    intros k x Hx. exact (Hr _ _ _ Hx).
  - intros i c Hc. left. apply lookup_lt_Some in Hc. rewrite length_replicate in Hc. cbn.
    rewrite Z.sub_1_r, <-Z.ones_equiv. apply Z.ones_spec_low. lia.
  - right. left. cbn. lia.
Qed.

(** ** The pool at rest *)

(** Every thread waits at its semaphore, which is 0, and no client is posting. *)
Record asleep (p : pool) : Prop := {
  as_workers : forall i c, ws p !! i = Some c -> ths c !! 0%nat = Some (Run Consume) /\ sem_ (sh c) = 0;
  as_dispatcher : (d_at p = Prep /\ prepare_step workerNum_ p = None) \/
    (d_at p = InBody /\ ths (self p) !! 0%nat = Some (Run Consume) /\ sem_ (sh (self p)) = 0);
  as_clients : forall k x, ths (self p) !! S k = Some x -> x = Idle
}.

(** A body whose threads owe nothing to a semaphore without tokens has no tasks. *)
Lemma no_tokens_no_tasks {Q} {CQ : Container ITask Q} {elems : Q -> list ITask} hr
    (c : cfg (G:=body (Q:=Q)) (L:=loc) (C:=unit)) :
  sound (elems:=elems) hr c -> sem_ (sh c) = 0 -> ths c !! 0%nat = Some (Run Consume) ->
  (forall k x, ths c !! S k = Some x -> x = Idle) -> elems (tasks_ (sh c)) = [].
Proof.
  intros [_ [m HI]] Hs H0 Hi. pose proof (wi_tokens _ _ _ _ _ HI) as Ht. unfold items in Ht.
  rewrite Hs, sum_with_all_zero in Ht.
  - destruct (elems _); [done|cbn in Ht; lia].
  - apply Forall_lookup. intros [|k] x Hx; [rewrite H0 in Hx; by injection Hx as <-|by rewrite (Hi k x Hx)].
Qed.

Lemma asleep_worker p i c :
  pinv p -> progress p -> (forall t j, d_at p <> Posting t j) -> ws p !! i = Some c ->
  ths c !! 0%nat = Some (Run Consume) -> sem_ (sh c) = 0 -> elemsW (tasks_ (sh c)) = [].
Proof.
  intros HP HG Hat Hc H0 Hs. destruct (pi_ws _ _ HP i c Hc) as (S1&_&S3).
  apply (no_tokens_no_tasks true); [done..|]. intros [|k] x Hx; [|by eapply qu_idle; [by eapply pr_quiet|]].
  unfold posts in S3. destruct (d_at p) as [| |t j]; [..|by destruct (Hat t j)]; rewrite S3 in Hx; by injection Hx as <-.
Qed.

Lemma asleep_done p : pinv p -> progress p -> asleep p -> taken (self p) ≡ₚ gather handled (ws p) ++ map addr (dropped p).
Proof.
  intros HP HG [A1 A2 A3].
  assert (Hat : forall t j, d_at p <> Posting t j) by (intros t j Ht; destruct A2 as [[A2 _]|[A2 _]]; congruence).
  assert (Hnil : forall i c, ws p !! i = Some c -> elemsW (tasks_ (sh c)) = []).
  { intros i c Hc. destruct (A1 i c Hc). by eapply asleep_worker. }
  destruct A2 as [[Hp Hb]|(Hp&H0&Hs)].
  - exfalso. unfold prepare_step in Hb. destruct (pr_wake _ HG) as [Hf|[Hf|(i&c&Hc&Ha)]].
    + by destruct (freeWorker_ (members p)).
    + destruct (freeWorker_ (members p)); [done|]. rewrite (proj2 (Z.leb_gt _ _)) in Hb by done.
      by repeat case_match.
    + destruct (A1 i c Hc) as [Hx _]. destruct Ha as [[t Ht]|[Ha|[Ha|(l&Hl&Hd)]]];
        [by apply Hat in Ht|by rewrite (Hnil i c Hc) in Ha|congruence|].
      rewrite Hx in Hl. by injection Hl as <-.
  - rewrite (PInv_whereabouts _ _ HP). unfold whereabouts. rewrite (no_tokens_no_tasks false (self p)); [|apply HP|done..].
    unfold worker_of, inflight. rewrite H0, Hp. cbn. apply Permutation_app_tail, gather_perm.
    intros i c Hc. unfold worker_tasks, handled, worker_of. destruct (A1 i c Hc) as [Hx _].
    rewrite (Hnil i c Hc), Hx. cbn. by rewrite app_nil_r.
Qed.

(** C9. The pool, for 1 to 31 workers and any interleaving from its constructor on in which
    no worker is told to exit: when the dispatcher is blocked in [PrepareWorker], some worker
    has a task or is still going to notify it; and when every thread has come to rest at its
    semaphore, every task that the pool has accepted has been run by a worker, or was dropped
    at a full mailbox. *)
Theorem pool_rests_done (qd : QD) (qw : QW) (tm : list bool) (clients : nat) (acts : list pact) :
  elemsD qd = [] -> elemsW qw = [] -> Forall spares_workers acts ->
  exists p0, Pool_init workerNum_ qd qw tm clients = Some p0 /\
    forall p, psteps workerNum_ max_ maxMsgSize acts p0 = Some p ->
      (d_at p = Prep -> prepare_step workerNum_ p = None -> exists i c, ws p !! i = Some c /\ awake c) /\
      (asleep p -> taken (self p) ≡ₚ gather handled (ws p) ++ map addr (dropped p)).
Proof.
  intros Hqd Hqw Ha. destruct (Pool_init_inv workerNum_ Hn qd qw tm clients Hqd Hqw) as (p0&E&HP0).
  exists p0. split; [done|]. intros p H.
  destruct (progress_steps acts p0 p HP0 (progress_init _ _ _ _ _ E) Ha H) as [HP HG].
  split; [|by apply asleep_done]. intros Hat Hb. unfold prepare_step in Hb.
  destruct (pr_wake _ HG) as [Hf|[Hf|(i&c&Hc&[[t Ht]|Haw])]]; [| |congruence|by exists i, c].
  - by destruct (freeWorker_ (members p)).
  - destruct (freeWorker_ (members p)); [done|]. rewrite (proj2 (Z.leb_gt _ _)) in Hb by done. by repeat case_match.
Qed.
End Progress.

(** ** A small pool *)

#[local] Existing Instances prio_container prio_spec.

(** Two tasks, and every thread back at rest. *)
Definition to_rest : list pact :=
  StartPooling 2 ++ post (new_ITask 1 true TP_LOW) ++ post (new_ITask 2 true TP_HIGH) ++
  replicate 26 ADispatcher ++ replicate 40 (AWorker 0) ++ replicate 40 (AWorker 1) ++ replicate 8 ADispatcher.

(** Worker 1 has asked four times; then one task after the other goes to worker 0, which is
    always done with one before the dispatcher looks for a free worker. *)
Definition one_task : list pact := replicate 13 ADispatcher ++ replicate 11 (AWorker 0).
Definition starving : list pact :=
  StartPooling 2 ++ replicate 20 (AWorker 1) ++ replicate 2 (AWorker 0) ++
  mjoin (map (fun k => post (task k)) (seq 1 7)) ++ [ADispatcher] ++ mjoin (replicate 5 one_task) ++
  replicate 13 ADispatcher ++ replicate 4 (AWorker 0).

Lemma to_rest_spares : Forall spares_workers to_rest.
Proof. unfold to_rest. repeat constructor; intros i k; discriminate. Qed.

Example to_rest_run :
  match demo_pool 2 with
  | Some p0 =>
      match demo_steps 2 to_rest p0 with
      | Some p => asleep 2 p /\ taken (self p) = [1; 2]%nat /\ map handled (ws p) = [[2]; [1]]%nat
      | None => False
      end
  | None => False
  end.
Proof.
  vm_compute. split; [|done]. split.
  - intros [|[|i]] c Hc; try done; by injection Hc as <-.
  - by right.
  - intros [|k] x Hx; [by injection Hx as <-|by destruct k].
Qed.

Lemma pool_rests_done_witness :
  match demo_pool 2 with
  | Some p0 =>
      match demo_steps 2 to_rest p0 with
      | Some p => taken (self p) ≡ₚ gather handled (ws p) ++ map addr (dropped p)
      | None => False
      end
  | None => False
  end.
Proof.
  pose proof to_rest_run as Hd.
  destruct (pool_rests_done (elemsD:=prio_order best) (elemsW:=queue_) 2 1024 1024 ltac:(lia) ltac:(lia)
    (Prio []) (Deque (V:=ITask) []) [] 1 to_rest eq_refl eq_refl to_rest_spares) as (p0&E&Hp).
  rewrite E in Hd |- *. destruct (demo_steps 2 to_rest p0) as [p|] eqn:Er; [|done].
  apply (Hp p eq_refl), Hd.
Defined.

(** One task waits for worker 0, which runs another; worker 1, with its bit set, sleeps. *)
Example idle_worker_starves :
  match demo_pool 2 with
  | Some p0 =>
      match demo_steps 2 starving p0 with
      | Some p =>
          d_at p = Prep /\ prepare_step 2 p = None /\ map addr (prio_order best (tasks_ (sh (self p)))) = [7]%nat /\
          freeWorkerBit_ (members p) = 2 /\
          match ws p with
          | [w0; w1] => map addr (in_hand (worker_of (ths w0))) = [6]%nat /\
              ths w1 !! 0%nat = Some (Run Consume) /\ sem_ (sh w1) = 0
          | _ => False
          end
      | None => False
      end
  | None => False
  end.
Proof. by vm_compute. Qed.
