(* ===== verification/Shutdown.v ===== *)
(** * Shutdown.v: [ForceShutdown] and the destruction of the thread pool

The destructors of [thread/src/ThreadPool.cc], [thread/src/Worker.cc] and
[thread/src/Thread.cc], and [ThreadPool::ForceShutdown], as one more thread over the pool
of Pool.v.  A destructor is a list of elementary operations ([dop]): a whole
[ClearAllTask], a [pthread_cancel] of a thread that is busy, a [delete].  [freed] lists
the objects that have been deleted, in order; whoever uses one of them sets [misuse].  A
thread that has been asked to cancel may die where it waits or runs a task ([WDie]).

The theorem: once every thread has ended or died, the destructor ends, deletes every
object of the pool exactly once, uses none afterwards, and deletes exactly the pending
tasks that own themselves; what is lost is in the hands of killed threads.  Without that
condition it is a use after free: [~Worker] deletes the body before [~Thread] cancels the
thread that runs it. *)

From S2P Require Import Prelude Machine Conc SpinlockQueue Worker ThreadPool Pool.

(** The objects of a pool: itself, [worker_], [dispatcher_], and the [Worker]s with their
    [WorkerBody]s. *)
Inductive object : Type := OPool | OSelf | ODispatcher | OWorker (i : nat) | OBody (i : nat).
#[export] Instance object_eq_dec : EqDecision object.
Proof. solve_decision. Defined.

Inductive thread : Type := TDispatcher | TWorker (i : nat).
#[export] Instance thread_eq_dec : EqDecision thread.
Proof. solve_decision. Defined.

Inductive dop : Type :=
| DRunning (b : bool)         (* [running_ = b] *)
| DClear (th : thread)        (* [ClearAllTask] of the body of [th] *)
| DCancel (th : thread)       (* [Thread::Cancel] and [~Thread] *)
| DFree (o : object).

Section Shutdown.
Context {QD QW : Type} {CD : Container ITask QD} {CW : Container ITask QW}.
Variables (workerNum_ max_ maxMsgSize : Z).

Abbreviation pool := (Pool QD QW).

(** ** The destructors *)

Definition ForceShutdown : list dop :=
  DRunning false :: DCancel TDispatcher :: map (fun i => DCancel (TWorker i)) (seq 0 (Z.to_nat workerNum_)).

(** [delete workers_[i]]: [~Worker] deletes the body, whose destructor clears the mailbox;
    then [~Thread]. *)
Definition delete_worker (i : nat) : list dop :=
  [DClear (TWorker i); DFree (OBody i); DCancel (TWorker i); DFree (OWorker i)].

Definition delete_workers (l : list nat) : list dop :=
  mjoin (map (fun i => DCancel (TWorker i) :: delete_worker i) l).

(** [~Dispatcher] *)
Definition delete_dispatcher : list dop :=
  DClear TDispatcher :: delete_workers (seq 0 (Z.to_nat workerNum_)) ++ [DFree ODispatcher].

(** [delete pool]: [~ThreadPool] deletes [worker_], that is its task, the dispatcher, and
    then its [Thread]. *)
Definition delete_pool : list dop :=
  delete_dispatcher ++ [DCancel TDispatcher; DFree OSelf; DFree OPool].

(** ** The world: the pool, the thread that shuts it down, and the system *)

Record world : Type := World {
  pool_ : pool; todo : list dop; clear_at : option loc;
  cancelled : list thread; dead : list thread; freed : list object; misuse : bool
}.

Definition world_init (p : pool) : world := World p [] None [] [] [] false.

Definition set_pool (p : pool) (w : world) : world :=
  World p (todo w) (clear_at w) (cancelled w) (dead w) (freed w) (misuse w).
Definition set_todo (l : list dop) (w : world) : world :=
  World (pool_ w) l (clear_at w) (cancelled w) (dead w) (freed w) (misuse w).
Definition set_clear (l : option loc) (w : world) : world :=
  World (pool_ w) (todo w) l (cancelled w) (dead w) (freed w) (misuse w).
Definition cancel (th : thread) (w : world) : world :=
  World (pool_ w) (todo w) (clear_at w) (cancelled w ++ [th]) (dead w) (freed w) (misuse w).
Definition die (th : thread) (w : world) : world :=
  World (pool_ w) (todo w) (clear_at w) (cancelled w) (dead w ++ [th]) (freed w) (misuse w).
Definition free (o : object) (w : world) : world :=
  World (pool_ w) (todo w) (clear_at w) (cancelled w) (dead w) (freed w ++ [o]) (misuse w).

(** An access to objects. *)
Definition use (l : list object) (w : world) : world :=
  World (pool_ w) (todo w) (clear_at w) (cancelled w) (dead w) (freed w)
    (misuse w || existsb (fun o => bool_decide (o ∈ freed w)) l).

(** [busy_] of a thread: from the start of [task->Run()] to its return.  A thread that is
    killed leaves it set. *)
Definition busy (th : thread) (p : pool) : bool :=
  match th with
  | TDispatcher => negb (ended (self p))
  | TWorker i => match ws p !! i with Some c => negb (ended c) | None => false end
  end.

(** One step of [ClearAllTask] on a body, by the thread that deletes it. *)
Definition clear_step {Q} {CQ : Container ITask Q} (M : Z) (nt hr : bool)
    (c : cfg (G:=body (Q:=Q)) (L:=loc) (C:=unit)) (l : loc) :
    option (cfg (G:=body (Q:=Q)) (L:=loc) (C:=unit) * option loc) :=
  match code M nt hr (sh c) l with
  | Next g l' => Some (Cfg g (ths c) (cl c) (faulted c), Some l')
  | Ret g _ => Some (Cfg g (ths c) (cl c) (faulted c), None)
  | Fault => None
  end.

Definition clear_pool (th : thread) (l : loc) (p : pool) : option (pool * option loc) :=
  match th with
  | TDispatcher =>
      match clear_step max_ false false (self p) l with
      | Some (c, l') => Some (set_self (d_at p) c p, l')
      | None => None
      end
  | TWorker i =>
      match ws p !! i with
      | Some c =>
          match clear_step maxMsgSize true true c l with
          | Some (c', l') => Some (set_worker i c' p, l')
          | None => None
          end
      | None => None
      end
  end.

Definition body_of (th : thread) : object :=
  match th with TDispatcher => ODispatcher | TWorker i => OBody i end.
Definition thread_of (th : thread) : object :=
  match th with TDispatcher => OSelf | TWorker i => OWorker i end.

(** The next step of the thread that shuts the pool down. *)
Definition main_step (w : world) : option world :=
  match todo w with
  | [] => None
  | DRunning b :: l => Some (set_todo l (set_pool (set_running b (pool_ w)) (use [OPool] w)))
  | DCancel th :: l =>
      let w := set_todo l (use [thread_of th] w) in
      Some (if busy th (pool_ w) then cancel th w else w)
  | DFree o :: l => Some (free o (set_todo l (use [o] w)))
  | DClear th :: l =>
      match clear_pool th (default ClearHasTask (clear_at w)) (pool_ w) with
      | Some (p, at') =>
          let w := set_clear at' (set_pool p (use [body_of th] w)) in
          Some (match at' with Some _ => w | None => set_todo l w end)
      | None => None
      end
  end.

(** ** The other threads *)

(** What a step of the pool uses: its body; for a notification the [Worker], the pool and
    the dispatcher; for [PostTask] the [Worker] and its body; at the end of [Run] the
    [Thread]. *)
Definition notices {Q} (c : cfg (G:=body (Q:=Q)) (L:=loc) (C:=unit)) : bool :=
  match ths c !! 0%nat with Some (Run (Ask _ | NotifyDone)) => true | _ => false end.
Definition returns {Q} (c : cfg (G:=body (Q:=Q)) (L:=loc) (C:=unit)) : bool :=
  match ths c !! 0%nat with Some (Run StopTest) => true | _ => false end.

Definition uses (a : pact) (p : pool) : list object :=
  match a with
  | ARunning _ => [OPool]
  | AStartWorker i => [ODispatcher; OWorker i; OBody i]
  | AStartDispatcher => [OSelf; ODispatcher]
  | ADispatcher =>
      ODispatcher ::
      match d_at p with Posting _ id => [OWorker id; OBody id] | _ => if returns (self p) then [OSelf] else [] end
  | AWorker i =>
      OBody i ::
      match ws p !! i with
      | Some c => (if notices c then [OWorker i; OPool; ODispatcher] else []) ++ (if returns c then [OWorker i] else [])
      | None => []
      end
  | AClient _ _ => [OPool; OSelf; ODispatcher]
  | AStop i _ _ => [OWorker i; OBody i]
  end.

(** The step is one of a dead thread. *)
Definition stopped (a : pact) (w : world) : bool :=
  match a with
  | ADispatcher => bool_decide (TDispatcher ∈ dead w)
  | AWorker i => bool_decide (TWorker i ∈ dead w)
  | _ => false
  end.

(** Where a cancelled thread can die: waiting for the semaphore of its body, waiting in
    [PrepareWorker], or inside the task it runs. *)
Definition cancellation_point (th : thread) (p : pool) : bool :=
  match th with
  | TDispatcher =>
      match d_at p, ths (self p) !! 0%nat with
      | Prep, _ => bool_decide (freeWorker_ (members p) = None)
      | InBody, Some (Run (Consume | TimedWait _)) => true
      | _, _ => false
      end
  | TWorker i =>
      match ws p !! i with
      | Some c => match ths c !! 0%nat with Some (Run (Consume | TimedWait _ | Handle _)) => true | _ => false end
      | None => false
      end
  end.

Inductive wact : Type :=
| WPool (a : pact)         (* a step of the pool *)
| WForce | WDelete         (* the calls of [ForceShutdown] and of the destructor *)
| WMain                    (* the next step of such a call *)
| WDie (th : thread).      (* a cancelled thread dies *)

Definition world_step (a : wact) (w : world) : option world :=
  match a with
  | WPool a =>
      if stopped a w then None
      else match pstep workerNum_ max_ maxMsgSize a (pool_ w) with
           | Some p => Some (set_pool p (use (uses a (pool_ w)) w))
           | None => None
           end
  | WForce => match todo w with [] => Some (set_todo ForceShutdown w) | _ => None end
  | WDelete => match todo w with [] => Some (set_todo delete_pool w) | _ => None end
  | WMain => main_step w
  | WDie th =>
      if decide (th ∈ cancelled w) then if cancellation_point th (pool_ w) then Some (die th w) else None
      else None
  end.

Fixpoint world_steps (l : list wact) (w : world) : option world :=
  match l with
  | [] => Some w
  | a :: l' => match world_step a w with Some w' => world_steps l' w' | None => None end
  end.

(** Nothing of the pool moves by itself any more: the threads have ended or are dead, and no
    client is inside a call. *)
Definition idle_but {Q} (m : nat) (c : cfg (G:=body (Q:=Q)) (L:=loc) (C:=unit)) : Prop :=
  Forall (fun x => x = Idle) (drop m (ths c)).

Definition over (th : thread) (w : world) : Prop := busy th (pool_ w) = false \/ th ∈ dead w.

Definition quiescent (w : world) : Prop :=
  over TDispatcher w /\ idle_but 1 (self (pool_ w)) /\
  forall i c, ws (pool_ w) !! i = Some c -> over (TWorker i) w /\ idle_but 2 c.

(** The objects of a pool, in the order of their destruction. *)
Definition pool_objects : list object :=
  mjoin (map (fun i => [OBody i; OWorker i]) (seq 0 (Z.to_nat workerNum_))) ++ [ODispatcher; OSelf; OPool].
End Shutdown.
Arguments world QD QW : clear implicits.

(** ** The threads that do not move *)

Section Rest.
Context {QD QW : Type} {CD : Container ITask QD} {CW : Container ITask QW}.
Variables (workerNum_ max_ maxMsgSize : Z).

Abbreviation pool := (Pool QD QW).

(** In [PrepareWorker] the dispatcher's body is at the start of a round. *)
Definition prep_at (p : pool) : Prop := d_at p = Prep -> ths (self p) !! 0%nat = Some (Run (GetRunTask 0)).

Lemma prepare_self (p p' : pool) :
  prepare_step workerNum_ p = Some p' -> self p' = self p /\ (d_at p' = d_at p \/ d_at p' = InBody).
Proof. unfold prepare_step. intros H. repeat (case_match; try done); injection H as <-; cbn; auto. Qed.

Lemma dispatch_self t (p : pool) :
  self (dispatch_step workerNum_ maxMsgSize t p) = self p /\
  (d_at (dispatch_step workerNum_ maxMsgSize t p) = d_at p \/ d_at (dispatch_step workerNum_ maxMsgSize t p) <> Prep).
Proof. unfold dispatch_step. repeat case_match; cbn; auto. Qed.

(** The dispatcher's thread moves only in its own steps. *)
Lemma pstep_dispatcher a (p p' : pool) l :
  pstep workerNum_ max_ maxMsgSize a p = Some p' -> a <> ADispatcher -> ths (self p) !! 0%nat = Some (Run l) ->
  ths (self p') !! 0%nat = Some (Run l) /\ d_at p' = d_at p.
Proof.
  intros H Ha Hl. unfold pstep in H. destruct (crashed p); [done|]. destruct a as [b|i| | |i|k a|i k a]; try done.
  - by injection H as <-.
  - repeat (case_match; try done). by injection H as <-.
  - destruct (d_step max_ (self p) 0 _) as [[c e]|] eqn:E; [|done].
    apply cstep_inv in E as [_ [(o&k'&_&Ht&_)|[(l1&?&?&?&_)|[(l1&?&?&?&_)|(l1&?&_)]]]]; try done. by rewrite Hl in Ht.
  - unfold worker_step in H. repeat (case_match; try done); by injection H as <-.
  - destruct (d_step max_ (self p) (S k) a) as [[c e]|] eqn:E; [|done]. injection H as <-. cbn.
    split; [|done]. by erewrite bstep_other; [exact Hl|exact E|].
  - repeat (case_match; try done); by injection H as <-.
Qed.

Lemma pstep_at a (p p' : pool) :
  pstep workerNum_ max_ maxMsgSize a p = Some p' -> a <> ADispatcher -> d_at p' = d_at p \/ d_at p' = InBody.
Proof.
  intros H Ha. unfold pstep, worker_step in H. destruct (crashed p); [done|].
  destruct a; try done; repeat (case_match; try done); injection H as <-; cbn; auto.
Qed.

Lemma prep_at_step a (p p' : pool) : prep_at p -> pstep workerNum_ max_ maxMsgSize a p = Some p' -> prep_at p'.
Proof.
  intros Hp H. assert (a = ADispatcher \/ a <> ADispatcher) as [->|Ha] by (destruct a; auto; by right).
  - unfold pstep, disp_step in H. destruct (crashed p); [done|]. destruct (d_at p) as [| |t id] eqn:Hat.
    + apply prepare_self in H as [E [E'|E']]; intros Hd; rewrite E' in Hd; [|done]. rewrite E. by apply Hp.
    + destruct (ths (self p) !! 0%nat) as [[|l]|]; try done.
      destruct (d_step max_ (self p) 0 Step) as [[c e]|]; [|done].
      set (p1 := set_self (match ths c !! 0%nat with Some (Run (GetRunTask 0)) => Prep | _ => InBody end) c p) in H.
      assert (H1 : prep_at p1).
      { unfold prep_at. subst p1. cbn. destruct (ths c !! 0%nat) as [[|[]]|]; try done. by destruct req. }
      destruct l; injection H as <-; try done.
      destruct (dispatch_self t p1) as [E [E'|E']]; intros Hd; [|done]. rewrite E. apply H1. congruence.
    + repeat (case_match; try done); injection H as <-; unfold prep_at; cbn; congruence.
  - intros Hd. destruct (pstep_at _ _ _ H Ha) as [E|E]; [|congruence]. rewrite E in Hd.
    by destruct (pstep_dispatcher _ _ _ _ H Ha (Hp Hd)) as [? _].
Qed.

(** A worker's thread moves only in its own steps. *)
Lemma pstep_worker a (p p' : pool) i c l :
  pstep workerNum_ max_ maxMsgSize a p = Some p' -> a <> AWorker i ->
  ws p !! i = Some c -> ths c !! 0%nat = Some (Run l) ->
  exists c', ws p' !! i = Some c' /\ ths c' !! 0%nat = Some (Run l).
Proof.
  intros H Ha Hc Hl.
  assert (Hw : forall j k x c1 c1' e, ws p !! j = Some c1 -> w_step maxMsgSize c1 (S k) x = Some (c1', e) ->
    exists c', <[j:=c1']> (ws p) !! i = Some c' /\ ths c' !! 0%nat = Some (Run l)).
  { intros j k x c1 c1' e Hj E. destruct (decide (i = j)) as [->|Hne].
    - rewrite list_lookup_insert_eq by (by eapply lookup_lt_Some). eexists. split; [done|].
      simplify_eq. by erewrite bstep_other; [exact Hl|exact E|].
    - rewrite list_lookup_insert_ne by done. eauto. }
  unfold pstep in H. destruct (crashed p); [done|]. destruct a as [b|j| | |j|k a|j k a].
  - injection H as <-. eauto.
  - destruct (ws p !! j) as [c1|] eqn:Hj; [|done]. destruct (w_step maxMsgSize c1 0 _) as [[c1' e]|] eqn:E; [|done].
    injection H as <-. cbn. destruct (decide (i = j)) as [->|Hne]; [|rewrite list_lookup_insert_ne by done; eauto].
    simplify_eq. apply cstep_inv in E as [_ [(o&k'&_&Ht&_)|[(l1&?&?&?&_)|[(l1&?&?&?&_)|(l1&?&_)]]]]; try done.
    by rewrite Hl in Ht.
  - repeat (case_match; try done). injection H as <-. eauto.
  - unfold disp_step, prepare_step, dispatch_step in H.
    repeat (case_match; try done); injection H as <-; cbn; eauto.
  - unfold worker_step in H. destruct (ws p !! j) as [c1|] eqn:Hj; [|done].
    destruct (w_step maxMsgSize c1 0 _) as [[c1' e]|] eqn:E; [|done].
    assert (i <> j) by congruence.
    repeat (case_match; try done); injection H as <-; cbn; rewrite list_lookup_insert_ne by done; eauto.
  - repeat (case_match; try done). injection H as <-. eauto.
  - repeat (case_match; try done); injection H as <-; cbn; eauto.
Qed.
End Rest.

(** ** Before the destruction *)

Section Destruction.
Context {QD QW : Type} {CD : Container ITask QD} {CW : Container ITask QW}.
Context {elemsD : QD -> list ITask} {SD : ContainerSpec ITask QD elemsD}.
Context {elemsW : QW -> list ITask} {SW : ContainerSpec ITask QW elemsW}.
Variables (workerNum_ max_ maxMsgSize : Z).
Context (Hn : 1 <= workerNum_ <= 31).

Abbreviation pool := (Pool QD QW).
Abbreviation wcfg := (cfg (G:=body (Q:=QW)) (L:=loc) (C:=unit)).
Abbreviation wstep := (world_step workerNum_ max_ maxMsgSize).
Abbreviation wsteps := (world_steps workerNum_ max_ maxMsgSize).
Abbreviation mstep := (main_step (QD:=QD) (QW:=QW) max_ maxMsgSize).

(** A dead thread owes no token to its body's semaphore. *)
Definition resting (th : thread) (p : pool) : Prop :=
  match th with
  | TDispatcher =>
      (d_at p = Prep \/ d_at p = InBody) /\
      exists l, ths (self p) !! 0%nat = Some (Run l) /\ owed (Run l) = 0
  | TWorker i => exists c l, ws p !! i = Some c /\ ths c !! 0%nat = Some (Run l) /\ owed (Run l) = 0
  end.

Lemma cancellation_resting th (p : pool) : prep_at p -> cancellation_point th p = true -> resting th p.
Proof.
  intros Hp H. destruct th as [|i]; cbn in *.
  - destruct (d_at p) eqn:Hat; [|destruct (ths (self p) !! 0%nat) as [[|[]]|] eqn:E; try done|done].
    + split; [by left|]. eexists. by split; [apply Hp|].
    + split; [by right|]. by eexists.
    + split; [by right|]. by eexists.
  - destruct (ws p !! i) as [c|]; [|done]. destruct (ths c !! 0%nat) as [[|[]]|] eqn:E; try done; by eexists _, _.
Qed.

Lemma resting_step a th (p p' : pool) :
  resting th p -> pstep workerNum_ max_ maxMsgSize a p = Some p' ->
  match th with TDispatcher => a <> ADispatcher | TWorker i => a <> AWorker i end -> resting th p'.
Proof.
  intros Hr H Ha. destruct th as [|i]; cbn in *.
  - destruct Hr as (Hat&l&Hl&Ho). destruct (pstep_dispatcher _ _ _ _ _ _ _ H Ha Hl) as [Hl' Hat'].
    rewrite Hat'. eauto.
  - destruct Hr as (c&l&Hc&Hl&Ho). destruct (pstep_worker _ _ _ _ _ _ _ _ _ H Ha Hc Hl) as (c'&Hc'&Hl'). eauto.
Qed.

(** What [ForceShutdown] consists of. *)
Definition gentle (o : dop) : Prop := match o with DRunning _ | DCancel _ => True | _ => False end.

Record SInv (w : world QD QW) : Prop := {
  si_pool : PInv (elemsD:=elemsD) (elemsW:=elemsW) workerNum_ (pool_ w);
  si_prep : prep_at (pool_ w);
  si_todo : Forall gentle (todo w);
  si_clear : clear_at w = None;
  si_freed : freed w = [];
  si_misuse : misuse w = false;
  si_dead : forall th, th ∈ dead w -> resting th (pool_ w)
}.

Lemma use_nothing l (w : world QD QW) : freed w = [] -> use l w = w.
Proof.
  intros Hf. unfold use. rewrite Hf. destruct w as [p t c ca d f m]. cbn in *. rewrite Hf. f_equal.
  rewrite orb_comm. by induction l.
Qed.

Lemma SInv_step a w w' : SInv w -> a <> WDelete -> wstep a w = Some w' -> SInv w'.
Proof.
  intros [S1 S2 S3 S4 S5 S6 S7] Ha H. destruct a as [a| | | |th]; cbn in H; try done.
  - destruct (stopped a w) eqn:Hst; [done|].
    destruct (pstep workerNum_ max_ maxMsgSize a (pool_ w)) as [p|] eqn:E; [|done]. injection H as <-.
    rewrite use_nothing by done. split; cbn; try done; [by eapply PInv_step|by eapply prep_at_step|].
    intros th Hd. eapply resting_step; [by apply S7|exact E|].
    destruct th; intros ->; cbn in Hst; by apply bool_decide_eq_false in Hst.
  - destruct (todo w); [|done]. injection H as <-. split; cbn; try done.
    constructor; [done|]. constructor; [done|]. apply Forall_map, Forall_forall. done.
  - unfold main_step in H. destruct (todo w) as [|o l] eqn:Et; [done|]. apply Forall_cons in S3 as [Ho Hl].
    destruct o as [b|th|th|o]; try done; rewrite use_nothing in H by done; injection H as <-.
    + split; cbn; try done. by destruct S1.
    + destruct (busy th _); by split.
  - repeat (case_decide || case_match; try done). injection H as <-. split; cbn; try done.
    intros th' Hd. apply elem_of_app in Hd as [Hd|Hd]; [by apply S7|].
    apply list_elem_of_singleton in Hd as ->. by apply cancellation_resting.
Qed.

Lemma SInv_steps l w w' : SInv w -> WDelete ∉ l -> wsteps l w = Some w' -> SInv w'.
Proof.
  revert w. induction l as [|a l IH]; intros w Hw Hl H; cbn in H; [by injection H as <-|].
  destruct (wstep a w) as [w1|] eqn:E; [|done]. apply not_elem_of_cons in Hl as [Ha Hl].
  apply (IH w1); [|done|done]. by eapply SInv_step.
Qed.

(** ** A body that nobody uses *)

Definition rests {Q} (c : cfg (G:=body (Q:=Q)) (L:=loc) (C:=unit)) : Prop := Forall (fun x => owed x = 0) (ths c).

Lemma rests_idle {Q} (c : cfg (G:=body (Q:=Q)) (L:=loc) (C:=unit)) m :
  idle_but m c -> (forall k x, (k < m)%nat -> ths c !! k = Some x -> owed x = 0) -> rests c.
Proof.
  intros Hi Hm. apply Forall_lookup. intros k x Hx. destruct (decide (k < m)%nat) as [Hk|Hk]; [by eapply Hm|].
  unfold idle_but in Hi. rewrite Forall_lookup in Hi.
  rewrite (Hi (k - m)%nat x); [done|]. rewrite lookup_drop. by replace (m + (k - m))%nat with k by lia.
Qed.

Lemma sound_tokens {Q} {CQ : Container ITask Q} {elems : Q -> list ITask} hr
    (c : cfg (G:=body (Q:=Q)) (L:=loc) (C:=unit)) :
  sound (elems:=elems) hr c -> rests c -> Z.of_nat (length (elems (tasks_ (sh c)))) <= sem_ (sh c).
Proof.
  intros [_ [m HI]] Hr. pose proof (wi_tokens _ _ _ _ _ HI) as Ht. unfold items in Ht.
  assert (sum_with owed (ths c) = 0) as E; [|lia].
  clear -Hr. unfold rests in Hr. induction Hr as [|x l Hx Hl IH]; cbn; [done|]. lia.
Qed.

(** [c'] is [c] after [ClearAllTask]. *)
Definition cleared {Q} (elems : Q -> list ITask) (c c' : cfg (G:=body (Q:=Q)) (L:=loc) (C:=unit)) : Prop :=
  elems (tasks_ (sh c')) = [] /\ ths c' = ths c /\ runs (effects_ (sh c')) = runs (effects_ (sh c)) /\
  deletes (effects_ (sh c')) = deletes (effects_ (sh c)) ++ filter deleteAfterRun_ (elems (tasks_ (sh c))).

(** ** Runs of the destroying thread *)

Fixpoint main_steps (n : nat) (w : world QD QW) : option (world QD QW) :=
  match n with
  | O => Some w
  | S n' => match mstep w with Some w' => main_steps n' w' | None => None end
  end.

Lemma main_steps_add n m w w' : main_steps n w = Some w' -> main_steps (n + m) w = main_steps m w'.
Proof.
  revert w. induction n as [|n IH]; intros w H; cbn in *; [by injection H as ->|].
  destruct (mstep w); [by apply IH|done].
Qed.

(** [ops] leads from [w] to [w'], whatever there is to do afterwards. *)
Definition mexec (ops : list dop) (w w' : world QD QW) : Prop :=
  forall rest, exists n, main_steps n (set_todo (ops ++ rest) w) = Some (set_todo rest w').

Lemma mexec_nil w : mexec [] w w.
Proof. intros rest. by exists 0%nat. Qed.

Lemma mexec_app l1 l2 w1 w2 w3 : mexec l1 w1 w2 -> mexec l2 w2 w3 -> mexec (l1 ++ l2) w1 w3.
Proof.
  intros H1 H2 rest. rewrite <-app_assoc. destruct (H1 (l2 ++ rest)) as [n Hn1]. destruct (H2 rest) as [m Hm].
  exists (n + m)%nat. by rewrite (main_steps_add _ _ _ _ Hn1).
Qed.

Lemma mexec_cons o l w1 w2 w3 : mexec [o] w1 w2 -> mexec l w2 w3 -> mexec (o :: l) w1 w3.
Proof. apply (mexec_app [o]). Qed.

Lemma use_free l (w : world QD QW) : (forall o, o ∈ l -> o ∉ freed w) -> use l w = w.
Proof.
  intros Hf. unfold use. assert (existsb (fun o => bool_decide (o ∈ freed w)) l = false) as ->.
  { apply not_true_is_false. intros H. apply existsb_exists in H as (o&Ho&Hb). apply bool_decide_eq_true in Hb.
    apply (Hf o); [by apply list_elem_of_In|done]. }
  rewrite orb_false_r. by destruct w.
Qed.

Lemma use_one o (w : world QD QW) : o ∉ freed w -> use [o] w = w.
Proof. intros Ho. apply use_free. by intros ? ->%list_elem_of_singleton. Qed.

Lemma mexec_free o w : o ∉ freed w -> mexec [DFree o] w (free o w).
Proof.
  intros Ho rest. exists 1%nat. cbn. by rewrite use_one.
Qed.

(** A cancellation changes nothing but the list of requests. *)
Lemma mexec_cancel th w :
  thread_of th ∉ freed w -> exists ca, mexec [DCancel th] w
    (World (pool_ w) (todo w) (clear_at w) ca (dead w) (freed w) (misuse w)).
Proof.
  intros Ho. exists (if busy th (pool_ w) then cancelled w ++ [th] else cancelled w). intros rest. exists 1%nat.
  cbn. rewrite use_one by done. by destruct (busy th (pool_ w)).
Qed.

(** [ClearAllTask], when its steps are those of [clear_step]. *)
Lemma clear_loop {Q} {CQ : Container ITask Q} M nt hr th rest
    (mk : cfg (G:=body (Q:=Q)) (L:=loc) (C:=unit) -> option loc -> list dop -> world QD QW) :
  (forall c l, mstep (mk c l (DClear th :: rest)) =
     match clear_step M nt hr c (default ClearHasTask l) with
     | Some (c', Some l') => Some (mk c' (Some l') (DClear th :: rest))
     | Some (c', None) => Some (mk c' None rest)
     | None => None
     end) ->
  forall n c l g' r, solo (code M nt hr) n (sh c) (default ClearHasTask l) = Ret g' r ->
  exists m, main_steps m (mk c l (DClear th :: rest)) = Some (mk (Cfg g' (ths c) (cl c) (faulted c)) None rest).
Proof.
  intros Hmk n. induction n as [|n IH]; intros c l g' r H; cbn in H; [done|].
  destruct (code M nt hr (sh c) (default ClearHasTask l)) as [g1 l1|g1 r1|] eqn:E; [| |done].
  - destruct (IH (Cfg g1 (ths c) (cl c) (faulted c)) (Some l1) g' r H) as [m Hm].
    exists (S m). cbn. rewrite Hmk. unfold clear_step. rewrite E. exact Hm.
  - injection H as <- <-. exists 1%nat. cbn. rewrite Hmk. unfold clear_step. by rewrite E.
Qed.

Lemma mexec_clear_self w :
  clear_at w = None -> ODispatcher ∉ freed w ->
  Z.of_nat (length (elemsD (tasks_ (sh (self (pool_ w)))))) <= sem_ (sh (self (pool_ w))) ->
  exists c, cleared elemsD (self (pool_ w)) c /\
    mexec [DClear TDispatcher] w (set_pool (set_self (d_at (pool_ w)) c (pool_ w)) w).
Proof.
  intros Hc Ho Ht.
  destruct (ClearAllTask_solo (elems:=elemsD) max_ false false _ Ht) as (n&g&Hs&He&_&Hd&Hr).
  exists (Cfg g (ths (self (pool_ w))) (cl (self (pool_ w))) (faulted (self (pool_ w)))).
  split; [by split_and!|]. intros rest. destruct w as [p t ca cl' d f m]. cbn in *. subst ca.
  destruct (clear_loop max_ false false TDispatcher rest
    (fun c l t => World (set_self (d_at p) c p) t l cl' d f m)) with (n:=n) (c:=self p) (l:=@None loc) (g':=g) (r:=RClearAll)
    as [k Hk].
  - intros c l. unfold main_step. cbn [todo body_of]. rewrite use_one by exact Ho. cbn.
    by destruct (clear_step max_ false false c (default ClearHasTask l)) as [[c' [l'|]]|].
  - done.
  - exists k. cbn beta in Hk. assert (set_self (d_at p) (self p) p = p) as E by by destruct p.
    rewrite E in Hk. exact Hk.
Qed.

Lemma mexec_clear_worker w i c :
  clear_at w = None -> OBody i ∉ freed w -> ws (pool_ w) !! i = Some c ->
  Z.of_nat (length (elemsW (tasks_ (sh c)))) <= sem_ (sh c) ->
  exists c', cleared elemsW c c' /\ mexec [DClear (TWorker i)] w (set_pool (set_worker i c' (pool_ w)) w).
Proof.
  intros Hc Ho Hi Ht.
  destruct (ClearAllTask_solo (elems:=elemsW) maxMsgSize true true _ Ht) as (n&g&Hs&He&_&Hd&Hr).
  exists (Cfg g (ths c) (cl c) (faulted c)).
  split; [by split_and!|]. intros rest. destruct w as [p t ca cl' d f m]. cbn in *. subst ca.
  assert (Hl : (i < length (ws p))%nat) by (by eapply lookup_lt_Some).
  destruct (clear_loop maxMsgSize true true (TWorker i) rest
    (fun c l t => World (set_worker i c p) t l cl' d f m)) with (n:=n) (c:=c) (l:=@None loc) (g':=g) (r:=RClearAll)
    as [k Hk].
  - intros c1 l. unfold main_step. cbn [todo body_of]. rewrite use_one by exact Ho. cbn. rewrite list_lookup_insert_eq by done.
    destruct (clear_step maxMsgSize true true c1 (default ClearHasTask l)) as [[c' [l'|]]|]; cbn; try done;
      unfold set_pool, set_clear, set_todo, set_worker; cbn; by rewrite list_insert_insert_eq.
  - done.
  - exists k. cbn beta in Hk. assert (set_worker i c p = p) as E by (unfold set_worker; rewrite list_insert_id by done; by destruct p).
    rewrite E in Hk. exact Hk.
Qed.

Definition with_ws (l : list wcfg) (p : pool) : pool :=
  MkPool (running_ p) (members p) (d_at p) (self p) l (dropped p) (crashed p).

Definition worker_objects (l : list nat) : list object := mjoin (map (fun i => [OBody i; OWorker i]) l).

(** One round of [~Dispatcher]'s loop. *)
Lemma delete_one w i c :
  clear_at w = None -> OBody i ∉ freed w -> OWorker i ∉ freed w ->
  ws (pool_ w) !! i = Some c -> Z.of_nat (length (elemsW (tasks_ (sh c)))) <= sem_ (sh c) ->
  exists ca c', cleared elemsW c c' /\
    mexec (DCancel (TWorker i) :: delete_worker i) w
      (World (with_ws (<[i:=c']> (ws (pool_ w))) (pool_ w)) (todo w) None ca (dead w)
         (freed w ++ [OBody i; OWorker i]) (misuse w)).
Proof.
  intros Hc Hb Ho Hi Ht. destruct (mexec_cancel (TWorker i) w Ho) as [ca1 H1].
  set (w1 := World (pool_ w) (todo w) (clear_at w) ca1 (dead w) (freed w) (misuse w)) in H1.
  destruct (mexec_clear_worker w1 i c Hc Hb Hi Ht) as (c'&Hcl&H2).
  set (w2 := set_pool (set_worker i c' (pool_ w1)) w1) in H2.
  pose proof (mexec_free (OBody i) w2 Hb) as H3. set (w3 := free (OBody i) w2) in H3.
  assert (Ho3 : OWorker i ∉ freed w3).
  { subst w3. cbn. rewrite not_elem_of_app. split; [done|]. by rewrite list_elem_of_singleton. }
  destruct (mexec_cancel (TWorker i) w3 Ho3) as [ca4 H4].
  set (w4 := World _ _ _ ca4 _ _ _) in H4. pose proof (mexec_free (OWorker i) w4 Ho3) as H5.
  exists ca4, c'. split; [done|].
  eapply mexec_cons; [exact H1|]. eapply mexec_cons; [exact H2|]. eapply mexec_cons; [exact H3|].
  eapply mexec_cons; [exact H4|]. revert H5. subst w4 w3 w2 w1. unfold free; cbn. rewrite Hc, <-app_assoc. done.
Qed.

(** The whole loop. *)
Lemma delete_all l w :
  NoDup l -> clear_at w = None ->
  (forall i, i ∈ l -> OBody i ∉ freed w /\ OWorker i ∉ freed w /\
     exists c, ws (pool_ w) !! i = Some c /\ Z.of_nat (length (elemsW (tasks_ (sh c)))) <= sem_ (sh c)) ->
  exists ca l', mexec (delete_workers l) w
      (World (with_ws l' (pool_ w)) (todo w) None ca (dead w) (freed w ++ worker_objects l) (misuse w)) /\
    length l' = length (ws (pool_ w)) /\
    forall i c, ws (pool_ w) !! i = Some c ->
      exists c', l' !! i = Some c' /\ (i ∈ l -> cleared elemsW c c') /\ (i ∉ l -> c' = c).
Proof.
  revert w. induction l as [|i l IH]; intros w Hnd Hc Hl.
  { exists (cancelled w), (ws (pool_ w)). split_and!; [|done|].
    - intros rest. exists 0%nat. cbn. rewrite app_nil_r, <-Hc. by destruct w as [[]].
    - intros i c Hi. exists c. split_and!; [done|by intros ?%elem_of_nil|done]. }
  apply NoDup_cons in Hnd as [Hni Hnd].
  destruct (Hl i ltac:(by left)) as (Hb&Ho&c&Hi&Ht).
  destruct (delete_one w i c Hc Hb Ho Hi Ht) as (ca&c'&Hcl&H1).
  set (w1 := World _ _ _ ca _ _ _) in H1.
  destruct (IH w1) as (ca2&l2&H2&Hlen&Hl2); [done|done| |].
  { intros j Hj. destruct (Hl j ltac:(by right)) as (Hbj&Hoj&cj&Hcj&Htj). assert (j <> i) by congruence.
    subst w1. cbn. rewrite !not_elem_of_app, !not_elem_of_cons. split_and!; try congruence; try done; try apply not_elem_of_nil.
    exists cj. by rewrite list_lookup_insert_ne. }
  exists ca2, l2. split; [|split].
  - eapply (mexec_app (DCancel (TWorker i) :: delete_worker i)); [exact H1|]. revert H2. subst w1. cbn. by rewrite <-app_assoc.
  - rewrite Hlen. subst w1. cbn. by rewrite length_insert.
  - intros j cj Hj. destruct (decide (j = i)) as [->|Hne].
    + simplify_eq. destruct (Hl2 i c') as (c2&E2&_&Hs2); [subst w1; cbn; rewrite list_lookup_insert_eq; [done|by eapply lookup_lt_Some]|].
      exists c2. split_and!; [done| |intros []; by left]. by rewrite (Hs2 Hni).
    + destruct (Hl2 j cj) as (c2&E2&Hi2&Hs2); [subst w1; cbn; by rewrite list_lookup_insert_ne|].
      exists c2. split_and!; [done| |]; rewrite elem_of_cons; [intros [?|?]|intros ?]; try done; [by apply Hi2|].
      apply Hs2. naive_solver.
Qed.

(** The end of the destructors. *)
Lemma delete_rest w :
  ODispatcher ∉ freed w -> OSelf ∉ freed w -> OPool ∉ freed w ->
  exists ca, mexec [DFree ODispatcher; DCancel TDispatcher; DFree OSelf; DFree OPool] w
    (World (pool_ w) (todo w) (clear_at w) ca (dead w) (freed w ++ [ODispatcher; OSelf; OPool]) (misuse w)).
Proof.
  intros Hd Hs Hp. pose proof (mexec_free ODispatcher w Hd) as H1. set (w1 := free _ _) in H1.
  assert (Hx : forall o, o ∉ freed w -> o <> ODispatcher -> o ∉ freed w1).
  { intros o Ho Hne. subst w1. cbn. by rewrite not_elem_of_app, list_elem_of_singleton. }
  destruct (mexec_cancel TDispatcher w1) as [ca H2]; [by apply Hx|]. set (w2 := World _ _ _ ca _ _ _) in H2.
  pose proof (mexec_free OSelf w2 (Hx _ Hs ltac:(done))) as H3. set (w3 := free _ _) in H3.
  assert (Hp3 : OPool ∉ freed w3).
  { subst w3. cbn [free freed]. rewrite not_elem_of_app, list_elem_of_singleton. split; [by apply (Hx OPool)|done]. }
  pose proof (mexec_free OPool w3 Hp3) as H4. exists ca.
  eapply mexec_cons; [exact H1|]. eapply mexec_cons; [exact H2|]. eapply mexec_cons; [exact H3|].
  revert H4. subst w3 w2 w1. unfold free. cbn. by rewrite <-!app_assoc.
Qed.

Lemma worker_objects_not o l : match o with OWorker _ | OBody _ => False | _ => True end -> o ∉ worker_objects l.
Proof.
  intros Ho. unfold worker_objects. rewrite list_elem_of_join. intros (os&Hin&Hos).
  apply list_elem_of_fmap in Hos as (i&->&_). apply elem_of_cons in Hin as [->|Hin]; [done|].
  by apply list_elem_of_singleton in Hin as ->.
Qed.

Lemma worker_objects_nodup l : NoDup l -> NoDup (worker_objects l).
Proof.
  induction 1 as [|i l Hi Hl IH]; [constructor|]. change (NoDup ([OBody i; OWorker i] ++ worker_objects l)).
  apply NoDup_app. split_and!; [by repeat constructor; rewrite ?list_elem_of_singleton; try apply not_elem_of_nil| |done].
  intros o Ho. unfold worker_objects. rewrite list_elem_of_join. intros (os&Hin&Hos).
  apply list_elem_of_fmap in Hos as (j&->&Hj).
  assert (i = j) as -> by set_solver. done.
Qed.

Lemma pool_objects_nodup : NoDup (pool_objects workerNum_).
Proof.
  apply NoDup_app. split_and!; [apply worker_objects_nodup, NoDup_seq| |].
  - intros o Ho Hr. apply (worker_objects_not o (seq 0 (Z.to_nat workerNum_))); [|done].
    rewrite !elem_of_cons in Hr. by destruct Hr as [->|[->|[->|?%elem_of_nil]]].
  - repeat constructor; rewrite ?not_elem_of_cons; split_and?; try done; apply not_elem_of_nil.
Qed.

(** [delete pool] when the threads owe nothing to the semaphores. *)
Lemma delete_pool_runs w :
  clear_at w = None -> freed w = [] -> Z.of_nat (length (ws (pool_ w))) = workerNum_ ->
  Z.of_nat (length (elemsD (tasks_ (sh (self (pool_ w)))))) <= sem_ (sh (self (pool_ w))) ->
  (forall i c, ws (pool_ w) !! i = Some c -> Z.of_nat (length (elemsW (tasks_ (sh c)))) <= sem_ (sh c)) ->
  exists w', mexec (delete_pool workerNum_) w w' /\ misuse w' = misuse w /\ freed w' = pool_objects workerNum_ /\
    cleared elemsD (self (pool_ w)) (self (pool_ w')) /\ Forall2 (cleared elemsW) (ws (pool_ w)) (ws (pool_ w')).
Proof.
  intros Hc Hf Hlen HtD HtW.
  destruct (mexec_clear_self w Hc) as (c1&Hc1&H1); [rewrite Hf; apply not_elem_of_nil|done|].
  set (w1 := set_pool _ _) in H1.
  destruct (delete_all (seq 0 (Z.to_nat workerNum_)) w1) as (ca&l'&H2&Hlen'&Hl'); [apply NoDup_seq|done| |].
  { intros i Hi. subst w1. cbn. rewrite Hf. split_and!; [apply not_elem_of_nil..|]. apply elem_of_seq in Hi.
    destruct (lookup_lt_is_Some_2 (ws (pool_ w)) i ltac:(lia)) as [c Hi']. exists c. split; [done|by eapply HtW]. }
  set (w2 := World _ _ _ ca _ _ _) in H2.
  assert (Hfr : freed w2 = worker_objects (seq 0 (Z.to_nat workerNum_))) by (subst w2 w1; cbn; by rewrite Hf).
  destruct (delete_rest w2) as [ca3 H3]; [rewrite Hfr; by apply worker_objects_not..|].
  eexists. split; [|split_and!].
  - unfold delete_pool, delete_dispatcher. cbn [app]. rewrite <-app_assoc.
    eapply mexec_cons; [exact H1|]. eapply mexec_app; [exact H2|exact H3].
  - done.
  - cbn -[freed]. change (freed w2 ++ [ODispatcher; OSelf; OPool] = pool_objects workerNum_). by rewrite Hfr.
  - done.
  - apply Forall2_same_length_lookup_2; [done|]. intros i c c' Hi Hi'.
    destruct (Hl' i c Hi) as (c2&Hc2&Hin&_). cbn in Hi'. simplify_eq. apply Hin, elem_of_seq.
    apply lookup_lt_Some in Hi. lia.
Qed.

(** ** The pool is destroyed *)

Lemma ended_idle {Q} (c : cfg (G:=body (Q:=Q)) (L:=loc) (C:=unit)) : ended c = true -> ths c !! 0%nat = Some Idle.
Proof. unfold ended. by destruct (ths c !! 0%nat) as [[]|]. Qed.

(** A quiescent pool has a token for every pending task. *)
Lemma quiescent_rests w :
  SInv w -> quiescent w -> rests (self (pool_ w)) /\ forall i c, ws (pool_ w) !! i = Some c -> rests c.
Proof.
  intros [S1 S2 S3 S4 S5 S6 S7] [Q1 [Q2 Q3]].
  assert (Hself : (d_at (pool_ w) = Prep \/ d_at (pool_ w) = InBody) /\
    forall x, ths (self (pool_ w)) !! 0%nat = Some x -> owed x = 0).
  { destruct Q1 as [Q1|Q1].
    - cbn in Q1. apply negb_false_iff, ended_idle in Q1. split; [|intros x Hx; by simplify_eq].
      destruct (d_at (pool_ w)) eqn:E; [by left|by right|].
      destruct (pi_on _ _ S1) as (l&Hl&_); [by rewrite E|]. congruence.
    - destruct (S7 _ Q1) as (Hat&l&Hl&Ho). split; [done|]. intros x Hx. by simplify_eq. }
  destruct Hself as [Hat H0]. split.
  - apply (rests_idle _ 1 Q2). intros k x Hk Hx. assert (k = 0%nat) as -> by lia. by apply H0.
  - intros i c Hc. destruct (Q3 i c Hc) as [Qi Qc]. apply (rests_idle _ 2 Qc). intros k x Hk Hx.
    destruct (pi_ws _ _ S1 i c Hc) as (_&_&Hp). assert (ths c !! 1%nat = Some Idle) by (destruct Hat as [E|E]; by rewrite E in Hp).
    assert (k = 0 \/ k = 1)%nat as [->| ->] by lia; [|by simplify_eq].
    destruct Qi as [Qi|Qi].
    + cbn in Qi. rewrite Hc in Qi. apply negb_false_iff, ended_idle in Qi. by simplify_eq.
    + destruct (S7 _ Qi) as (c1&l&Hc1&Hl&Ho). by simplify_eq.
Qed.

(** C10. The destruction of the pool, for 1 to 31 workers, after any interleaving of its
    threads with clients and with [ForceShutdown]: once no client is inside a call and every
    thread has ended or, cancelled, has died, [delete pool] comes to its end, every object of
    the pool is deleted exactly once and none is used after that; the queue and the mailboxes
    are empty and exactly the tasks in them that own themselves have been deleted. *)
Theorem pool_destroyed (qd : QD) (qw : QW) (tm : list bool) (clients : nat) (acts : list wact) :
  elemsD qd = [] -> elemsW qw = [] ->
  exists p0, Pool_init workerNum_ qd qw tm clients = Some p0 /\
    forall w, WDelete ∉ acts -> wsteps acts (world_init p0) = Some w -> todo w = [] -> quiescent w ->
      exists n w', main_steps n (set_todo (delete_pool workerNum_) w) = Some w' /\
        todo w' = [] /\ misuse w' = false /\ freed w' = pool_objects workerNum_ /\ NoDup (freed w') /\
        cleared elemsD (self (pool_ w)) (self (pool_ w')) /\
        Forall2 (cleared elemsW) (ws (pool_ w)) (ws (pool_ w')).
Proof.
  intros Hqd Hqw. destruct (Pool_init_inv workerNum_ Hn qd qw tm clients Hqd Hqw) as (p0&E0&HP0).
  exists p0. split; [done|]. intros w Hd Hw Ht Hq.
  assert (Hp0 : prep_at p0).
  { unfold Pool_init in E0. destruct (Dispatcher_init workerNum_ []); [|done]. by injection E0 as <-. }
  assert (HS : SInv w).
  { eapply SInv_steps; [|exact Hd|exact Hw]. split; cbn; try done. by intros th ?%elem_of_nil. }
  destruct (quiescent_rests w HS Hq) as [R1 R2]. destruct HS as [S1 S2 S3 S4 S5 S6 S7].
  destruct (delete_pool_runs w) as (w'&H1&H2&H3&H4&H5); [done|done|apply S1| | |].
  { eapply sound_tokens; [apply S1|done]. }
  { intros i c Hc. eapply sound_tokens; [apply (pi_ws _ _ S1 i c Hc)|by eapply R2]. }
  destruct (H1 []) as [n Hn1]. rewrite app_nil_r in Hn1. exists n, (set_todo [] w').
  split; [done|]. split; [done|]. split; [cbn; congruence|]. split; [done|].
  split; [|done]. cbn. rewrite H3. apply pool_objects_nodup.
Qed.
End Destruction.

(** ** Two pools that are shut down *)

Abbreviation demo_world := (world prio_queue mailbox).
Abbreviation demo_wsteps n := (world_steps (CD:=prio_container) (QW:=mailbox) n 1024 1024).
Abbreviation demo_main := (main_steps (CD:=prio_container) (QW:=mailbox) 1024 1024).

Definition wposts (n : Z) (l : list ITask) : list wact := map WPool (StartPooling n ++ mjoin (map post l)).

(** Two workers and four tasks, two of them bound to worker 0: each worker runs a task, worker
    0 has one more in its mailbox, and the fourth is in the dispatcher's queue;
    [ForceShutdown]; all threads die. *)
Definition four_tasks : list ITask :=
  [new_ITask 1 true TP_NORMAL; SetAffinity (new_ITask 2 true TP_EXTREME) 0;
   SetAffinity (new_ITask 3 true TP_HIGH) 0; new_ITask 4 true TP_LOW].
Definition forced : list wact :=
  wposts 2 four_tasks ++
  map WPool (replicate 40 ADispatcher ++ replicate 6 (AWorker 0) ++ replicate 6 (AWorker 1)) ++
  [WForce] ++ replicate 4 WMain ++ [WDie TDispatcher; WDie (TWorker 0); WDie (TWorker 1)].

Lemma pool_destroyed_witness :
  exists p0, demo_pool 2 = Some p0 /\
    exists w, demo_wsteps 2 forced (world_init p0) = Some w /\ todo w = [] /\ quiescent w /\
      exists n w', demo_main n (set_todo (delete_pool 2) w) = Some w' /\
        todo w' = [] /\ misuse w' = false /\ freed w' = pool_objects 2 /\ NoDup (freed w') /\
        cleared (prio_order best) (self (pool_ w)) (self (pool_ w')) /\
        Forall2 (cleared queue_) (ws (pool_ w)) (ws (pool_ w')).
Proof.
  destruct (pool_destroyed (SD:=prio_spec) (elemsW:=queue_) 2 1024 1024 ltac:(lia)
    (Prio []) (Deque []) [] 1 forced eq_refl eq_refl) as (p0&E&H).
  exists p0. split; [exact E|]. vm_compute in E. injection E as E.
  assert (Hd : WDelete ∉ forced) by (intros Hd%list_elem_of_In; vm_compute in Hd; intuition discriminate).
  evar (w : demo_world).
  assert (Ew : demo_wsteps 2 forced (world_init p0) = Some w) by (subst p0 w; vm_compute; reflexivity).
  assert (Hq : quiescent w).
  { subst w. split; [right; by left|]. split; [by repeat constructor|].
    intros [|[|i]] c Hc; [| |done]; injection Hc as <-; (split; [right; by repeat (left || right)|by repeat constructor]). }
  exists w. split; [exact Ew|]. split; [reflexivity|]. split; [exact Hq|]. by apply (H w Hd Ew).
Defined.

(** The tasks 1 and 2 were in the hands of the workers and are lost; 3 and 4 are deleted. *)
Example forced_run :
  match demo_pool 2 with
  | Some p0 =>
      match demo_wsteps 2 (forced ++ [WDelete] ++ replicate 23 WMain) (world_init p0) with
      | Some w => todo w = [] /\ map addr (deletes (effects_ (sh (self (pool_ w))))) = [4%nat] /\
          map (fun c => map addr (deletes (effects_ (sh c)))) (ws (pool_ w)) = [[3%nat]; []]
      | None => False
      end
  | None => False
  end.
Proof. by vm_compute. Qed.

(** [IsRunning] of a killed thread is [true] for ever: nobody resets [busy_]. *)
Lemma killed_stays_busy {QD QW} (th : thread) (p : Pool QD QW) : resting th p -> busy th p = true.
Proof.
  destruct th as [|i]; cbn.
  - intros (_&l&Hl&_). unfold ended. by rewrite Hl.
  - intros (c&l&Hc&Hl&_). rewrite Hc. unfold ended. by rewrite Hl.
Qed.

(** A pool of one worker is deleted while its threads wait for work. *)
Definition deleted_running : list wact :=
  map WPool (StartPooling 1 ++ replicate 3 ADispatcher ++ replicate 2 (AWorker 0)) ++
  [WDelete] ++ replicate 7 WMain.

(** [delete pool] frees the dispatcher before it cancels the thread that runs it: that
    thread is still inside [sem_wait] on the freed body. *)
Lemma delete_running_misuse :
  match demo_pool 1 with
  | Some p0 =>
      match demo_wsteps 1 deleted_running (world_init p0) with
      | Some w =>
          ODispatcher ∈ freed w /\ busy TDispatcher (pool_ w) = true /\ TDispatcher ∉ cancelled w /\
          match demo_wsteps 1 [WPool ADispatcher] w with Some w' => misuse w' = true | None => False end
      | None => False
      end
  | None => False
  end.
Proof. vm_compute. set_solver. Qed.

(** ** The constructors when memory runs out *)

(** What the next [new] says; after the list memory is plenty. *)
Definition malloc (al : list bool) : bool * list bool :=
  match al with [] => (true, []) | b :: al' => (b, al') end.

Definition delete_objects (l live : list object) : list object := filter (fun o => o ∉ l) live.

(** The loop of [Dispatcher::Dispatcher] from worker [i] on: the objects that are alive and
    whether it comes to its end.  A [Worker] is two objects; the [catch] deletes the workers
    made so far. *)
Fixpoint new_workers (n i : nat) (al : list bool) (live : list object) : list object * list bool * bool :=
  match n with
  | O => (live, al, true)
  | S n' =>
      let '(ok1, al) := malloc al in
      let '(ok2, al) := if ok1 then malloc al else (false, al) in
      if ok2 then new_workers n' (S i) al (live ++ [OBody i; OWorker i])
      else (delete_objects (worker_objects (seq 0 i)) live, al, false)
  end.

Definition new_dispatcher (n : nat) (al : list bool) (live : list object) : list object * list bool * bool :=
  let '(ok, al) := malloc al in
  if ok then
    let '(live, al, ok) := new_workers n 0 al (live ++ [ODispatcher]) in
    if ok then (live, al, true) else (delete_objects [ODispatcher] live, al, false)
  else (live, al, false).

(** [ThreadPool::ThreadPool] on the heap. *)
Definition new_pool (n : nat) (al : list bool) : list object * bool :=
  let live := [OPool] in
  let '(live, al, ok) := new_dispatcher n al live in
  if ok then
    let '(ok, al) := malloc al in
    if ok then (live ++ [OSelf], true)
    else (delete_objects [OPool] (delete_objects [ODispatcher] (delete_objects (worker_objects (seq 0 n)) live)), false)
  else (delete_objects [OPool] live, false).

Lemma delete_objects_last l live : (forall o, o ∈ l -> o ∉ live) -> delete_objects l (live ++ l) = live.
Proof.
  intros Hl. assert (H1 : forall k, (forall o, o ∈ k -> o ∉ l) -> delete_objects l k = k).
  { induction k as [|x k IH]; intros Hk; [done|]. unfold delete_objects. rewrite filter_cons_True by (apply Hk; by left).
    f_equal. apply IH. intros o Ho. apply Hk. by right. }
  assert (H2 : forall k, (forall o, o ∈ k -> o ∈ l) -> delete_objects l k = []).
  { induction k as [|x k IH]; intros Hk; [done|]. unfold delete_objects.
    rewrite filter_cons_False by (intros Hx; apply Hx, Hk; by left). apply IH. intros o Ho. apply Hk. by right. }
  unfold delete_objects in *. rewrite filter_app, H1, H2 by set_solver. by rewrite app_nil_r.
Qed.

Lemma new_workers_spec n i al live :
  (forall o, o ∈ worker_objects (seq 0 (i + n)) -> o ∉ live) ->
  exists al', new_workers n i al (live ++ worker_objects (seq 0 i)) =
      (live ++ worker_objects (seq 0 (i + n)), al', true) \/
    new_workers n i al (live ++ worker_objects (seq 0 i)) = (live, al', false).
Proof.
  revert i al. induction n as [|n IH]; intros i al Hl; cbn [new_workers].
  { exists al. left. by rewrite Nat.add_0_r. }
  assert (Hcatch : delete_objects (worker_objects (seq 0 i)) (live ++ worker_objects (seq 0 i)) = live).
  { apply delete_objects_last. intros o Ho. apply Hl. unfold worker_objects in *.
    rewrite seq_app, map_app, join_app. apply elem_of_app. by left. }
  assert (Hnext : live ++ worker_objects (seq 0 (S i)) = (live ++ worker_objects (seq 0 i)) ++ [OBody i; OWorker i]).
  { rewrite seq_S. unfold worker_objects. by rewrite map_app, join_app, <-app_assoc. }
  destruct (malloc al) as [[] al1]; [|cbn; rewrite Hcatch; eauto].
  destruct (malloc al1) as [[] al2]; [|cbn; rewrite Hcatch; eauto].
  rewrite <-Hnext. replace (i + S n)%nat with (S i + n)%nat by lia. apply IH.
  intros o Ho. apply Hl. by replace (i + S n)%nat with (S i + n)%nat by lia.
Qed.

(** Whichever allocation fails, the constructor throws and everything it has allocated has been
    given back; otherwise the pool consists of its objects. *)
Lemma new_pool_leaks_nothing n al :
  match new_pool n al with
  | (live, true) => live = [OPool; ODispatcher] ++ worker_objects (seq 0 n) ++ [OSelf]
  | (live, false) => live = []
  end.
Proof.
  assert (Hp : delete_objects [OPool] [OPool] = []) by apply (delete_objects_last [OPool] []), (fun o _ => not_elem_of_nil o).
  assert (Hw : forall o, o ∈ worker_objects (seq 0 n) -> o ∉ [OPool] ++ [ODispatcher]).
  { intros o Ho Hin. apply (worker_objects_not o (seq 0 n)); [|done].
    apply elem_of_cons in Hin as [->| ->%list_elem_of_singleton]; done. }
  assert (Hd : delete_objects [ODispatcher] ([OPool] ++ [ODispatcher]) = [OPool]) by (apply delete_objects_last; set_solver).
  unfold new_pool, new_dispatcher. destruct (malloc al) as [[] al1]; [|by rewrite Hp].
  destruct (new_workers_spec n 0 al1 ([OPool] ++ [ODispatcher])) as [al2 H].
  { exact Hw. }
  unfold worker_objects in H at 1 3. cbn [seq map mjoin list_join] in H. rewrite !app_nil_r in H.
  change (0 + n)%nat with n in H. destruct H as [H|H]; rewrite H.
  - destruct (malloc al2) as [[] al3]; [by rewrite <-!app_assoc|].
    by rewrite (delete_objects_last _ _ Hw), Hd, Hp.
  - by rewrite Hd, Hp.
Qed.
