(* ===== verification/HttpBuffer.v ===== *)
(** * HttpBuffer.v: [http/HttpBuffer.h] and [http/HttpBuffer.cc]

[HttpReadBuffer]: one block of memory with a window of content.  The window
always lies inside the block, consuming drops bytes from its front, and reading
into the free part appends to it.

[HttpBufferList] and [HttpWriteBuffer]: linked lists of buffers on a heap that
maps an address to the node at that address.  The list is a first-in-first-out
queue; the free lists are stacks, one per size class, that own disjoint sets of
buffers, so that a buffer is handed out by at most one allocation at a time and
is as large as was asked for. *)

From S2P Require Import Prelude Machine.

(** ** [HttpReadBuffer] *)

(** [memory_] has [size_] usable bytes; [curPtr_] is an offset in it. *)
Record HttpReadBuffer : Type := RB { memory_ : bytes; curPtr_ : Z; curSize_ : Z }.

Definition size_ (b : HttpReadBuffer) : Z := blen (memory_ b).

(** [junk] is what [malloc] returned. *)
Definition HttpReadBuffer_init (junk : bytes) : HttpReadBuffer := RB junk 0 0.

Definition ResetBuffer (b : HttpReadBuffer) : HttpReadBuffer := RB (memory_ b) 0 0.

Definition ConsumeBuffer (sz : Z) (b : HttpReadBuffer) : HttpReadBuffer :=
  let sz := if curSize_ b <? sz then curSize_ b else sz in
  RB (memory_ b) (if sz =? curSize_ b then 0 else curPtr_ b + sz) (curSize_ b - sz).

(** Offsets in [memory_]; [None] is [NULL]. *)
Definition GetContentPoint (off : Z) (b : HttpReadBuffer) : option Z :=
  if curSize_ b <=? off then None else Some (curPtr_ b + off).
Definition GetContentStart (b : HttpReadBuffer) : Z := curPtr_ b.
Definition GetContentEnd (b : HttpReadBuffer) : Z := curPtr_ b + curSize_ b.
Definition GetContenLen (b : HttpReadBuffer) : Z := curSize_ b.

(** The bytes between two offsets. *)
Definition range (s e : Z) (b : HttpReadBuffer) : bytes :=
  slice (memory_ b) (Z.to_nat s) (Z.to_nat (e - s)).

Definition content (b : HttpReadBuffer) : bytes := range (GetContentStart b) (GetContentEnd b) b.

Definition MoveDataToFront (b : HttpReadBuffer) : HttpReadBuffer :=
  RB (blit (memory_ b) 0 (content b)) 0 (curSize_ b).

Definition MINI_SOCKET_READ_SIZE : Z := 64.

(** The buffer, the offset of its free part and its size. *)
Definition GetFreeBuffer (b : HttpReadBuffer) : HttpReadBuffer * Z * Z :=
  let left := size_ b - curPtr_ b - curSize_ b in
  let b := if left <? MINI_SOCKET_READ_SIZE then MoveDataToFront b else b in
  (b, curPtr_ b + curSize_ b, size_ b - (curPtr_ b + curSize_ b)).

(** What the owner writes through the pointer [GetFreeBuffer] gave. *)
Definition write_at (off : Z) (data : bytes) (b : HttpReadBuffer) : HttpReadBuffer :=
  RB (blit (memory_ b) (Z.to_nat off) data) (curPtr_ b) (curSize_ b).

(** [None] when the [assert] fails. *)
Definition IncreaseContentRange (sz : Z) (b : HttpReadBuffer) : option HttpReadBuffer :=
  let b' := RB (memory_ b) (curPtr_ b) (curSize_ b + sz) in
  if curPtr_ b' + curSize_ b' <=? size_ b' then Some b' else None.

Record rb_inv (b : HttpReadBuffer) : Prop := {
  rb_ptr : 0 <= curPtr_ b; rb_size : 0 <= curSize_ b; rb_end : curPtr_ b + curSize_ b <= size_ b
}.

Lemma content_length b : rb_inv b -> blen (content b) = curSize_ b.
Proof.
  intros [H1 H2 H3]. unfold content, range, GetContentStart, GetContentEnd, size_, blen in *.
  rewrite length_slice; lia.
Qed.

Lemma rb_inv_init junk : rb_inv (HttpReadBuffer_init junk).
Proof. split; simpl; try lia. unfold size_. simpl. pose proof (blen_nonneg junk). lia. Qed.

Lemma ConsumeBuffer_inv sz b : 0 <= sz -> rb_inv b -> rb_inv (ConsumeBuffer sz b).
Proof.
  intros Hs [H1 H2 H3]. unfold ConsumeBuffer. cbv zeta.
  destruct (Z.ltb_spec (curSize_ b) sz); [rewrite Z.eqb_refl|destruct (Z.eqb_spec sz (curSize_ b))];
    split; unfold size_ in *; simpl; lia.
Qed.

Lemma ConsumeBuffer_size sz b : size_ (ConsumeBuffer sz b) = size_ b.
Proof. unfold ConsumeBuffer. cbv zeta. by repeat case_match. Qed.

(** Consuming removes bytes from the front of the content. *)
Lemma content_ConsumeBuffer sz b :
  0 <= sz -> rb_inv b -> content (ConsumeBuffer sz b) = drop (Z.to_nat sz) (content b).
Proof.
  intros Hs HI. pose proof (content_length b HI) as Hl. destruct HI as [H1 H2 H3].
  assert (Hall : curSize_ b <= sz -> drop (Z.to_nat sz) (content b) = []).
  { intros. apply drop_ge. unfold blen in Hl. lia. }
  assert (Hnil : forall m p, content (RB m p 0) = []).
  { intros. unfold content, range, slice, GetContentStart, GetContentEnd. simpl.
    by replace (Z.to_nat (p + 0 - p)) with 0%nat by lia. }
  unfold ConsumeBuffer. cbv zeta.
  destruct (Z.ltb_spec (curSize_ b) sz).
  - by rewrite Z.sub_diag, Hnil, Hall by lia.
  - destruct (Z.eqb_spec sz (curSize_ b)) as [E|E].
    + rewrite E, Z.sub_diag, Hnil, <-E, Hall by lia. done.
    + unfold content, range, slice, GetContentStart, GetContentEnd. simpl.
      rewrite skipn_firstn_comm, drop_drop. f_equal; [lia|]. f_equal. lia.
Qed.

Lemma MoveDataToFront_spec b :
  rb_inv b -> rb_inv (MoveDataToFront b) /\ content (MoveDataToFront b) = content b /\
    size_ (MoveDataToFront b) = size_ b.
Proof.
  intros HI. pose proof (content_length b HI) as Hl. destruct HI as [H1 H2 H3].
  assert (Hfit : (0 + length (content b) <= length (memory_ b))%nat)
    by (unfold blen, size_, blen in *; lia).
  assert (Hsz : size_ (MoveDataToFront b) = size_ b).
  { unfold size_, blen. simpl. rewrite length_blit by done. done. }
  split; [|split; [|done]].
  - split; rewrite ?Hsz; simpl; lia.
  - assert (Hcs : curSize_ b = blen (content b)) by done.
    unfold content at 1. unfold range, GetContentStart, GetContentEnd. cbn [MoveDataToFront memory_ curPtr_ curSize_].
    rewrite Hcs. unfold blen. replace (Z.to_nat (0 + _ - 0)) with (length (content b)) by lia.
    by apply slice_blit.
Qed.

Lemma GetFreeBuffer_spec b b' off sz :
  rb_inv b -> GetFreeBuffer b = (b', off, sz) ->
  rb_inv b' /\ content b' = content b /\ size_ b' = size_ b /\
  off = GetContentEnd b' /\ 0 <= sz /\ off + sz = size_ b' /\
  (MINI_SOCKET_READ_SIZE <= sz \/ sz = size_ b - curSize_ b).
Proof.
  intros HI. unfold GetFreeBuffer. cbv zeta. destruct (MoveDataToFront_spec b HI) as (Hi&Hc&Hs).
  destruct (Z.ltb_spec (size_ b - curPtr_ b - curSize_ b) MINI_SOCKET_READ_SIZE); intros [= <- <- <-].
  - pose proof (rb_end _ Hi). rewrite Hs in *. unfold GetContentEnd. simpl in *.
    repeat (split; [done || lia|]). right. lia.
  - destruct HI as [H1 H2 H3]. repeat (split; [done || lia|]). left. lia.
Qed.

(** Writing after the content and increasing the range appends. *)
Lemma append_spec b data :
  rb_inv b -> GetContentEnd b + blen data <= size_ b ->
  exists b', IncreaseContentRange (blen data) (write_at (GetContentEnd b) data b) = Some b' /\
    rb_inv b' /\ content b' = content b ++ data /\ size_ b' = size_ b.
Proof.
  intros HI Hfit. pose proof (content_length b HI) as Hl. destruct HI as [H1 H2 H3].
  unfold IncreaseContentRange. cbv zeta. unfold GetContentEnd in *.
  assert (Hlen : (Z.to_nat (curPtr_ b + curSize_ b) + length data <= length (memory_ b))%nat)
    by (unfold size_, blen in *; lia).
  assert (Hsz : size_ (RB (blit (memory_ b) (Z.to_nat (curPtr_ b + curSize_ b)) data) (curPtr_ b)
    (curSize_ b + blen data)) = size_ b).
  { unfold size_, blen. simpl. by rewrite length_blit. }
  cbn [memory_ curPtr_ curSize_ write_at] in *. rewrite Hsz.
  rewrite (proj2 (Z.leb_le _ _)) by lia. eexists. split; [reflexivity|]. rewrite Hsz.
  split; [|split; [|done]].
  - pose proof (blen_nonneg data). split; rewrite ?Hsz; simpl; lia.
  - unfold content, range, GetContentStart, GetContentEnd. cbn [memory_ curPtr_ curSize_].
    unfold slice. rewrite !firstn_skipn_comm.
    replace (Z.to_nat (curPtr_ b) + Z.to_nat (curPtr_ b + (curSize_ b + blen data) - curPtr_ b))%nat
      with (Z.to_nat (curPtr_ b + curSize_ b) + length data)%nat by (unfold blen; lia).
    rewrite take_blit_end, drop_app_le by (rewrite ?length_take; lia).
    do 2 f_equal. f_equal. lia.
Qed.

(** C23. Filling the read buffer as [HttpClient::ReadHttpData] does: the free part
    [GetFreeBuffer] returns lies inside the block, keeps the content (also when
    it moves it to the front) and is at least 64 bytes or all that is left;
    receiving at most that many bytes into it and increasing the range never
    trips the [assert] and appends exactly the received bytes. *)
Theorem read_buffer_fill (b b1 : HttpReadBuffer) (off sz : Z) (data : bytes) :
  rb_inv b -> GetFreeBuffer b = (b1, off, sz) -> blen data <= sz ->
  (MINI_SOCKET_READ_SIZE <= sz \/ sz = size_ b - curSize_ b) /\
  exists b2, IncreaseContentRange (blen data) (write_at off data b1) = Some b2 /\
    rb_inv b2 /\ content b2 = content b ++ data /\ size_ b2 = size_ b.
Proof.
  intros HI Hg Hd. destruct (GetFreeBuffer_spec _ _ _ _ HI Hg) as (Hi&Hc&Hs&->&H0&He&Hm).
  split; [done|]. rewrite <-Hc, <-Hs. apply append_spec; [done|lia].
Qed.

Lemma read_buffer_fill_witness :
  let b := RB (bs "abcdefgh") 5 2 in
  (MINI_SOCKET_READ_SIZE <= 6 \/ 6 = size_ b - curSize_ b) /\
  exists b2, IncreaseContentRange (blen (bs "XY")) (write_at 2 (bs "XY") (RB (bs "fgcdefgh") 0 2)) = Some b2 /\
    rb_inv b2 /\ content b2 = content b ++ bs "XY" /\ size_ b2 = size_ b.
Proof.
  apply (read_buffer_fill (RB (bs "abcdefgh") 5 2) (RB (bs "fgcdefgh") 0 2) 2 6);
    [split; vm_compute; discriminate|reflexivity|vm_compute; discriminate].
Defined.

(** ** Buffers on the heap *)

(** A [struct HttpBuffer]; [b_curPtr] is an offset from [memory_]. *)
Record HttpBuffer : Type := HB {
  b_size : Z; b_curSize : Z; b_curPtr : Z; next_ : option nat; b_memory : bytes
}.

Abbreviation heap := (gmap nat HttpBuffer).

Definition set_next (p : option nat) (x : HttpBuffer) : HttpBuffer :=
  HB (b_size x) (b_curSize x) (b_curPtr x) p (b_memory x).

(** [curPtr_ = memory_; curSize_ = 0; next_ = p] *)
Definition recycle (p : option nat) (x : HttpBuffer) : HttpBuffer :=
  HB (b_size x) 0 0 p (b_memory x).

(** The structure is 32 bytes and [memory_] its offset 24: [memory_] has
    [sz + 8] bytes.  [ok] says whether [malloc] succeeds.  What [malloc] leaves in
    [memory_] is taken to be NULs; no theorem rests on it: a fresh buffer is empty
    ([b_curSize] 0), of its memory only the length is used, and the response is
    written over whatever it holds (the heap and the memory of [GenerateResponse_spec] are
    arbitrary). *)
Definition AllocHttpBuffer (ok : bool) (sz : Z) (h : heap) : heap * option nat :=
  if ok then
    let a := fresh (dom h) in
    (<[a := HB sz 0 0 None (replicate (Z.to_nat (sz + 8)) nul)]> h, Some a)
  else (h, None).

(** The list of addresses from [p] along [next_]. *)
Fixpoint path (h : heap) (p : option nat) (l : list nat) : Prop :=
  match l with
  | [] => p = None
  | a :: l' => p = Some a /\ exists x, h !! a = Some x /\ path h (next_ x) l'
  end.

Lemma path_frame h p l a x : a ∉ l -> path h p l -> path (<[a:=x]> h) p l.
Proof.
  revert p. induction l as [|b l IH]; intros p Ha; [done|]. simpl.
  intros (->&y&Hy&Hp). split; [done|]. exists y. split.
  - rewrite lookup_insert_ne; [done|]. set_solver.
  - apply IH; [set_solver|done].
Qed.

Lemma path_heap h p l a : path h p l -> a ∈ l -> is_Some (h !! a).
Proof.
  revert p. induction l as [|b l IH]; intros p Hp Ha; [set_solver|].
  destruct Hp as (->&y&Hy&Hp). apply elem_of_cons in Ha as [->|Ha]; [by eexists|by eapply IH].
Qed.

Lemma path_cons h p a l x :
  h !! a = Some x -> a ∉ l -> path h p l -> path (<[a := recycle p x]> h) (Some a) (a :: l).
Proof.
  intros Hx Ha Hp. split; [done|]. exists (recycle p x). split; [by rewrite lookup_insert_eq|].
  simpl. by apply path_frame.
Qed.

Lemma path_snoc h p l m y n :
  path h p (l ++ [m]) -> NoDup (l ++ [m]) -> h !! m = Some y ->
  n ∉ l ++ [m] -> (exists x, h !! n = Some x /\ next_ x = None) ->
  path (<[m := set_next (Some n) y]> h) p (l ++ [m] ++ [n]).
Proof.
  intros Hp Hnd Hy Hn (x&Hx&Hxn). revert p Hp Hnd Hn.
  induction l as [|a l IH]; intros p Hp Hnd Hn; simpl in *.
  - destruct Hp as (->&y'&Hy'&_). simplify_eq. split; [done|].
    exists (set_next (Some n) y). rewrite lookup_insert_eq. split; [done|]. simpl. split; [done|].
    exists x. rewrite lookup_insert_ne by set_solver. done.
  - apply NoDup_cons in Hnd as [Hnd1 Hnd2].
    destruct Hp as (->&z&Hz&Hp). split; [done|]. exists z. split.
    + rewrite lookup_insert_ne; [done|]. set_solver.
    + apply IH; [done|done|set_solver].
Qed.

(** ** [HttpBufferList] *)

Record HttpBufferList : Type := BL { head_ : option nat; tail_ : option nat }.

Definition HttpBufferList_init : HttpBufferList := BL None None.

Definition GetFront (b : HttpBufferList) : option nat := head_ b.
Definition GetTail (b : HttpBufferList) : option nat := tail_ b.

(** The results are [None] when a pointer is used that is not on the heap. *)
Definition PopFront (h : heap) (b : HttpBufferList) : option (HttpBufferList * option nat) :=
  match head_ b with
  | None => Some (BL None None, None)
  | Some a =>
      match h !! a with
      | Some x => Some (BL (next_ x) (if decide (next_ x = None) then None else tail_ b), Some a)
      | None => None
      end
  end.

Definition PushBack (node : nat) (h : heap) (b : HttpBufferList) : option (heap * HttpBufferList) :=
  match
    match tail_ b with
    | Some t => match h !! t with Some y => Some (<[t := set_next (Some node) y]> h) | None => None end
    | None => Some h
    end
  with
  | Some h' => Some (h', BL (match head_ b with None => Some node | Some a => Some a end) (Some node))
  | None => None
  end.

Record list_rep (h : heap) (b : HttpBufferList) (l : list nat) : Prop := {
  lr_path : path h (head_ b) l; lr_tail : tail_ b = last l; lr_nodup : NoDup l
}.

Lemma PushBack_rep (h : heap) (b : HttpBufferList) (l : list nat) n x :
  list_rep h b l -> n ∉ l -> h !! n = Some x -> next_ x = None ->
  exists h' b', PushBack n h b = Some (h', b') /\ list_rep h' b' (l ++ [n]) /\
    forall a, last l <> Some a -> h' !! a = h !! a.
Proof.
  intros [Hp Ht Hnd] Hn Hx Hxn. unfold PushBack. rewrite Ht.
  destruct l as [|m l' _] using rev_ind; simpl.
  { eexists _, _. split; [reflexivity|]. split; [|done]. simpl in Hp. rewrite Hp.
    split; simpl; [|done|by apply NoDup_singleton]. split; [done|]. exists x. by rewrite Hxn. }
  rewrite last_snoc. destruct (path_heap _ _ _ m Hp) as [y Hy]; [set_solver|]. rewrite Hy.
  assert (Hhd : exists a, head_ b = Some a).
  { destruct l'; destruct Hp as [-> _]; by eexists. }
  destruct Hhd as [a Ha]. rewrite Ha. eexists _, _. split; [reflexivity|].
  split; [split; simpl|].
  - rewrite <-app_assoc. rewrite <-Ha. apply path_snoc; [done..|]. by exists x.
  - by rewrite last_snoc.
  - apply NoDup_app. split; [done|]. split; [set_solver|by apply NoDup_singleton].
  - intros a' Ha'. apply lookup_insert_ne. congruence.
Qed.

Lemma PopFront_rep (h : heap) (b : HttpBufferList) (l : list nat) :
  list_rep h b l -> exists b', PopFront h b = Some (b', head l) /\ list_rep h b' (tail l).
Proof.
  intros [Hp Ht Hnd]. unfold PopFront. destruct l as [|a l]; simpl in *.
  - rewrite Hp. eexists. split; [reflexivity|]. split; simpl; [done|done|apply NoDup_nil_2].
  - destruct Hp as (->&x&Hx&Hp). rewrite Hx. eexists. split; [reflexivity|].
    apply NoDup_cons in Hnd as [_ Hnd]. split; simpl; [done| |done].
    destruct l as [|a' l]; simpl in Hp; [by rewrite decide_True|].
    destruct Hp as [-> _]. by rewrite decide_False.
Qed.

(** C24. [HttpBufferList] is a first-in-first-out queue: [PushBack] of a buffer
    that is not in the list and whose [next_] is cleared appends it, touching
    only the [next_] of the old tail; [PopFront] removes and returns the oldest
    one, or [NULL] from an empty list. *)
Theorem buffer_list_fifo (h : heap) (b : HttpBufferList) (l : list nat) :
  list_rep h b l ->
  (forall n x, n ∉ l -> h !! n = Some x -> next_ x = None ->
     exists h' b', PushBack n h b = Some (h', b') /\ list_rep h' b' (l ++ [n]) /\
       forall a, last l <> Some a -> h' !! a = h !! a) /\
  (exists b', PopFront h b = Some (b', head l) /\ list_rep h b' (tail l)).
Proof.
  intros Hl. split; [|by apply PopFront_rep]. intros n x Hn Hx Hxn. by eapply PushBack_rep.
Qed.

Definition two_buffers : heap :=
  {[ 1%nat := HB 8 0 0 None (bs "aaaaaaaa"); 2%nat := HB 8 0 0 None (bs "bbbbbbbb") ]}.

Lemma buffer_list_fifo_witness :
  exists b', PopFront two_buffers (BL (Some 1%nat) (Some 1%nat)) = Some (b', Some 1%nat) /\
    list_rep two_buffers b' [].
Proof.
  destruct (buffer_list_fifo two_buffers (BL (Some 1%nat) (Some 1%nat)) [1%nat]) as [_ H]; [|exact H].
  split; [|done|apply NoDup_singleton]. simpl. eauto.
Defined.

(** ** [HttpWriteBuffer] *)

(** [granularity] is [size_]; there is one free list per size class. *)
Record HttpWriteBuffer : Type := WB { granularity : Z; freeBuffer_ : list (option nat) }.

Definition num_slot_ : nat := 8.

(** The second loop of [InitBuffer]; [oks] says which [malloc]s succeed. *)
Fixpoint init_loop (oks : list bool) (h : heap) (w : HttpWriteBuffer) : heap * HttpWriteBuffer * bool :=
  match oks with
  | [] => (h, w, true)
  | ok :: oks' =>
      match AllocHttpBuffer ok (granularity w) h with
      | (h', Some a) =>
          let first := default None (freeBuffer_ w !! 0%nat) in
          let h'' := alter (set_next first) a h' in
          init_loop oks' h'' (WB (granularity w) (<[0%nat := Some a]> (freeBuffer_ w)))
      | (h', None) => (h', w, false)
      end
  end.

Definition InitBuffer (granularity : Z) (oks : list bool) (h : heap) : heap * HttpWriteBuffer * bool :=
  init_loop oks h (WB granularity (replicate num_slot_ None)).

(** The index of the size class of [sz]: C's [/] and [%] on positive numbers. *)
Definition size_class (size_ sz : Z) : Z :=
  let mod_ := sz mod size_ in
  let mod_ := if 0 <? mod_ then size_ - mod_ else 0 in
  (sz + mod_) / size_ - 1.

(** [None] is an access outside the array or the heap. *)
Definition AllocWriteBuffer (ok : bool) (sz : Z) (h : heap) (w : HttpWriteBuffer) :
    option (heap * HttpWriteBuffer * option nat) :=
  if (sz <=? 0) || (Z.of_nat num_slot_ * granularity w <? sz) then Some (h, w, None)
  else
    let index := size_class (granularity w) sz in
    match freeBuffer_ w !! Z.to_nat index with
    | None => None
    | Some None =>
        let '(h', a) := AllocHttpBuffer ok ((index + 1) * granularity w) h in Some (h', w, a)
    | Some (Some a) =>
        match h !! a with
        | Some x =>
            Some (<[a := recycle None x]> h,
              WB (granularity w) (<[Z.to_nat index := next_ x]> (freeBuffer_ w)), Some a)
        | None => None
        end
    end.

Definition ReleaseWriteBuffer (buf : nat) (h : heap) (w : HttpWriteBuffer) :
    option (heap * HttpWriteBuffer) :=
  match h !! buf with
  | None => None
  | Some x =>
      let index := Z.to_nat (size_class (granularity w) (b_size x)) in
      match freeBuffer_ w !! index with
      | Some p =>
          Some (<[buf := recycle p x]> h, WB (granularity w) (<[index := Some buf]> (freeBuffer_ w)))
      | None => None
      end
  end.

(** [DestroyBuffer] frees every buffer of every list. *)
Fixpoint free_all (l : list nat) (h : heap) : heap :=
  match l with [] => h | a :: l' => free_all l' (delete a h) end.

(** The free lists are [ls], disjoint, each with the buffers of its class; the
    buffers [held] are with the clients. *)
Record wb_inv (h : heap) (w : HttpWriteBuffer) (ls : list (list nat)) (held : list nat) : Prop := {
  wb_gran : 0 < granularity w;
  wb_len : length (freeBuffer_ w) = num_slot_;
  wb_lens : length ls = num_slot_;
  wb_path : forall i p l, freeBuffer_ w !! i = Some p -> ls !! i = Some l -> path h p l;
  wb_class : forall i l a x, ls !! i = Some l -> a ∈ l -> h !! a = Some x ->
    b_size x = (Z.of_nat i + 1) * granularity w;
  wb_held : forall a, a ∈ held -> exists x i, h !! a = Some x /\ (i < num_slot_)%nat /\
    b_size x = (Z.of_nat i + 1) * granularity w;
  wb_nodup : NoDup (held ++ mjoin ls)
}.

Lemma size_class_bounds g sz :
  0 < g -> 0 < sz -> sz <= Z.of_nat num_slot_ * g ->
  0 <= size_class g sz < Z.of_nat num_slot_ /\
  sz <= (size_class g sz + 1) * g < sz + g.
Proof.
  unfold size_class, num_slot_. cbv zeta. intros Hg Hs Hm.
  pose proof (Z.div_mod sz g ltac:(lia)) as E. pose proof (Z.mod_pos_bound sz g Hg) as Hb.
  set (q := sz / g) in *. set (r := sz mod g) in *.
  destruct (Z.ltb_spec 0 r).
  - replace (sz + (g - r)) with ((q + 1) * g) by nia. rewrite Z.div_mul by lia. nia.
  - replace (sz + 0) with (q * g) by nia. rewrite Z.div_mul by lia. nia.
Qed.

Lemma size_class_exact g i : 0 < g -> size_class g ((Z.of_nat i + 1) * g) = Z.of_nat i.
Proof.
  intros Hg. unfold size_class. rewrite Z.mod_mul by lia. cbn. rewrite Z.add_0_r, Z.div_mul; lia.
Qed.

Lemma mjoin_insert (ls : list (list nat)) i l l' a :
  ls !! i = Some l -> l ≡ₚ a :: l' -> mjoin ls ≡ₚ a :: mjoin (<[i:=l']> ls).
Proof.
  revert i. induction ls as [|x ls IH]; intros [|i] H Hl; simplify_eq/=.
  - by rewrite Hl.
  - rewrite (IH _ H Hl). solve_Permutation.
Qed.

Lemma mjoin_lookup (ls : list (list nat)) i l a : ls !! i = Some l -> a ∈ l -> a ∈ mjoin ls.
Proof.
  intros Hl Ha. apply list_elem_of_join. exists l. split; [done|]. by eapply list_elem_of_lookup_2.
Qed.

(** The lists other than the one of [a] do not see [a]. *)
Lemma wb_others h w ls held a i l :
  wb_inv h w ls held -> a ∈ held -> ls !! i = Some l -> a ∉ l.
Proof.
  intros HI Ha Hl Hin. pose proof (wb_nodup _ _ _ _ HI) as Hnd.
  apply NoDup_app in Hnd as (_&Hnd&_). apply (Hnd a Ha). by eapply mjoin_lookup.
Qed.

Lemma wb_heap_insert h w ls held a x :
  wb_inv h w ls held ->
  (forall i l, ls !! i = Some l -> a ∉ l) ->
  (a ∈ held -> exists i, (i < num_slot_)%nat /\ b_size x = (Z.of_nat i + 1) * granularity w) ->
  wb_inv (<[a:=x]> h) w ls held.
Proof.
  intros HI Hout Hh. split; try apply HI.
  - intros i p l Hp Hl. apply path_frame; [by eapply Hout|]. by eapply (wb_path _ _ _ _ HI).
  - intros i l b y Hl Hb Hy. rewrite lookup_insert_ne in Hy by (intros ->; by eapply Hout).
    by eapply (wb_class _ _ _ _ HI).
  - intros b Hb. destruct (decide (b = a)) as [->|Hne].
    + rewrite lookup_insert_eq. destruct (Hh Hb) as (i&Hi&Hs). eauto.
    + rewrite lookup_insert_ne by done. by apply (wb_held _ _ _ _ HI).
Qed.

(** Moving a buffer from the head of its free list to the clients. *)
Lemma wb_take h w ls held i a l x :
  wb_inv h w ls held -> freeBuffer_ w !! i = Some (Some a) -> ls !! i = Some (a :: l) ->
  h !! a = Some x ->
  wb_inv (<[a := recycle None x]> h) (WB (granularity w) (<[i := next_ x]> (freeBuffer_ w)))
    (<[i := l]> ls) (a :: held).
Proof.
  intros HI Hf Hl Hx. pose proof (wb_path _ _ _ _ HI _ _ _ Hf Hl) as Hp.
  destruct Hp as (_&x'&Hx'&Hp). simplify_eq.
  assert (Hnd : NoDup ((a :: held) ++ mjoin (<[i:=l]> ls))).
  { pose proof (wb_nodup _ _ _ _ HI) as Hnd. rewrite (mjoin_insert ls i _ l a Hl) in Hnd by done.
    by rewrite <-Permutation_middle in Hnd. }
  assert (Hi : (i < num_slot_)%nat) by (rewrite <-(wb_len _ _ _ _ HI); by eapply lookup_lt_Some).
  assert (Hc : b_size x = (Z.of_nat i + 1) * granularity w).
  { eapply (wb_class _ _ _ _ HI); [exact Hl|apply list_elem_of_here|done]. }
  apply wb_heap_insert.
  - split; simpl; rewrite ?length_insert; try apply HI; [..|exact Hnd].
    + intros j p l' Hj Hl'. destruct (decide (j = i)) as [->|Hne].
      * rewrite list_lookup_insert_eq in Hj by (rewrite (wb_len _ _ _ _ HI); done).
        rewrite list_lookup_insert_eq in Hl' by (rewrite (wb_lens _ _ _ _ HI); done). by simplify_eq.
      * rewrite list_lookup_insert_ne in Hj by done. rewrite list_lookup_insert_ne in Hl' by done. by eapply (wb_path _ _ _ _ HI).
    + intros j l' b y Hl' Hb Hy. destruct (decide (j = i)) as [->|Hne].
      * rewrite list_lookup_insert_eq in Hl' by (rewrite (wb_lens _ _ _ _ HI); done). simplify_eq.
        eapply (wb_class _ _ _ _ HI); [exact Hl|by apply list_elem_of_further|done].
      * rewrite list_lookup_insert_ne in Hl' by done. by eapply (wb_class _ _ _ _ HI).
    + intros b Hb. apply elem_of_cons in Hb as [->|Hb]; [eauto|]. by apply (wb_held _ _ _ _ HI).
  - intros j l' Hl' Hin. apply NoDup_app in Hnd as (_&Hnd&_). apply (Hnd a); [set_solver|].
    by eapply mjoin_lookup.
  - intros _. eauto.
Qed.

(** A buffer that [malloc] returned goes to the clients. *)
Lemma wb_fresh h w ls held i a sz :
  wb_inv h w ls held -> a = fresh (dom h) -> (i < num_slot_)%nat ->
  sz = (Z.of_nat i + 1) * granularity w ->
  wb_inv (<[a := HB sz 0 0 None (replicate (Z.to_nat (sz + 8)) nul)]> h) w ls (a :: held).
Proof.
  intros HI Ha Hi Hs. assert (Hn : h !! a = None) by (apply not_elem_of_dom; subst a; apply is_fresh).
  assert (Hls : forall j l, ls !! j = Some l -> a ∉ l).
  { intros j l Hl Hin. destruct (lookup_lt_is_Some_2 (freeBuffer_ w) j) as [p Hp].
    { rewrite (wb_len _ _ _ _ HI), <-(wb_lens _ _ _ _ HI). by eapply lookup_lt_Some. }
    destruct (path_heap h p l a) as [x Hx]; [by eapply (wb_path _ _ _ _ HI)|done|congruence]. }
  assert (HI' := wb_heap_insert h w ls held a (HB sz 0 0 None (replicate (Z.to_nat (sz + 8)) nul)) HI Hls).
  destruct HI' as [? ? ? ? ? Hh ?]; [by eauto|]. split; try done.
  - intros b Hb. apply elem_of_cons in Hb as [->|Hb]; [|by apply Hh]. rewrite lookup_insert_eq. eauto.
  - cbn. apply NoDup_cons. split; [|done]. intros Hin. apply elem_of_app in Hin as [Hin|Hin].
    + destruct (wb_held _ _ _ _ HI a Hin) as (x&_&Hx&_). congruence.
    + apply list_elem_of_join in Hin as (l&Hal&Hl). apply list_elem_of_lookup_1 in Hl as [j Hj].
      by eapply Hls.
Qed.

(** [AllocWriteBuffer]: [NULL] exactly when the size is out of range or
    [malloc] fails; otherwise the buffer is not held by another client and in no
    free list, it is reset and detached, at least as large as asked for and by
    less than [granularity] larger, and the free lists stay well formed. *)
Theorem AllocWriteBuffer_spec (ok : bool) (sz : Z) (h : heap) (w : HttpWriteBuffer) ls held :
  wb_inv h w ls held ->
  exists h' w' r ls', AllocWriteBuffer ok sz h w = Some (h', w', r) /\ granularity w' = granularity w /\
    match r with
    | None => wb_inv h' w' ls' held /\
        (~ 0 < sz <= Z.of_nat num_slot_ * granularity w \/ ok = false)
    | Some a => wb_inv h' w' ls' (a :: held) /\
        exists x, h' !! a = Some x /\ b_curPtr x = 0 /\ b_curSize x = 0 /\ next_ x = None /\
          sz <= b_size x < sz + granularity w
    end.
Proof.
  intros HI. unfold AllocWriteBuffer.
  destruct (Z.leb_spec sz 0); [|destruct (Z.ltb_spec (Z.of_nat num_slot_ * granularity w) sz)]; cbn [orb].
  1,2: exists h, w, None, ls; repeat (split; [done|]); left; lia.
  destruct (size_class_bounds (granularity w) sz) as [Hk Hsz]; [apply HI|lia|lia|].
  set (k := size_class (granularity w) sz) in *.
  assert (Hkn : (Z.to_nat k < num_slot_)%nat) by (unfold num_slot_ in *; lia).
  destruct (lookup_lt_is_Some_2 (freeBuffer_ w) (Z.to_nat k)) as [p Hp]; [by rewrite (wb_len _ _ _ _ HI)|].
  destruct (lookup_lt_is_Some_2 ls (Z.to_nat k)) as [l Hl]; [by rewrite (wb_lens _ _ _ _ HI)|].
  rewrite Hp. pose proof (wb_path _ _ _ _ HI _ _ _ Hp Hl) as Hpath. destruct p as [a|].
  - destruct l as [|a' l]; [done|]. destruct Hpath as ([= <-]&x&Hx&_). rewrite Hx.
    eexists _, _, _, _. split; [reflexivity|]. split; [done|]. split; [by apply (wb_take h w ls)|].
    exists (recycle None x). rewrite lookup_insert_eq. repeat (split; [done|]). simpl.
    rewrite (wb_class _ _ _ _ HI _ _ a x Hl); [|set_solver|done]. rewrite Z2Nat.id by lia. lia.
  - destruct ok; simpl.
    + eexists _, _, _, _. split; [reflexivity|]. split; [done|]. split.
      * apply (wb_fresh h w ls held (Z.to_nat k)); [done..|]. rewrite Z2Nat.id by lia. done.
      * eexists. rewrite lookup_insert_eq. repeat (split; [done|]). simpl. lia.
    + exists h, w, None, ls. repeat (split; [done|]). by right.
Qed.

(** Back from a client to the head of a free list. *)
Lemma wb_release h w ls held1 held2 a i p l x :
  wb_inv h w ls (held1 ++ a :: held2) -> h !! a = Some x -> freeBuffer_ w !! i = Some p ->
  ls !! i = Some l -> b_size x = (Z.of_nat i + 1) * granularity w ->
  wb_inv (<[a := recycle p x]> h) (WB (granularity w) (<[i := Some a]> (freeBuffer_ w)))
    (<[i := a :: l]> ls) (held1 ++ held2).
Proof.
  intros HI Hx Hp Hl Hs.
  assert (Hi : (i < num_slot_)%nat) by (rewrite <-(wb_len _ _ _ _ HI); by eapply lookup_lt_Some).
  pose proof (wb_nodup _ _ _ _ HI) as Hnd.
  assert (Hal : forall j l', ls !! j = Some l' -> a ∉ l').
  { intros j l' Hl'. eapply wb_others; [exact HI|set_solver|exact Hl']. }
  assert (Ha1 : a ∉ held1 ++ held2).
  { rewrite <-Permutation_middle in Hnd. cbn in Hnd. apply NoDup_cons in Hnd as [Hnd _]. set_solver. }
  split; simpl; rewrite ?length_insert; try apply HI.
  - intros j q l' Hj Hl'. destruct (decide (j = i)) as [->|Hne].
    + rewrite list_lookup_insert_eq in Hj by (rewrite (wb_len _ _ _ _ HI); done).
      rewrite list_lookup_insert_eq in Hl' by (rewrite (wb_lens _ _ _ _ HI); done). simplify_eq.
      apply path_cons; [done|by eapply Hal|]. by eapply (wb_path _ _ _ _ HI).
    + rewrite list_lookup_insert_ne in Hj by done. rewrite list_lookup_insert_ne in Hl' by done. apply path_frame; [by eapply Hal|].
      by eapply (wb_path _ _ _ _ HI).
  - intros j l' b y Hl' Hb Hy.
    assert (Hcase : (b = a /\ j = i) \/ (b <> a /\ exists l0, ls !! j = Some l0 /\ b ∈ l0)).
    { destruct (decide (j = i)) as [->|Hne].
      - rewrite list_lookup_insert_eq in Hl' by (rewrite (wb_lens _ _ _ _ HI); done). simplify_eq.
        apply elem_of_cons in Hb as [->|Hb]; [by left|]. right. split; [|by eauto].
        intros ->. by eapply Hal.
      - rewrite list_lookup_insert_ne in Hl' by done. right. split; [|by eauto].
        intros ->. by eapply Hal. }
    destruct Hcase as [[-> ->]|(Hne&l0&Hl0&Hb0)].
    + rewrite lookup_insert_eq in Hy. by simplify_eq.
    + rewrite lookup_insert_ne in Hy by done. by eapply (wb_class _ _ _ _ HI).
  - intros b Hb. rewrite lookup_insert_ne by (intros ->; done).
    apply (wb_held _ _ _ _ HI). set_solver.
  - rewrite (mjoin_insert (<[i := a :: l]> ls) i (a :: l) l a), list_insert_insert_eq.
    + rewrite (list_insert_id ls) by done. rewrite <-Permutation_middle.
      by rewrite <-Permutation_middle in Hnd.
    + apply list_lookup_insert_eq. by rewrite (wb_lens _ _ _ _ HI).
    + done.
Qed.

(** [ReleaseWriteBuffer] of a buffer a client holds puts it back on the list
    of its size class, reset; it never indexes outside the array of lists, and
    everything stays well formed. *)
Theorem ReleaseWriteBuffer_spec (a : nat) (h : heap) (w : HttpWriteBuffer) ls held1 held2 :
  wb_inv h w ls (held1 ++ a :: held2) ->
  exists h' w' ls' x i l, ReleaseWriteBuffer a h w = Some (h', w') /\
    wb_inv h' w' ls' (held1 ++ held2) /\ granularity w' = granularity w /\
    h !! a = Some x /\ h' = <[a := recycle (default None (freeBuffer_ w !! i)) x]> h /\
    ls !! i = Some l /\ ls' = <[i := a :: l]> ls /\ b_size x = (Z.of_nat i + 1) * granularity w.
Proof.
  intros HI. destruct (wb_held _ _ _ _ HI a) as (x&i&Hx&Hi&Hs); [set_solver|].
  destruct (lookup_lt_is_Some_2 (freeBuffer_ w) i) as [p Hp]; [by rewrite (wb_len _ _ _ _ HI)|].
  destruct (lookup_lt_is_Some_2 ls i) as [l Hl]; [by rewrite (wb_lens _ _ _ _ HI)|].
  unfold ReleaseWriteBuffer. rewrite Hx, Hs, size_class_exact, Nat2Z.id, Hp by apply HI.
  eexists _, _, _, x, i, l. split; [reflexivity|]. split; [by apply wb_release|].
  rewrite Hp. repeat (split; [done|]). done.
Qed.

(** ** The constructor *)

Lemma init_loop_spec oks h w ls :
  Forall (fun ok => ok = true) oks -> wb_inv h w ls [] ->
  exists h' w' ls', init_loop oks h w = (h', w', true) /\ wb_inv h' w' ls' [] /\
    granularity w' = granularity w /\
    length (default [] (ls' !! 0%nat)) = (length oks + length (default [] (ls !! 0%nat)))%nat.
Proof.
  intros Hok. revert h w ls. induction Hok as [|ok oks -> Hok IH]; intros h w ls HI.
  { exists h, w, ls. done. }
  set (a := fresh (dom h)). set (x := HB (granularity w) 0 0 None (replicate (Z.to_nat (granularity w + 8)) nul)).
  assert (H1 : wb_inv (<[a := x]> h) w ls [a]).
  { apply (wb_fresh h w ls [] 0); [done|done|unfold num_slot_; lia|lia]. }
  destruct (lookup_lt_is_Some_2 (freeBuffer_ w) 0) as [p Hp]; [rewrite (wb_len _ _ _ _ HI); unfold num_slot_; lia|].
  destruct (lookup_lt_is_Some_2 ls 0) as [l Hl]; [rewrite (wb_lens _ _ _ _ HI); unfold num_slot_; lia|].
  pose proof (wb_release _ _ _ [] [] a 0 p l x H1) as H2. rewrite lookup_insert_eq in H2.
  specialize (H2 eq_refl Hp Hl ltac:(simpl; lia)). rewrite insert_insert_eq in H2.
  destruct (IH _ _ _ H2) as (h'&w'&ls'&E&HI'&Hg&Hlen). exists h', w', ls'.
  split; [|split; [done|split; [done|]]].
  - cbn [init_loop AllocHttpBuffer]. fold a. rewrite Hp. cbn [default from_option id].
    rewrite <-E. f_equal. apply map_eq. intros b. destruct (decide (b = a)) as [->|].
    + by rewrite lookup_alter_eq, !lookup_insert_eq.
    + by rewrite lookup_alter_ne, !lookup_insert_ne.
  - rewrite Hlen, Hl. rewrite list_lookup_insert_eq by (by eapply lookup_lt_Some). simpl. lia.
Qed.

Lemma InitBuffer_spec g oks h :
  0 < g -> Forall (fun ok => ok = true) oks ->
  exists h' w ls, InitBuffer g oks h = (h', w, true) /\ wb_inv h' w ls [] /\
    granularity w = g /\ length (default [] (ls !! 0%nat)) = length oks.
Proof.
  intros Hg Hok.
  destruct (init_loop_spec oks h (WB g (replicate num_slot_ None)) (replicate num_slot_ []) Hok)
    as (h'&w&ls&E&HI&Hgw&Hl).
  { assert (Hn : forall j (l : list nat), replicate num_slot_ [] !! j = Some l -> l = []).
    { intros j l H. by apply lookup_replicate in H as [-> _]. }
    split; try done.
    - intros i p l Hp Hl. apply Hn in Hl as ->. by apply lookup_replicate in Hp as [-> _].
    - intros i l a x Hl Ha. apply Hn in Hl as ->. set_solver.
    - intros a Ha. set_solver.
    - apply NoDup_nil_2. }
  exists h', w, ls. rewrite Hl. split; [exact E|]. split; [done|]. split; [done|].
  cbn. lia.
Qed.

(** [HttpWriteBuffer(4, 2)]. *)
Definition demo_wb : heap * HttpWriteBuffer := fst (InitBuffer 4 [true; true] ∅).

Lemma AllocWriteBuffer_spec_witness :
  exists h' w' r ls', AllocWriteBuffer true 6 (fst demo_wb) (snd demo_wb) = Some (h', w', r) /\
    granularity w' = granularity (snd demo_wb) /\
    match r with
    | None => wb_inv h' w' ls' [] /\ (~ 0 < 6 <= Z.of_nat num_slot_ * granularity (snd demo_wb) \/ true = false)
    | Some a => wb_inv h' w' ls' [a] /\
        exists x, h' !! a = Some x /\ b_curPtr x = 0 /\ b_curSize x = 0 /\ next_ x = None /\
          6 <= b_size x < 6 + granularity (snd demo_wb)
    end.
Proof.
  destruct (InitBuffer_spec 4 [true; true] ∅) as (h&w&ls&E&HI&_); [lia|repeat constructor|].
  unfold demo_wb. rewrite E. apply (AllocWriteBuffer_spec true 6 h w ls []). exact HI.
Defined.

Lemma ReleaseWriteBuffer_spec_witness :
  exists (ls : list (list nat)) h' w' (ls' : list (list nat)) (x : HttpBuffer) (i : nat) (l : list nat),
    ReleaseWriteBuffer 7 (<[7%nat := HB 4 0 0 None []]> ∅) (WB 4 (replicate 8 None)) = Some (h', w') /\
    wb_inv h' w' ls' [] /\ granularity w' = 4 /\ b_size x = (Z.of_nat i + 1) * 4 /\ ls !! i = Some l.
Proof.
  exists (replicate 8 []).
  destruct (ReleaseWriteBuffer_spec 7 (<[7%nat := HB 4 0 0 None []]> ∅) (WB 4 (replicate 8 None))
    (replicate 8 []) [] []) as (h'&w'&ls'&x&i&l&E&HI&Hg&_&_&Hl&_&Hs).
  { split; try done.
    - intros i p l Hp Hl. apply lookup_replicate in Hl as [-> _]. by apply lookup_replicate in Hp as [-> _].
    - intros i l a x Hl Ha. apply lookup_replicate in Hl as [-> _]. set_solver.
    - intros a Ha. apply list_elem_of_singleton in Ha as ->. exists (HB 4 0 0 None []), 0%nat.
      rewrite lookup_insert_eq. split; [done|]. split; [unfold num_slot_; lia|done].
    - apply NoDup_singleton. }
  exists h', w', ls', x, i, l. done.
Defined.
