(* ===== verification/HttpRequest.v ===== *)
(** * HttpRequest.v: [http/HttpRequest.h], and [std::map<std::string, std::string>]

The parsed request: method, version, url, headers and body.  The map of headers
is an association list in increasing order of its keys ([std::string]'s order,
bytes as unsigned numbers), because the code iterates over it.  What the code
relies on of the capacity of a [std::string] is a parameter with its documented
law. *)

From S2P Require Import Prelude.

(** ** The order of [std::string] *)

Fixpoint bcmp (a b : bytes) : comparison :=
  match a, b with
  | [], [] => Eq
  | [], _ => Lt
  | _, [] => Gt
  | x :: a', y :: b' =>
      match Nat.compare (nat_of_ascii x) (nat_of_ascii y) with
      | Eq => bcmp a' b'
      | c => c
      end
  end.

Lemma bcmp_eq a b : bcmp a b = Eq <-> a = b.
Proof.
  revert b. induction a as [|x a IH]; intros [|y b]; simpl; try done.
  destruct (Nat.compare_spec (nat_of_ascii x) (nat_of_ascii y)) as [E|E|E].
  - rewrite IH. apply (f_equal ascii_of_nat) in E. rewrite !ascii_nat_embedding in E.
    split; [by intros ->; subst|by intros [= _ ->]].
  - split; [done|]. intros [= -> _]. lia.
  - split; [done|]. intros [= -> _]. lia.
Qed.

Lemma bcmp_refl a : bcmp a a = Eq.
Proof. by apply bcmp_eq. Qed.

Lemma bcmp_antisym a b : bcmp b a = CompOpp (bcmp a b).
Proof.
  revert b. induction a as [|x a IH]; intros [|y b]; simpl; try done.
  rewrite Nat.compare_antisym. destruct (Nat.compare _ _); simpl; [apply IH|done|done].
Qed.

Lemma bcmp_trans a b c : bcmp a b = Lt -> bcmp b c = Lt -> bcmp a c = Lt.
Proof.
  revert b c. induction a as [|x a IH]; intros [|y b] [|z c]; simpl; try done.
  destruct (Nat.compare_spec (nat_of_ascii x) (nat_of_ascii y)) as [E|E|E],
    (Nat.compare_spec (nat_of_ascii y) (nat_of_ascii z)) as [F|F|F],
    (Nat.compare_spec (nat_of_ascii x) (nat_of_ascii z)); try done; try lia.
  by apply IH.
Qed.

(** ** The map *)

Abbreviation smap := (list (bytes * bytes)).

(** [m[key] = value] *)
Fixpoint smap_set (key value : bytes) (m : smap) : smap :=
  match m with
  | [] => [(key, value)]
  | (k, v) :: m' =>
      match bcmp key k with
      | Lt => (key, value) :: (k, v) :: m'
      | Eq => (k, value) :: m'
      | Gt => (k, v) :: smap_set key value m'
      end
  end.

Fixpoint smap_find (key : bytes) (m : smap) : option bytes :=
  match m with
  | [] => None
  | (k, v) :: m' => if decide (k = key) then Some v else smap_find key m'
  end.

(** Increasing keys. *)
Fixpoint smap_ok (m : smap) : Prop :=
  match m with
  | [] => True
  | (k, _) :: m' => Forall (fun kv => bcmp k (fst kv) = Lt) m' /\ smap_ok m'
  end.

Lemma smap_set_keys P key value m :
  Forall (fun kv => P (fst kv)) m -> P key -> Forall (fun kv => P (fst kv)) (smap_set key value m).
Proof.
  intros Hm Hk. induction Hm as [|[k v] m Hkv Hm IH]; simpl; [by repeat constructor|].
  destruct (bcmp key k); by repeat constructor.
Qed.

Lemma smap_set_ok key value m : smap_ok m -> smap_ok (smap_set key value m).
Proof.
  induction m as [|[k v] m IH]; simpl; [done|]. intros [Hk Hm].
  destruct (bcmp key k) eqn:E; simpl.
  - done.
  - split; [|done]. constructor; [done|]. eapply Forall_impl; [exact Hk|].
    intros [k' v'] H. by eapply bcmp_trans.
  - split; [|by apply IH]. apply (smap_set_keys (fun x => bcmp k x = Lt)); [done|].
    by rewrite bcmp_antisym, E.
Qed.

Lemma smap_find_set key key' value m :
  smap_ok m ->
  smap_find key' (smap_set key value m) = (if decide (key = key') then Some value else smap_find key' m).
Proof.
  induction m as [|[k v] m IH]; simpl; [done|]. intros [Hk Hm].
  destruct (bcmp key k) eqn:E; simpl.
  - apply bcmp_eq in E as ->. by case_decide.
  - done.
  - rewrite (IH Hm). repeat case_decide; try done. subst. by rewrite bcmp_refl in E.
Qed.

(** ** [HttpRequest] *)

Inductive HttpMethod : Type := HM_GET | HM_POST | HM_HEAD | HM_PUT | HM_DELETE | HM_INVALID.
Inductive HttpVersion : Type := HV_10 | HV_11 | HV_INVALID.

#[export] Instance HttpMethod_eq : EqDecision HttpMethod.
Proof. solve_decision. Defined.
#[export] Instance HttpVersion_eq : EqDecision HttpVersion.
Proof. solve_decision. Defined.

Definition MaxBodyLength : Z := 4096.

(** [capacity_] is [httpBody_.capacity()]. *)
Record HttpRequest : Type := Req {
  bodyLen_ : Z; method_ : HttpMethod; version_ : HttpVersion; reqUrl_ : bytes; urlData_ : bytes;
  httpBody_ : bytes; capacity_ : Z; httpHeader_ : smap
}.

Definition method_of (str : bytes) : HttpMethod :=
  if decide (str = bs "GET") then HM_GET
  else if decide (str = bs "POST") then HM_POST
  else if decide (str = bs "HEAD") then HM_HEAD
  else if decide (str = bs "PUT") then HM_PUT
  else if decide (str = bs "DELETE") then HM_DELETE
  else HM_INVALID.

Definition SetHttpMethod (str : bytes) (r : HttpRequest) : HttpRequest * bool :=
  let m := method_of str in
  (Req (bodyLen_ r) m (version_ r) (reqUrl_ r) (urlData_ r) (httpBody_ r) (capacity_ r) (httpHeader_ r),
   bool_decide (m <> HM_INVALID)).

Definition GetHttpMethodName (r : HttpRequest) : bytes :=
  match method_ r with
  | HM_GET => bs "GET"
  | HM_POST => bs "POST"
  | HM_HEAD => bs "HEAD"
  | HM_PUT => bs "PUT"
  | HM_DELETE => bs "DELETE"
  | HM_INVALID => bs "UNKNOWN"
  end.

Definition version_of (version : bytes) : HttpVersion :=
  if decide (version = bs "HTTP/1.1") then HV_11
  else if decide (version = bs "HTTP/1.0") then HV_10
  else HV_INVALID.

Definition SetVersion (version : bytes) (r : HttpRequest) : HttpRequest * bool :=
  let v := version_of version in
  (Req (bodyLen_ r) (method_ r) v (reqUrl_ r) (urlData_ r) (httpBody_ r) (capacity_ r) (httpHeader_ r),
   bool_decide (v <> HV_INVALID)).

Definition GetVersionName (r : HttpRequest) : bytes :=
  match version_ r with
  | HV_10 => bs "HTTP/1.0"
  | HV_11 => bs "HTTP/1.1"
  | HV_INVALID => bs "UNKNOWN"
  end.

Definition SetUrl (url : bytes) (r : HttpRequest) : HttpRequest :=
  Req (bodyLen_ r) (method_ r) (version_ r) url (urlData_ r) (httpBody_ r) (capacity_ r) (httpHeader_ r).

Definition SetUrlData (data : bytes) (r : HttpRequest) : HttpRequest :=
  Req (bodyLen_ r) (method_ r) (version_ r) (reqUrl_ r) data (httpBody_ r) (capacity_ r) (httpHeader_ r).

(** [key] and [value] are C strings. *)
Definition AddHeader (key value : bytes) (r : HttpRequest) : HttpRequest :=
  Req (bodyLen_ r) (method_ r) (version_ r) (reqUrl_ r) (urlData_ r) (httpBody_ r) (capacity_ r)
    (smap_set (c_str key) (c_str value) (httpHeader_ r)).

Definition GetHeaderValue (key : bytes) (r : HttpRequest) : bytes :=
  default [] (smap_find key (httpHeader_ r)).

Definition GetCurBodyLength (r : HttpRequest) : Z := blen (httpBody_ r).
Definition GetBodyLength (r : HttpRequest) : Z := bodyLen_ r.

(** [httpBody_ = ""] keeps the capacity. *)
Definition CleanUp (r : HttpRequest) : HttpRequest :=
  Req 0 (method_ r) (version_ r) [] [] [] (capacity_ r) [].

Section Capacity.
(** The capacity of a string after [reserve(sz)], and after an [append] that
    makes it [len] bytes long, from its capacity before. *)
Variables (reserve grow : Z -> Z -> Z).

Definition SetBodySize (sz : Z) (r : HttpRequest) : HttpRequest :=
  Req sz (method_ r) (version_ r) (reqUrl_ r) (urlData_ r) (httpBody_ r) (reserve (capacity_ r) sz)
    (httpHeader_ r).

Definition append_body (data : bytes) (r : HttpRequest) : HttpRequest :=
  Req (bodyLen_ r) (method_ r) (version_ r) (reqUrl_ r) (urlData_ r) (httpBody_ r ++ data)
    (grow (capacity_ r) (blen (httpBody_ r ++ data))) (httpHeader_ r).

(** [AppendBody(const char* )] *)
Definition AppendBody_str (data : bytes) (r : HttpRequest) : HttpRequest := append_body (c_str data) r.

(** [AppendBody(const char* start, const char* end)] *)
Definition AppendBody (data : bytes) (r : HttpRequest) : HttpRequest :=
  if capacity_ r <=? blen data then r else append_body data r.

(** A body that arrives in one piece: it is stored when the capacity that
    [reserve] made exceeds its length, and silently dropped when the capacity is
    exactly the length that was reserved, which is what [reserve] is asked for. *)
Theorem body_in_one_piece (r : HttpRequest) (body : bytes) :
  httpBody_ r = [] -> blen body <= reserve (capacity_ r) (blen body) ->
  let r' := AppendBody body (SetBodySize (blen body) r) in
  (reserve (capacity_ r) (blen body) = blen body -> httpBody_ r' = [] /\ bodyLen_ r' = blen body) /\
  (blen body < reserve (capacity_ r) (blen body) -> httpBody_ r' = body /\ bodyLen_ r' = blen body).
Proof.
  intros Hb Hr. cbv zeta. unfold AppendBody. cbn [SetBodySize capacity_]. split; intros H.
  - rewrite (proj2 (Z.leb_le _ _)) by lia. simpl. done.
  - rewrite (proj2 (Z.leb_gt _ _)) by lia. simpl. by rewrite Hb.
Qed.
End Capacity.

Definition HttpRequest_init (cap0 : Z) : HttpRequest := Req 0 HM_INVALID HV_INVALID [] [] [] cap0 [].

Lemma body_in_one_piece_witness :
  let r' := AppendBody Z.max (bs "name=value") (SetBodySize Z.max 10 (HttpRequest_init 0)) in
  (Z.max 0 10 = 10 -> httpBody_ r' = [] /\ bodyLen_ r' = 10) /\
  (10 < Z.max 0 10 -> httpBody_ r' = bs "name=value" /\ bodyLen_ r' = 10).
Proof.
  apply (body_in_one_piece Z.max Z.max (HttpRequest_init 0) (bs "name=value"));
    [reflexivity|vm_compute; discriminate].
Defined.

(** ** Method, version, headers *)

Lemma method_of_cases str :
  match method_of str with
  | HM_INVALID => str <> bs "GET" /\ str <> bs "POST" /\ str <> bs "HEAD" /\ str <> bs "PUT" /\
                  str <> bs "DELETE"
  | m => str = GetHttpMethodName (Req 0 m HV_INVALID [] [] [] 0 [])
  end.
Proof. unfold method_of. repeat case_decide; try done. Qed.

(** [SetHttpMethod] and [SetVersion] are the inverses of the name functions:
    a string is accepted exactly when it is the name of a method (a version), and
    then the name of the stored value is that string. *)
Theorem method_version_roundtrip (str : bytes) (r : HttpRequest) :
  (let '(r', ok) := SetHttpMethod str r in
   (ok = true <-> str ∈ [bs "GET"; bs "POST"; bs "HEAD"; bs "PUT"; bs "DELETE"]) /\
   (ok = true -> GetHttpMethodName r' = str) /\ (ok = false -> GetHttpMethodName r' = bs "UNKNOWN")) /\
  (let '(r', ok) := SetVersion str r in
   (ok = true <-> str ∈ [bs "HTTP/1.1"; bs "HTTP/1.0"]) /\
   (ok = true -> GetVersionName r' = str) /\ (ok = false -> GetVersionName r' = bs "UNKNOWN")).
Proof.
  split.
  - unfold SetHttpMethod, GetHttpMethodName. cbn [method_]. pose proof (method_of_cases str) as H.
    destruct (method_of str); cbn in H |- *.
    1-5: subst; split; [split; [intros _; set_solver|done]|split; [done|discriminate]].
    split; [|split; [discriminate|done]]. split; [discriminate|]. intros Hin.
    destruct H as (?&?&?&?&?). repeat (apply elem_of_cons in Hin as [?|Hin]; [done|]). set_solver.
  - unfold SetVersion, GetVersionName, version_of. cbn [version_].
    destruct (decide (str = bs "HTTP/1.1")) as [->|H1].
    { split; [split; [intros _; set_solver|done]|split; [done|discriminate]]. }
    destruct (decide (str = bs "HTTP/1.0")) as [->|H2].
    { split; [split; [intros _; set_solver|done]|split; [done|discriminate]]. }
    split; [|split; [discriminate|done]]. split; [discriminate|]. intros Hin.
    repeat (apply elem_of_cons in Hin as [?|Hin]; [done|]). set_solver.
Qed.

(** Headers: the last value added for a name is the one that is found, and the
    other names keep theirs; the map stays ordered. *)
Lemma AddHeader_GetHeaderValue key value key' r :
  smap_ok (httpHeader_ r) -> nul ∉ key -> nul ∉ value ->
  smap_ok (httpHeader_ (AddHeader key value r)) /\
  GetHeaderValue key' (AddHeader key value r) =
    (if decide (key = key') then value else GetHeaderValue key' r).
Proof.
  intros Hm Hk Hv. split; [by apply smap_set_ok|]. unfold GetHeaderValue, AddHeader. cbn [httpHeader_].
  rewrite smap_find_set, !c_str_no_nul by done. by case_decide.
Qed.
