(* ===== verification/HttpResponse.v ===== *)
(** * HttpResponse.v: [http/HttpResponse.h]

The response of a handler and [GenerateResponse], which writes it into a buffer
of [size] bytes by [snprintf], [memcpy] and [strcat].  The model runs on the
memory of the buffer: a write that does not fit in it is [None].  The theorems:
the generated bytes are exactly the HTTP message [render], a message that does
not fit is refused (result 0), and all writes stay within [size + 1] bytes, that
is, inside the block of HttpBuffer.v; [GetResponseSize] is enough for a new
response, but not for one that has been cleaned up. *)

From stdpp Require Import pretty.
From S2P Require Import Prelude Machine HttpRequest.

(** [%d] *)
Definition dec (z : Z) : bytes := bs (pretty z).

Definition crlf : bytes := ["013"; "010"]%char.

Inductive HttpStatusCode : Type :=
| HSC_UNKNOWN | HSC_200 | HSC_400 | HSC_401 | HSC_403 | HSC_404 | HSC_500 | HSC_503.

Definition code_num (c : HttpStatusCode) : Z :=
  match c with
  | HSC_UNKNOWN => 0 | HSC_200 => 200 | HSC_400 => 400 | HSC_401 => 401 | HSC_403 => 403
  | HSC_404 => 404 | HSC_500 => 500 | HSC_503 => 503
  end.

Record HttpResponse : Type := Resp {
  response_ : bool; closeConn_ : bool; msgLen_ : Z; statusCode_ : HttpStatusCode;
  statusMsg_ : bytes; respBody_ : bytes; respHeader_ : smap
}.

(** The constructor leaves [closeConn_] and [statusCode_] unset ([close], [code]). *)
Definition HttpResponse_init (close : bool) (code : HttpStatusCode) : HttpResponse :=
  Resp false close 15 code [] [] [].

Definition SetShouldResponse (b : bool) (r : HttpResponse) : HttpResponse :=
  Resp b (closeConn_ r) (msgLen_ r) (statusCode_ r) (statusMsg_ r) (respBody_ r) (respHeader_ r).
Definition SetCloseConn (b : bool) (r : HttpResponse) : HttpResponse :=
  Resp (response_ r) b (msgLen_ r) (statusCode_ r) (statusMsg_ r) (respBody_ r) (respHeader_ r).
Definition SetStatusCode (c : HttpStatusCode) (r : HttpResponse) : HttpResponse :=
  Resp (response_ r) (closeConn_ r) (msgLen_ r) c (statusMsg_ r) (respBody_ r) (respHeader_ r).
Definition SetStatusMessage (msg : bytes) (r : HttpResponse) : HttpResponse :=
  Resp (response_ r) (closeConn_ r) (msgLen_ r) (statusCode_ r) (c_str msg) (respBody_ r) (respHeader_ r).
Definition SetBody (body : bytes) (r : HttpResponse) : HttpResponse :=
  Resp (response_ r) (closeConn_ r) (msgLen_ r) (statusCode_ r) (statusMsg_ r) (c_str body) (respHeader_ r).

Definition AddRespHeader (key value : bytes) (r : HttpResponse) : HttpResponse :=
  Resp (response_ r) (closeConn_ r)
    (u64 (u64 (u64 (u64 (msgLen_ r + blen (c_str key)) + 2) + blen (c_str value)) + 2))
    (statusCode_ r) (statusMsg_ r) (respBody_ r) (smap_set (c_str key) (c_str value) (respHeader_ r)).

Definition CleanUpResponse (r : HttpResponse) : HttpResponse :=
  Resp false false 0 (statusCode_ r) [] [] [].

Definition GetResponseSize (r : HttpResponse) : Z :=
  u64 (msgLen_ r + blen (statusMsg_ r) + 2 + blen (respBody_ r) + 2).

(** ** [GenerateResponse] *)

(** [memcpy(buffer + off, data, n)]; [None] when it writes outside. *)
Definition memcpy (mem : bytes) (off : Z) (data : bytes) : option bytes :=
  if off + blen data <=? blen mem then Some (blit mem (Z.to_nat off) data) else None.

Fixpoint strlen (mem : bytes) : Z :=
  match mem with [] => 0 | c :: mem' => if decide (c = nul) then 0 else 1 + strlen mem' end.

(** [strcat(buffer, s)] writes the terminating NUL too. *)
Definition strcat (mem : bytes) (s : bytes) : option bytes := memcpy mem (strlen mem) (s ++ [nul]).

(** One round of the header loop: the memory, and [None] for [return false]. *)
Definition gen_header (size : Z) (key value : bytes) (mem : bytes) (sz : Z) : option (bytes * option Z) :=
  let tmp := blen key in
  if size <=? u64 (sz + tmp + 1) then Some (mem, None)
  else
    mem ← memcpy mem sz (key ++ [nul]);
    let sz := u64 (sz + tmp) in
    if size <? u64 (sz + 3) then Some (mem, None)
    else
      mem ← memcpy mem sz (bs ": " ++ [nul]);
      let sz := u64 (sz + 2) in
      let tmp := blen value in
      if size <=? u64 (sz + tmp + 3) then Some (mem, None)
      else
        mem ← memcpy mem sz (value ++ [nul]);
        mem ← memcpy mem (u64 (sz + tmp)) (crlf ++ [nul]);
        Some (mem, Some (u64 (sz + tmp + 2))).

Fixpoint gen_headers (size : Z) (hs : smap) (mem : bytes) (sz : Z) : option (bytes * option Z) :=
  match hs with
  | [] => Some (mem, Some sz)
  | (key, value) :: hs' =>
      res ← gen_header size key value mem sz;
      match res with
      | (mem, Some sz) => gen_headers size hs' mem sz
      | (mem, None) => Some (mem, None)
      end
  end.

(** The memory after the call and the result; 0 is [false]. *)
Definition GenerateResponse (r : HttpResponse) (mem : bytes) (size : Z) : option (bytes * Z) :=
  let line := bs "HTTP/1.1 " ++ dec (code_num (statusCode_ r)) ++ bs " " in
  mem ← memcpy mem 0 (take 31 line ++ [nul]);
  let sz := blen line in
  let tmp := blen (statusMsg_ r) in
  if size <=? u64 (tmp + sz + 2) then Some (mem, 0)
  else
    mem ← memcpy mem sz (statusMsg_ r ++ [nul]);
    mem ← strcat mem crlf;
    let sz := u64 (sz + (tmp + 2)) in
    res ← gen_headers size (respHeader_ r) mem sz;
    match res with
    | (mem, None) => Some (mem, 0)
    | (mem, Some sz) =>
        mem ← memcpy mem sz (crlf ++ [nul]);
        let sz := u64 (sz + 2) in
        let tmp := blen (respBody_ r) in
        if size <=? u64 (sz + tmp + 1) then Some (mem, 0)
        else
          mem ← memcpy mem sz (respBody_ r ++ [nul]);
          Some (mem, u64 (sz + tmp))
    end.

(** ** The message *)

Definition status_line (r : HttpResponse) : bytes :=
  bs "HTTP/1.1 " ++ dec (code_num (statusCode_ r)) ++ bs " " ++ statusMsg_ r ++ crlf.

Definition header_line (k v : bytes) : bytes := k ++ bs ": " ++ v ++ crlf.

Definition header_lines (hs : smap) : bytes :=
  mjoin (map (fun kv => header_line (fst kv) (snd kv)) hs).

Definition render (r : HttpResponse) : bytes :=
  status_line r ++ header_lines (respHeader_ r) ++ crlf ++ respBody_ r.

Lemma memcpy_prefix text mem data :
  text `prefix_of` mem -> blen text + blen data <= blen mem ->
  exists mem', memcpy mem (blen text) data = Some mem' /\ (text ++ data) `prefix_of` mem' /\
    blen mem' = blen mem.
Proof.
  intros [rest ->] Hfit. unfold memcpy. rewrite (proj2 (Z.leb_le _ _)) by lia.
  eexists. split; [reflexivity|]. unfold blen in *. rewrite Nat2Z.id.
  assert (Hl : (length text + length data <= length (text ++ rest))%nat) by lia.
  split; [|by rewrite length_blit].
  exists (drop (length text + length data) (text ++ rest)). unfold blit.
  by rewrite take_app_length, <-app_assoc.
Qed.

Lemma prefix_app_inv {A} (a b m : list A) : (a ++ b) `prefix_of` m -> a `prefix_of` m.
Proof. intros [k ->]. exists (b ++ k). by rewrite app_assoc. Qed.

Lemma strlen_prefix text mem : nul ∉ text -> (text ++ [nul]) `prefix_of` mem -> strlen mem = blen text.
Proof.
  intros Hn [k ->]. induction text as [|c text IH]; [done|]. cbn [app strlen].
  rewrite decide_False by set_solver. rewrite IH by set_solver. unfold blen. simpl. lia.
Qed.

(** A piece followed by its NUL, after a text that is there. *)
Lemma put text mem data :
  text `prefix_of` mem -> blen text + blen data + 1 <= blen mem ->
  exists mem', memcpy mem (blen text) (data ++ [nul]) = Some mem' /\
    (text ++ data) `prefix_of` mem' /\ (text ++ data ++ [nul]) `prefix_of` mem' /\ blen mem' = blen mem.
Proof.
  intros Hp Hf. destruct (memcpy_prefix text mem (data ++ [nul]) Hp) as (mem'&E&H&Hl).
  { rewrite blen_app. unfold blen at 3. simpl. lia. }
  exists mem'. split; [done|]. split; [|done]. rewrite app_assoc in H. by eapply prefix_app_inv.
Qed.

Lemma blen_header_line k v : blen (header_line k v) = blen k + 2 + blen v + 2.
Proof. unfold header_line. rewrite !blen_app. change (blen (bs ": ")) with 2. change (blen crlf) with 2. lia. Qed.

Lemma gen_header_spec size k v text mem :
  size < 2 ^ 62 -> size + 1 <= blen mem -> text `prefix_of` mem ->
  blen text + blen (header_line k v) < 2 ^ 62 ->
  exists mem' ret, gen_header size k v mem (blen text) = Some (mem', ret) /\ blen mem' = blen mem /\
    match ret with
    | Some sz => sz = blen (text ++ header_line k v) /\ (text ++ header_line k v) `prefix_of` mem' /\
        sz + 2 <= size
    | None => size < blen (text ++ header_line k v) + 2
    end.
Proof.
  intros Hs Hm Hp Hb. rewrite (blen_app text), blen_header_line in *.
  pose proof (blen_nonneg text). pose proof (blen_nonneg k). pose proof (blen_nonneg v).
  unfold gen_header. cbv zeta. rewrite (u64_id (blen text + blen k + 1)) by lia.
  destruct (Z.leb_spec size (blen text + blen k + 1)).
  { exists mem, None. repeat (split; [done|]). lia. }
  destruct (put text mem k Hp) as (m1&->&Hp1&_&Hl1); [lia|]. cbn [mbind option_bind].
  assert (E1 : blen (text ++ k) = blen text + blen k) by apply blen_app.
  rewrite (u64_id (blen text + blen k)), <-E1, (u64_id (_ + 3)) by lia.
  destruct (Z.ltb_spec size (blen (text ++ k) + 3)).
  { exists m1, None. split; [done|]. split; [done|]. lia. }
  destruct (put (text ++ k) m1 (bs ": ") Hp1) as (m2&->&Hp2&_&Hl2).
  { change (blen (bs ": ")) with 2. lia. }
  cbn [mbind option_bind]. assert (E2 : blen ((text ++ k) ++ bs ": ") = blen (text ++ k) + 2) by apply blen_app.
  rewrite <-E2, (u64_id (blen ((text ++ k) ++ bs ": "))), (u64_id (_ + 3)) by lia.
  destruct (Z.leb_spec size (blen ((text ++ k) ++ bs ": ") + blen v + 3)).
  { exists m2, None. split; [done|]. split; [lia|]. lia. }
  destruct (put ((text ++ k) ++ bs ": ") m2 v Hp2) as (m3&->&Hp3&_&Hl3); [lia|].
  cbn [mbind option_bind].
  assert (E3 : blen (((text ++ k) ++ bs ": ") ++ v) = blen ((text ++ k) ++ bs ": ") + blen v) by apply blen_app.
  rewrite <-E3, (u64_id (blen _)), (u64_id (_ + 2)) by lia.
  destruct (put (((text ++ k) ++ bs ": ") ++ v) m3 crlf Hp3) as (m4&->&Hp4&_&Hl4).
  { change (blen crlf) with 2. lia. }
  cbn [mbind option_bind]. eexists _, _. split; [reflexivity|]. split; [lia|].
  split; [lia|]. split; [|lia]. unfold header_line. by rewrite <-!app_assoc in Hp4.
Qed.

Lemma header_lines_cons k v hs : header_lines ((k, v) :: hs) = header_line k v ++ header_lines hs.
Proof. done. Qed.

Lemma gen_headers_spec size hs text mem :
  size < 2 ^ 62 -> size + 1 <= blen mem -> text `prefix_of` mem -> blen text + 1 <= size ->
  blen text + blen (header_lines hs) < 2 ^ 62 ->
  exists mem' ret, gen_headers size hs mem (blen text) = Some (mem', ret) /\ blen mem' = blen mem /\
    match ret with
    | Some sz => sz = blen (text ++ header_lines hs) /\ (text ++ header_lines hs) `prefix_of` mem' /\
        sz + 1 <= size
    | None => size < blen (text ++ header_lines hs) + 2
    end.
Proof.
  intros Hs. revert text mem. induction hs as [|[k v] hs IH]; intros text mem Hm Hp Ht Hb.
  { exists mem, (Some (blen text)). unfold header_lines. simpl. rewrite app_nil_r.
    repeat (split; [done|]). done. }
  rewrite header_lines_cons, blen_app in Hb. pose proof (blen_nonneg (header_lines hs)).
  destruct (gen_header_spec size k v text mem Hs Hm Hp) as (m1&ret&E&Hl1&Hr); [lia|].
  cbn [gen_headers]. rewrite E. cbn [mbind option_bind]. destruct ret as [sz|].
  - destruct Hr as (->&Hp1&Hf). rewrite (blen_app text) in Hf.
    destruct (IH (text ++ header_line k v) m1) as (m2&ret&E2&Hl2&Hr);
      [lia|done|rewrite blen_app; lia|rewrite blen_app; lia|].
    exists m2, ret. split; [done|]. split; [lia|]. by rewrite header_lines_cons, app_assoc.
  - exists m1, None. split; [done|]. split; [done|].
    rewrite header_lines_cons, !blen_app in *. lia.
Qed.

Lemma status_prefix_facts c :
  let line := bs "HTTP/1.1 " ++ dec (code_num c) ++ bs " " in
  11 <= blen line <= 13 /\ nul ∉ line.
Proof.
  cbv zeta. split; [destruct c; vm_compute; split; discriminate|].
  destruct c; apply (bool_decide_unpack _); by vm_compute.
Qed.

(** The status line, written by [snprintf], [memcpy] and [strcat]. *)
Lemma status_line_spec r mem size :
  32 <= size < 2 ^ 62 -> size + 2 <= blen mem -> nul ∉ statusMsg_ r ->
  exists m1, let line := bs "HTTP/1.1 " ++ dec (code_num (statusCode_ r)) ++ bs " " in
    memcpy mem 0 (take 31 line ++ [nul]) = Some m1 /\ blen m1 = blen mem /\
    blen (status_line r) = blen (statusMsg_ r) + blen line + 2 /\
    (blen (status_line r) < size ->
     exists m2 m3, memcpy m1 (blen line) (statusMsg_ r ++ [nul]) = Some m2 /\
       strcat m2 crlf = Some m3 /\ status_line r `prefix_of` m3 /\ blen m3 = blen mem).
Proof.
  intros Hs Hm Hn. destruct (status_prefix_facts (statusCode_ r)) as [Hb Hnl].
  unfold status_line in *. cbv zeta in *. rewrite !app_assoc in *.
  set (line := (bs "HTTP/1.1 " ++ dec (code_num (statusCode_ r))) ++ bs " ") in *.
  pose proof (blen_nonneg (statusMsg_ r)).
  destruct (put [] mem line) as (m1&E1&_&Hp1&Hl1); [apply prefix_nil|change (blen []) with 0; lia|].
  rewrite app_nil_l in Hp1. change (blen []) with 0 in E1.
  exists m1. rewrite take_ge by (unfold blen in Hb; lia). split; [done|]. split; [done|].
  rewrite !blen_app. change (blen crlf) with 2. split; [lia|]. intros Hf.
  destruct (put line m1 (statusMsg_ r)) as (m2&E2&_&Hp2&Hl2); [by eapply prefix_app_inv|lia|].
  rewrite app_assoc in Hp2.
  destruct (put (line ++ statusMsg_ r) m2 crlf) as (m3&E3&Hp3&_&Hl3).
  { by eapply prefix_app_inv. }
  { rewrite blen_app. change (blen crlf) with 2. lia. }
  exists m2, m3. split; [done|].
  unfold strcat. rewrite (strlen_prefix (line ++ statusMsg_ r)); [|set_solver|done].
  split; [done|]. split; [done|lia].
Qed.

Lemma GenerateResponse_ok (r : HttpResponse) (mem : bytes) (size : Z) :
  32 <= size < 2 ^ 62 -> size + 2 <= blen mem -> nul ∉ statusMsg_ r -> blen (render r) < 2 ^ 61 ->
  exists mem' ret, GenerateResponse r mem size = Some (mem', ret) /\ blen mem' = blen mem /\
    if blen (render r) + 2 <=? size then ret = blen (render r) /\ render r `prefix_of` mem'
    else ret = 0.
Proof.
  intros Hs Hm Hn Hr. destruct (status_line_spec r mem size Hs Hm Hn) as (m1&E1&Hl1&Hst&Hrest).
  destruct (status_prefix_facts (statusCode_ r)) as [Hb _]. cbv zeta in Hrest.
  assert (Hlen : blen (render r) = blen (status_line r) + (blen (header_lines (respHeader_ r)) +
    (2 + blen (respBody_ r)))) by (unfold render; by rewrite !blen_app).
  pose proof (blen_nonneg (statusMsg_ r)). pose proof (blen_nonneg (respBody_ r)).
  pose proof (blen_nonneg (header_lines (respHeader_ r))).
  unfold GenerateResponse. rewrite E1. cbn [mbind option_bind]. cbv zeta.
  rewrite (u64_id (blen (statusMsg_ r) + _ + 2)) by lia. rewrite <-Hst.
  destruct (Z.leb_spec size (blen (status_line r))) as [Hlt|Hlt].
  { exists m1, 0. split; [done|]. split; [done|]. by rewrite (proj2 (Z.leb_gt _ _)) by lia. }
  destruct (Hrest Hlt) as (m2&m3&E2&E3&Hp3&Hl3). rewrite E2. cbn [mbind option_bind]. rewrite E3.
  cbn [mbind option_bind]. replace (u64 (_ + (_ + 2))) with (blen (status_line r)) by (rewrite u64_id; lia).
  destruct (gen_headers_spec size (respHeader_ r) (status_line r) m3) as (m4&ret&E4&Hl4&Hret);
    [lia|lia|done|lia|lia|].
  rewrite E4. cbn [mbind option_bind]. destruct ret as [sz|]; rewrite blen_app in Hret.
  2: { exists m4, 0. split; [done|]. split; [lia|]. by rewrite (proj2 (Z.leb_gt _ _)) by lia. }
  destruct Hret as (Hsz&Hp4&Hf). rewrite Hsz, <-blen_app.
  destruct (put (status_line r ++ header_lines (respHeader_ r)) m4 crlf Hp4) as (m5&E5&Hp5&_&Hl5).
  { rewrite blen_app. change (blen crlf) with 2. lia. }
  rewrite E5. cbn [mbind option_bind].
  assert (E6 : blen ((status_line r ++ header_lines (respHeader_ r)) ++ crlf) =
    blen (status_line r ++ header_lines (respHeader_ r)) + 2) by apply blen_app.
  rewrite <-E6, (u64_id (blen _)), (u64_id (_ + 1)) by (rewrite E6, blen_app; lia).
  rewrite E6, blen_app.
  destruct (Z.leb_spec size (blen (status_line r) + blen (header_lines (respHeader_ r)) + 2 + blen (respBody_ r) + 1)).
  { exists m5, 0. split; [done|]. split; [lia|]. by rewrite (proj2 (Z.leb_gt _ _)) by lia. }
  rewrite <-blen_app, <-E6.
  destruct (put _ m5 (respBody_ r) Hp5) as (m6&E7&Hp6&_&Hl6); [rewrite E6, blen_app; lia|].
  rewrite E7. cbn [mbind option_bind]. eexists _, _. split; [reflexivity|]. split; [lia|].
  rewrite (proj2 (Z.leb_le _ _)) by lia. rewrite E6, blen_app, u64_id by lia. split; [lia|].
  unfold render. by rewrite <-!app_assoc in Hp6.
Qed.

(** C22. [GenerateResponse] on a buffer of [size] bytes: all its writes fit in
    [size + 2] bytes of memory; when the message leaves two bytes free the result
    is its length and the buffer starts with exactly the message (status line,
    headers in the order of their names, empty line, body); otherwise the result
    is 0. *)
Theorem GenerateResponse_spec (r : HttpResponse) (mem : bytes) (size : Z) :
  32 <= size < 2 ^ 62 -> size + 2 <= blen mem -> nul ∉ statusMsg_ r -> blen (render r) < 2 ^ 61 ->
  exists mem' ret, GenerateResponse r mem size = Some (mem', ret) /\ blen mem' = blen mem /\
    if blen (render r) + 2 <=? size then ret = blen (render r) /\ render r `prefix_of` mem'
    else ret = 0.
Proof. by apply GenerateResponse_ok. Qed.

Definition demo_response : HttpResponse :=
  AddRespHeader (bs "Host") (bs "miliao server")
    (SetBody (bs "hello") (SetStatusMessage (bs "OK") (SetStatusCode HSC_200 (HttpResponse_init false HSC_UNKNOWN)))).

Lemma GenerateResponse_spec_witness :
  exists mem' ret, GenerateResponse demo_response (replicate 136 nul) 128 = Some (mem', ret) /\
    blen mem' = 136 /\
    if blen (render demo_response) + 2 <=? 128
    then ret = blen (render demo_response) /\ render demo_response `prefix_of` mem' else ret = 0.
Proof.
  apply (GenerateResponse_spec demo_response (replicate 136 nul) 128);
    [lia|vm_compute; discriminate| |vm_compute; reflexivity].
  change (statusMsg_ demo_response) with (bs "OK"). apply (bool_decide_unpack _). by vm_compute.
Defined.

(** ** [GetResponseSize] *)

Lemma smap_set_new key value m :
  smap_find key m = None ->
  blen (header_lines (smap_set key value m)) = blen (header_line key value) + blen (header_lines m).
Proof.
  induction m as [|[k v] m IH]; intros Hf; simpl in Hf.
  { cbn [smap_set]. by rewrite header_lines_cons, blen_app. }
  case_decide as Hk; [done|]. cbn [smap_set]. destruct (bcmp key k) eqn:E.
  - apply bcmp_eq in E. congruence.
  - by rewrite (header_lines_cons key), blen_app.
  - rewrite !header_lines_cons, !blen_app, IH by done. lia.
Qed.

(** What [msgLen_] is of a response whose headers were added one by one. *)
Definition sized (base : Z) (r : HttpResponse) : Prop :=
  msgLen_ r = base + blen (header_lines (respHeader_ r)).

Lemma AddRespHeader_sized base key value r :
  sized base r -> 0 <= base -> smap_find (c_str key) (respHeader_ r) = None ->
  msgLen_ r + blen (c_str key) + blen (c_str value) < 2 ^ 63 ->
  sized base (AddRespHeader key value r).
Proof.
  unfold sized. intros Hs Hb Hf Hm. cbn [AddRespHeader msgLen_ respHeader_].
  rewrite smap_set_new, blen_header_line by done.
  pose proof (blen_nonneg (c_str key)). pose proof (blen_nonneg (c_str value)).
  pose proof (blen_nonneg (header_lines (respHeader_ r))).
  set (k := blen (c_str key)) in *. set (v := blen (c_str value)) in *.
  rewrite (u64_id (msgLen_ r + k)), (u64_id (msgLen_ r + k + 2)), (u64_id (msgLen_ r + k + 2 + v)),
    (u64_id (msgLen_ r + k + 2 + v + 2)) by lia.
  lia.
Qed.

Lemma render_length r :
  statusCode_ r <> HSC_UNKNOWN ->
  blen (render r) = 17 + blen (statusMsg_ r) + blen (header_lines (respHeader_ r)) + blen (respBody_ r).
Proof.
  intros Hc. unfold render, status_line. rewrite !blen_app. change (blen crlf) with 2.
  change (blen (bs "HTTP/1.1 ")) with 9. change (blen (bs " ")) with 1.
  assert (blen (dec (code_num (statusCode_ r))) = 3) as -> by (by destruct (statusCode_ r)). lia.
Qed.

(** A response with a body of 992 bytes on a cleaned object. *)
Definition after_cleanup : HttpResponse :=
  AddRespHeader (bs "Connection") (bs "close") (SetBody (replicate 992 "x"%char)
    (SetStatusMessage (bs "OK") (SetStatusCode HSC_200 (CleanUpResponse (HttpResponse_init false HSC_UNKNOWN))))).

(** [GetResponseSize] of a new response is the length of the message and the
    two spare bytes [GenerateResponse] asks for.  [CleanUp] resets [msgLen_] to 0
    instead of 15, so that for every response built on a cleaned object it is 13
    bytes less than the message: a response whose size class is used up to the
    last 15 bytes, like [after_cleanup] in its buffer of 1024 bytes, comes out
    empty. *)
Theorem GetResponseSize_spec (r : HttpResponse) :
  statusCode_ r <> HSC_UNKNOWN -> blen (render r) < 2 ^ 62 ->
  (sized 15 r -> GetResponseSize r = blen (render r) + 2) /\
  (sized 0 r -> GetResponseSize r = blen (render r) - 13) /\
  (sized 0 after_cleanup /\ GetResponseSize after_cleanup = 1017 /\
   exists mem, GenerateResponse after_cleanup (replicate 1032 nul) 1024 = Some (mem, 0)).
Proof.
  intros Hc Hb. rewrite render_length in * by done. unfold sized, GetResponseSize.
  pose proof (blen_nonneg (statusMsg_ r)). pose proof (blen_nonneg (respBody_ r)).
  pose proof (blen_nonneg (header_lines (respHeader_ r))).
  split; [|split].
  - intros ->. rewrite u64_id by lia. lia.
  - intros ->. rewrite u64_id by lia. lia.
  - split; [by vm_compute|]. split; [by vm_compute|]. eexists. vm_compute. reflexivity.
Qed.

Lemma GetResponseSize_spec_witness :
  GetResponseSize demo_response = blen (render demo_response) + 2.
Proof.
  destruct (GetResponseSize_spec demo_response) as [H1 _];
    [discriminate|vm_compute; reflexivity|].
  apply H1. vm_compute. by repeat split.
Defined.
