(* ===== verification/HttpClient.v ===== *)
(** * HttpClient.v: [http/HttpClient.h] and [http/HttpClient.cc]

The state machine of one connection: request line, headers, body, response, send.
A handler runs on the whole state of the client and returns the [int] of the
code; [None] is a crash ([NULL] dereference, an [assert], or a [std::string] built
from a reversed range, which throws).  [ProcessEvent] repeats the handler of the
current state while it returns a positive number; the loop takes fuel, and
whether it ends is part of the theorems.

The pointers of the parsers are offsets in the memory of the read buffer, which
is modelled with its stale bytes: [end] is computed once, before the consuming
calls that may move the start of the content back to 0.

The connection is an interface ([Connection]); SocketServer.v is what is behind
it. *)

From S2P Require Import Prelude Machine HttpBuffer HttpRequest HttpResponse.

(** ** What the client uses of [SocketConnection] *)

(** [ReadBuffer] returns a negative number, or the number of bytes it stored. *)
Inductive read_result : Type := ReadFail (code : Z) | ReadData (data : bytes).

Class Connection (C : Type) : Type := {
  ReadBuffer : Z -> C -> C * read_result;
  SendBuffer : bytes -> C -> C * Z;
  CloseConnection : C -> C
}.

Class ConnectionSpec (C : Type) `{Connection C} : Prop := {
  ReadBuffer_size sz c c' data : 0 <= sz -> ReadBuffer sz c = (c', ReadData data) -> blen data <= sz;
  ReadBuffer_fail sz c c' code : ReadBuffer sz c = (c', ReadFail code) -> code < 0;
  SendBuffer_size data c c' n : SendBuffer data c = (c', n) -> n <= blen data
}.

(** ** Searching *)

(** [std::find]: the index of the first [c], the length when there is none. *)
Fixpoint find_in (c : ascii) (l : bytes) : nat :=
  match l with
  | [] => 0%nat
  | x :: l' => if decide (x = c) then 0%nat else S (find_in c l')
  end.

(** [std::search] for two bytes. *)
Fixpoint search_in (c1 c2 : ascii) (l : bytes) : nat :=
  match l with
  | [] => 0%nat
  | x :: l' =>
      match l' with
      | y :: _ => if decide (x = c1 /\ y = c2) then 0%nat else S (search_in c1 c2 l')
      | [] => 1%nat
      end
  end.

Definition cr : ascii := "013"%char.
Definition lf : ascii := "010"%char.
Definition colon : ascii := ":"%char.
Definition space : ascii := " "%char.
Definition question : ascii := "?"%char.

Definition std_find (c : ascii) (s e : Z) (b : HttpReadBuffer) : Z :=
  s + Z.of_nat (find_in c (range s e b)).

Definition std_search (c1 c2 : ascii) (s e : Z) (b : HttpReadBuffer) : Z :=
  s + Z.of_nat (search_in c1 c2 (range s e b)).

(** [std::string(first, last)] *)
Definition std_string (first last : Z) (b : HttpReadBuffer) : option bytes :=
  if last <? first then None else Some (range first last b).

(** [atoi]: blanks, a sign, digits. *)
Definition digit (c : ascii) : option Z :=
  let n := Z.of_nat (nat_of_ascii c) in
  if (48 <=? n) && (n <=? 57) then Some (n - 48) else None.

Fixpoint atoi_digits (l : bytes) (acc : Z) : Z :=
  match l with
  | [] => acc
  | c :: l' => match digit c with Some d => atoi_digits l' (acc * 10 + d) | None => acc end
  end.

Definition is_space (c : ascii) : bool :=
  let n := nat_of_ascii c in (n =? 32)%nat || ((9 <=? n)%nat && (n <=? 13)%nat).

Fixpoint atoi (l : bytes) : Z :=
  match l with
  | [] => 0
  | c :: l' =>
      if is_space c then atoi l'
      else if decide (c = "-"%char) then i32 (- atoi_digits l' 0)
      else if decide (c = "+"%char) then i32 (atoi_digits l' 0)
      else i32 (atoi_digits l 0)
  end.

(** ** The client *)

Inductive SocketCode : Type :=
| SC_READ | SC_WRITE | SC_CONNECTED | SC_ACCEPTED | SC_FAIL_CONN | SC_ERROR | SC_SUCC.

#[export] Instance SocketCode_eq : EqDecision SocketCode.
Proof. solve_decision. Defined.

(** The result of running code: a value, a crash, or the fuel used up. *)
Inductive run (A : Type) : Type := Val (a : A) | Crash | Spin.
Arguments Val {A} _.
Arguments Crash {A}.
Arguments Spin {A}.

Inductive EventHandler : Type :=
| ProcessRequestLine_h | ProcessHeader_h | ProcessBody_h | GenerateResponse_h | SendResponse_h.

Section HttpClient.
Context {C : Type} `{CC : Connection C}.
(** [cgi_], the registered handler. *)
Variable cgi_ : HttpRequest -> HttpResponse -> HttpResponse.
(** The capacity of strings (HttpRequest.v), and whether [malloc] succeeds. *)
Variables (reserve grow : Z -> Z -> Z) (malloc_ok : bool).

(** [conn_] is whether the pointer is set; [peer] is the connection. *)
Record HttpClient : Type := Client {
  keepalive_ : bool; readBuffer_ : HttpReadBuffer; heap_ : heap; writeBuffer_ : HttpWriteBuffer;
  pendingWrite_ : HttpBufferList; request_ : HttpRequest; clientResponse_ : HttpResponse;
  evtHandler_ : EventHandler; conn_ : bool; peer : C
}.

Definition set_read (b : HttpReadBuffer) (c : HttpClient) : HttpClient :=
  Client (keepalive_ c) b (heap_ c) (writeBuffer_ c) (pendingWrite_ c) (request_ c) (clientResponse_ c)
    (evtHandler_ c) (conn_ c) (peer c).
Definition set_request (r : HttpRequest) (c : HttpClient) : HttpClient :=
  Client (keepalive_ c) (readBuffer_ c) (heap_ c) (writeBuffer_ c) (pendingWrite_ c) r (clientResponse_ c)
    (evtHandler_ c) (conn_ c) (peer c).
Definition set_handler (e : EventHandler) (c : HttpClient) : HttpClient :=
  Client (keepalive_ c) (readBuffer_ c) (heap_ c) (writeBuffer_ c) (pendingWrite_ c) (request_ c)
    (clientResponse_ c) e (conn_ c) (peer c).
Definition set_keepalive (k : bool) (c : HttpClient) : HttpClient :=
  Client k (readBuffer_ c) (heap_ c) (writeBuffer_ c) (pendingWrite_ c) (request_ c) (clientResponse_ c)
    (evtHandler_ c) (conn_ c) (peer c).
Definition set_peer (p : C) (c : HttpClient) : HttpClient :=
  Client (keepalive_ c) (readBuffer_ c) (heap_ c) (writeBuffer_ c) (pendingWrite_ c) (request_ c)
    (clientResponse_ c) (evtHandler_ c) (conn_ c) p.
Definition set_write (h : heap) (w : HttpWriteBuffer) (p : HttpBufferList) (c : HttpClient) : HttpClient :=
  Client (keepalive_ c) (readBuffer_ c) h w p (request_ c) (clientResponse_ c) (evtHandler_ c) (conn_ c) (peer c).
Definition set_response (r : HttpResponse) (c : HttpClient) : HttpClient :=
  Client (keepalive_ c) (readBuffer_ c) (heap_ c) (writeBuffer_ c) (pendingWrite_ c) (request_ c) r
    (evtHandler_ c) (conn_ c) (peer c).

(** The loop of [ResetClient] over the pending buffers. *)
Fixpoint release_pending (fuel : nat) (h : heap) (w : HttpWriteBuffer) (p : HttpBufferList) :
    option (heap * HttpWriteBuffer * HttpBufferList) :=
  match fuel with
  | O => None
  | S fuel' =>
      match PopFront h p with
      | None => None
      | Some (p', None) => Some (h, w, p')
      | Some (p', Some buf) =>
          match ReleaseWriteBuffer buf h w with
          | Some (h', w') => release_pending fuel' h' w' p'
          | None => None
          end
      end
  end.

Definition ResetClient (conn : bool) (c : HttpClient) : option HttpClient :=
  match release_pending (S (size (heap_ c))) (heap_ c) (writeBuffer_ c) (pendingWrite_ c) with
  | Some (h, w, p) =>
      Some (Client false (ResetBuffer (readBuffer_ c)) h w p (CleanUp (request_ c))
        (CleanUpResponse (clientResponse_ c)) ProcessRequestLine_h conn (peer c))
  | None => None
  end.

Definition CloseClient (c : HttpClient) : option HttpClient :=
  if conn_ c then ResetClient false (set_peer (CloseConnection (peer c)) c) else None.

Definition ReadHttpData (c : HttpClient) : option (HttpClient * Z) :=
  if GetContenLen (readBuffer_ c) =? 0 then
    let '(b, off, sz) := GetFreeBuffer (readBuffer_ c) in
    if sz =? 0 then Some (set_read b c, 0)
    else if conn_ c then
      match ReadBuffer sz (peer c) with
      | (p, ReadFail code) => Some (set_peer p (set_read b c), code)
      | (p, ReadData data) =>
          let b := write_at off data b in
          if 0 <? blen data then
            match IncreaseContentRange (blen data) b with
            | Some b => Some (set_peer p (set_read b c), blen data)
            | None => None
            end
          else Some (set_peer p (set_read b c), 0)
      end
    else None
  else Some (c, 0).

(** ** Parsing *)

(** The part of [ParseRequestLine] after the url; [len] is the count so far. *)
Definition ParseVersion (e len : Z) (c : HttpClient) : option (HttpClient * Z) :=
  let b := readBuffer_ c in
  let start := GetContentStart b in
  let end_of_req := std_search cr lf start e b in
  if end_of_req =? e then Some (c, len)
  else if negb (end_of_req - start =? 8) then Some (c, -1)
  else
    let '(r, ok) := SetVersion (range start end_of_req b) (request_ c) in
    if ok then Some (set_handler ProcessHeader_h (set_read (ConsumeBuffer 10 b) (set_request r c)), len + 10)
    else Some (set_request r c, -1).

(** The part after the method. *)
Definition ParseUrl (e len : Z) (c : HttpClient) : option (HttpClient * Z) :=
  let b := readBuffer_ c in
  let start := GetContentStart b in
  let delim := std_find space start e b in
  if delim =? e then Some (c, len)
  else
    let question_mark := std_find question start e b in
    match
      (if negb (question_mark =? e) then
         match std_string (question_mark + 1) delim b with
         | Some data => Some (SetUrlData data (SetUrl (range start question_mark b) (request_ c)))
         | None => None
         end
       else Some (SetUrl (range start delim b) (request_ c)))
    with
    | None => None
    | Some r =>
        ParseVersion e (len + (delim - start + 1))
          (set_read (ConsumeBuffer (delim - start + 1) b) (set_request r c))
    end.

Definition ParseRequestLine (c : HttpClient) : option (HttpClient * Z) :=
  let b := readBuffer_ c in
  let start := GetContentStart b in
  let e := GetContentEnd b in
  let delim := std_find space start e b in
  if delim =? e then Some (c, 0)
  else
    let '(r, ok) := SetHttpMethod (range start delim b) (request_ c) in
    if ok then
      ParseUrl e (delim - start + 1) (set_read (ConsumeBuffer (delim - start + 1) b) (set_request r c))
    else Some (set_request r c, -1).

(** The loop of [ParseHeader]: the client, and the count, or [None] for
    [return true]. *)
Fixpoint header_loop (fuel : nat) (e len : Z) (c : HttpClient) : run (HttpClient * option Z) :=
  match fuel with
  | O => Spin
  | S fuel' =>
      let b := readBuffer_ c in
      let start := GetContentStart b in
      let line_end := std_search cr lf start e b in
      if line_end =? e then Val (c, None)
      else
        let colon_pos := std_search colon space start line_end b in
        let c' := set_read (ConsumeBuffer (line_end - start + 2) b) c in
        let len' := len + (line_end - start + 2) in
        if colon_pos =? line_end then Val (c', Some len')
        else
          match std_string (colon_pos + 2) line_end b with
          | None => Crash
          | Some value =>
              header_loop fuel' e len'
                (set_request (AddHeader (range start colon_pos b) value (request_ c)) c')
          end
  end.

Definition ParseHeader (fuel : nat) (c : HttpClient) : run (HttpClient * Z) :=
  match header_loop fuel (GetContentEnd (readBuffer_ c)) 0 c with
  | Crash => Crash
  | Spin => Spin
  | Val (c, None) => Val (c, 1)
  | Val (c, Some len) =>
      let connection := GetHeaderValue (bs "Connection") (request_ c) in
      Val (set_handler ProcessBody_h (set_keepalive (bool_decide (connection = bs "Keep-Alive")) c), len)
  end.

Definition ParseBody (c : HttpClient) : option (HttpClient * Z) :=
  let b := readBuffer_ c in
  let start := GetContentStart b in
  let e := GetContentEnd b in
  if bool_decide (method_ (request_ c) <> HM_POST) then
    Some (set_handler GenerateResponse_h (set_read (ConsumeBuffer (e - start) b) c), 1)
  else
    let known := GetBodyLength (request_ c) in
    let clen := GetHeaderValue (bs "Content-Length") (request_ c) in
    let contentLen := if known =? 0 then u64 (atoi clen) else known in
    if (known =? 0) && bool_decide (clen = []) then Some (c, 0)
    else if (known =? 0) && (contentLen =? 0) then Some (c, 0)
    else if (known =? 0) && (MaxBodyLength <=? contentLen) then Some (c, -1)
    else
      let r := if known =? 0 then SetBodySize reserve contentLen (request_ c) else request_ c in
      let len_of_data_received := GetCurBodyLength r in
      if contentLen <=? len_of_data_received then Some (set_request r c, 0)
      else
        let left := contentLen - len_of_data_received in
        if left <? e - start then Some (set_request r c, -1)
        else
          let c := if e - start =? left then set_handler GenerateResponse_h c else c in
          Some (set_read (ConsumeBuffer (e - start) b)
                  (set_request (AppendBody grow (range start e b) r) c), e - start).

Definition GenerateResponseH (c : HttpClient) : option (HttpClient * Z) :=
  let resp := cgi_ (request_ c) (clientResponse_ c) in
  let sz := i32 (GetResponseSize resp) in
  match AllocWriteBuffer malloc_ok sz (heap_ c) (writeBuffer_ c) with
  | Some (h, w, Some buf) =>
      match h !! buf with
      | None => None
      | Some x =>
          match GenerateResponse resp (b_memory x) (b_size x) with
          | None => None
          | Some (mem, n) =>
              let h := <[buf := HB (b_size x) (i32 n) (b_curPtr x) (next_ x) mem]> h in
              match PushBack buf h (pendingWrite_ c) with
              | None => None
              | Some (h, p) =>
                  Some (set_handler SendResponse_h (set_response (CleanUpResponse resp) (set_write h w p c)), 1)
              end
          end
      end
  | _ => None        (* [buf] is [NULL] *)
  end.

(** The loop of [SendResponse]: whether the list got empty. *)
Fixpoint send_loop (fuel : nat) (len : Z) (c : HttpClient) : option (HttpClient * Z * bool) :=
  match fuel with
  | O => None
  | S fuel' =>
      match GetFront (pendingWrite_ c) with
      | None => Some (c, len, true)
      | Some buf =>
          match heap_ c !! buf, conn_ c with
          | Some x, true =>
              let data := slice (b_memory x) (Z.to_nat (b_curPtr x)) (Z.to_nat (b_curSize x)) in
              let '(p, sz) := SendBuffer data (peer c) in
              let c := set_peer p c in
              if sz <? 0 then Some (c, -1, false)
              else if sz <? b_curSize x then
                let h := <[buf := HB (b_size x) (b_curSize x - sz) (b_curPtr x + sz) (next_ x) (b_memory x)]> (heap_ c) in
                Some (set_write h (writeBuffer_ c) (pendingWrite_ c) c, len + sz, false)
              else
                match PopFront (heap_ c) (pendingWrite_ c) with
                | None => None
                | Some (pw, _) =>
                    match ReleaseWriteBuffer buf (heap_ c) (writeBuffer_ c) with
                    | None => None
                    | Some (h, w) => send_loop fuel' (len + sz) (set_write h w pw c)
                    end
                end
          | _, _ => None
          end
      end
  end.

Definition SendResponse (c : HttpClient) : option (HttpClient * Z) :=
  match send_loop (S (size (heap_ c))) 0 c with
  | None => None
  | Some (c, len, true) => Some (set_handler ProcessRequestLine_h c, len)
  | Some (c, len, false) => Some (c, len)
  end.

(** ** The state machine *)

Definition lift {A} (x : option A) : run A := match x with Some a => Val a | None => Crash end.

(** [ProcessRequestLine], [ProcessHeader] and [ProcessBody] read first when the
    event is [SC_READ]. *)
Definition with_read (evt : SocketCode) (parse : HttpClient -> run (HttpClient * Z)) (c : HttpClient) :
    run (HttpClient * Z) :=
  if decide (evt = SC_READ) then
    match ReadHttpData c with
    | None => Crash
    | Some (c, ret) => if ret <? 0 then Val (c, ret) else parse c
    end
  else parse c.

(** Every round of the header loop that makes progress consumes a byte. *)
Definition header_fuel (c : HttpClient) : nat := S (S (length (memory_ (readBuffer_ c)))).

Definition handler (evt : SocketCode) (c : HttpClient) : run (HttpClient * Z) :=
  match evtHandler_ c with
  | ProcessRequestLine_h => with_read evt (fun c => lift (ParseRequestLine c)) c
  | ProcessHeader_h => with_read evt (fun c => ParseHeader (header_fuel c) c) c
  | ProcessBody_h => with_read evt (fun c => lift (ParseBody c)) c
  | GenerateResponse_h => lift (GenerateResponseH c)
  | SendResponse_h => lift (SendResponse c)
  end.

(** [ret] is the sum so far. *)
Fixpoint process_loop (fuel : nat) (evt : SocketCode) (ret : Z) (c : HttpClient) : run (HttpClient * Z) :=
  match fuel with
  | O => Spin
  | S fuel' =>
      match handler evt c with
      | Crash => Crash
      | Spin => Spin
      | Val (c, len) =>
          if len <? 0 then match CloseClient c with Some c => Val (c, -1) | None => Crash end
          else if 0 <? len then process_loop fuel' evt (ret + len) c
          else Val (c, ret + len)
      end
  end.

Definition ProcessEvent (fuel : nat) (evt : SocketCode) (c : HttpClient) : run (HttpClient * Z) :=
  process_loop fuel evt 0 c.
End HttpClient.
Arguments HttpClient C : clear implicits.

(** ** Searching in known text *)

Lemma find_in_app c a b : c ∉ a -> find_in c (a ++ c :: b) = length a.
Proof.
  induction a as [|x a IH]; intros H; simpl; [by rewrite decide_True|].
  rewrite decide_False by set_solver. rewrite IH by set_solver. done.
Qed.

Lemma find_in_none c a : c ∉ a -> find_in c a = length a.
Proof.
  induction a as [|x a IH]; intros H; simpl; [done|].
  rewrite decide_False by set_solver. rewrite IH by set_solver. done.
Qed.

Lemma search_in_cons c1 c2 x y l :
  search_in c1 c2 (x :: y :: l) = if decide (x = c1 /\ y = c2) then 0%nat else S (search_in c1 c2 (y :: l)).
Proof. done. Qed.

Lemma search_in_app c1 c2 a b : c1 ∉ a -> search_in c1 c2 (a ++ c1 :: c2 :: b) = length a.
Proof.
  induction a as [|x a IH]; intros H; [cbn [app]; by rewrite search_in_cons, decide_True|].
  destruct (a ++ c1 :: c2 :: b) as [|y l] eqn:E; [by destruct a|].
  cbn [app length]. rewrite E, search_in_cons, decide_False, IH by set_solver. done.
Qed.

Lemma search_in_none c1 c2 a : c1 ∉ a -> search_in c1 c2 a = length a.
Proof.
  induction a as [|x a IH]; intros H; [done|].
  destruct a as [|y a]; [done|]. rewrite search_in_cons, decide_False, IH by set_solver. done.
Qed.

(** ** A request in one piece

A request as its sender sees it, and its text. *)
Record message : Type := Message {
  m_method : HttpMethod; m_url : bytes; m_data : option bytes; m_version : HttpVersion;
  m_headers : list (bytes * bytes)
}.

Definition method_name (m : HttpMethod) : bytes :=
  GetHttpMethodName (Req 0 m HV_INVALID [] [] [] 0 []).
Definition version_name (v : HttpVersion) : bytes :=
  GetVersionName (Req 0 HM_INVALID v [] [] [] 0 []).

Definition url_text (q : message) : bytes :=
  m_url q ++ match m_data q with Some d => question :: d | None => [] end.

Definition headers_text (hs : list (bytes * bytes)) : bytes :=
  mjoin (map (fun kv => header_line (fst kv) (snd kv)) hs).

Definition message_text (q : message) : bytes :=
  method_name (m_method q) ++ space :: url_text q ++ space :: version_name (m_version q) ++ crlf ++
  headers_text (m_headers q) ++ crlf.

(** What the parser accepts: no blank in the url, no question mark but the one
    before the data, header names without colon, no carriage return and no NUL
    anywhere. *)
Record message_ok (q : message) : Prop := {
  mo_method : m_method q <> HM_INVALID;
  mo_version : m_version q <> HV_INVALID;
  mo_url : space ∉ m_url q /\ question ∉ m_url q /\ cr ∉ m_url q;
  mo_data : forall d, m_data q = Some d -> space ∉ d /\ cr ∉ d;
  mo_question : m_data q = None -> question ∉ headers_text (m_headers q);
  mo_headers : Forall (fun kv => (colon ∉ fst kv /\ cr ∉ fst kv /\ nul ∉ fst kv) /\
    (cr ∉ snd kv /\ nul ∉ snd kv)) (m_headers q)
}.

(** The request the handler is to see. *)
Definition parsed (q : message) (r : HttpRequest) : HttpRequest :=
  Req (bodyLen_ r) (m_method q) (m_version q) (m_url q) (default (urlData_ r) (m_data q)) (httpBody_ r)
    (capacity_ r) (foldl (fun m kv => smap_set (fst kv) (snd kv) m) (httpHeader_ r) (m_headers q)).

(** ** Offsets and content *)

Lemma range_take b n :
  rb_inv b -> (n <= length (content b))%nat ->
  range (GetContentStart b) (GetContentStart b + Z.of_nat n) b = take n (content b).
Proof.
  intros HI Hn. pose proof (content_length b HI) as Hl. unfold content, range, slice, blen in *.
  unfold GetContentEnd, GetContentStart in *. rewrite take_take. f_equal. lia.
Qed.

Lemma range_mid b k n :
  rb_inv b -> (k <= n)%nat -> (n <= length (content b))%nat ->
  range (GetContentStart b + Z.of_nat k) (GetContentStart b + Z.of_nat n) b =
    take (n - k) (drop k (content b)).
Proof.
  intros HI Hk Hn. pose proof (content_length b HI) as Hl. destruct HI as [H1 H2 H3].
  unfold content, range, slice, blen in *. unfold GetContentEnd, GetContentStart in *.
  rewrite skipn_firstn_comm, take_take, drop_drop. f_equal; [lia|]. f_equal. lia.
Qed.

(** A consumption that leaves some content moves the start and keeps the end. *)
Lemma consume_some b n :
  rb_inv b -> (n < length (content b))%nat ->
  rb_inv (ConsumeBuffer (Z.of_nat n) b) /\ content (ConsumeBuffer (Z.of_nat n) b) = drop n (content b) /\
  GetContentEnd (ConsumeBuffer (Z.of_nat n) b) = GetContentEnd b.
Proof.
  intros HI Hn. pose proof (content_length b HI) as Hl. split; [apply ConsumeBuffer_inv; [lia|done]|].
  split; [rewrite content_ConsumeBuffer, Nat2Z.id by (lia || done); done|].
  unfold ConsumeBuffer, GetContentEnd, blen in *. cbv zeta.
  rewrite (proj2 (Z.ltb_ge _ _)), (proj2 (Z.eqb_neq _ _)) by lia. simpl. lia.
Qed.

Lemma content_end b : rb_inv b -> GetContentEnd b = GetContentStart b + blen (content b).
Proof. intros HI. rewrite content_length by done. done. Qed.

(** The searches from the start of the content to its end. *)
Lemma std_find_content ch b a rest :
  rb_inv b -> content b = a ++ ch :: rest -> ch ∉ a ->
  std_find ch (GetContentStart b) (GetContentEnd b) b = GetContentStart b + blen a.
Proof. intros HI Hc Hn. unfold std_find. fold (content b). by rewrite Hc, find_in_app. Qed.

Lemma std_find_none ch b :
  rb_inv b -> ch ∉ content b ->
  std_find ch (GetContentStart b) (GetContentEnd b) b = GetContentEnd b.
Proof.
  intros HI Hn. unfold std_find. fold (content b). rewrite find_in_none by done.
  by rewrite (content_end b HI).
Qed.

Lemma std_search_content c1 c2 b a rest :
  rb_inv b -> content b = a ++ c1 :: c2 :: rest -> c1 ∉ a ->
  std_search c1 c2 (GetContentStart b) (GetContentEnd b) b = GetContentStart b + blen a.
Proof. intros HI Hc Hn. unfold std_search. fold (content b). by rewrite Hc, search_in_app. Qed.

Section Parsing.
Context {C : Type} `{CC : Connection C}.

Lemma version_name_ok v :
  v <> HV_INVALID ->
  blen (version_name v) = 8 /\ cr ∉ version_name v /\ question ∉ version_name v /\
  version_of (version_name v) = v.
Proof.
  intros Hv. destruct v; [| |done]; (split; [done|]; split; [|split; [|done]]);
    apply (bool_decide_unpack _); by vm_compute.
Qed.

Lemma method_name_ok m :
  m <> HM_INVALID -> space ∉ method_name m /\ method_of (method_name m) = m.
Proof.
  intros Hm. destruct m; try done; (split; [|done]); apply (bool_decide_unpack _); by vm_compute.
Qed.

Lemma ParseVersion_ok (c : HttpClient C) v rest len :
  rb_inv (readBuffer_ c) -> content (readBuffer_ c) = version_name v ++ crlf ++ rest ->
  v <> HV_INVALID -> rest <> [] ->
  let b' := ConsumeBuffer 10 (readBuffer_ c) in
  ParseVersion (GetContentEnd (readBuffer_ c)) len c =
    Some (set_handler ProcessHeader_h (set_read b' (set_request (fst (SetVersion (version_name v) (request_ c))) c)),
      len + 10) /\
  rb_inv b' /\ content b' = rest.
Proof.
  intros HI Hc Hv Hr. cbv zeta. destruct (version_name_ok v Hv) as (Hl&Hcr&_&Hof).
  assert (Hln : length (version_name v) = 8%nat) by (unfold blen in Hl; lia).
  assert (Hrl : (0 < length rest)%nat) by (destruct rest; [done|simpl; lia]).
  destruct (consume_some (readBuffer_ c) 10 HI) as (Hi&Hcc&_).
  { rewrite Hc, !length_app, Hln. simpl. lia. }
  split; [|split; [exact Hi|]].
  - unfold ParseVersion. cbv zeta.
    rewrite (std_search_content cr lf _ (version_name v) rest) by done.
    rewrite (content_end _ HI), Hc, !blen_app, Hl. change (blen crlf) with 2.
    rewrite (proj2 (Z.eqb_neq _ _)) by (pose proof (blen_nonneg rest); lia).
    replace (GetContentStart (readBuffer_ c) + 8 - GetContentStart (readBuffer_ c)) with 8 by lia.
    cbn [negb Z.eqb Pos.eqb]. change 8 with (Z.of_nat 8). rewrite range_take by (rewrite ?Hc, ?length_app; lia || done).
    rewrite Hc, take_app_le, take_ge by lia.
    unfold SetVersion. cbv zeta. rewrite Hof. by rewrite bool_decide_true.
  - change 10 with (Z.of_nat 10). rewrite Hcc, Hc, app_assoc, drop_app_ge by (rewrite length_app, Hln; simpl; lia).
    rewrite length_app, Hln. done.
Qed.

(** The text after the url. *)
Definition tail_text (q : message) : bytes :=
  version_name (m_version q) ++ crlf ++ headers_text (m_headers q) ++ crlf.

Lemma crlf_parts : crlf = [cr; lf].
Proof. done. Qed.

Lemma tail_text_ne q : headers_text (m_headers q) ++ crlf <> [].
Proof. by destruct (headers_text _). Qed.

Definition url_request (q : message) (r : HttpRequest) : HttpRequest :=
  match m_data q with
  | Some d => SetUrlData d (SetUrl (m_url q) r)
  | None => SetUrl (m_url q) r
  end.

Lemma question_tail q :
  message_ok q -> m_data q = None -> question ∉ tail_text q.
Proof.
  intros Hq Hd. destruct (version_name_ok (m_version q) (mo_version _ Hq)) as (_&_&Hv&_).
  pose proof (mo_question _ Hq Hd). unfold tail_text. rewrite !not_elem_of_app.
  repeat split; try done; apply (bool_decide_unpack _); by vm_compute.
Qed.

(** The url of a request in one piece, with and without data. *)
Lemma ParseUrl_request (c : HttpClient C) q :
  rb_inv (readBuffer_ c) -> content (readBuffer_ c) = url_text q ++ space :: tail_text q -> message_ok q ->
  let b := readBuffer_ c in
  let start := GetContentStart b in
  let e := GetContentEnd b in
  let delim := std_find space start e b in
  let question_mark := std_find question start e b in
  delim = start + blen (url_text q) /\ delim <> e /\
  (if negb (question_mark =? e) then
     match std_string (question_mark + 1) delim b with
     | Some data => Some (SetUrlData data (SetUrl (range start question_mark b) (request_ c)))
     | None => None
     end
   else Some (SetUrl (range start delim b) (request_ c))) = Some (url_request q (request_ c)).
Proof.
  intros HI Hc Hq. cbv zeta. destruct (mo_url _ Hq) as (Hu1&Hu2&_).
  assert (Hsp : space ∉ url_text q).
  { unfold url_text. rewrite not_elem_of_app. split; [done|]. destruct (m_data q) as [d|] eqn:Ed; [|set_solver].
    apply not_elem_of_cons. split; [done|]. by apply (mo_data _ Hq). }
  rewrite (std_find_content space _ (url_text q) (tail_text q)) by done.
  pose proof (content_end _ HI) as He. rewrite Hc, blen_app in He.
  assert (Hlen : blen (space :: tail_text q) = 1 + blen (tail_text q)) by (unfold blen; simpl; lia).
  pose proof (blen_nonneg (tail_text q)). split; [done|]. split; [lia|].
  unfold url_request. unfold url_text in *. destruct (m_data q) as [d|] eqn:Ed.
  - rewrite <-app_assoc in Hc. cbn [app] in Hc.
    rewrite (std_find_content question _ (m_url q) (d ++ space :: tail_text q)) by done.
    pose proof (blen_nonneg (m_url q)). pose proof (blen_nonneg d).
    rewrite blen_app in *. assert (Hd1 : blen (question :: d) = 1 + blen d) by (unfold blen; simpl; lia).
    rewrite Hd1 in *. rewrite (proj2 (Z.eqb_neq _ _)) by lia. cbn [negb]. unfold std_string.
    rewrite (proj2 (Z.ltb_ge _ _)) by lia.
    assert (Hlc : length (content (readBuffer_ c)) = (length (m_url q) + S (length d + S (length (tail_text q))))%nat)
      by (rewrite Hc, !length_app; simpl; rewrite length_app; simpl; lia).
    unfold blen. do 3 f_equal.
    + replace (_ + _ + 1) with (GetContentStart (readBuffer_ c) + Z.of_nat (S (length (m_url q)))) by lia.
      replace (_ + (_ + (1 + _))) with
        (GetContentStart (readBuffer_ c) + Z.of_nat (S (length (m_url q)) + length d)) by lia.
      rewrite range_mid by (done || lia). rewrite Hc, drop_app_ge by lia.
      replace (S (length (m_url q)) - length (m_url q))%nat with 1%nat by lia. simpl. rewrite drop_0.
      rewrite take_app_le, take_ge by lia. done.
    + rewrite range_take, Hc, take_app_le, take_ge by (done || lia). done.
  - rewrite !app_nil_r in *.
    assert (Hnq : question ∉ content (readBuffer_ c)).
    { rewrite Hc, not_elem_of_app, not_elem_of_cons. split; [done|]. split; [done|].
      by apply question_tail. }
    rewrite (std_find_none question) by done.
    rewrite Z.eqb_refl. cbn [negb]. unfold blen.
    rewrite range_take by (rewrite ?Hc, ?length_app; lia || done).
    by rewrite Hc, take_app_le, take_ge by lia.
Qed.

Lemma consume_past b a x rest :
  rb_inv b -> content b = a ++ x :: rest -> rest <> [] ->
  let b' := ConsumeBuffer (blen a + 1) b in
  rb_inv b' /\ content b' = rest /\ GetContentEnd b' = GetContentEnd b.
Proof.
  intros HI Hc Hr. cbv zeta. destruct (consume_some b (S (length a)) HI) as (H1&H2&H3).
  { rewrite Hc, length_app. destruct rest; [done|simpl; lia]. }
  replace (blen a + 1) with (Z.of_nat (S (length a))) by (unfold blen; lia).
  split; [done|]. split; [|done]. rewrite H2, Hc, drop_app_ge by lia.
  by replace (S (length a) - length a)%nat with 1%nat by lia.
Qed.

Lemma ParseUrl_ok (c : HttpClient C) q len :
  rb_inv (readBuffer_ c) -> content (readBuffer_ c) = url_text q ++ space :: tail_text q -> message_ok q ->
  exists b', ParseUrl (GetContentEnd (readBuffer_ c)) len c =
      Some (set_handler ProcessHeader_h (set_read b' (set_request
        (fst (SetVersion (version_name (m_version q)) (url_request q (request_ c)))) c)),
        len + (blen (url_text q) + 1) + 10) /\
    rb_inv b' /\ content b' = headers_text (m_headers q) ++ crlf /\ size_ b' = size_ (readBuffer_ c).
Proof.
  intros HI Hc Hq. assert (Hne2 : tail_text q <> []).
  { unfold tail_text. destruct (version_name (m_version q)); [|done]. by destruct (headers_text _). }
  unfold ParseUrl. cbv zeta. destruct (ParseUrl_request c q HI Hc Hq) as (Hd1&Hd2&Hr).
  cbv zeta in Hd1, Hd2, Hr. rewrite (proj2 (Z.eqb_neq _ _)), Hr, Hd1 by done. clear Hr Hd1 Hd2.
  replace (GetContentStart (readBuffer_ c) + blen (url_text q) - GetContentStart (readBuffer_ c) + 1)
    with (blen (url_text q) + 1) by lia.
  destruct (consume_past _ _ _ _ HI Hc Hne2) as (HI2&Hc2&He2). rewrite <-He2.
  set (c2 := set_read (ConsumeBuffer (blen (url_text q) + 1) (readBuffer_ c)) (set_request (url_request q (request_ c)) c)).
  destruct (ParseVersion_ok c2 (m_version q) (headers_text (m_headers q) ++ crlf)
    (len + (blen (url_text q) + 1)) HI2 Hc2 (mo_version _ Hq) (tail_text_ne q)) as (Ev&Hi3&Hc3).
  cbv zeta in Ev. change (readBuffer_ c2) with (ConsumeBuffer (blen (url_text q) + 1) (readBuffer_ c)) in *.
  rewrite Ev. eexists. split; [reflexivity|]. done.
Qed.

(** The request line of a request in one piece. *)
(** The method of a request line: the rest is left to [ParseUrl]. *)
Lemma ParseRequestLine_method (c : HttpClient C) m tail :
  rb_inv (readBuffer_ c) -> content (readBuffer_ c) = method_name m ++ space :: tail -> m <> HM_INVALID -> tail <> [] ->
  let b := ConsumeBuffer (blen (method_name m) + 1) (readBuffer_ c) in
  ParseRequestLine c = ParseUrl (GetContentEnd b) (blen (method_name m) + 1)
    (set_read b (set_request (fst (SetHttpMethod (method_name m) (request_ c))) c)) /\
  rb_inv b /\ content b = tail.
Proof.
  intros HI Hc Hm Hne. cbv zeta. destruct (method_name_ok m Hm) as [Hsp Hmo].
  unfold ParseRequestLine. cbv zeta. rewrite (std_find_content space _ (method_name m) tail) by done.
  pose proof (content_end _ HI) as He. rewrite Hc, blen_app in He.
  assert (Hl : forall l, blen (space :: l) = 1 + blen l) by (intros l; unfold blen; simpl; lia).
  rewrite Hl in He. pose proof (blen_nonneg tail).
  rewrite (proj2 (Z.eqb_neq _ _)) by lia.
  replace (GetContentStart (readBuffer_ c) + blen (method_name m) - GetContentStart (readBuffer_ c) + 1)
    with (blen (method_name m) + 1) by lia.
  assert (Hrg : range (GetContentStart (readBuffer_ c))
    (GetContentStart (readBuffer_ c) + blen (method_name m)) (readBuffer_ c) = method_name m).
  { unfold blen. rewrite range_take by (rewrite ?Hc, ?length_app; lia || done).
    by rewrite Hc, take_app_le, take_ge by lia. }
  rewrite Hrg. unfold SetHttpMethod at 1. cbv zeta. rewrite Hmo, (bool_decide_true (m <> HM_INVALID)) by done.
  destruct (consume_past _ _ _ _ HI Hc Hne) as (HI1&Hc1&He1). rewrite <-He1.
  split; [|done]. unfold SetHttpMethod. cbv zeta. by rewrite Hmo.
Qed.

Lemma ParseRequestLine_ok (c : HttpClient C) q :
  rb_inv (readBuffer_ c) -> content (readBuffer_ c) = message_text q -> message_ok q ->
  exists b' len, ParseRequestLine c =
      Some (set_handler ProcessHeader_h (set_read b' (set_request
        (fst (SetVersion (version_name (m_version q))
          (url_request q (fst (SetHttpMethod (method_name (m_method q)) (request_ c)))))) c)), len) /\
    rb_inv b' /\ content b' = headers_text (m_headers q) ++ crlf /\ 0 < len /\
    size_ b' = size_ (readBuffer_ c).
Proof.
  intros HI Hc Hq. unfold message_text in Hc. fold (tail_text q) in Hc.
  assert (Hne : url_text q ++ space :: tail_text q <> []) by (by destruct (url_text q)).
  destruct (ParseRequestLine_method c _ _ HI Hc (mo_method _ Hq) Hne) as (->&HI1&Hc1).
  destruct (ParseUrl_ok (set_read (ConsumeBuffer (blen (method_name (m_method q)) + 1) (readBuffer_ c))
    (set_request (fst (SetHttpMethod (method_name (m_method q)) (request_ c))) c)) q
    (blen (method_name (m_method q)) + 1) HI1 Hc1 Hq) as (b'&E&HI'&Hc'&Hs').
  eexists b', _. split; [exact E|]. split; [done|]. split; [done|].
  pose proof (blen_nonneg (method_name (m_method q))). pose proof (blen_nonneg (url_text q)).
  split; [lia|]. rewrite Hs'. cbn [readBuffer_ set_read set_request]. apply ConsumeBuffer_size.
Qed.

(** A url and something behind it: the url is cut out, unless a question mark comes only
    after it. *)
Lemma ParseUrl_none (c : HttpClient C) url rest len :
  rb_inv (readBuffer_ c) -> content (readBuffer_ c) = url ++ space :: rest -> space ∉ url ->
  ParseUrl (GetContentEnd (readBuffer_ c)) len c = None <-> question ∉ url /\ question ∈ rest.
Proof.
  intros HI Hc Hsp. unfold ParseUrl. cbv zeta. set (b := readBuffer_ c) in *.
  rewrite (std_find_content space b url rest) by done.
  pose proof (content_end b HI) as He. rewrite Hc, blen_app in He.
  assert (Hl : blen (space :: rest) = 1 + blen rest) by (unfold blen; simpl; lia). rewrite Hl in He.
  pose proof (blen_nonneg rest). rewrite (proj2 (Z.eqb_neq _ _)) by lia.
  assert (Hv : forall e n (c' : HttpClient C), ParseVersion e n c' <> None).
  { intros e n c'. unfold ParseVersion. cbv zeta. destruct (_ =? _); [done|]. destruct (negb _); [done|].
    by destruct (SetVersion _ _) as [r []]. }
  destruct (decide (question ∈ content b)) as [Hin|Hno].
  - apply list_elem_of_split_l in Hin as (a&d&E&Ha).
    rewrite (std_find_content question b a d) by done.
    pose proof (content_end b HI) as He'. rewrite E, blen_app in He'.
    assert (Hl' : blen (question :: d) = 1 + blen d) by (unfold blen; simpl; lia). rewrite Hl' in He'.
    pose proof (blen_nonneg d). rewrite (proj2 (Z.eqb_neq _ _)) by lia. cbn [negb]. unfold std_string.
    rewrite Hc in E. assert (Hcases : (blen url < blen a /\ question ∉ url /\ question ∈ rest) \/
      (blen a < blen url /\ question ∈ url)).
    { destruct (decide (length a < length url)%nat) as [Hlt|Hge].
      - right. split; [unfold blen; lia|]. apply (f_equal (fun l => l !! length a)) in E.
        rewrite (list_lookup_middle a), lookup_app_l in E by done. by eapply list_elem_of_lookup_2.
      - left. assert (length a <> length url) as Hne.
        { intros Heq. apply app_inj_1 in E as [_ E]; [|done]. injection E as E _. discriminate E. }
        split; [unfold blen; lia|].
        assert (Ht : take (length url) a = url).
        { apply (f_equal (take (length url))) in E. rewrite take_app_length, take_app_le in E by lia. done. }
        split.
        + rewrite <-Ht. intros Hq. apply Ha. by eapply subseteq_take.
        + apply (f_equal (fun l => l !! length a)) in E.
          rewrite (list_lookup_middle a), lookup_app_r, lookup_cons_ne_0 in E by (done || lia). by eapply list_elem_of_lookup_2. }
    destruct Hcases as [(Hlt&H1&H2)|[Hlt H1]].
    + by rewrite (proj2 (Z.ltb_lt _ _)) by lia.
    + rewrite (proj2 (Z.ltb_ge _ _)) by lia. split; [intros HV; by apply Hv in HV|]. by intros [? _].
  - rewrite (std_find_none question b) by done. rewrite Z.eqb_refl. cbn [negb].
    split; [intros HV; by apply Hv in HV|]. intros [_ Hq]. destruct Hno. rewrite Hc. set_solver.
Qed.

Definition header_ok (kv : bytes * bytes) : Prop :=
  (colon ∉ fst kv /\ cr ∉ fst kv /\ nul ∉ fst kv) /\ (cr ∉ snd kv /\ nul ∉ snd kv).

Definition add_header (r : HttpRequest) (kv : bytes * bytes) : HttpRequest :=
  AddHeader (fst kv) (snd kv) r.

Lemma headers_text_cons k v hs : headers_text ((k, v) :: hs) = header_line k v ++ headers_text hs.
Proof. done. Qed.

(** One line of the headers. *)
Lemma header_line_ok (b : HttpReadBuffer) k v rest :
  rb_inv b -> content b = header_line k v ++ rest -> header_ok (k, v) ->
  let start := GetContentStart b in
  let line_end := std_search cr lf start (GetContentEnd b) b in
  let colon_pos := std_search colon space start line_end b in
  line_end = start + (blen k + 2 + blen v) /\ colon_pos = start + blen k /\
  range start colon_pos b = k /\ std_string (colon_pos + 2) line_end b = Some v.
Proof.
  intros HI Hc [(Hk1&Hk2&_) (Hv1&_)]. cbn [fst snd] in *. cbv zeta.
  unfold header_line in Hc. set (line := k ++ bs ": " ++ v).
  assert (Hc' : content b = line ++ cr :: lf :: rest).
  { rewrite Hc. subst line. by rewrite <-!app_assoc. }
  assert (Hl : blen line = blen k + 2 + blen v) by (subst line; rewrite !blen_app; change (blen (bs ": ")) with 2; lia).
  assert (Hll : length line = (length k + 2 + length v)%nat) by (unfold blen in Hl; lia).
  rewrite (std_search_content cr lf b line rest HI Hc').
  2: { subst line. rewrite !not_elem_of_app. split; [done|]. split; [|done].
       apply (bool_decide_unpack _). by vm_compute. }
  rewrite Hl. split; [done|]. pose proof (blen_nonneg v). pose proof (blen_nonneg k).
  assert (Hlen : (length line <= length (content b))%nat) by (rewrite Hc', length_app; lia).
  assert (E : std_search colon space (GetContentStart b) (GetContentStart b + (blen k + 2 + blen v)) b =
    GetContentStart b + blen k).
  { unfold std_search. rewrite <-Hl. unfold blen. rewrite range_take by done.
    rewrite Hc', take_app_le, take_ge by lia. subst line. cbn [bs String.list_ascii_of_string app].
    by rewrite search_in_app. }
  rewrite E. split; [done|]. split.
  - unfold blen. rewrite range_take by lia || done. rewrite Hc'. subst line.
    by rewrite <-app_assoc, take_app_le, take_ge by lia.
  - unfold std_string. rewrite (proj2 (Z.ltb_ge _ _)) by lia. f_equal.
    replace (GetContentStart b + blen k + 2) with (GetContentStart b + Z.of_nat (length k + 2)) by (unfold blen; lia).
    rewrite <-Hl. unfold blen. rewrite range_mid by lia || done. rewrite Hc', drop_app_le by lia.
    replace (length line - (length k + 2))%nat with (length v) by lia.
    assert (Hd : drop (length k + 2) line = v).
    { subst line. rewrite app_assoc, drop_app_ge by (rewrite length_app; simpl; lia).
      rewrite length_app. by replace (length k + 2 - (length k + length (bs ": ")))%nat with 0%nat by (simpl; lia). }
    by rewrite Hd, take_app_le, take_ge by lia.
Qed.

Lemma set_request_read (c : HttpClient C) b b' r :
  set_read b' (set_request r (set_read b c)) = set_read b' (set_request r c).
Proof. done. Qed.

Lemma header_loop_ok hs fuel len (c : HttpClient C) :
  rb_inv (readBuffer_ c) -> content (readBuffer_ c) = headers_text hs ++ crlf -> Forall header_ok hs ->
  (length hs < fuel)%nat -> 0 <= len ->
  exists b' len', header_loop fuel (GetContentEnd (readBuffer_ c)) len c =
      Val (set_read b' (set_request (foldl add_header (request_ c) hs) c), Some len') /\
    rb_inv b' /\ content b' = [] /\ 0 < len' /\ size_ b' = size_ (readBuffer_ c).
Proof.
  revert fuel len c. induction hs as [|[k v] hs IH]; intros fuel len c HI Hc Hok Hf Hlen;
    (destruct fuel as [|fuel]; [lia|]); cbn [header_loop]; cbv zeta.
  - cbn in Hc. rewrite (std_search_content cr lf _ [] []) by (done || set_solver).
    rewrite (content_end _ HI), Hc. change (blen crlf) with 2. change (blen []) with 0.
    rewrite (proj2 (Z.eqb_neq _ _)) by lia. rewrite Z.add_0_r.
    assert (Hs : std_search colon space (GetContentStart (readBuffer_ c)) (GetContentStart (readBuffer_ c))
      (readBuffer_ c) = GetContentStart (readBuffer_ c)).
    { unfold std_search, range, slice. rewrite Z.sub_diag. change (Z.to_nat 0) with 0%nat.
      rewrite take_0. apply Z.add_0_r. }
    rewrite Hs, Z.eqb_refl, Z.sub_diag. eexists _, _. split; [reflexivity|].
    split; [apply ConsumeBuffer_inv; [lia|done]|]. split; [|split; [lia|done]].
    rewrite content_ConsumeBuffer by (lia || done). by rewrite Hc.
  - rewrite headers_text_cons, <-app_assoc in Hc. apply Forall_cons in Hok as [Hkv Hok].
    destruct (header_line_ok _ k v _ HI Hc Hkv) as (E1&E2&E3&E4). cbv zeta in E1, E2, E3, E4.
    pose proof (blen_nonneg k). pose proof (blen_nonneg v). pose proof (content_end _ HI) as He.
    pose proof (blen_header_line k v) as Hlk. rewrite Hc, !blen_app, Hlk in He.
    pose proof (blen_nonneg (headers_text hs)). change (blen crlf) with 2 in He.
    rewrite E2, E4, E1 in *. rewrite (proj2 (Z.eqb_neq _ _)) by lia.
    rewrite (proj2 (Z.eqb_neq _ _)) by lia. rewrite E3.
    replace (GetContentStart (readBuffer_ c) + (blen k + 2 + blen v) - GetContentStart (readBuffer_ c) + 2)
      with (blen (header_line k v)) by lia.
    assert (Hn : blen (header_line k v) = Z.of_nat (length (header_line k v))) by done.
    set (n := blen (header_line k v)) in *.
    destruct (consume_some (readBuffer_ c) (length (header_line k v)) HI) as (Hi1&Hc1&He1).
    { rewrite Hc, !length_app. simpl. lia. }
    rewrite <-Hn in Hi1, Hc1, He1. rewrite Hc, drop_app_length in Hc1.
    set (c1 := set_request (AddHeader k v (request_ c)) (set_read (ConsumeBuffer n (readBuffer_ c)) c)).
    destruct (IH fuel (len + n) c1 Hi1 Hc1 Hok) as (b'&len'&E&HI'&Hc'&Hl'&Hs'); [simpl in Hf; lia|lia|].
    change (readBuffer_ c1) with (ConsumeBuffer n (readBuffer_ c)) in E. rewrite He1 in E.
    exists b', len'. rewrite E. done.
Qed.

(** ** The whole request *)

Lemma foldl_add_header hs r :
  Forall header_ok hs ->
  foldl add_header r hs = Req (bodyLen_ r) (method_ r) (version_ r) (reqUrl_ r) (urlData_ r) (httpBody_ r)
    (capacity_ r) (foldl (fun m kv => smap_set (fst kv) (snd kv) m) (httpHeader_ r) hs).
Proof.
  intros Hok. revert r. induction Hok as [|[k v] hs [(_&_&Hk) (_&Hv)] Hok IH]; intros r; simpl; [by destruct r|].
  rewrite IH. unfold add_header, AddHeader. cbn in *. by rewrite !c_str_no_nul.
Qed.

Lemma parsed_eq q r :
  message_ok q ->
  foldl add_header (fst (SetVersion (version_name (m_version q))
    (url_request q (fst (SetHttpMethod (method_name (m_method q)) r))))) (m_headers q) = parsed q r.
Proof.
  intros Hq. rewrite foldl_add_header by apply (mo_headers _ Hq).
  destruct (method_name_ok _ (mo_method _ Hq)) as [_ Hm].
  destruct (version_name_ok _ (mo_version _ Hq)) as (_&_&_&Hv).
  unfold parsed, url_request, SetVersion, SetHttpMethod. cbv zeta. rewrite Hm, Hv.
  destruct (m_data q); done.
Qed.

Lemma ReadHttpData_some (c : HttpClient C) :
  rb_inv (readBuffer_ c) -> content (readBuffer_ c) <> [] -> ReadHttpData c = Some (c, 0).
Proof.
  intros HI Hc. pose proof (content_length _ HI) as Hl. unfold ReadHttpData.
  rewrite (proj2 (Z.eqb_neq _ _)); [done|]. unfold GetContenLen. intros H0. rewrite H0 in Hl.
  apply Hc. unfold blen in Hl. destruct (content _); [done|simpl in Hl; lia].
Qed.

Lemma GetFreeBuffer_empty b : rb_inv b -> content b = [] -> 0 < size_ b -> 0 < snd (GetFreeBuffer b).
Proof.
  intros HI Hc Hsz. pose proof (content_length _ HI) as Hl. rewrite Hc in Hl. change (blen []) with 0 in Hl.
  destruct (GetFreeBuffer b) as [[b' off] sz] eqn:Eg. cbn [snd].
  destruct (GetFreeBuffer_spec _ _ _ _ HI Eg) as (_&_&_&_&_&_&Hm). unfold MINI_SOCKET_READ_SIZE in Hm. lia.
Qed.

Lemma ReadHttpData_empty (c : HttpClient C) p data :
  rb_inv (readBuffer_ c) -> content (readBuffer_ c) = [] -> conn_ c = true ->
  0 < size_ (readBuffer_ c) ->
  blen data <= snd (GetFreeBuffer (readBuffer_ c)) ->
  ReadBuffer (snd (GetFreeBuffer (readBuffer_ c))) (peer c) = (p, ReadData data) ->
  exists b', ReadHttpData c = Some (set_peer p (set_read b' c), blen data) /\ rb_inv b' /\
    content b' = data /\ size_ b' = size_ (readBuffer_ c).
Proof.
  intros HI Hc Hcn Hsz Hd Hr. pose proof (content_length _ HI) as Hl. rewrite Hc in Hl.
  unfold ReadHttpData, GetContenLen. change (blen []) with 0 in Hl. rewrite <-Hl. cbn [Z.eqb].
  destruct (GetFreeBuffer (readBuffer_ c)) as [[b off] sz] eqn:Eg. cbn [snd] in *.
  destruct (GetFreeBuffer_spec _ _ _ _ HI Eg) as (Hi&Hcb&Hs&->&H0&He&Hm).
  rewrite Hcn. rewrite Hr. destruct (append_spec b data Hi) as (b'&E&Hi'&Hc'&Hs'); [lia|].
  assert (sz <> 0) by (unfold MINI_SOCKET_READ_SIZE in Hm; lia).
  rewrite (proj2 (Z.eqb_neq _ _)) by done.
  destruct (Z.ltb_spec 0 (blen data)).
  - rewrite E. exists b'. rewrite Hc', Hcb, Hc. split; [done|]. split; [done|]. split; [done|lia].
  - exists (write_at (GetContentEnd b) data b).
    assert (data = []) as -> by (unfold blen in *; destruct data; [done|simpl in *; lia]).
    change (blen []) with 0 in *. split; [done|].
    assert (Hw : write_at (GetContentEnd b) [] b = b).
    { destruct b as [m p0 n]. unfold write_at, blit. cbn. f_equal. rewrite Nat.add_0_r. apply take_drop. }
    rewrite Hw. split; [done|]. split; [|done]. by rewrite Hcb.
Qed.

(** ** The fuel of the header loop *)

(** One round, as a function: the end of the loop, or the next state. *)
Lemma header_loop_S fuel e len (c : HttpClient C) :
  (forall fuel', header_loop (S fuel') e len c = header_loop (S fuel) e len c /\
     header_loop (S fuel) e len c <> Spin) \/
  (exists len' c' k, (forall fuel', header_loop (S fuel') e len c = header_loop fuel' e len' c') /\
     2 <= k /\ readBuffer_ c' = ConsumeBuffer k (readBuffer_ c)).
Proof.
  cbn [header_loop]. cbv zeta. set (le := std_search cr lf _ _ _).
  destruct (le =? e); [by left|]. destruct (_ =? le); [by left|].
  destruct (std_string _ _ _) as [v|]; [|by left]. right.
  eexists _, _, (le - GetContentStart (readBuffer_ c) + 2). split; [intros; reflexivity|].
  split; [|done]. subst le. unfold std_search. lia.
Qed.

Lemma header_loop_less fuel fuel' e len (c : HttpClient C) :
  (fuel' <= fuel)%nat -> header_loop fuel e len c = Spin -> header_loop fuel' e len c = Spin.
Proof.
  revert fuel' len c. induction fuel as [|fuel IH]; intros [|fuel'] len c Hf H; try done; [lia|].
  destruct (header_loop_S fuel e len c) as [He|(len'&c'&k&E&_)].
  - destruct (He fuel') as [_ Hn]. done.
  - rewrite E in H |- *. apply (IH fuel'); [lia|done].
Qed.

(** With nothing left to consume the loop repeats itself. *)
Lemma header_loop_empty e (c : HttpClient C) len :
  curSize_ (readBuffer_ c) = 0 -> curPtr_ (readBuffer_ c) = 0 -> header_loop 1 e len c = Spin ->
  forall n, header_loop n e len c = Spin.
Proof.
  intros Hs Hp H1 n. revert len c Hs Hp H1. induction n as [|n IH]; intros len c Hs Hp H1; [done|].
  destruct (header_loop_S 0 e len c) as [He|(len'&c'&k&E&Hk&Hb)].
  { by destruct (He 0%nat) as [_ Hn]. }
  assert (Hbuf : readBuffer_ c' = readBuffer_ c).
  { rewrite Hb. unfold ConsumeBuffer. cbv zeta. rewrite Hs, (proj2 (Z.ltb_lt _ _)) by lia.
    cbn. rewrite <-Hp. destruct (readBuffer_ c); cbn in *. by subst. }
  rewrite E. apply IH; rewrite ?Hbuf; [done|done|].
  cbn [header_loop] in H1 |- *. cbv zeta in *. rewrite Hbuf.
  repeat (case_match; try done).
Qed.

Lemma header_loop_spin k e len (c : HttpClient C) :
  0 <= curSize_ (readBuffer_ c) <= Z.of_nat k -> header_loop (S (S k)) e len c = Spin ->
  forall n, header_loop n e len c = Spin.
Proof.
  revert len c. induction k as [|k IH]; intros len c Hk H.
  - assert (H2 : header_loop 2 e len c = Spin) by exact H.
    destruct (header_loop_S 1 e len c) as [He|(len'&c'&j&E&Hj&Hb)].
    { by destruct (He 0%nat) as [_ Hn]. }
    rewrite E in H2. intros [|n]; [done|]. rewrite E.
    apply header_loop_empty; [| |done]; rewrite Hb; unfold ConsumeBuffer; cbv zeta;
      rewrite (proj2 (Z.ltb_lt _ _)) by lia; cbn; [lia|by rewrite Z.eqb_refl].
  - destruct (header_loop_S (S (S k)) e len c) as [He|(len'&c'&j&E&Hj&Hb)].
    { by destruct (He 0%nat) as [_ Hn]. }
    rewrite E in H. intros [|n]; [done|]. rewrite E. apply IH; [|done].
    rewrite Hb. unfold ConsumeBuffer. cbv zeta. cbn [curSize_].
    destruct (Z.ltb_spec (curSize_ (readBuffer_ c)) j); lia.
Qed.

(** The fuel of [handler] is enough: a loop that uses it up never ends. *)
Lemma header_fuel_enough (c : HttpClient C) e len :
  rb_inv (readBuffer_ c) -> header_loop (header_fuel c) e len c = Spin ->
  forall n, header_loop n e len c = Spin.
Proof.
  intros [H1 H2 H3]. apply header_loop_spin. unfold size_, blen in H3. lia.
Qed.

(** ** The theorems *)

Section Client.
Variable cgi_ : HttpRequest -> HttpResponse -> HttpResponse.
Variables (reserve grow : Z -> Z -> Z) (malloc_ok : bool).

Lemma blen_headers_text hs : Z.of_nat (length hs) <= blen (headers_text hs).
Proof.
  induction hs as [|[k v] hs IH]; [done|]. rewrite headers_text_cons, blen_app, blen_header_line.
  pose proof (blen_nonneg k). pose proof (blen_nonneg v). simpl. lia.
Qed.

(** The header stage of a request in one piece. *)
Lemma ProcessHeader_ok (c : HttpClient C) hs :
  rb_inv (readBuffer_ c) -> content (readBuffer_ c) = headers_text hs ++ crlf -> Forall header_ok hs ->
  evtHandler_ c = ProcessHeader_h ->
  exists b' len, let r := foldl add_header (request_ c) hs in
    handler cgi_ reserve grow malloc_ok SC_READ c =
      Val (set_handler ProcessBody_h (set_keepalive
        (bool_decide (GetHeaderValue (bs "Connection") r = bs "Keep-Alive"))
        (set_read b' (set_request r c))), len) /\
    rb_inv b' /\ content b' = [] /\ 0 < len /\ size_ b' = size_ (readBuffer_ c).
Proof.
  intros HI Hc Hok Hh.
  assert (Hne : content (readBuffer_ c) <> []) by (rewrite Hc; by destruct (headers_text hs)).
  destruct (header_loop_ok hs (header_fuel c) 0 c HI Hc Hok) as (b'&len&E&HI'&Hc'&Hl&Hs); [|lia|].
  { pose proof (content_length _ HI) as Hb. destruct HI as [H1 H2 H3]. unfold header_fuel.
    pose proof (blen_headers_text hs). pose proof (blen_app (headers_text hs) crlf) as Ha.
    rewrite <-Hc, Hb in Ha. change (blen crlf) with 2 in Ha. unfold size_, blen in H3. lia. }
  exists b', len. cbv zeta. split; [|done]. unfold handler. rewrite Hh. unfold with_read.
  rewrite decide_True, (ReadHttpData_some c HI Hne) by done. cbn [Z.ltb Z.compare].
  unfold ParseHeader. by rewrite E.
Qed.

(** The body stage of a request without body. *)
Lemma ProcessBody_ok (c : HttpClient C) p :
  rb_inv (readBuffer_ c) -> content (readBuffer_ c) = [] -> conn_ c = true ->
  evtHandler_ c = ProcessBody_h -> method_ (request_ c) <> HM_POST -> 0 < size_ (readBuffer_ c) ->
  (forall sz, 0 < sz -> ReadBuffer sz (peer c) = (p, ReadData [])) ->
  exists b', handler cgi_ reserve grow malloc_ok SC_READ c =
      Val (set_handler GenerateResponse_h (set_read b' (set_peer p c)), 1) /\ content b' = [] /\
    rb_inv b' /\ size_ b' = size_ (readBuffer_ c).
Proof.
  intros HI Hc Hcn Hh Hm Hs Hr.
  destruct (ReadHttpData_empty c p [] HI Hc Hcn Hs) as (b1&Er&HI1&Hc1&Hs1).
  { destruct (GetFreeBuffer (readBuffer_ c)) as [[b off] sz] eqn:Eg.
    destruct (GetFreeBuffer_spec _ _ _ _ HI Eg) as (_&_&_&_&H0&_). done. }
  { by apply Hr, GetFreeBuffer_empty. }
  unfold handler. rewrite Hh. unfold with_read. rewrite decide_True, Er by done.
  change (blen [] <? 0) with false. unfold ParseBody. cbv zeta.
  cbn [request_ set_peer set_read readBuffer_]. rewrite bool_decide_true by done.
  assert (H0 : 0 <= GetContentEnd b1 - GetContentStart b1).
  { rewrite (content_end _ HI1), Hc1. change (blen []) with 0. lia. }
  eexists. split; [reflexivity|]. rewrite content_ConsumeBuffer, Hc1, drop_nil by done. split; [done|].
  split; [by apply ConsumeBuffer_inv|]. by rewrite ConsumeBuffer_size.
Qed.

Lemma request_run (c : HttpClient C) (q : message) (p1 p2 : C) :
  rb_inv (readBuffer_ c) -> content (readBuffer_ c) = [] -> conn_ c = true ->
  evtHandler_ c = ProcessRequestLine_h -> message_ok q -> m_method q <> HM_POST ->
  0 < size_ (readBuffer_ c) ->
  blen (message_text q) <= snd (GetFreeBuffer (readBuffer_ c)) ->
  ReadBuffer (snd (GetFreeBuffer (readBuffer_ c))) (peer c) = (p1, ReadData (message_text q)) ->
  (forall sz, 0 < sz -> ReadBuffer sz p1 = (p2, ReadData [])) ->
  exists c' ret,
    (forall n, ProcessEvent cgi_ reserve grow malloc_ok (3 + n) SC_READ c =
       process_loop cgi_ reserve grow malloc_ok n SC_READ ret c') /\
    evtHandler_ c' = GenerateResponse_h /\ request_ c' = parsed q (request_ c) /\
    rb_inv (readBuffer_ c') /\ size_ (readBuffer_ c') = size_ (readBuffer_ c) /\
    heap_ c' = heap_ c /\ writeBuffer_ c' = writeBuffer_ c /\ pendingWrite_ c' = pendingWrite_ c /\
    clientResponse_ c' = clientResponse_ c /\ content (readBuffer_ c') = [] /\ peer c' = p2 /\ conn_ c' = true /\
    keepalive_ c' = bool_decide (GetHeaderValue (bs "Connection") (parsed q (request_ c)) = bs "Keep-Alive").
Proof.
  intros HI Hc Hcn Hh Hq Hpost Hsz Hfree Hr1 Hr2.
  destruct (ReadHttpData_empty c p1 (message_text q) HI Hc Hcn) as (b1&Er1&HI1&Hc1&Hs1);
    [done..|].
  set (c1 := set_peer p1 (set_read b1 c)) in *.
  destruct (ParseRequestLine_ok c1 q HI1 Hc1 Hq) as (b2&len2&Ep&HI2&Hc2&Hl2&Hs2).
  match type of Ep with _ = Some (?x, _) => set (c2 := x) in Ep end.
  assert (E1 : handler cgi_ reserve grow malloc_ok SC_READ c = Val (c2, len2)).
  { unfold handler. rewrite Hh. unfold with_read. rewrite decide_True, Er1 by done.
    rewrite (proj2 (Z.ltb_ge _ _)) by apply blen_nonneg. by rewrite Ep. }
  destruct (ProcessHeader_ok c2 (m_headers q) HI2 Hc2 (mo_headers _ Hq) eq_refl)
    as (b3&len3&E2&HI3&Hc3&Hl3&Hs3). cbv zeta in E2.
  assert (Hr3 : foldl add_header (request_ c2) (m_headers q) = parsed q (request_ c)) by (by apply parsed_eq).
  rewrite Hr3 in E2. match type of E2 with _ = Val (?x, _) => set (c3 := x) in E2 end.
  destruct (ProcessBody_ok c3 p2 HI3 Hc3 Hcn eq_refl) as (b4&E3&Hc4&HI4&Hs4); [done| |done|].
  { change (0 < size_ b3).
    assert (Hs : size_ b3 = size_ b1) by (etransitivity; [exact Hs3|exact Hs2]). lia. }
  match type of E3 with _ = Val (?x, _) => set (c4 := x) in E3 end.
  exists c4, (0 + len2 + len3 + 1). split.
  2: { split_and!; try done. change (size_ b4 = size_ (readBuffer_ c)). rewrite Hs4. etransitivity; [exact Hs3|].
    etransitivity; [exact Hs2|exact Hs1]. }
  intros n. unfold ProcessEvent. cbn [Nat.add process_loop].
  rewrite E1, (proj2 (Z.ltb_ge len2 0)), (proj2 (Z.ltb_lt 0 len2)) by lia.
  rewrite E2, (proj2 (Z.ltb_ge len3 0)), (proj2 (Z.ltb_lt 0 len3)) by lia.
  by rewrite E3.
Qed.

(** C20. A whole request (any method but POST, url with or without data, any
    headers) that arrives in one read, with nothing behind it, is parsed to
    exactly what was sent: after three steps of [ProcessEvent] the client is about
    to call its handler on the request with that method, url, data, version and
    headers, the last value for a name repeated, and everything that was read is
    consumed. *)
Theorem request_parsed (c : HttpClient C) (q : message) (p1 p2 : C) :
  rb_inv (readBuffer_ c) -> content (readBuffer_ c) = [] -> conn_ c = true ->
  evtHandler_ c = ProcessRequestLine_h -> message_ok q -> m_method q <> HM_POST ->
  0 < size_ (readBuffer_ c) ->
  blen (message_text q) <= snd (GetFreeBuffer (readBuffer_ c)) ->
  ReadBuffer (snd (GetFreeBuffer (readBuffer_ c))) (peer c) = (p1, ReadData (message_text q)) ->
  (forall sz, 0 < sz -> ReadBuffer sz p1 = (p2, ReadData [])) ->
  exists c' ret,
    (forall n, ProcessEvent cgi_ reserve grow malloc_ok (3 + n) SC_READ c =
       process_loop cgi_ reserve grow malloc_ok n SC_READ ret c') /\
    evtHandler_ c' = GenerateResponse_h /\ request_ c' = parsed q (request_ c) /\
    content (readBuffer_ c') = [] /\ peer c' = p2 /\ conn_ c' = true /\
    keepalive_ c' = bool_decide (GetHeaderValue (bs "Connection") (parsed q (request_ c)) = bs "Keep-Alive").
Proof.
  intros HI Hc Hcn Hh Hq Hpost Hsz Hfree Hr1 Hr2.
  destruct (request_run c q p1 p2 HI Hc Hcn Hh Hq Hpost Hsz Hfree Hr1 Hr2)
    as (c'&ret&H1&H2&H3&_&_&_&_&_&_&H4). by exists c', ret.
Qed.

(** A header line that has not arrived completely: [ParseHeader] returns [true],
    that is 1, and the next round does not read because the buffer is not empty. *)
Lemma partial_header_step evt (c : HttpClient C) :
  rb_inv (readBuffer_ c) -> content (readBuffer_ c) <> [] -> cr ∉ content (readBuffer_ c) ->
  evtHandler_ c = ProcessHeader_h -> handler cgi_ reserve grow malloc_ok evt c = Val (c, 1).
Proof.
  intros HI Hne Hcr Hh.
  assert (Hp : ParseHeader (header_fuel c) c = Val (c, 1)).
  { unfold ParseHeader. cbn [header_fuel header_loop]. cbv zeta. unfold std_search.
    fold (content (readBuffer_ c)). rewrite search_in_none, (content_end _ HI) by done.
    by rewrite Z.eqb_refl. }
  unfold handler. rewrite Hh. unfold with_read. case_decide; [|done].
  by rewrite ReadHttpData_some.
Qed.

Lemma process_loop_stuck evt (c : HttpClient C) n ret :
  handler cgi_ reserve grow malloc_ok evt c = Val (c, 1) ->
  process_loop cgi_ reserve grow malloc_ok n evt ret c = Spin.
Proof.
  intros H. revert ret. induction n as [|n IH]; intros ret; [done|].
  cbn [process_loop]. rewrite H. cbn. apply IH.
Qed.

(** A second [POST] on a connection is never answered: sending a response
    leaves the request of the previous one in place, and with its length and its
    body still there [ParseBody] takes the new body for complete, consumes nothing
    and does not move on. *)
Theorem post_after_post (c : HttpClient C) :
  (forall c' len, SendResponse c = Some (c', len) -> request_ c' = request_ c) /\
  (method_ (request_ c) = HM_POST -> 0 < bodyLen_ (request_ c) <= blen (httpBody_ (request_ c)) ->
   ParseBody reserve grow c = Some (set_request (request_ c) c, 0) /\
   evtHandler_ (set_request (request_ c) c) = evtHandler_ c).
Proof.
  split.
  - assert (H : forall fuel len (c0 : HttpClient C) c' len' b,
      send_loop fuel len c0 = Some (c', len', b) -> request_ c' = request_ c0).
    { induction fuel as [|fuel IH]; intros len c0 c' len' b Hs; [done|]. cbn [send_loop] in Hs.
      repeat (case_match; try done); simplify_eq; try done. apply IH in Hs. done. }
    unfold SendResponse. intros c' len Hs. destruct (send_loop _ _ _) as [[[c1 l1] b1]|] eqn:E; [|done].
    apply H in E. destruct b1; by simplify_eq.
  - intros Hm [Hb1 Hb2]. split; [|done]. unfold ParseBody. cbv zeta. rewrite bool_decide_false by (intros Hx; by apply Hx).
    unfold GetBodyLength, GetCurBodyLength. rewrite (proj2 (Z.eqb_neq _ _)) by lia. cbn [andb].
    by rewrite (proj2 (Z.leb_le _ _)) by lia.
Qed.
End Client.
End Parsing.

(** ** A scripted connection *)

(** [rx] are the segments that arrive, [tx] what was sent. *)
Record script : Type := Script { rx : list bytes; tx : list bytes; closed : bool }.

#[export] Instance script_connection : Connection script := {|
  ReadBuffer sz s :=
    match rx s with
    | [] => (s, ReadData [])
    | d :: ds =>
        (Script (if blen d <=? sz then ds else drop (Z.to_nat sz) d :: ds) (tx s) (closed s),
         ReadData (take (Z.to_nat sz) d))
    end;
  SendBuffer data s := (Script (rx s) (tx s ++ [data]) (closed s), blen data);
  CloseConnection s := Script (rx s) (tx s) true
|}.

Instance script_connection_spec : ConnectionSpec script.
Proof.
  split; simpl.
  - intros sz c c' data Hsz H. destruct (rx c) as [|d ds]; simplify_eq.
    + by change (blen []) with 0.
    + unfold blen. rewrite length_take. lia.
  - intros sz c c' code H. by destruct (rx c).
  - intros data c c' n [= _ <-]. lia.
Qed.

Definition demo_cgi (req : HttpRequest) (r : HttpResponse) : HttpResponse :=
  AddRespHeader (bs "Host") (bs "miliao server") (SetBody (bs "hello")
    (SetStatusMessage (bs "OK") (SetStatusCode HSC_200 r))).

(** A client with a read buffer of 256 bytes and write buffers of 128. *)
Definition demo_client (segments : list bytes) : HttpClient script :=
  let '(h, w, _) := InitBuffer 128 [true; true] ∅ in
  Client false (HttpReadBuffer_init (replicate 256 nul)) h w HttpBufferList_init
    (HttpRequest_init 15) (HttpResponse_init false HSC_UNKNOWN) ProcessRequestLine_h true
    (Script segments [] false).

Definition demo_run (n : nat) (segments : list bytes) : run (HttpClient script * Z) :=
  ProcessEvent demo_cgi Z.max Z.max true n SC_READ (demo_client segments).

Definition demo_message : message :=
  Message HM_GET (bs "/index") (Some (bs "a=1")) HV_11 [(bs "Host", bs "x"); (bs "Connection", bs "Keep-Alive")].

(** The whole exchange: the request is parsed, the response is sent. *)
Example demo_exchange :
  exists c ret, demo_run 10 [message_text demo_message] = Val (c, ret) /\
    tx (peer c) = [bs "HTTP/1.1 200 OK" ++ crlf ++ bs "Host: miliao server" ++ crlf ++ crlf ++ bs "hello"] /\
    evtHandler_ c = ProcessRequestLine_h /\ keepalive_ c = true /\ closed (peer c) = false.
Proof. eexists _, _. split; [vm_compute; reflexivity|]. by vm_compute. Qed.

Lemma demo_message_ok : message_ok demo_message.
Proof.
  split; try done.
  - repeat split; apply (bool_decide_unpack _); by vm_compute.
  - intros d [= <-]. split; apply (bool_decide_unpack _); by vm_compute.
  - repeat constructor; apply (bool_decide_unpack _); by vm_compute.
Defined.

Lemma request_parsed_witness :
  exists c' ret,
    (forall n, ProcessEvent demo_cgi Z.max Z.max true (3 + n) SC_READ (demo_client [message_text demo_message]) =
       process_loop demo_cgi Z.max Z.max true n SC_READ ret c') /\
    evtHandler_ c' = GenerateResponse_h /\
    request_ c' = parsed demo_message (HttpRequest_init 15) /\
    content (readBuffer_ c') = [] /\ peer c' = Script [] [] false /\ conn_ c' = true /\
    keepalive_ c' = bool_decide (GetHeaderValue (bs "Connection")
      (parsed demo_message (HttpRequest_init 15)) = bs "Keep-Alive").
Proof.
  apply (request_parsed demo_cgi Z.max Z.max true (demo_client [message_text demo_message]) demo_message
    (Script [] [] false) (Script [] [] false)); try reflexivity.
  - split; vm_compute; discriminate.
  - apply demo_message_ok.
  - discriminate.
  - vm_compute. discriminate.
Defined.

(** Requests in several segments.  (1) While a header line is incomplete
    [ProcessEvent] never returns: no fuel is enough.  (2) A segment that is exactly
    one header line, after the request line in a segment of its own, makes
    [ParseHeader] itself loop for ever: the consumed buffer starts again at the
    stale bytes.  (3) A first segment that ends after a complete header line is
    taken for a complete request: the response is sent before the other headers
    have arrived, and they are missing from the request. *)
Theorem segmented_requests :
  (forall (C : Type) (CC : Connection C) cgi reserve grow ok evt (c : HttpClient C),
     rb_inv (readBuffer_ c) -> content (readBuffer_ c) <> [] -> cr ∉ content (readBuffer_ c) ->
     evtHandler_ c = ProcessHeader_h -> forall n, ProcessEvent cgi reserve grow ok n evt c = Spin) /\
  (exists c : HttpClient script,
     ReadHttpData (set_handler ProcessHeader_h (set_read (HttpReadBuffer_init
       (bs "GET / HTTP/1.1" ++ crlf ++ replicate 240 nul)) (demo_client [bs "Host: x" ++ crlf]))) = Some (c, 9) /\
     (forall n, header_loop n (GetContentEnd (readBuffer_ c)) 0 c = Spin) /\
     forall n, demo_run n [bs "GET / HTTP/1.1" ++ crlf; bs "Host: x" ++ crlf] = Spin) /\
  (exists c, demo_run 10 [bs "GET / HTTP/1.1" ++ crlf ++ bs "Host: x" ++ crlf;
                          bs "Connection: Keep-Alive" ++ crlf ++ crlf] = Val (c, 88) /\
     httpHeader_ (request_ c) = [(bs "Host", bs "x")] /\ keepalive_ c = false /\
     length (tx (peer c)) = 1%nat /\ rx (peer c) = []).
Proof.
  split; [|split].
  - intros C CC cgi reserve grow ok evt c HI Hne Hcr Hh n. apply process_loop_stuck.
    by apply partial_header_step.
  - eexists. split; [vm_compute; reflexivity|]. split.
    + apply (header_loop_spin 9); [split; vm_compute; discriminate|]. vm_compute. reflexivity.
    + intros [|[|n]]; vm_compute; reflexivity.
  - eexists. split; [vm_compute; reflexivity|]. by vm_compute.
Qed.

(** C25. A stray question mark crashes the server.  When a client, whatever its connection,
    handler and earlier state, parses a request line that has come with whatever stands behind
    it - a known method, a url, anything - the parser forms a string from a reversed range
    exactly when the url has no question mark and something behind the url has one, a header
    for instance: the parser looks for it up to the end of the buffer.  The event then ends
    in the crash. *)
Theorem question_mark_crash {C : Type} `{Connection C} cgi reserve grow ok n evt
    (c c1 : HttpClient C) m url rest :
  evtHandler_ c = ProcessRequestLine_h ->
  (if decide (evt = SC_READ) then exists ret, ReadHttpData c = Some (c1, ret) /\ 0 <= ret else c1 = c) ->
  rb_inv (readBuffer_ c1) -> content (readBuffer_ c1) = method_name m ++ space :: url ++ space :: rest ->
  m <> HM_INVALID -> space ∉ url ->
  (ParseRequestLine c1 = None <-> question ∉ url /\ question ∈ rest) /\
  (question ∉ url -> question ∈ rest -> ProcessEvent cgi reserve grow ok (S n) evt c = Crash).
Proof.
  intros Hh Hread HI Hc Hm Hsp.
  assert (HN : ParseRequestLine c1 = None <-> question ∉ url /\ question ∈ rest).
  { destruct (ParseRequestLine_method c1 m (url ++ space :: rest)) as (->&HI1&Hc1); [done..|by destruct url|].
    exact (ParseUrl_none (set_read (ConsumeBuffer (blen (method_name m) + 1) (readBuffer_ c1))
      (set_request (fst (SetHttpMethod (method_name m) (request_ c1))) c1)) url rest _ HI1 Hc1 Hsp). }
  split; [done|]. intros H1 H2. unfold ProcessEvent. cbn [process_loop]. unfold handler, with_read. rewrite Hh.
  case_decide as He.
  - destruct Hread as (ret&->&Hret). rewrite (proj2 (Z.ltb_ge _ _)) by lia. by rewrite (proj2 HN).
  - subst c1. by rewrite (proj2 HN).
Qed.

(** A header with a question mark, behind a url without one. *)
Lemma question_mark_crash_witness :
  ProcessEvent demo_cgi Z.max Z.max true 1 SC_READ
    (demo_client [bs "GET / HTTP/1.1" ++ crlf ++ bs "Referer: a?b" ++ crlf ++ crlf]) = Crash.
Proof.
  destruct (ReadHttpData (demo_client [bs "GET / HTTP/1.1" ++ crlf ++ bs "Referer: a?b" ++ crlf ++ crlf]))
    as [[c1 ret]|] eqn:E; [|by vm_compute in E].
  apply (question_mark_crash demo_cgi Z.max Z.max true 0 SC_READ _ c1 HM_GET (bs "/")
    (bs "HTTP/1.1" ++ crlf ++ bs "Referer: a?b" ++ crlf ++ crlf)).
  - reflexivity.
  - rewrite decide_True by done. exists ret. split; [exact E|]. vm_compute in E. injection E as <- <-. by vm_compute.
  - vm_compute in E. injection E as <- <-. split; by vm_compute.
  - vm_compute in E. injection E as <- <-. by vm_compute.
  - done.
  - apply (bool_decide_unpack _). by vm_compute.
  - apply (bool_decide_unpack _). by vm_compute.
  - apply (bool_decide_unpack _). by vm_compute.
Defined.

(** After a first [POST] with a body of three bytes. *)
Definition posted : HttpClient script :=
  set_request (Req 3 HM_POST HV_11 (bs "/") [] (bs "abc") 15 []) (set_handler ProcessBody_h (demo_client [])).

Lemma post_after_post_witness :
  ParseBody Z.max Z.max posted = Some (set_request (request_ posted) posted, 0).
Proof.
  destruct (post_after_post Z.max Z.max posted) as [_ H]. apply H; [reflexivity|].
  split; vm_compute; [reflexivity|discriminate].
Defined.

(** Any connection that keeps the interface's promise: [ReadHttpData] never trips
    the [assert] of the read buffer. *)
Lemma ReadHttpData_safe {C : Type} `{ConnectionSpec C} (c : HttpClient C) :
  rb_inv (readBuffer_ c) -> conn_ c = true -> exists c' n, ReadHttpData c = Some (c', n) /\ rb_inv (readBuffer_ c').
Proof.
  intros HI Hcn. unfold ReadHttpData. destruct (_ =? 0); [|by eauto].
  destruct (GetFreeBuffer (readBuffer_ c)) as [[b off] sz] eqn:Eg.
  destruct (GetFreeBuffer_spec _ _ _ _ HI Eg) as (Hi&_&Hs&->&Hz&He&_).
  destruct (sz =? 0); [by eexists _, _|]. rewrite Hcn.
  destruct (ReadBuffer sz (peer c)) as [p [code|data]] eqn:Er; [by eexists _, _|].
  pose proof (ReadBuffer_size sz (peer c) p data Hz Er).
  destruct (append_spec b data Hi) as (b'&E&Hi'&_); [lia|].
  destruct (Z.ltb_spec 0 (blen data)); [rewrite E; by eexists _, _|].
  eexists _, _. split; [reflexivity|]. cbn [readBuffer_ set_peer set_read].
  assert (data = []) as -> by (unfold blen in *; destruct data; [done|simpl in *; lia]).
  destruct Hi as [Ha Hb Hc]. split; [done|done|]. unfold size_, write_at, blit, blen in *. cbn.
  rewrite Nat.add_0_r, take_drop. done.
Qed.
