(* ===== verification/HttpExchange.v ===== *)
(** * HttpExchange.v: a request and its response - [HttpClient::ProcessEvent] from end to end

A whole exchange over any connection that keeps the promises of HttpClient.v's [Connection]
and says what has been sent ([Traced]): the request that arrives, the handler, the buffer
of the response, and the response as it goes out, in as many pieces as the kernel takes.

[reply] is the text that goes out.  It is the rendered response when that fits the buffer
[GetResponseSize] asks for, and nothing otherwise: [CleanUp] of the response makes
[GetResponseSize] 13 bytes too small, so that this happens.

The theorems: a request is answered with exactly its reply, or with a prefix of it, the
rest staying in the client's buffer, when the kernel takes no more, or when the connection
fails ([request_answered]); later events go on where the last one stopped, and the sum is
the reply, however it was cut ([reply_whole]). *)

From S2P Require Import Prelude Machine HttpBuffer HttpRequest HttpResponse HttpClient.

(** What has been sent over a connection, that nothing more arrives on it, and how many
    more of its [write]s the kernel cuts short. *)
Class Traced (C : Type) : Type := { sent : C -> bytes; silent : C -> Prop; cuts : C -> nat }.

Class TracedSpec (C : Type) `{Connection C, Traced C} : Prop := {
  sent_read sz p p' r : ReadBuffer sz p = (p', r) -> sent p' = sent p;
  sent_send data p p' n : SendBuffer data p = (p', n) -> sent p' = sent p ++ take (Z.to_nat n) data;
  silent_read p : silent p -> exists p', silent p' /\ forall sz, 0 < sz -> ReadBuffer sz p = (p', ReadData []);
  silent_send data p p' n : silent p -> SendBuffer data p = (p', n) -> silent p';
  cuts_read sz p p' r : ReadBuffer sz p = (p', r) -> (cuts p' <= cuts p)%nat;
  cuts_send data p p' n : SendBuffer data p = (p', n) -> (cuts p' <= cuts p)%nat;
  cuts_short data p p' n : SendBuffer data p = (p', n) -> 0 <= n < blen data -> (cuts p' < cuts p)%nat
}.

#[export] Instance script_traced : Traced script := {|
  sent s := mjoin (tx s); silent s := rx s = []; cuts _ := 0%nat
|}.

#[export] Instance script_traced_spec : TracedSpec script.
Proof.
  split; cbn.
  - intros sz p p' r H. destruct (rx p); by simplify_eq.
  - intros data p p' n [= <- <-]. unfold sent, script_traced. cbn. unfold blen.
    rewrite join_app, Nat2Z.id, firstn_all. cbn. by rewrite app_nil_r.
  - intros p Hp. exists p. split; [done|]. intros sz _. by rewrite Hp.
  - by intros data p p' n Hp [= <- _].
  - done.
  - done.
  - intros data p p' n [= _ <-]. lia.
Qed.

(** ** The memory of the write buffers *)

(** A block is 8 bytes longer than its [size_] says. *)
Definition mem_ok (h : heap) : Prop := forall a x, h !! a = Some x -> 0 <= b_size x /\ blen (b_memory x) = b_size x + 8.

Lemma mem_ok_insert h a x : mem_ok h -> 0 <= b_size x -> blen (b_memory x) = b_size x + 8 -> mem_ok (<[a := x]> h).
Proof.
  intros Hh Hs Hx b y Hy. destruct (decide (a = b)) as [->|Hne].
  - rewrite lookup_insert_eq in Hy. by simplify_eq.
  - rewrite lookup_insert_ne in Hy by done. by eapply Hh.
Qed.

Lemma mem_ok_alloc ok sz h h' w w' r :
  mem_ok h -> 0 < granularity w -> AllocWriteBuffer ok sz h w = Some (h', w', r) -> mem_ok h'.
Proof.
  intros Hh Hg. unfold AllocWriteBuffer, AllocHttpBuffer. destruct (Z.leb_spec sz 0); [by intros [= <- _ _]|].
  cbn [orb]. destruct (Z.ltb_spec (Z.of_nat num_slot_ * granularity w) sz); [by intros [= <- _ _]|].
  destruct (size_class_bounds (granularity w) sz) as [Hk _]; [done|lia|lia|].
  destruct (freeBuffer_ w !! _) as [[a|]|]; [|destruct ok; intros [= <- _ _]; [|done]|done].
  - destruct (h !! a) as [x|] eqn:Ha; [|done]. intros [= <- _ _]. apply mem_ok_insert; [done|cbn; by eapply Hh..].
  - set (i := size_class _ _) in *. apply mem_ok_insert; [done|cbn; nia|]. cbn. unfold blen. rewrite length_replicate. nia.
Qed.

Lemma mem_ok_release a h w h' w' : mem_ok h -> ReleaseWriteBuffer a h w = Some (h', w') -> mem_ok h'.
Proof.
  intros Hh. unfold ReleaseWriteBuffer. destruct (h !! a) as [x|] eqn:Ha; [|done].
  destruct (freeBuffer_ w !! _); [|done]. intros [= <- _]. apply mem_ok_insert; [done|cbn; by eapply Hh..].
Qed.

(** [AllocWriteBuffer] rounds up to this many bytes. *)
Definition capacity (g sz : Z) : Z := (size_class g sz + 1) * g.

(** What is sent for a response from write buffers of granularity [g]. *)
Definition reply (g : Z) (r : HttpResponse) : bytes :=
  if blen (render r) + 2 <=? capacity g (GetResponseSize r) then render r else [].

Section Exchange.
Context {C : Type} {CC : Connection C} {CS : ConnectionSpec C} {TC : Traced C} {TS : TracedSpec C}.
Variable cgi_ : HttpRequest -> HttpResponse -> HttpResponse.
Variables (reserve grow : Z -> Z -> Z).

Abbreviation client := (HttpClient C).
Abbreviation run_event := (ProcessEvent cgi_ reserve grow true).
Abbreviation run_loop := (process_loop cgi_ reserve grow true).

(** The buffers of a client; [held] are with its pending list. *)
Record buffers_ok (c : client) (held : list nat) : Prop := {
  bo_read : rb_inv (readBuffer_ c);
  bo_empty : content (readBuffer_ c) = [];
  bo_size : 0 < size_ (readBuffer_ c);
  bo_write : exists ls, wb_inv (heap_ c) (writeBuffer_ c) ls held;
  bo_mem : mem_ok (heap_ c);
  bo_pending : list_rep (heap_ c) (pendingWrite_ c) held
}.

(** Ready for the next request. *)
Record ready (c : client) : Prop := {
  re_buffers : buffers_ok c [];
  re_conn : conn_ c = true;
  re_handler : evtHandler_ c = ProcessRequestLine_h
}.

(** Without a connection, after [ResetClient(NULL)]. *)
Record closed_ok (c : client) : Prop := {
  cl_buffers : buffers_ok c [];
  cl_conn : conn_ c = false;
  cl_handler : evtHandler_ c = ProcessRequestLine_h
}.

(** The one pending buffer [a], with [rest] to be sent. *)
Record holds (c : client) (a : nat) (x : HttpBuffer) (rest : bytes) : Prop := {
  ho_buffers : buffers_ok c [a];
  ho_at : heap_ c !! a = Some x;
  ho_rest : slice (b_memory x) (Z.to_nat (b_curPtr x)) (Z.to_nat (b_curSize x)) = rest;
  ho_ptr : 0 <= b_curPtr x;
  ho_len : b_curSize x = blen rest
}.

Record sending (c : client) (rest : bytes) : Prop := {
  se_holds : exists a x, holds c a x rest;
  se_conn : conn_ c = true;
  se_handler : evtHandler_ c = SendResponse_h
}.

Lemma empty_list h p : list_rep h p [] <-> p = HttpBufferList_init.
Proof.
  split.
  - intros [H1 H2 _]. destruct p. cbn in *. by subst.
  - intros ->. split; [done..|apply NoDup_nil_2].
Qed.

(** Another buffer of the same size in the place of [a]. *)
Lemma buffers_update (c : client) h a x y held :
  (exists ls, wb_inv h (writeBuffer_ c) ls held) -> mem_ok h -> h !! a = Some x -> a ∈ held ->
  b_size y = b_size x -> blen (b_memory y) = blen (b_memory x) ->
  (exists ls, wb_inv (<[a := y]> h) (writeBuffer_ c) ls held) /\ mem_ok (<[a := y]> h).
Proof.
  intros [ls HI] Hm Hx Ha Hs Hl. split.
  - exists ls. apply wb_heap_insert; [done| |].
    + intros i l Hi. by eapply wb_others.
    + intros _. destruct (wb_held _ _ _ _ HI a Ha) as (x'&i&Hx'&Hi&He). simplify_eq. exists i. by rewrite Hs.
  - destruct (Hm a x Hx). apply mem_ok_insert; [done|lia|lia].
Qed.

(** [HttpBuffer]s are recycled when the client lets them go. *)
Lemma release_ok (c : client) a x rest :
  holds c a x rest ->
  exists h w p, PopFront (heap_ c) (pendingWrite_ c) = Some (p, Some a) /\
    ReleaseWriteBuffer a (heap_ c) (writeBuffer_ c) = Some (h, w) /\ p = HttpBufferList_init /\
    (exists ls, wb_inv h w ls []) /\ mem_ok h /\ granularity w = granularity (writeBuffer_ c).
Proof.
  intros [[H1 H2 H3 [ls H4] H5 H6] Hx Hr Hp Hl].
  destruct (PopFront_rep _ _ _ H6) as (p&Ep&Hrep). cbn in Ep, Hrep. apply empty_list in Hrep.
  destruct (ReleaseWriteBuffer_spec a _ _ ls [] [] H4) as (h&w&ls'&x'&i&l&Er&HI&Hg&_).
  exists h, w, p. split_and!; try done; [by eexists|by eapply mem_ok_release].
Qed.

(** The loops over the pending buffers have fuel for one of them. *)
Lemma heap_fuel (h : heap) a x : h !! a = Some x -> exists n, S (size h) = S (S n).
Proof.
  intros Hx. destruct (size h) eqn:E; [|by eexists]. apply map_size_empty_inv in E. subst. by rewrite lookup_empty in Hx.
Qed.

(** ** Generating the response *)

Lemma capacity_unique g sz b i :
  0 < g -> 0 < sz <= Z.of_nat num_slot_ * g -> b = (Z.of_nat i + 1) * g -> sz <= b < sz + g -> b = capacity g sz.
Proof.
  intros Hg Hs Hb Hr. destruct (size_class_bounds g sz) as [_ H]; [lia..|]. unfold capacity.
  set (k := size_class g sz) in *.
  assert (Z.of_nat i + 1 < k + 2) by nia. assert (k + 1 < Z.of_nat i + 2) by nia.
  by replace k with (Z.of_nat i) by lia.
Qed.

Lemma GenerateResponseH_ok (c : client) :
  let resp := cgi_ (request_ c) (clientResponse_ c) in
  let g := granularity (writeBuffer_ c) in
  buffers_ok c [] -> conn_ c = true -> 32 <= g < 2 ^ 27 -> 0 < GetResponseSize resp <= Z.of_nat num_slot_ * g ->
  nul ∉ statusMsg_ resp -> blen (render resp) < 2 ^ 61 ->
  exists c', GenerateResponseH cgi_ true c = Some (c', 1) /\ sending c' (reply g resp) /\ peer c' = peer c /\
    granularity (writeBuffer_ c') = g /\ request_ c' = request_ c.
Proof.
  intros resp g [H1 H2 H3 [ls HI] Hm Hp] Hcn Hg Hsz Hn Hr. apply empty_list in Hp.
  assert (Hi32 : i32 (GetResponseSize resp) = GetResponseSize resp) by (apply i32_id; change (Z.of_nat num_slot_) with 8 in Hsz; lia).
  destruct (AllocWriteBuffer_spec true (GetResponseSize resp) _ _ ls [] HI) as (h&w&r&ls'&Ea&Hgw&Hres).
  destruct r as [a|]; [|by destruct Hres as [_ [?|?]]].
  destruct Hres as [HI' (x&Hx&Hcp&Hcs&Hnx&Hbs)].
  assert (Hmh : mem_ok h) by (refine (mem_ok_alloc _ _ _ _ _ _ _ Hm _ Ea); change (0 < g); lia).
  destruct (wb_held _ _ _ _ HI' a ltac:(by left)) as (x'&i&Hx'&Hi&Hbi). simplify_eq.
  rewrite Hgw in Hbi. assert (Hcap : b_size x = capacity g (GetResponseSize resp)).
  { eapply capacity_unique; [lia|exact Hsz|exact Hbi|exact Hbs]. }
  destruct (Hmh a x Hx) as [Hb0 Hbm].
  assert (Hlow : 32 <= b_size x < 2 ^ 31) by (change (Z.of_nat num_slot_) with 8 in Hsz; unfold num_slot_ in Hi; nia).
  destruct (GenerateResponse_ok resp (b_memory x) (b_size x)) as (mem&n&Eg&Hml&Hfit); [lia|lia|done|done|].
  set (y := HB (b_size x) (i32 n) (b_curPtr x) (next_ x) mem).
  destruct (buffers_update (set_write h w (pendingWrite_ c) c) h a x y [a]) as [[ls2 HI2] Hm2];
    [by eexists|done|done|by left|done|done|].
  destruct (PushBack_rep (<[a := y]> h) (pendingWrite_ c) [] a y) as (h3&p3&Ep&Hrep&Heq);
    [by apply empty_list|apply not_elem_of_nil|by rewrite lookup_insert_eq|done|].
  assert (h3 = <[a := y]> h) as -> by (apply map_eq; intros b; by apply Heq).
  assert (Hrep' : reply g resp = take (Z.to_nat n) mem /\ 0 <= n <= b_size x /\ n = blen (reply g resp)).
  { unfold reply. rewrite <-Hcap. destruct (Z.leb_spec (blen (render resp) + 2) (b_size x)).
    - destruct Hfit as [-> Hpre]. pose proof (blen_nonneg (render resp)). split; [|lia].
      destruct Hpre as [rest ->]. unfold blen. by rewrite Nat2Z.id, take_app_length.
    - subst n. split; [done|]. split; [lia|done]. }
  destruct Hrep' as (Hr1&Hr2&Hr3).
  unfold GenerateResponseH. fold resp. rewrite Hi32, Ea, Hx, Eg. fold y. rewrite Ep.
  eexists. split; [reflexivity|]. split; [|done].
  split; [|done|done]. exists a, y. split; cbn.
  - split; cbn; try done. by eexists.
  - by rewrite lookup_insert_eq.
  - rewrite i32_id by lia. rewrite Hcp. unfold slice. by rewrite drop_0, Hr1.
  - lia.
  - rewrite i32_id by lia. done.
Qed.

(** ** Sending it *)

Lemma holds_peer (c : client) a x rest p : holds c a x rest -> holds (set_peer p c) a x rest.
Proof. intros [[] ? ? ? ?]. by split. Qed.

(** One [SendResponse]: the result of [SendBuffer] decides. *)
Lemma SendResponse_ok (c : client) rest p n :
  sending c rest -> SendBuffer rest (peer c) = (p, n) ->
  exists c', SendResponse c = Some (c', if n <? 0 then -1 else n) /\ peer c' = p /\
    if n <? 0 then sending c' rest
    else if n <? blen rest then sending c' (drop (Z.to_nat n) rest)
    else n = blen rest /\ ready c'.
Proof.
  intros [(a&x&Hh) Hcn Hst] Hs. pose proof Hh as [Hb Hx Hr Hp Hl].
  pose proof (lr_path _ _ _ (bo_pending _ _ Hb)) as [Hhd _]. pose proof (SendBuffer_size _ _ _ _ Hs) as Hn.
  destruct (heap_fuel _ _ _ Hx) as [m Hm]. unfold SendResponse. rewrite Hm. cbn [send_loop].
  unfold GetFront. rewrite Hhd, Hx, Hcn, Hr, Hs, Hl. destruct (Z.ltb_spec n 0).
  { eexists. split; [reflexivity|]. split; [done|]. split; [|done|done]. exists a, x. by apply holds_peer. }
  destruct (Z.ltb_spec n (blen rest)) as [Hlt|Hge].
  - eexists. split; [reflexivity|]. split; [done|]. split; [|done|done].
    set (y := HB (b_size x) (blen rest - n) (b_curPtr x + n) (next_ x) (b_memory x)).
    destruct Hb as [H1 H2 H3 H4 H5 H6].
    destruct (buffers_update c (heap_ c) a x y [a]) as [HI Hm']; [done|done|done|by left|done|done|].
    exists a, y. split; cbn; [split; cbn; try done|by rewrite lookup_insert_eq| |lia|].
    + destruct H6 as [Hpath Htl Hnd]. split; [|done|done]. cbn in Hpath |- *.
      destruct Hpath as (->&x'&Hx'&Hnx). simplify_eq. split; [done|]. exists y. by rewrite lookup_insert_eq.
    + etransitivity; [|by apply (f_equal (drop (Z.to_nat n))), Hr]. unfold slice.
      rewrite skipn_firstn_comm, drop_drop, Hl. f_equal; [lia|]. f_equal. lia.
    + unfold blen in *. rewrite length_drop. lia.
  - destruct (release_ok _ _ _ _ (holds_peer _ _ _ _ p Hh)) as (h&w&pl&Ep&Er&->&HI&Hmh&Hg).
    cbn [heap_ pendingWrite_ writeBuffer_ set_peer] in Ep, Er |- *. rewrite Ep, Er.
    eexists. split; [reflexivity|]. split; [done|]. split; [lia|]. destruct Hb as [H1 H2 H3 H4 H5 H6].
    split; [|done|done]. split; cbn; try done. by apply empty_list.
Qed.

(** [CloseConnection] with a response that was not sent. *)
Lemma CloseClient_ok (c : client) rest :
  sending c rest -> exists c', CloseClient c = Some c' /\ closed_ok c' /\ peer c' = CloseConnection (peer c).
Proof.
  intros [(a&x&Hh) Hcn Hst]. pose proof (ho_at _ _ _ _ Hh) as Hx.
  destruct (heap_fuel _ _ _ Hx) as [m Hm]. destruct (release_ok _ _ _ _ Hh) as (h&w&pl&Ep&Er&->&HI&Hmh&Hg).
  unfold CloseClient, ResetClient. rewrite Hcn. cbn [heap_ pendingWrite_ writeBuffer_ set_peer]. rewrite Hm.
  cbn [release_pending]. rewrite Ep, Er. cbn [PopFront head_ HttpBufferList_init].
  eexists. split; [reflexivity|]. split; [|done]. destruct (ho_buffers _ _ _ _ Hh) as [H1 H2 H3 H4 H5 H6].
  split; [|done|done]. split; cbn; try done; [|by apply empty_list].
  destruct H1 as [E1 E2 E3]. split; unfold size_ in *; cbn; lia.
Qed.

(** ** The loop of [ProcessEvent] while a response goes out *)

(** How far the reply [rest] has got since the connection was [p0]: all of it has been sent
    and the client is ready for the next request; [part] has been sent and exactly [left]
    waits in the client's buffer; or the connection has failed after [part] and is closed. *)
Inductive reply_state (p0 : C) (rest : bytes) (c : client) : Prop :=
| reply_done : ready c -> sent (peer c) = sent p0 ++ rest -> reply_state p0 rest c
| reply_waits part left :
    sending c left -> left <> [] -> rest = part ++ left -> sent (peer c) = sent p0 ++ part -> reply_state p0 rest c
| reply_broken p part left :
    closed_ok c -> peer c = CloseConnection p -> rest = part ++ left -> sent p = sent p0 ++ part ->
    reply_state p0 rest c.

Lemma reply_state_shift p0 p1 part left c :
  reply_state p1 left c -> sent p1 = sent p0 ++ part -> reply_state p0 (part ++ left) c.
Proof.
  intros [H1 H2|pa l H1 H2 -> H4|p pa l H1 H2 -> H4] Hs.
  - apply reply_done; [done|]. by rewrite H2, Hs, app_assoc.
  - apply (reply_waits _ _ _ (part ++ pa) l); [done|done|by rewrite app_assoc|by rewrite H4, Hs, app_assoc].
  - apply (reply_broken _ _ _ p (part ++ pa) l); [done|done|by rewrite app_assoc|by rewrite H4, Hs, app_assoc].
Qed.

(** A loop comes to its end after at most [B] steps, in a state with [P]. *)
Definition ends (B : nat) (start : nat -> run (client * Z)) (P : client -> Prop) : Prop :=
  exists k c ret, (k <= B)%nat /\ P c /\ forall n, start (k + n)%nat = Val (c, ret).

Lemma ends_later j B (start start' : nat -> run (client * Z)) P :
  (forall n, start (j + n)%nat = start' n) -> ends B start' P -> ends (j + B) start P.
Proof.
  intros Hj (k&c&ret&Hle&HP&Hk). exists (j + k)%nat, c, ret. split; [lia|]. split; [done|].
  intros n. by rewrite <-Nat.add_assoc, Hj.
Qed.

Lemma ends_weaken B B' start (P Q : client -> Prop) :
  (B <= B')%nat -> (forall c, P c -> Q c) -> ends B start P -> ends B' start Q.
Proof. intros HB H (k&c&ret&Hle&HP&Hk). exists k, c, ret. split; [lia|]. auto. Qed.

(** Nothing more will arrive: the connection is silent, or was when it was closed. *)
Definition still (c : client) : Prop :=
  if conn_ c then silent (peer c) else exists p, peer c = CloseConnection p /\ silent p.

(** When there is more to send, the kernel has cut a [write] short. *)
Definition shorter (c c' : client) : Prop := evtHandler_ c' = SendResponse_h -> (cuts (peer c') < cuts (peer c))%nat.

(** An event that brings no data. *)
Definition quiet (evt : SocketCode) (p : C) : Prop := evt = SC_READ -> silent p.

(** A client with an empty buffer waits for the next request. *)
Lemma idle_loop evt (c : client) ret :
  buffers_ok c [] -> evtHandler_ c = ProcessRequestLine_h -> (evt = SC_READ -> conn_ c = true /\ silent (peer c)) ->
  exists c', (forall n, run_loop (S n) evt ret c = Val (c', ret)) /\ buffers_ok c' [] /\
    evtHandler_ c' = ProcessRequestLine_h /\ conn_ c' = conn_ c /\ sent (peer c') = sent (peer c) /\
    (evt = SC_READ -> silent (peer c')) /\ (evt <> SC_READ -> c' = c).
Proof.
  intros Hb Hh Hq.
  assert (Hidle : forall d : client, buffers_ok d [] -> ParseRequestLine d = Some (d, 0)).
  { intros d Hd. unfold ParseRequestLine. cbv zeta.
    rewrite std_find_none by (apply Hd || (rewrite (bo_empty _ _ Hd); apply not_elem_of_nil)). by rewrite Z.eqb_refl. }
  cbn [process_loop]. unfold handler. rewrite Hh. unfold with_read. destruct (decide (evt = SC_READ)) as [->|Hne].
  - destruct (Hq eq_refl) as [Hcn Hs]. destruct (silent_read _ Hs) as (p&Hp&Hr). destruct Hb as [H1 H2 H3 H4 H5 H6].
    destruct (ReadHttpData_empty c p [] H1 H2 Hcn H3) as (b&Er&HI&Hc&Hz).
    { pose proof (GetFreeBuffer_empty _ H1 H2 H3). change (blen []) with 0. lia. }
    { by apply Hr, GetFreeBuffer_empty. }
    rewrite Er. change (blen [] <? 0) with false. cbv iota. rewrite Hidle.
    + cbn. rewrite Z.add_0_r. eexists. split; [intros n; reflexivity|]. split_and!; try done.
      * split; cbn; try done. by rewrite Hz.
      * cbn. apply (sent_read _ _ _ _ (Hr 1 ltac:(lia))).
    + split; cbn; try done. by rewrite Hz.
  - rewrite Hidle by done. cbn. rewrite Z.add_0_r. by exists c.
Qed.

Lemma idle_ends evt (c : client) ret :
  ready c -> quiet evt (peer c) ->
  ends 1 (fun n => run_loop n evt ret c)
    (fun c' => ready c' /\ sent (peer c') = sent (peer c) /\ (silent (peer c) -> silent (peer c'))).
Proof.
  intros [Hb Hcn Hh] Hq. assert (Hq' : evt = SC_READ -> conn_ c = true /\ silent (peer c)) by auto.
  destruct (idle_loop evt c ret Hb Hh Hq') as (c'&E&Hb'&Hh'&Hcn'&Hs&Hr&Hw). exists 1%nat, c', ret.
  split; [done|]. split; [|exact E]. split; [by split; [|congruence|]|]. split; [done|].
  intros Hsi. destruct (decide (evt = SC_READ)) as [He|He]; [by apply Hr|by rewrite Hw].
Qed.

Lemma sending_handler evt (c : client) rest :
  sending c rest -> handler cgi_ reserve grow true evt c = lift (SendResponse c).
Proof. intros [_ _ Hh]. unfold handler. by rewrite Hh. Qed.

Lemma reply_loop evt (c : client) rest ret :
  sending c rest -> quiet evt (peer c) ->
  ends (length rest + 2) (fun n => run_loop n evt ret c)
    (fun c' => reply_state (peer c) rest c' /\ (silent (peer c) -> still c') /\ shorter c c').
Proof.
  remember (length rest) as m eqn:Hm. revert c rest ret Hm. induction (lt_wf m) as [m _ IH].
  intros c rest ret -> Hs Hq. destruct (SendBuffer rest (peer c)) as [p n] eqn:E.
  destruct (SendResponse_ok _ _ _ _ Hs E) as (c1&Es&Hp&Hcase).
  pose proof (SendBuffer_size _ _ _ _ E) as Hn. pose proof (sent_send _ _ _ _ E) as Hsent.
  assert (Hsi : silent (peer c) -> silent (peer c1)) by (intros H; rewrite Hp; exact (silent_send _ _ _ _ H E)).
  assert (Hq1 : quiet evt (peer c1)) by (intros He; apply Hsi, Hq, He).
  assert (Hstep : forall k, run_loop (S k) evt ret c =
    let len := if n <? 0 then -1 else n in
    if len <? 0 then match CloseClient c1 with Some c => Val (c, -1) | None => Crash end
    else if 0 <? len then run_loop k evt (ret + len) c1 else Val (c1, ret + len)).
  { intros k. cbn [process_loop]. by rewrite (sending_handler evt c rest Hs), Es. }
  destruct (Z.ltb_spec n 0) as [Hneg|Hpos].
  { destruct (CloseClient_ok _ _ Hcase) as (c2&Ec&Hcl&Hp2). exists 1%nat, c2, (-1). split; [lia|]. split; [split|].
    - apply (reply_broken _ _ _ p [] rest); [done|congruence|done|].
      rewrite Hsent. by replace (Z.to_nat n) with 0%nat by lia.
    - split; [|intros H; rewrite (cl_handler _ Hcl) in H; discriminate H].
      intros H. unfold still. rewrite (cl_conn _ Hcl). exists p. split; [congruence|]. rewrite <-Hp. by apply Hsi.
    - intros k. cbn [Nat.add]. rewrite Hstep, Ec. done. }
  cbv zeta in Hstep. rewrite (proj2 (Z.ltb_ge n 0)) in Hstep by done.
  assert (Hmore : 0 < n -> forall k, run_loop (1 + k) evt ret c = run_loop k evt (ret + n) c1).
  { intros H0 k. cbn [Nat.add]. by rewrite Hstep, (proj2 (Z.ltb_lt 0 n)). }
  destruct (Z.ltb_spec n (blen rest)) as [Hlt|Hge].
  - destruct (decide (n = 0)) as [->|Hne].
    + exists 1%nat, c1, ret. split; [lia|]. split; [split|].
      * apply (reply_waits _ _ _ [] rest); [done| |done|by rewrite Hp, Hsent].
        intros ->. by change (blen []) with 0 in Hlt.
      * split; [intros H; unfold still; rewrite (se_conn _ _ Hcase); by apply Hsi|].
        intros _. rewrite Hp. exact (cuts_short _ _ _ _ E (conj (Z.le_refl 0) Hlt)).
      * intros k. cbn [Nat.add]. rewrite Hstep. cbn. by rewrite Z.add_0_r.
    + assert (Hl : (length (drop (Z.to_nat n) rest) < length rest)%nat) by (rewrite length_drop; unfold blen in *; lia).
      apply (ends_weaken (1 + (length (drop (Z.to_nat n) rest) + 2)) (length rest + 2) _ _ _ ltac:(lia) (fun c H => H)).
      apply (ends_later 1 _ _ _ _ (Hmore ltac:(lia))).
      apply (ends_weaken _ _ _ _ _ (Nat.le_refl _)) with (2 := IH _ Hl c1 _ (ret + n) eq_refl Hcase Hq1).
      intros d (Hd&Hd'&Hc). split; [|split; [auto|]].
      * rewrite <-(take_drop (Z.to_nat n) rest). rewrite Hp in Hd. by eapply reply_state_shift.
      * intros H. specialize (Hc H). rewrite Hp in Hc. pose proof (cuts_send _ _ _ _ E). lia.
  - destruct Hcase as [-> Hready].
    assert (Hall : sent (peer c1) = sent (peer c) ++ rest).
    { rewrite Hp, Hsent. unfold blen. by rewrite Nat2Z.id, firstn_all. }
    destruct (decide (rest = [])) as [->|Hne].
    + exists 1%nat, c1, ret. split; [lia|]. split; [split; [by apply reply_done|split]|].
      * intros H. unfold still. rewrite (re_conn _ Hready). by apply Hsi.
      * intros H. rewrite (re_handler _ Hready) in H. discriminate H.
      * intros k. cbn [Nat.add]. rewrite Hstep. cbn. by rewrite Z.add_0_r.
    + assert (0 < blen rest) by (unfold blen; destruct rest; [done|cbn; lia]).
      apply (ends_weaken 2 (length rest + 2) _ _ _ ltac:(lia) (fun c H => H)), (ends_later 1 1 _ _ _ (Hmore ltac:(done))).
      apply (ends_weaken 1 1 _ _ _ (Nat.le_refl _)) with (2 := idle_ends evt c1 _ Hready Hq1).
      intros d (Hd&Hsd&Hsd'). split; [apply reply_done; [done|congruence]|]. split.
      * intros Hquiet. unfold still. rewrite (re_conn _ Hd). auto.
      * intros Hc'. rewrite (re_handler _ Hd) in Hc'. discriminate Hc'.
Qed.

(** ** The exchange *)

(** A client that is ready gets a whole request (not a POST) in one read. *)
Lemma request_ok (c : client) (q : message) (p1 : C) :
  let resp := cgi_ (parsed q (request_ c)) (clientResponse_ c) in
  let g := granularity (writeBuffer_ c) in
  ready c -> message_ok q -> m_method q <> HM_POST ->
  blen (message_text q) <= snd (GetFreeBuffer (readBuffer_ c)) ->
  ReadBuffer (snd (GetFreeBuffer (readBuffer_ c))) (peer c) = (p1, ReadData (message_text q)) -> silent p1 ->
  32 <= g < 2 ^ 27 -> 0 < GetResponseSize resp <= Z.of_nat num_slot_ * g ->
  nul ∉ statusMsg_ resp -> blen (render resp) < 2 ^ 61 ->
  ends (length (reply g resp) + 6) (fun n => run_event n SC_READ c)
    (fun c' => reply_state (peer c) (reply g resp) c' /\ still c' /\ shorter c c').
Proof.
  intros resp g [Hb Hcn Hh] Hq Hpost Hfree Hr1 Hs1 Hg Hsz Hn Hlen. pose proof Hb as [B1 B2 B3 B4 B5 B6].
  destruct (silent_read _ Hs1) as (p2&Hs2&Hr2).
  destruct (request_run cgi_ reserve grow true c q p1 p2 B1 B2 Hcn Hh Hq Hpost B3 Hfree Hr1 Hr2)
    as (c1&ret&Hrun&H1&H2&H3&H4&H5&H6&H7&H8&H9&H10&H11&_).
  assert (Hb1 : buffers_ok c1 []).
  { split; [done|done|by rewrite H4|by rewrite H5, H6|by rewrite H5|by rewrite H5, H7]. }
  assert (Eresp : cgi_ (request_ c1) (clientResponse_ c1) = resp) by (by rewrite H2, H8).
  assert (Egr : granularity (writeBuffer_ c1) = g) by (by rewrite H6).
  pose proof (GenerateResponseH_ok c1) as HG. cbv zeta in HG. rewrite Eresp, Egr in HG.
  destruct (HG Hb1 H11 Hg Hsz Hn Hlen) as (c2&Eg&Hs&Hp&_).
  assert (Hsent : sent (peer c2) = sent (peer c) ++ []).
  { rewrite Hp, H10, (sent_read _ _ _ _ (Hr2 1 ltac:(lia))), app_nil_r. apply (sent_read _ _ _ _ Hr1). }
  assert (Hsp : silent (peer c2)) by by rewrite Hp, H10.
  apply (ends_weaken (4 + (length (reply g resp) + 2)) (length (reply g resp) + 6) _ _ _ ltac:(lia) (fun c H => H)).
  apply (ends_later 4 _ _ (fun n => run_loop n SC_READ (ret + 1) c2)).
  { intros n. change (4 + n)%nat with (3 + S n)%nat. rewrite Hrun. cbn [process_loop].
    unfold handler. rewrite H1, Eg. done. }
  apply (ends_weaken _ _ _ _ _ (Nat.le_refl _)) with (2 := reply_loop SC_READ c2 _ (ret + 1) Hs (fun _ => Hsp)).
  intros d (Hd&Hst&Hsh). split; [by apply (reply_state_shift (peer c) (peer c2) [] _ d)|]. split; [auto|].
  intros H. specialize (Hsh H). rewrite Hp, H10 in Hsh. pose proof (cuts_read _ _ _ _ Hr1).
  pose proof (cuts_read _ _ _ _ (Hr2 1 ltac:(lia))). lia.
Qed.

(** C21. A request is answered.  A client that is ready gets a whole request (not a POST) in
    one read, with nothing behind it: [ProcessEvent] calls the handler on what was sent, and
    what goes out over the connection is the [reply] to its response - all of it, after which
    the client is ready for the next request; or a part, while exactly the rest waits in its
    buffer; or, when the connection fails, a part, and the client has closed it.  It never
    crashes, and it comes to its end after finitely many steps. *)
Theorem request_answered (c : client) (q : message) (p1 : C) :
  let resp := cgi_ (parsed q (request_ c)) (clientResponse_ c) in
  let g := granularity (writeBuffer_ c) in
  ready c -> message_ok q -> m_method q <> HM_POST ->
  blen (message_text q) <= snd (GetFreeBuffer (readBuffer_ c)) ->
  ReadBuffer (snd (GetFreeBuffer (readBuffer_ c))) (peer c) = (p1, ReadData (message_text q)) -> silent p1 ->
  32 <= g < 2 ^ 27 -> 0 < GetResponseSize resp <= Z.of_nat num_slot_ * g ->
  nul ∉ statusMsg_ resp -> blen (render resp) < 2 ^ 61 ->
  exists k c' ret, (k <= length (reply g resp) + 6)%nat /\ reply_state (peer c) (reply g resp) c' /\
    forall n, run_event (k + n) SC_READ c = Val (c', ret).
Proof. intros. edestruct request_ok as (k&c'&ret&?&[? _]&?); [done..|]. by exists k, c', ret. Qed.

(** The socket gets writable again; [None] when an event does not come to its end. *)
Fixpoint write_events (fuel : nat) (m : nat) (c : client) : option client :=
  match m with
  | O => Some c
  | S m' =>
      match run_event fuel SC_WRITE c with
      | Val (c', _) => write_events fuel m' c'
      | _ => None
      end
  end.

(** An event that brings no data, while the reply is under way or after it. *)
Lemma reply_event_ok p0 rest evt (c : client) :
  reply_state p0 rest c -> conn_ c = true -> quiet evt (peer c) ->
  ends (length rest + 2) (fun n => run_event n evt c)
    (fun c' => reply_state p0 rest c' /\ (silent (peer c) -> still c') /\
       (evtHandler_ c' = SendResponse_h -> evtHandler_ c = SendResponse_h /\ shorter c c')).
Proof.
  intros [Hr Hs|part left Hs Hne -> Hsent|p part left Hc _ _ _] Hcn Hq.
  - assert (Hl : (1 <= length rest + 2)%nat) by lia.
    apply (ends_weaken _ _ _ _ _ Hl) with (2 := idle_ends evt c 0 Hr Hq).
    intros d (Hd&Hsd&Hst). split; [apply reply_done; [done|congruence]|]. split.
    + unfold still. by rewrite (re_conn _ Hd).
    + intros H. rewrite (re_handler _ Hd) in H. discriminate H.
  - assert (Hl : (length left + 2 <= length (part ++ left) + 2)%nat) by (rewrite length_app; lia).
    apply (ends_weaken _ _ _ _ _ Hl) with (2 := reply_loop evt c left 0 Hs Hq).
    intros d (Hd&Hst&Hsh). split; [by eapply reply_state_shift|]. split; [done|].
    intros _. split; [apply Hs|exact Hsh].
  - pose proof (cl_conn _ Hc). congruence.
Qed.

Lemma write_event_ok p0 rest (c : client) :
  reply_state p0 rest c -> ends (length rest + 2) (fun n => run_event n SC_WRITE c) (reply_state p0 rest).
Proof.
  intros Hr. destruct (conn_ c) eqn:Hcn.
  - apply (ends_weaken _ _ _ _ _ (Nat.le_refl _)) with (2 := reply_event_ok p0 rest SC_WRITE c Hr Hcn ltac:(discriminate)).
    by intros d [Hd _].
  - destruct Hr as [Hr _|part left Hs _ _ _|p part left Hc Hp -> Hsent];
      [pose proof (re_conn _ Hr); congruence|pose proof (se_conn _ _ Hs); congruence|]. destruct Hc as [Hb _ Hh].
    destruct (idle_loop SC_WRITE c 0 Hb Hh ltac:(discriminate)) as (c'&E&_&_&_&_&_&Hc'). rewrite Hc' in E by done.
    exists 1%nat, c, 0. split; [lia|]. split; [|exact E]. by apply (reply_broken _ _ _ p part left).
Qed.

(** A response that did not go out at once goes out later, in whatever pieces the kernel
    takes: after any number of events that say the socket is writable, what was sent is a
    prefix of the response and exactly the rest is in the client's buffer; or it has been
    sent completely, and the client is ready for the next request; or the connection failed
    after a prefix and is closed.  Every event comes to its end. *)
Theorem reply_whole (c : client) (rest : bytes) (m : nat) :
  sending c rest -> rest <> [] ->
  exists fuel c', reply_state (peer c) rest c' /\ forall more, write_events (fuel + more) m c = Some c'.
Proof.
  intros Hs Hne. assert (H0 : reply_state (peer c) rest c).
  { apply (reply_waits _ _ _ [] rest); [done..|]. by rewrite app_nil_r. }
  revert H0. generalize (peer c). intros p0. clear Hs Hne. revert c.
  induction m as [|m IH]; intros c H0; [by exists 0%nat, c|].
  destruct (write_event_ok p0 rest c H0) as (k&c1&ret&_&H1&E). destruct (IH c1 H1) as (f&c2&H2&Hf).
  exists (k + f)%nat, c2. split; [done|]. intros more. cbn [write_events].
  rewrite <-Nat.add_assoc, E. replace (k + (f + more))%nat with (f + (k + more))%nat by lia. apply Hf.
Qed.
End Exchange.

(** ** New clients *)

Lemma mem_ok_init oks h w h' w' b : mem_ok h -> 0 < granularity w -> init_loop oks h w = (h', w', b) -> mem_ok h'.
Proof.
  revert h w. induction oks as [|ok oks IH]; intros h w Hh Hg H; cbn in H; [by simplify_eq|].
  destruct ok; cbn in H; [|by simplify_eq]. refine (IH _ (WB (granularity w) _) _ Hg H). intros a x Hx.
  rewrite lookup_alter_Some in Hx. destruct Hx as [(<-&y&Hy&->)|[Hne Hx]].
  - rewrite lookup_insert_eq in Hy. simplify_eq. cbn. unfold blen. rewrite length_replicate. lia.
  - rewrite lookup_insert_ne in Hx by done. by eapply Hh.
Qed.

Lemma buffers_init {C} g oks junk h w b r resp k hd cn (p : C) :
  0 < g -> Forall (fun ok => ok = true) oks -> junk <> [] -> InitBuffer g oks ∅ = (h, w, b) ->
  buffers_ok (Client k (HttpReadBuffer_init junk) h w HttpBufferList_init r resp hd cn p) [].
Proof.
  intros Hg Hok Hj E. destruct (InitBuffer_spec g oks ∅ Hg Hok) as (h'&w'&ls&E'&HI&_).
  rewrite E in E'. injection E' as <- <- ->. split; cbn.
  - apply rb_inv_init.
  - done.
  - unfold size_. cbn. unfold blen. destruct junk; [done|cbn; lia].
  - by eexists.
  - by apply (mem_ok_init oks ∅ (WB g (replicate num_slot_ None)) h w true).
  - by apply empty_list.
Qed.

(** ** A connection whose kernel takes what it wants *)

(** [pi_takes] says how much of each [write] is taken, a negative number a failure. *)
Record pipe : Type := Pipe { pi_in : list bytes; pi_takes : list Z; pi_out : bytes; pi_closed : bool }.

#[export] Instance pipe_connection : Connection pipe := {|
  ReadBuffer sz s :=
    match pi_in s with
    | [] => (s, ReadData [])
    | d :: ds =>
        (Pipe (if blen d <=? sz then ds else drop (Z.to_nat sz) d :: ds) (pi_takes s) (pi_out s) (pi_closed s),
         ReadData (take (Z.to_nat sz) d))
    end;
  SendBuffer data s :=
    match pi_takes s with
    | [] => (Pipe (pi_in s) [] (pi_out s ++ data) (pi_closed s), blen data)
    | n :: ns =>
        let n := Z.min n (blen data) in
        (Pipe (pi_in s) ns (pi_out s ++ take (Z.to_nat n) data) (pi_closed s), n)
    end;
  CloseConnection s := Pipe (pi_in s) (pi_takes s) (pi_out s) true
|}.

#[export] Instance pipe_connection_spec : ConnectionSpec pipe.
Proof.
  split; cbn.
  - intros sz c c' data Hsz H. destruct (pi_in c) as [|d ds]; simplify_eq.
    + by change (blen []) with 0.
    + unfold blen. rewrite length_take. lia.
  - intros sz c c' code H. by destruct (pi_in c).
  - intros data c c' n H. destruct (pi_takes c); injection H as <- <-; lia.
Qed.

#[export] Instance pipe_traced : Traced pipe := {|
  sent := pi_out; silent s := pi_in s = []; cuts s := length (pi_takes s)
|}.

#[export] Instance pipe_traced_spec : TracedSpec pipe.
Proof.
  split; cbn.
  - intros sz p p' r H. destruct (pi_in p); by simplify_eq.
  - intros data p p' n H. destruct (pi_takes p); injection H as <- <-; [|done].
    unfold sent, pipe_traced, blen. cbn. by rewrite Nat2Z.id, firstn_all.
  - intros p Hp. exists p. split; [done|]. intros sz _. by rewrite Hp.
  - intros data p p' n Hp H. destruct (pi_takes p); by injection H as <- _.
  - intros sz p p' r H. destruct (pi_in p); by simplify_eq.
  - intros data p p' n H. unfold cuts, pipe_traced. destruct (pi_takes p); injection H as <- _; cbn; lia.
  - intros data p p' n H Hn. unfold cuts, pipe_traced. destruct (pi_takes p); injection H as <- <-; cbn; lia.
Qed.

(** A client of [demo_client]'s size over a pipe. *)
Definition pipe_client (segments : list bytes) (takes : list Z) : HttpClient pipe :=
  let '(h, w, _) := InitBuffer 128 [true; true] ∅ in
  Client false (HttpReadBuffer_init (replicate 256 nul)) h w HttpBufferList_init
    (HttpRequest_init 15) (HttpResponse_init false HSC_UNKNOWN) ProcessRequestLine_h true
    (Pipe segments takes [] false).

Lemma request_answered_witness :
  exists k c' ret,
    (k <= length (reply 128 (demo_cgi (parsed demo_message (HttpRequest_init 15)) (HttpResponse_init false HSC_UNKNOWN))) + 6)%nat /\
    reply_state (Pipe [message_text demo_message] [10; 0] [] false)
      (reply 128 (demo_cgi (parsed demo_message (HttpRequest_init 15)) (HttpResponse_init false HSC_UNKNOWN))) c' /\
    forall n, ProcessEvent demo_cgi Z.max Z.max true (k + n) SC_READ (pipe_client [message_text demo_message] [10; 0]) =
      Val (c', ret).
Proof.
  apply (request_answered demo_cgi Z.max Z.max (pipe_client [message_text demo_message] [10; 0]) demo_message
    (Pipe [] [10; 0] [] false)).
  - unfold pipe_client. destruct (InitBuffer 128 [true; true] ∅) as [[h w] b] eqn:E.
    split; [|done..]. eapply (buffers_init 128 [true; true]); [lia|repeat constructor|done|exact E].
  - apply demo_message_ok.
  - discriminate.
  - vm_compute. discriminate.
  - vm_compute. reflexivity.
  - reflexivity.
  - vm_compute. split; [discriminate|reflexivity].
  - vm_compute. split; [reflexivity|discriminate].
  - apply (bool_decide_unpack _). by vm_compute.
  - vm_compute. reflexivity.
Defined.

(** 10 bytes go out with the request, 20 with the first event, the rest with the second. *)
Definition demo_text : bytes :=
  bs "HTTP/1.1 200 OK" ++ crlf ++ bs "Host: miliao server" ++ crlf ++ crlf ++ bs "hello".

Definition sent_after (m : nat) : option (bytes * EventHandler) :=
  match ProcessEvent demo_cgi Z.max Z.max true 20 SC_READ (pipe_client [message_text demo_message] [10; 0; 20; 0]) with
  | Val (c, _) =>
      match write_events demo_cgi Z.max Z.max 5 m c with
      | Some c => Some (pi_out (peer c), evtHandler_ c)
      | None => None
      end
  | _ => None
  end.

Example pipe_exchange :
  sent_after 0 = Some (take 10 demo_text, SendResponse_h) /\
  sent_after 1 = Some (take 30 demo_text, SendResponse_h) /\
  sent_after 2 = Some (demo_text, ProcessRequestLine_h).
Proof. by vm_compute. Qed.

(** A client in the middle of a response. *)
Definition half_sent : HttpClient pipe :=
  let '(h, w, _) := InitBuffer 128 [true; true] ∅ in
  match AllocWriteBuffer true 5 h w with
  | Some (h, w, Some a) =>
      Client false (HttpReadBuffer_init (replicate 256 nul))
        (<[a := HB 128 5 0 None (bs "hello" ++ replicate 131 nul)]> h) w (BL (Some a) (Some a))
        (HttpRequest_init 15) (HttpResponse_init false HSC_UNKNOWN) SendResponse_h true (Pipe [] [2; 0; 1; 0] [] false)
  | _ => pipe_client [] []
  end.

Lemma half_sent_ok : sending half_sent (bs "hello").
Proof.
  unfold half_sent. destruct (InitBuffer_spec 128 [true; true] ∅) as (h&w&ls&E&HI&Hg&_); [lia|repeat constructor|].
  rewrite E. pose proof (mem_ok_init [true; true] ∅ (WB 128 (replicate num_slot_ None)) h w true) as Hm.
  specialize (Hm (fun a x Hx => match lookup_empty_Some a x Hx with end) ltac:(cbn; lia) E).
  destruct (AllocWriteBuffer_spec true 5 h w ls [] HI) as (h'&w'&r&ls'&Ea&Hgw&Hr).
  rewrite Ea. destruct r as [a|]; [|destruct Hr as [_ [Hr|?]]; [|done]; rewrite Hg in Hr; unfold num_slot_ in Hr; lia].
  destruct Hr as [HI' (x&Hx&Hcp&Hcs&Hnx&Hbs)].
  assert (Hmh : mem_ok h') by (refine (mem_ok_alloc _ _ _ _ _ _ _ Hm _ Ea); lia).
  destruct (wb_held _ _ _ _ HI' a ltac:(by left)) as (x'&i&Hx'&Hi&Hbi). simplify_eq.
  assert (Hb : b_size x = 128) by (rewrite Hgw, Hg in Hbi; lia).
  destruct (Hmh a x Hx) as [_ Hbm].
  set (y := HB 128 5 0 None (bs "hello" ++ replicate 131 nul)).
  destruct (buffers_update (set_write h' w' HttpBufferList_init (pipe_client [] [])) h' a x y [a]) as [HI2 Hm2];
    [by eexists|done|done|by left|done|rewrite Hbm, Hb; done|].
  split; [|done|done]. exists a, y. split; cbn; try done; [|by rewrite lookup_insert_eq].
  split; cbn; try done. split; [|done|apply NoDup_singleton].
  split; [done|]. exists y. by rewrite lookup_insert_eq.
Defined.

Lemma reply_whole_witness :
  exists fuel c', reply_state (Pipe [] [2; 0; 1; 0] [] false) (bs "hello") c' /\
    forall more, write_events demo_cgi Z.max Z.max (fuel + more) 2 half_sent = Some c'.
Proof.
  assert (E : peer half_sent = Pipe [] [2; 0; 1; 0] [] false) by (vm_compute; reflexivity).
  rewrite <-E. apply (reply_whole demo_cgi Z.max Z.max half_sent (bs "hello") 2); [apply half_sent_ok|discriminate].
Defined.
