(* ===== verification/SocketServer.v ===== *)
(** * SocketServer.v: [http/SocketServer.cc], [http/SocketPoll.cc] and the loop of
    [http/HttpServer.cc]

The table of sockets of [ServerImpl], indexed by descriptor, over a model of the
part of the kernel it uses: the open descriptors and, per registered descriptor,
its [EPOLLONESHOT] registration (armed or not, with or without [EPOLLOUT]).  The
results of the system calls are arguments of the operations.  [None] is an index
outside the table, an [assert] or a [NULL] dereference.

The theorems: the table stays consistent with the kernel and [connNum_] counts
the connections, as long as only accepted connections are closed; a listening
socket is never armed again after its first event. *)

From S2P Require Import Prelude Machine HttpBuffer HttpClient.

Inductive SocketStatus : Type :=
| SS_INVALID | SS_LISTENING | SS_CONNECTED | SS_CONNECTING | SS_PACCEPT.

#[export] Instance SocketStatus_eq : EqDecision SocketStatus.
Proof. solve_decision. Defined.

(** A slot of [sockets_]: [fd_], [status_], [opaque_]. *)
Record slot : Type := Slot { fd_ : nat; status_ : SocketStatus; opaque_ : Z }.

Definition set_status (s : SocketStatus) (x : slot) : slot := Slot (fd_ x) s (opaque_ x).

Record interest : Type := Interest { armed : bool; want_write : bool }.

Record ServerImpl : Type := Server {
  connNum_ : Z; watchAccepted_ : bool; sockets_ : list slot;
  poller_ : gmap nat interest;   (* registrations of [epoll_] *)
  open_fds : gset nat            (* descriptors the process has open *)
}.

(** [mem] is what the memory of the [maxSocket_] slots holds: the constructor sets the
    status only. *)
Definition ServerImpl_init (mem : list slot) (fds : gset nat) : ServerImpl :=
  Server 0 false (set_status SS_INVALID <$> mem) ∅ fds.

Definition set_sockets (l : list slot) (s : ServerImpl) : ServerImpl :=
  Server (connNum_ s) (watchAccepted_ s) l (poller_ s) (open_fds s).
Definition set_slot (fd : nat) (x : slot) (s : ServerImpl) : ServerImpl :=
  set_sockets (<[fd:=x]> (sockets_ s)) s.
Definition set_poller (p : gmap nat interest) (s : ServerImpl) : ServerImpl :=
  Server (connNum_ s) (watchAccepted_ s) (sockets_ s) p (open_fds s).
Definition set_connNum (n : Z) (s : ServerImpl) : ServerImpl :=
  Server n (watchAccepted_ s) (sockets_ s) (poller_ s) (open_fds s).
Definition set_fds (f : gset nat) (s : ServerImpl) : ServerImpl :=
  Server (connNum_ s) (watchAccepted_ s) (sockets_ s) (poller_ s) f.
Definition SetWatchAcceptedSock (watch : bool) (s : ServerImpl) : ServerImpl :=
  Server (connNum_ s) watch (sockets_ s) (poller_ s) (open_fds s).

(** ** [SocketPoll] *)

(** [EPOLL_CTL_ADD] fails on a registered descriptor, or when [ok] is false. *)
Definition AddSocket (ok : bool) (fd : nat) (s : ServerImpl) : ServerImpl * bool :=
  match ok, poller_ s !! fd with
  | true, None => (set_poller (<[fd := Interest true false]> (poller_ s)) s, true)
  | _, _ => (s, false)
  end.

Definition RemoveSocket (fd : nat) (s : ServerImpl) : ServerImpl * bool :=
  match poller_ s !! fd with
  | Some _ => (set_poller (delete fd (poller_ s)) s, true)
  | None => (s, false)
  end.

(** [EPOLL_CTL_MOD] arms the descriptor again. *)
Definition ModifySocket (fd : nat) (write : bool) (s : ServerImpl) : ServerImpl * bool :=
  match poller_ s !! fd with
  | Some _ => (set_poller (<[fd := Interest true write]> (poller_ s)) s, true)
  | None => (s, false)
  end.

(** [epoll_wait] reports armed descriptors only and disarms what it reports. *)
Definition deliver (fd : nat) (s : ServerImpl) : option ServerImpl :=
  match poller_ s !! fd with
  | Some i => if armed i then Some (set_poller (<[fd := Interest false (want_write i)]> (poller_ s)) s) else None
  | None => None
  end.

(** [close]: the descriptor leaves the epoll set too. *)
Definition close (fd : nat) (s : ServerImpl) : ServerImpl :=
  set_fds (open_fds s ∖ {[fd]}) (set_poller (delete fd (poller_ s)) s).

(** ** [ServerImpl] *)

Definition ForceSocketClose (fd : nat) (s : ServerImpl) : option ServerImpl :=
  match sockets_ s !! fd with
  | None => None
  | Some x =>
      if decide (status_ x = SS_INVALID) then Some s
      else
        let s := set_connNum (connNum_ s - 1) s in
        let '(s, _) := RemoveSocket (fd_ x) s in
        Some (close (fd_ x) (set_slot fd (set_status SS_INVALID x) s))
  end.

Fixpoint ShutDownAllSockets (n : nat) (s : ServerImpl) : option ServerImpl :=
  match n with
  | O => Some s
  | S n' => match ShutDownAllSockets n' s with Some s => ForceSocketClose n' s | None => None end
  end.

(** [Some (_, false)] is the [NULL] result. *)
Definition SetupSocketConnection (add_ok : bool) (fd : nat) (opaque : Z) (poll : bool) (s : ServerImpl) :
    option (ServerImpl * bool) :=
  match sockets_ s !! fd with
  | None => None
  | Some x =>
      if decide (status_ x = SS_INVALID) then
        let s := set_slot fd (Slot fd SS_INVALID opaque) s in
        if poll then
          let '(s, ok) := AddSocket add_ok fd s in Some (s, ok)
        else Some (s, true)
      else None
  end.

Definition update_status (fd : nat) (st : SocketStatus) (s : ServerImpl) : option ServerImpl :=
  match sockets_ s !! fd with
  | Some x => Some (set_slot fd (set_status st x) s)
  | None => None
  end.

(** [write] returned [n], with [again] when it failed with [EINTR] or [EAGAIN]. *)
Definition ServerSend (fd : nat) (n sz : Z) (again : bool) (s : ServerImpl) : option (ServerImpl * Z) :=
  match sockets_ s !! fd with
  | None => None
  | Some x =>
      if decide (status_ x = SS_INVALID \/ fd_ x <> fd) then Some (s, -2)
      else if decide (status_ x = SS_LISTENING) then None
      else if (n <? 0) && negb again then Some (s, -1)
      else
        let n := if n <? 0 then 0 else n in
        let '(s, _) := ModifySocket (fd_ x) (n <? sz) s in Some (s, n)
  end.

(** [read] returned [n]. *)
Definition ServerRead (fd : nat) (n sz : Z) (again : bool) (s : ServerImpl) : option (ServerImpl * Z) :=
  match sockets_ s !! fd with
  | None => None
  | Some x =>
      if (sz =? 0) || bool_decide (status_ x = SS_INVALID) then None
      else
        let '(s, _) := ModifySocket (fd_ x) false s in
        if n <? 0 then Some (s, if again then 0 else -1)
        else if n =? 0 then Some (s, -1)
        else Some (s, n)
  end.

Definition CloseSocket (fd : nat) (s : ServerImpl) : option (ServerImpl * bool) :=
  match sockets_ s !! fd with
  | None => None
  | Some x =>
      if decide (status_ x = SS_INVALID \/ fd_ x <> fd) then Some (s, false)
      else match ForceSocketClose fd s with Some s => Some (s, true) | None => None end
  end.

(** [fd] is the socket that [AllocSocketFd] returned, [status] 1 for connected
    and 2 for under way. *)
Definition ConnectTo (add_ok : bool) (fd : option nat) (status opaque : Z) (s : ServerImpl) :
    option (ServerImpl * option nat) :=
  match fd with
  | None => Some (s, None)
  | Some fd =>
      let s := set_fds (open_fds s ∪ {[fd]}) s in
      match SetupSocketConnection add_ok fd opaque true s with
      | Some (s, true) =>
          if status =? 1 then
            match update_status fd SS_CONNECTED s with Some s => Some (s, Some fd) | None => None end
          else
            match update_status fd SS_CONNECTING s with
            | Some s => Some (fst (ModifySocket fd true s), Some fd)
            | None => None
            end
      | _ => None
      end
  end.

Definition ListenTo (add_ok : bool) (fd : option nat) (opaque : Z) (s : ServerImpl) :
    option (ServerImpl * Z) :=
  match fd with
  | None => Some (s, -1)
  | Some fd =>
      let s := set_fds (open_fds s ∪ {[fd]}) s in
      match SetupSocketConnection add_ok fd opaque true s with
      | Some (s, true) =>
          match update_status fd SS_LISTENING s with Some s => Some (s, Z.of_nat fd) | None => None end
      | _ => None
      end
  end.

Definition WatchSocket (add_ok : bool) (fd : nat) (listen : bool) (s : ServerImpl) : option (ServerImpl * bool) :=
  match sockets_ s !! fd with
  | None => None
  | Some x =>
      if decide (status_ x = SS_PACCEPT \/ status_ x = SS_INVALID) then
        match AddSocket add_ok (fd_ x) s with
        | (s, false) => Some (set_slot fd (set_status SS_INVALID x) s, false)
        | (s, true) =>
            let st := if decide (status_ x = SS_PACCEPT) then SS_CONNECTED
                      else if listen then SS_LISTENING else SS_CONNECTED in
            Some (set_slot fd (set_status st x) s, true)
        end
      else Some (s, false)
  end.

Definition WatchRawSocket (add_ok : bool) (fd : nat) (listen : bool) (s : ServerImpl) : option (ServerImpl * bool) :=
  match sockets_ s !! fd with
  | None => None
  | Some x =>
      if decide (status_ x <> SS_INVALID) then Some (s, false)
      else
        let s := set_slot fd (Slot fd (if listen then SS_LISTENING else SS_CONNECTED) (opaque_ x)) s in
        match AddSocket add_ok fd s with
        | (s, false) => Some (set_slot fd (Slot fd SS_INVALID (opaque_ x)) s, false)
        | (s, true) => Some (s, true)
        end
  end.

Definition UnwatchSocket (fd : nat) (s : ServerImpl) : option (ServerImpl * bool) :=
  match sockets_ s !! fd with
  | None => None
  | Some x =>
      if decide (status_ x = SS_INVALID) then Some (s, false)
      else
        match RemoveSocket fd s with
        | (s, false) => Some (s, false)
        | (s, true) => Some (set_slot fd (set_status SS_INVALID x) s, true)
        end
  end.

(** [failed]: [getsockopt] failed or reported an error. *)
Definition HandleConnectDone (fd : nat) (failed : bool) (s : ServerImpl) : option (ServerImpl * SocketCode) :=
  match sockets_ s !! fd with
  | None => None
  | Some x =>
      if failed then Some (s, SC_FAIL_CONN)
      else
        let s := set_slot fd (set_status SS_CONNECTED x) s in
        Some (fst (ModifySocket (fd_ x) false s), SC_CONNECTED)
  end.

(** [client]: what [accept] returned. *)
Definition HandleAcceptReady (add_ok : bool) (fd : nat) (client : option nat) (s : ServerImpl) :
    option (ServerImpl * SocketCode * nat) :=
  match sockets_ s !! fd, client with
  | None, _ => None
  | Some _, None => Some (s, SC_ERROR, fd)
  | Some x, Some c =>
      let s := set_connNum (connNum_ s + 1) (set_fds (open_fds s ∪ {[c]}) s) in
      match SetupSocketConnection add_ok c (opaque_ x) (watchAccepted_ s) s with
      | Some (s, true) =>
          match update_status c (if watchAccepted_ s then SS_CONNECTED else SS_PACCEPT) s with
          | Some s => Some (s, SC_SUCC, c)
          | None => None
          end
      | _ => None      (* [new_sock] is [NULL] *)
      end
  end.

(** ** [RunPoll] *)

(** One event of [epoll_wait] with what the kernel answers to its handler. *)
Record poll_event : Type := Ev {
  ev_fd : nat; ev_read : bool; ev_write : bool;
  ev_client : option nat; ev_add_ok : bool; ev_failed : bool
}.

(** What [RunPoll] stores in its result. *)
Record socket_event : Type := SE { code : option SocketCode; conn : nat }.

(** The two static queues. *)
Record queues : Type := Queues { accept_queue : list socket_event; read_write_queue : list socket_event }.

(** One round of the inner loop: [epoll_wait] has delivered [e].  The code of an
    event that is neither readable nor writable is not set ([None]). *)
Definition poll_one (e : poll_event) (sq : ServerImpl * queues) : option (ServerImpl * queues) :=
  let '(s, q) := sq in
  match deliver (ev_fd e) s with
  | None => None
  | Some s =>
      match sockets_ s !! ev_fd e with
      | None => None
      | Some x =>
          match status_ x with
          | SS_CONNECTING =>
              match HandleConnectDone (ev_fd e) (ev_failed e) s with
              | Some (s, c) =>
                  Some (s, Queues (accept_queue q) (read_write_queue q ++ [SE (Some c) (ev_fd e)]))
              | None => None
              end
          | SS_LISTENING =>
              match HandleAcceptReady (ev_add_ok e) (ev_fd e) (ev_client e) s with
              | Some (s, SC_SUCC, c) =>
                  Some (s, Queues (accept_queue q ++ [SE (Some SC_ACCEPTED) c]) (read_write_queue q))
              | Some (s, _, _) => Some (s, q)
              | None => None
              end
          | SS_INVALID => Some (s, q)
          | _ =>
              let c := if ev_read e then Some SC_READ else if ev_write e then Some SC_WRITE else None in
              Some (s, Queues (accept_queue q) (read_write_queue q ++ [SE c (ev_fd e)]))
          end
      end
  end.

Fixpoint poll_all (es : list poll_event) (sq : ServerImpl * queues) : option (ServerImpl * queues) :=
  match es with
  | [] => Some sq
  | e :: es' => match poll_one e sq with Some sq' => poll_all es' sq' | None => None end
  end.

(** The head of the queues, accepted connections first. *)
Definition next_event (q : queues) : option (socket_event * queues) :=
  match accept_queue q, read_write_queue q with
  | e :: a, r => Some (e, Queues a r)
  | [], e :: r => Some (e, Queues [] r)
  | [], [] => None
  end.

(** [RunPoll] with the batches that [epoll_wait] delivers; [Some None] when the
    batches are used up before there is an event. *)
Fixpoint RunPoll (batches : list (list poll_event)) (sq : ServerImpl * queues) :
    option (option (socket_event * (ServerImpl * queues))) :=
  match next_event (snd sq) with
  | Some (e, q) => Some (Some (e, (fst sq, q)))
  | None =>
      match batches with
      | [] => Some None
      | b :: batches' =>
          match poll_all b sq with Some sq' => RunPoll batches' sq' | None => None end
      end
  end.

(** ** The invariant of the table *)

Inductive sop : Type :=
| OAccept (fd : nat) (client : option nat)
| ORead (fd : nat) (n sz : Z) (again : bool)
| OSend (fd : nat) (n sz : Z) (again : bool)
| OClose (fd : nat)
| OWatch (fd : nat)                  (* [WatchSocket] of a pending connection *)
| OListen (fd : nat)                 (* [WatchRawSocket(fd, true)] *)
| OUnlisten (fd : nat)               (* [UnwatchSocket] *)
| ODeliver (fd : nat).

Definition exec (o : sop) (s : ServerImpl) : option ServerImpl :=
  match o with
  | OAccept fd client => option_map (fun r => fst (fst r)) (HandleAcceptReady true fd client s)
  | ORead fd n sz again => option_map fst (ServerRead fd n sz again s)
  | OSend fd n sz again => option_map fst (ServerSend fd n sz again s)
  | OClose fd => option_map fst (CloseSocket fd s)
  | OWatch fd => option_map fst (WatchSocket true fd false s)
  | OListen fd => option_map fst (WatchRawSocket true fd true s)
  | OUnlisten fd => option_map fst (UnwatchSocket fd s)
  | ODeliver fd => deliver fd s
  end.

(** The number of slots that hold a connection. *)
Definition held (x : slot) : Z :=
  match status_ x with SS_CONNECTED | SS_PACCEPT => 1 | _ => 0 end.

Definition conns (s : ServerImpl) : Z := sum_with held (sockets_ s).

Record sinv (s : ServerImpl) : Prop := {
  si_fd : forall i x, sockets_ s !! i = Some x -> status_ x <> SS_INVALID -> fd_ x = i /\ i ∈ open_fds s;
  si_polled : forall i x, sockets_ s !! i = Some x ->
    (status_ x = SS_CONNECTED \/ status_ x = SS_LISTENING <-> is_Some (poller_ s !! i));
  si_num : connNum_ s = conns s
}.

(** How a server uses the table, and what the kernel promises: reads and sends on
    connections, closes accepted connections, watches pending ones, listens on a
    descriptor with a free slot; [accept] returns a new descriptor of the table. *)
Definition legal (o : sop) (s : ServerImpl) : Prop :=
  match o with
  | OAccept fd client =>
      (exists x, sockets_ s !! fd = Some x /\ status_ x = SS_LISTENING) /\
      (forall c, client = Some c -> c ∉ open_fds s /\ (c < length (sockets_ s))%nat)
  | ORead fd _ sz _ => sz <> 0 /\ exists x, sockets_ s !! fd = Some x /\ status_ x = SS_CONNECTED
  | OSend fd _ _ _ => exists x, sockets_ s !! fd = Some x /\ status_ x = SS_CONNECTED
  | OClose fd | OWatch fd =>
      exists x, sockets_ s !! fd = Some x /\
        (match o with OClose _ => status_ x = SS_CONNECTED | _ => False end \/ status_ x = SS_PACCEPT)
  | OListen fd => fd ∈ open_fds s /\ exists x, sockets_ s !! fd = Some x
  | OUnlisten fd => exists x, sockets_ s !! fd = Some x /\ status_ x <> SS_CONNECTED /\ status_ x <> SS_PACCEPT
  | ODeliver fd => exists i, poller_ s !! fd = Some i /\ armed i = true
  end.

(** One slot, its registration and its descriptor change. *)
Lemma sinv_slot s s' fd x x' :
  sinv s -> sockets_ s !! fd = Some x -> sockets_ s' = <[fd:=x']> (sockets_ s) ->
  (forall j, j <> fd -> is_Some (poller_ s' !! j) <-> is_Some (poller_ s !! j)) ->
  (status_ x' = SS_CONNECTED \/ status_ x' = SS_LISTENING <-> is_Some (poller_ s' !! fd)) ->
  (status_ x' <> SS_INVALID -> fd_ x' = fd /\ fd ∈ open_fds s') ->
  (forall j, j <> fd -> j ∈ open_fds s -> j ∈ open_fds s') ->
  connNum_ s' = connNum_ s - held x + held x' -> sinv s'.
Proof.
  intros [H1 H2 H3] Hx Hs Hp1 Hp2 Hf Ho Hn. split.
  - intros i y Hy Hst. rewrite Hs in Hy. apply list_insert_inv in Hy as [[-> ->]|[Hne Hy]]; [by apply Hf|].
    destruct (H1 i y Hy Hst) as [-> Hin]. split; [done|by apply Ho].
  - intros i y Hy. rewrite Hs in Hy. apply list_insert_inv in Hy as [[-> ->]|[Hne Hy]]; [done|].
    rewrite Hp1 by done. by apply H2.
  - rewrite Hn, H3. unfold conns. by rewrite Hs, (sum_with_insert held _ _ x).
Qed.

(** Only the flags of registrations change. *)
Lemma sinv_poll s s' :
  sinv s -> sockets_ s' = sockets_ s -> open_fds s' = open_fds s -> connNum_ s' = connNum_ s ->
  (forall j, is_Some (poller_ s' !! j) <-> is_Some (poller_ s !! j)) -> sinv s'.
Proof.
  intros [H1 H2 H3] Hs Ho Hn Hp. split.
  - intros i x. rewrite Hs, Ho. apply H1.
  - intros i x. rewrite Hs, Hp. apply H2.
  - unfold conns. by rewrite Hn, Hs, H3.
Qed.

Lemma is_Some_insert {A} (m : gmap nat A) fd v j :
  is_Some (m !! fd) -> is_Some (<[fd:=v]> m !! j) <-> is_Some (m !! j).
Proof.
  intros H. destruct (decide (j = fd)) as [->|].
  - rewrite lookup_insert_eq. split; [done|by eexists].
  - by rewrite lookup_insert_ne.
Qed.

Lemma ModifySocket_sinv fd w s : sinv s -> sinv (fst (ModifySocket fd w s)).
Proof.
  intros HI. unfold ModifySocket. destruct (poller_ s !! fd) eqn:E; [|done]. simpl.
  eapply sinv_poll; [exact HI|done..|]. intros j. apply is_Some_insert. by rewrite E.
Qed.

Lemma deliver_sinv fd s s' : sinv s -> deliver fd s = Some s' -> sinv s'.
Proof.
  intros HI H. unfold deliver in H. destruct (poller_ s !! fd) as [i|] eqn:E; [|done].
  destruct (armed i); simplify_eq. eapply sinv_poll; [exact HI|done..|]. intros j.
  apply is_Some_insert. by rewrite E.
Qed.

Lemma accept_sinv fd client s :
  sinv s -> legal (OAccept fd client) s -> exists s', exec (OAccept fd client) s = Some s' /\ sinv s'.
Proof.
  intros HI [(x&Hx&Hst) Hc]. simpl. unfold HandleAcceptReady. rewrite Hx.
  destruct client as [c|]; [|by exists s]. destruct (Hc c eq_refl) as [Hnew Hlt].
  destruct (lookup_lt_is_Some_2 (sockets_ s) c Hlt) as [y Hy].
  assert (Hinv : status_ y = SS_INVALID).
  { destruct (decide (status_ y = SS_INVALID)); [done|]. by destruct (si_fd _ HI c y Hy). }
  assert (Hnp : poller_ s !! c = None).
  { destruct (poller_ s !! c) eqn:E; [|done].
    destruct (proj2 (si_polled _ HI c y Hy)) as [H|H]; rewrite ?E, ?Hinv in *; done. }
  unfold SetupSocketConnection. cbn [sockets_ set_connNum set_fds]. rewrite Hy, decide_True by done.
  assert (Hheld : held y = 0) by (unfold held; by rewrite Hinv).
  unfold AddSocket, update_status, set_slot. cbn. rewrite Hnp.
  destruct (watchAccepted_ s) eqn:Ew; cbn; rewrite ?Ew, list_lookup_insert_eq by done; cbn;
    (eexists; split; [reflexivity|]).
  - apply (sinv_slot s _ c y (Slot c SS_CONNECTED (opaque_ x))); cbn;
      [done|done|by rewrite list_insert_insert_eq| | |set_solver|set_solver|rewrite Hheld; cbn; lia].
    + intros j Hj. by rewrite lookup_insert_ne.
    + rewrite lookup_insert_eq. split; [by eexists|by left].
  - apply (sinv_slot s _ c y (Slot c SS_PACCEPT (opaque_ x))); cbn;
      [done|done|by rewrite list_insert_insert_eq|done| |set_solver|set_solver|rewrite Hheld; cbn; lia].
    rewrite Hnp. split; [by intros [|]|by intros [? ?]].
Qed.

Lemma close_sinv fd s :
  sinv s -> legal (OClose fd) s -> exists s', exec (OClose fd) s = Some s' /\ sinv s'.
Proof.
  intros HI (x&Hx&Hst). simpl. unfold CloseSocket. rewrite Hx.
  assert (Hne : status_ x <> SS_INVALID) by (destruct Hst as [-> | ->]; done).
  destruct (si_fd _ HI fd x Hx Hne) as [Hfd _].
  rewrite decide_False by (intros [?|?]; congruence). unfold ForceSocketClose. rewrite Hx, decide_False by done.
  rewrite Hfd. unfold RemoveSocket. cbn.
  assert (Hh : held x = 1) by (unfold held; destruct Hst as [-> | ->]; done).
  assert (H : forall s1, poller_ s1 = poller_ s \/ poller_ s1 = delete fd (poller_ s) ->
    sockets_ s1 = sockets_ s -> connNum_ s1 = connNum_ s - 1 -> open_fds s1 = open_fds s ->
    sinv (close fd (set_slot fd (set_status SS_INVALID x) s1))).
  { intros s1 Hp1 Hs1 Hn1 Ho1.
    apply (sinv_slot s _ fd x (set_status SS_INVALID x)); cbn;
      [done|done|by rewrite Hs1| | |done|rewrite Ho1; set_solver|rewrite Hh; cbn; lia].
    - intros j Hj. rewrite lookup_delete_ne by done. destruct Hp1 as [-> | ->]; [done|].
      by rewrite lookup_delete_ne.
    - rewrite lookup_delete_eq. split; [by intros [|]|by intros [? ?]]. }
  destruct (poller_ s !! fd) eqn:E; cbn; (eexists; split; [reflexivity|]); apply H; cbn; auto.
Qed.

Lemma watch_sinv fd s :
  sinv s -> legal (OWatch fd) s -> exists s', exec (OWatch fd) s = Some s' /\ sinv s'.
Proof.
  intros HI (x&Hx&Hst). destruct Hst as [[]|Hst]. simpl. unfold WatchSocket. rewrite Hx, decide_True by auto.
  destruct (si_fd _ HI fd x Hx) as [Hfd Hin]; [by rewrite Hst|]. rewrite Hfd. unfold AddSocket.
  assert (Hnp : poller_ s !! fd = None).
  { destruct (poller_ s !! fd) eqn:E; [|done].
    destruct (proj2 (si_polled _ HI fd x Hx)) as [H|H]; rewrite ?E, ?Hst in *; done. }
  rewrite Hnp, decide_True by done. eexists. split; [reflexivity|].
  eapply (sinv_slot s _ fd x); [exact HI|exact Hx|done|..]; cbn.
  - intros j Hj. by rewrite lookup_insert_ne.
  - rewrite lookup_insert_eq. split; [by eexists|by left].
  - done.
  - done.
  - unfold held. rewrite Hst. cbn. lia.
Qed.

Lemma listen_sinv fd s :
  sinv s -> legal (OListen fd) s -> exists s', exec (OListen fd) s = Some s' /\ sinv s'.
Proof.
  intros HI [Hin (x&Hx)]. simpl. unfold WatchRawSocket. rewrite Hx. case_decide as Hst; [by exists s|].
  unfold AddSocket. cbn.
  assert (Hnp : poller_ s !! fd = None).
  { destruct (poller_ s !! fd) eqn:E; [|done].
    destruct (proj2 (si_polled _ HI fd x Hx)) as [H|H]; rewrite ?E, ?Hst in *; done. }
  rewrite Hnp. eexists. split; [reflexivity|].
  eapply (sinv_slot s _ fd x); [exact HI|exact Hx|done|..]; cbn.
  - intros j Hj. by rewrite lookup_insert_ne.
  - rewrite lookup_insert_eq. split; [by eexists|by right].
  - done.
  - done.
  - unfold held. rewrite Hst. cbn. lia.
Qed.

Lemma unlisten_sinv fd s :
  sinv s -> legal (OUnlisten fd) s -> exists s', exec (OUnlisten fd) s = Some s' /\ sinv s'.
Proof.
  intros HI (x&Hx&Hc&Hp). simpl. unfold UnwatchSocket. rewrite Hx. case_decide as Hst; [by exists s|].
  unfold RemoveSocket. destruct (poller_ s !! fd) eqn:E; [|by exists s].
  eexists. split; [reflexivity|].
  eapply (sinv_slot s _ fd x); [exact HI|exact Hx|done|..]; cbn.
  - intros j Hj. by rewrite lookup_delete_ne.
  - rewrite lookup_delete_eq. split; [by intros [|]|by intros [? ?]].
  - done.
  - done.
  - unfold held. destruct (status_ x); try done; lia.
Qed.

Lemma exec_sinv o s : sinv s -> legal o s -> exists s', exec o s = Some s' /\ sinv s'.
Proof.
  intros HI HL. destruct o as [fd cl|fd n sz ag|fd n sz ag|fd|fd|fd|fd|fd].
  - by apply accept_sinv.
  - destruct HL as [Hsz (x&Hx&Hst)]. simpl. unfold ServerRead. rewrite Hx.
    rewrite (proj2 (Z.eqb_neq _ _)), bool_decide_false by (done || by rewrite Hst). cbn [orb].
    pose proof (ModifySocket_sinv (fd_ x) false s HI) as Hm. destruct (ModifySocket (fd_ x) false s) as [s1 b].
    exists s1. split; [|done]. by repeat case_match.
  - destruct HL as (x&Hx&Hst). simpl. unfold ServerSend. rewrite Hx.
    destruct (si_fd _ HI fd x Hx) as [Hfd _]; [by rewrite Hst|].
    rewrite decide_False by (rewrite Hst; intros [?|?]; done). rewrite decide_False by by rewrite Hst.
    case_match; [by exists s|].
    pose proof (ModifySocket_sinv (fd_ x) ((if n <? 0 then 0 else n) <? sz) s HI) as Hm.
    destruct (ModifySocket (fd_ x) _ s) as [s1 b]. by exists s1.
  - by apply close_sinv.
  - by apply watch_sinv.
  - by apply listen_sinv.
  - by apply unlisten_sinv.
  - destruct HL as (i&Hi&Ha). simpl. destruct (deliver fd s) as [s1|] eqn:E.
    + exists s1. split; [done|]. by eapply deliver_sinv.
    + unfold deliver in E. by rewrite Hi, Ha in E.
Qed.

Fixpoint exec_all (os : list sop) (s : ServerImpl) : option ServerImpl :=
  match os with [] => Some s | o :: os' => match exec o s with Some s' => exec_all os' s' | None => None end end.

Fixpoint legal_all (os : list sop) (s : ServerImpl) : Prop :=
  match os with
  | [] => True
  | o :: os' => legal o s /\ match exec o s with Some s' => legal_all os' s' | None => True end
  end.

(** The empty table. *)
Lemma server_init_sinv mem watch fds : sinv (SetWatchAcceptedSock watch (ServerImpl_init mem fds)).
Proof.
  set (s0 := SetWatchAcceptedSock _ _).
  assert (Hr : forall i x, sockets_ s0 !! i = Some x -> status_ x = SS_INVALID).
  { intros i x Hx. by apply list_lookup_fmap_Some in Hx as (y&->&_). }
  split.
  - intros i x Hx. by rewrite (Hr i x Hx).
  - intros i x Hx. rewrite (Hr i x Hx). cbn. rewrite lookup_empty. split; [by intros [|]|by intros [? ?]].
  - unfold conns. cbn. clear Hr s0. induction mem as [|x mem IH]; [done|]. cbn in *. by rewrite <-IH.
Qed.

(** The table of a server that closes only accepted connections: along any
    sequence of accepts, reads, sends, closes, watches and events no [assert]
    fails and no slot outside the table is used; a slot in use belongs to the open
    descriptor with its index, exactly the watched and listening ones are in the
    epoll set, and [connNum_] is the number of connections. *)
Theorem server_table (mem : list slot) (watch : bool) (fds : gset nat) (os : list sop) :
  let s0 := SetWatchAcceptedSock watch (ServerImpl_init mem fds) in
  legal_all os s0 -> exists s, exec_all os s0 = Some s /\ sinv s.
Proof.
  cbv zeta. set (s0 := SetWatchAcceptedSock _ _).
  assert (HI : sinv s0) by apply server_init_sinv. clearbody s0. revert s0 HI. induction os as [|o os IH]; intros s HI HL; [by exists s|].
  destruct HL as [HL HL']. destruct (exec_sinv o s HI HL) as (s1&E&HI1). rewrite E in HL'.
  destruct (IH s1 HI1 HL') as (s2&E2&HI2). exists s2. cbn [exec_all]. by rewrite E.
Qed.

Lemma legal_all_cons o os s s1 :
  exec o s = Some s1 -> legal o s -> legal_all os s1 -> legal_all (o :: os) s.
Proof. intros E H1 H2. cbn [legal_all]. by rewrite E. Qed.

(** Run the next step of a schedule. *)
Ltac next_legal := eapply legal_all_cons; [vm_compute; reflexivity|..].

Lemma server_table_witness :
  let s0 := SetWatchAcceptedSock true (ServerImpl_init (replicate 8 (Slot 7 SS_CONNECTED 9)) {[3%nat]}) in
  exists s, exec_all [OListen 3; ODeliver 3; OAccept 3 (Some 5%nat); ODeliver 5; ORead 5 10 64 false;
                      OSend 5 20 20 false; OClose 5] s0 = Some s /\ sinv s.
Proof.
  apply (server_table (replicate 8 (Slot 7 SS_CONNECTED 9)) true {[3%nat]}).
  next_legal; [split; [set_solver|by eexists]|].
  next_legal; [eexists; split; vm_compute; reflexivity|].
  next_legal; [split; [by eexists|]|].
  { intros c [= <-]. split; [apply (bool_decide_unpack _); by vm_compute|simpl; lia]. }
  next_legal; [eexists; split; vm_compute; reflexivity|].
  next_legal; [split; [done|]; by eexists|].
  next_legal; [by eexists|].
  next_legal; [eexists; split; [reflexivity|]; by left|].
  exact I.
Defined.

(** Closing a connection that [ConnectTo] made, or a listening socket, is counted
    although it was never added. *)
Lemma connNum_negative :
  exists s, option_map fst (ConnectTo true (Some 5%nat) 1 0 (ServerImpl_init (replicate 8 (Slot 0 SS_INVALID 0)) ∅)) = Some s /\
    option_map (fun r => connNum_ (fst r)) (CloseSocket 5 s) = Some (-1).
Proof. eexists. split; vm_compute; reflexivity. Qed.

(** A failing [epoll_ctl] after [accept] dereferences [NULL]. *)
Lemma accept_add_fails x s c y :
  sockets_ s !! x = Some y -> watchAccepted_ s = true -> poller_ s !! c = None ->
  HandleAcceptReady false x (Some c) s = None.
Proof.
  intros Hx Hw Hp. unfold HandleAcceptReady. rewrite Hx. unfold SetupSocketConnection.
  cbn [sockets_ set_connNum set_fds watchAccepted_].
  destruct (sockets_ s !! c) as [z|]; [|done]. case_decide; [|done]. by rewrite Hw.
Qed.

(** ** The listening socket *)

(** [fd] listens and its registration is disarmed. *)
Definition disarmed (fd : nat) (s : ServerImpl) : Prop :=
  (exists x, sockets_ s !! fd = Some x /\ status_ x = SS_LISTENING) /\
  (exists i, poller_ s !! fd = Some i /\ armed i = false).

(** The slot and the registration of [fd] are those of before. *)
Definition same_at (fd : nat) (s s' : ServerImpl) : Prop :=
  sockets_ s' !! fd = sockets_ s !! fd /\ poller_ s' !! fd = poller_ s !! fd.

Lemma same_at_disarmed fd s s' : same_at fd s s' -> disarmed fd s -> disarmed fd s'.
Proof. unfold disarmed. by intros [-> ->]. Qed.

Lemma same_at_modify fd f w s : f <> fd -> same_at fd s (fst (ModifySocket f w s)).
Proof.
  intros Hne. unfold ModifySocket. destruct (poller_ s !! f); [|done]. split; [done|].
  cbn. by rewrite lookup_insert_ne.
Qed.

Lemma status_neq fd f s x y :
  sockets_ s !! fd = Some x -> sockets_ s !! f = Some y -> status_ x <> status_ y -> f <> fd.
Proof. intros Hx Hy Hne ->. congruence. Qed.

Lemma exec_same_at fd o s s' :
  sinv s -> disarmed fd s -> legal o s -> o <> OUnlisten fd -> exec o s = Some s' -> same_at fd s s'.
Proof.
  intros HI [(x&Hx&Hst) (i&Hi&Ha)] HL Ho E.
  assert (Hin : fd ∈ open_fds s) by (eapply (si_fd _ HI fd x Hx); by rewrite Hst).
  destruct o as [f cl|f n sz ag|f n sz ag|f|f|f|f|f]; simpl in E.
  - destruct HL as [(y&Hy&_) Hc]. unfold HandleAcceptReady in E. rewrite Hy in E.
    destruct cl as [c|]; [|by simplify_eq/=]. destruct (Hc c eq_refl) as [Hnew _].
    assert (Hne : c <> fd) by (intros ->; done).
    unfold SetupSocketConnection, AddSocket, update_status, set_slot in E. cbn in E.
    repeat (case_match; simplify_eq/=); (split; cbn; rewrite ?list_lookup_insert_ne, ?lookup_insert_ne by done; done).
  - destruct HL as [_ (y&Hy&Hsy)]. unfold ServerRead in E. rewrite Hy in E. case_match; [done|].
    destruct (si_fd _ HI f y Hy) as [Hf _]; [by rewrite Hsy|]. rewrite Hf in E.
    pose proof (same_at_modify fd f false s (status_neq fd f s x y Hx Hy ltac:(by rewrite Hst, Hsy))) as Hm.
    destruct (ModifySocket f false s) as [s1 b]. repeat (case_match; simplify_eq/=); done.
  - destruct HL as (y&Hy&Hsy). unfold ServerSend in E. rewrite Hy in E.
    destruct (si_fd _ HI f y Hy) as [Hf _]; [by rewrite Hsy|]. rewrite Hf in E.
    assert (Hm : forall w, same_at fd s (fst (ModifySocket f w s))).
    { intros w. apply same_at_modify, (status_neq fd f s x y Hx Hy). by rewrite Hst, Hsy. }
    repeat (case_match; simplify_eq/=; try done; try by split).
    all: match goal with H : ModifySocket _ ?w _ = _, Hm : forall _, same_at _ _ _ |- _ =>
      specialize (Hm w); rewrite H in Hm; exact Hm end.
  - destruct HL as (y&Hy&Hsy). unfold CloseSocket, ForceSocketClose, RemoveSocket in E. rewrite Hy in E.
    destruct (si_fd _ HI f y Hy) as [Hf _]; [by destruct Hsy as [-> | ->]|].
    assert (Hne : f <> fd) by (apply (status_neq fd f s x y Hx Hy); rewrite Hst; by destruct Hsy as [-> | ->]).
    rewrite Hf in E. repeat (case_match; simplify_eq/=; try done);
      (split; cbn; rewrite ?list_lookup_insert_ne, ?lookup_delete_ne by done; done).
  - destruct HL as (y&Hy&Hsy). destruct Hsy as [[]|Hsy]. unfold WatchSocket, AddSocket in E. rewrite Hy in E.
    destruct (si_fd _ HI f y Hy) as [Hf _]; [by rewrite Hsy|].
    assert (Hne : f <> fd) by (apply (status_neq fd f s x y Hx Hy); by rewrite Hst, Hsy).
    rewrite Hf in E. repeat (case_match; simplify_eq/=; try done);
      (split; cbn; rewrite ?list_lookup_insert_ne, ?lookup_insert_ne by done; done).
  - destruct HL as [_ (y&Hy)]. unfold WatchRawSocket, AddSocket in E. rewrite Hy in E.
    case_decide as Hd; [by simplify_eq/=|].
    assert (Hne : f <> fd) by (intros ->; congruence).
    repeat (case_match; simplify_eq/=; try done);
      (split; cbn; rewrite ?list_lookup_insert_ne, ?lookup_insert_ne by done; done).
  - assert (Hne : f <> fd) by congruence. unfold UnwatchSocket, RemoveSocket in E.
    repeat (case_match; simplify_eq/=; try done);
      (split; cbn; rewrite ?list_lookup_insert_ne, ?lookup_delete_ne by done; done).
  - destruct HL as (j&Hj&Haj). assert (Hne : f <> fd) by (intros ->; congruence).
    unfold deliver in E. rewrite Hj, Haj in E. simplify_eq. split; [done|]. cbn. by rewrite lookup_insert_ne.
Qed.

(** A listening socket delivers one event: the registration is one-shot and
    nothing that handles the event arms it again, so that after the first accept
    no schedule of accepts, reads, sends, closes, watches and further events
    delivers an event of the listening socket, unless it is taken out of the epoll
    set ([UnwatchSocket]) and watched anew. *)
Theorem listener_fires_once (fd : nat) (client : option nat) (s s1 s2 s3 : ServerImpl) (os : list sop) :
  sinv s -> deliver fd s = Some s1 -> (exists x, sockets_ s !! fd = Some x /\ status_ x = SS_LISTENING) ->
  legal (OAccept fd client) s1 -> exec (OAccept fd client) s1 = Some s2 ->
  legal_all os s2 -> OUnlisten fd ∉ os -> exec_all os s2 = Some s3 ->
  disarmed fd s3 /\ deliver fd s3 = None.
Proof.
  intros HI Hd Hl HL1 E1 HL2 Hno E3.
  assert (HI1 : sinv s1) by by eapply deliver_sinv.
  assert (Hd1 : disarmed fd s1).
  { unfold deliver in Hd. destruct (poller_ s !! fd) as [i|]; [|done]. destruct (armed i); simplify_eq.
    split; [done|]. cbn. rewrite lookup_insert_eq. by eexists. }
  destruct (exec_sinv _ _ HI1 HL1) as (s2'&E&HI2). simplify_eq.
  assert (Hd2 : disarmed fd s2).
  { eapply same_at_disarmed; [|exact Hd1]. by eapply exec_same_at. }
  enough (H3 : disarmed fd s3).
  { split; [done|]. destruct H3 as [_ (i&Hi&Ha)]. unfold deliver. by rewrite Hi, Ha. }
  clear s s1 HI HI1 Hd Hd1 Hl HL1 E1. revert s2 HI2 Hd2 HL2 E3.
  induction os as [|o os IH]; intros s HI Hd HL E; cbn [exec_all legal_all] in *; [by simplify_eq|].
  destruct HL as [HL1 HL2]. destruct (exec_sinv o s HI HL1) as (s'&E1&HI'). rewrite E1 in *.
  apply (IH ltac:(set_solver) s'); [done| |done|done].
  eapply same_at_disarmed; [|exact Hd]. eapply exec_same_at; [done..| |done]. set_solver.
Qed.

Definition listening : ServerImpl :=
  Server 0 true (<[3%nat := Slot 3 SS_LISTENING 0]> (replicate 8 (Slot 0 SS_INVALID 0)))
    {[ 3%nat := Interest true false ]} {[3%nat]}.

Lemma listening_sinv : sinv listening.
Proof.
  assert (H : forall i x, sockets_ listening !! i = Some x ->
    (i = 3%nat /\ x = Slot 3 SS_LISTENING 0) \/ (i <> 3%nat /\ x = Slot 0 SS_INVALID 0)).
  { intros i x Hx. apply list_insert_inv in Hx as [[-> ->]|[Hne Hx]]; [by left|right].
    apply lookup_replicate in Hx as [-> _]. done. }
  split.
  - intros i x Hx Hst. destruct (H i x Hx) as [[-> ->]|[_ ->]]; [|done]. cbn. set_solver.
  - intros i x Hx. destruct (H i x Hx) as [[-> ->]|[Hne ->]]; cbn.
    + rewrite lookup_singleton_eq. split; [by eexists|by right].
    + rewrite lookup_singleton_ne by done. split; [by intros [|]|by intros [? ?]].
  - by vm_compute.
Defined.

Lemma listener_fires_once_witness :
  exists s1 s2, deliver 3 listening = Some s1 /\ exec (OAccept 3 (Some 5%nat)) s1 = Some s2 /\
    exists s3, exec_all [ORead 5 10 64 false; OClose 5] s2 = Some s3 /\ disarmed 3 s3 /\ deliver 3 s3 = None.
Proof.
  eexists _, _. split; [vm_compute; reflexivity|]. split; [vm_compute; reflexivity|].
  eexists. split; [vm_compute; reflexivity|].
  eapply (listener_fires_once 3 (Some 5%nat) listening _ _ _ [ORead 5 10 64 false; OClose 5]).
  - apply listening_sinv.
  - vm_compute. reflexivity.
  - by eexists.
  - split; [by eexists|]. intros c [= <-]. split; [apply (bool_decide_unpack _); by vm_compute|simpl; lia].
  - vm_compute. reflexivity.
  - next_legal; [split; [done|]; by eexists|].
    next_legal; [eexists; split; [reflexivity|]; by left|]. exact I.
  - rewrite !not_elem_of_cons. repeat split; [done..|]. apply not_elem_of_nil.
  - vm_compute. reflexivity.
Defined.
