(* ===== verification/SocketSetup.v ===== *)
(** * SocketSetup.v: making sockets, starting and stopping - the rest of
    [http/SocketServer.cc]

[AllocSocketFd] with its two predicates, the two [ListenTo] and [ConnectTo] over it, the
life of [SocketServer], and the accessors of [SocketConnection].  The answers of the
resolver and of the system calls are arguments; [os] counts the descriptors of the process
and the address lists that [getaddrinfo] has allocated and nothing has freed.

The theorems: [AllocSocketFd] keeps exactly the descriptor it returns, that of the first
address whose socket the predicate accepts; [StopServer] closes every socket of the
table. *)

From S2P Require Import Prelude Machine HttpBuffer HttpClient SocketServer.

(** ** [SocketConnection] *)

Definition IsConnected (x : slot) : bool :=
  bool_decide (status_ x = SS_CONNECTED) || bool_decide (status_ x = SS_LISTENING).
Definition GetOpaqueValue (x : slot) : Z := opaque_ x.
Definition GetConnectionId (x : slot) : nat := fd_ x.

(** ** [AllocSocketFd] *)

Record os : Type := Os { os_fds : gset nat; os_lists : Z }.

Section Alloc.
Context {A : Type}.                         (* [struct addrinfo] *)

(** An address of the list with what [socket] answers for it. *)
Record candidate : Type := Candidate { c_addr : A; c_sock : option nat }.

(** A [SocketPredicateProc]. *)
Variable proc : nat -> A -> Z.

(** The loop over the list: the descriptors, and the socket with its address and status. *)
Fixpoint try_addresses (l : list candidate) (fds : gset nat) : gset nat * option (nat * A * Z) :=
  match l with
  | [] => (fds, None)
  | c :: l' =>
      match c_sock c with
      | None => try_addresses l' fds
      | Some sock =>
          let fds := fds ∪ {[sock]} in
          let status := proc sock (c_addr c) in
          if 0 <? status then (fds, Some (sock, c_addr c, status))
          else try_addresses l' (fds ∖ {[sock]})
      end
  end.

(** [resolved] is the result of [getaddrinfo], [None] when it fails: the list is freed when
    no address is left. *)
Definition AllocSocketFd (resolved : option (list candidate)) (o : os) : os * option (nat * A * Z) :=
  match resolved with
  | None => (o, None)
  | Some l =>
      let lists := os_lists o + 1 in
      match try_addresses l (os_fds o) with
      | (fds, None) => (Os fds (lists - 1), None)
      | (fds, Some r) => (Os fds lists, Some r)
      end
  end.
End Alloc.
Arguments candidate A : clear implicits.

(** [connect] returned [status], with [inprogress] when [errno] is [EINPROGRESS]. *)
Definition TryConnectTo {A} (connect : nat -> A -> Z * bool) (fd : nat) (ai_ptr : A) : Z :=
  let '(status, inprogress) := connect fd ai_ptr in
  if negb (status =? 0) && negb inprogress then -1 else if status =? 0 then 1 else 2.

(** The results of [setsockopt], [bind] and [listen]. *)
Definition TryListenTo {A} (setsockopt : nat -> Z) (bind : nat -> A -> Z) (listen : nat -> Z) (fd : nat) (ai_ptr : A) : Z :=
  if setsockopt fd =? -1 then -1
  else if bind fd ai_ptr =? -1 then -1
  else if listen fd =? -1 then -1
  else 1.

Section Making.
Context {A : Type}.
Variables (connect : nat -> A -> Z * bool) (setsockopt : nat -> Z) (bind : nat -> A -> Z) (listen : nat -> Z).

(** The function [ListenTo] of the file, not the member. *)
Definition ListenTo_fd (resolved : option (list (candidate A))) (o : os) : os * Z :=
  match AllocSocketFd (TryListenTo setsockopt bind listen) resolved o with
  | (o, Some (listen_fd, _, _)) => (o, Z.of_nat listen_fd)
  | (o, None) => (o, -1)
  end.

(** The members of [ServerImpl], with [lists] address lists allocated. *)
Definition ServerListenTo (add_ok : bool) (resolved : option (list (candidate A))) (opaque : Z)
    (s : ServerImpl) (lists : Z) : option (ServerImpl * Z * Z) :=
  let '(o, fd) := ListenTo_fd resolved (Os (open_fds s) lists) in
  let s := set_fds (os_fds o) s in
  match ListenTo add_ok (if fd <? 0 then None else Some (Z.to_nat fd)) opaque s with
  | Some (s, r) => Some (s, os_lists o, r)
  | None => None
  end.

Definition ServerConnectTo (add_ok : bool) (resolved : option (list (candidate A))) (opaque : Z)
    (s : ServerImpl) (lists : Z) : option (ServerImpl * Z * option nat) :=
  let '(o, r) := AllocSocketFd (TryConnectTo connect) resolved (Os (open_fds s) lists) in
  let s := set_fds (os_fds o) s in
  let '(fd, status) := match r with Some (sock, _, status) => (Some sock, status) | None => (None, 0) end in
  match ConnectTo add_ok fd status opaque s with
  | Some (s, r) => Some (s, os_lists o, r)
  | None => None
  end.
End Making.

(** ** The life of the server *)

Record SocketServer : Type := SockServer { impl_ : ServerImpl; isRunning_ : bool }.

Definition SocketServer_init (mem : list slot) (fds : gset nat) : SocketServer :=
  SockServer (ServerImpl_init mem fds) false.

Definition SetupServer (x : SocketServer) : SocketServer := SockServer (impl_ x) true.

Definition StartServer (x : SocketServer) : SocketServer :=
  if isRunning_ x then x else SetupServer x.

(** [ShutDownAllSockets] with the flag. *)
Definition ShutDown (x : SocketServer) : option SocketServer :=
  match ShutDownAllSockets (length (sockets_ (impl_ x))) (impl_ x) with
  | Some s => Some (SockServer s false)
  | None => None
  end.

Definition StopServer (x : SocketServer) : option SocketServer :=
  if isRunning_ x then ShutDown x else Some x.

Definition GetConnNumber (x : SocketServer) : Z := connNum_ (impl_ x).

(** The destructor. *)
Definition SocketServer_destroy (x : SocketServer) : option SocketServer := ShutDown x.

(** ** [AllocSocketFd] returns the first accepted socket *)

Section AllocSpec.
Context {A : Type}.
Variable proc : nat -> A -> Z.

(** [socket] failed on the address, or the predicate refused it. *)
Definition rejected (c : candidate A) : Prop :=
  match c_sock c with Some sock => proc sock (c_addr c) <= 0 | None => True end.

(** [socket] returns new descriptors. *)
Definition fresh_socks (l : list (candidate A)) (fds : gset nat) : Prop :=
  forall c sock, c ∈ l -> c_sock c = Some sock -> sock ∉ fds.

Lemma try_addresses_spec l fds :
  fresh_socks l fds ->
  match try_addresses proc l fds with
  | (fds', Some (sock, a, status)) =>
      exists pre c post, l = pre ++ c :: post /\ Forall rejected pre /\
        c_addr c = a /\ c_sock c = Some sock /\ status = proc sock a /\ 0 < status /\ fds' = fds ∪ {[sock]}
  | (fds', None) => Forall rejected l /\ fds' = fds
  end.
Proof.
  induction l as [|c l IH]; intros Hf; cbn [try_addresses]; [done|].
  assert (Hl : fresh_socks l fds) by (intros c' k Hc; apply Hf; by right). specialize (IH Hl).
  assert (Hskip : rejected c ->
    match try_addresses proc l fds with
    | (fds', Some (sock, a, status)) =>
        exists pre c' post, c :: l = pre ++ c' :: post /\ Forall rejected pre /\
          c_addr c' = a /\ c_sock c' = Some sock /\ status = proc sock a /\ 0 < status /\ fds' = fds ∪ {[sock]}
    | (fds', None) => Forall rejected (c :: l) /\ fds' = fds
    end).
  { intros Hr. destruct (try_addresses proc l fds) as [fds' [[[k a] st]|]].
    - destruct IH as (pre&c'&post&->&Hpre&H). exists (c :: pre), c', post. by split_and!; [|constructor|apply H..].
    - destruct IH as [H ->]. by split; [constructor|]. }
  destruct (c_sock c) as [sock|] eqn:Es; [|apply Hskip; unfold rejected; by rewrite Es].
  destruct (Z.ltb_spec 0 (proc sock (c_addr c))).
  - by exists [], c, l.
  - assert ((fds ∪ {[sock]}) ∖ {[sock]} = fds) as ->.
    { assert (sock ∉ fds) by (apply (Hf c); [by left|done]). clear -H0. set_solver. }
    apply Hskip. unfold rejected. by rewrite Es.
Qed.

(** [AllocSocketFd] returns the first address whose socket the predicate accepts, with
    the predicate's status, and every other descriptor it opened is closed again; when all
    are refused nothing stays open.  The address list stays allocated on success. *)
Theorem AllocSocketFd_spec (l : list (candidate A)) (o : os) :
  fresh_socks l (os_fds o) ->
  match AllocSocketFd proc (Some l) o with
  | (o', Some (sock, a, status)) =>
      os_fds o' = os_fds o ∪ {[sock]} /\ os_lists o' = os_lists o + 1 /\ 0 < status /\ status = proc sock a /\
      exists pre c post, l = pre ++ c :: post /\ Forall rejected pre /\ c_addr c = a /\ c_sock c = Some sock
  | (o', None) => Forall rejected l /\ o' = o
  end.
Proof.
  intros Hf. pose proof (try_addresses_spec l (os_fds o) Hf) as H. unfold AllocSocketFd.
  destruct (try_addresses proc l (os_fds o)) as [fds' [[[k a] st]|]].
  - destruct H as (pre&c&post&Hl&Hpre&Ha&Hs&Hst&Hpos&Hfd). cbn. split_and!; try done. by exists pre, c, post.
  - destruct H as [H ->]. split; [done|]. destruct o. cbn. f_equal. lia.
Qed.
End AllocSpec.

(** Three addresses: [socket] fails on the first, the second is refused. *)
Definition demo_proc (sock : nat) (a : string) : Z := if decide (a = "b"%string) then -1 else 2.
Definition demo_list : list (candidate string) :=
  [Candidate "a"%string None; Candidate "b"%string (Some 7%nat); Candidate "c"%string (Some 7%nat)].
Definition demo_os : os := Os {[3%nat]} 0.

Example demo_alloc :
  AllocSocketFd demo_proc (Some demo_list) demo_os = (Os {[3%nat; 7%nat]} 1, Some (7%nat, "c"%string, 2)).
Proof. by vm_compute. Qed.

Lemma AllocSocketFd_spec_witness :
  match AllocSocketFd demo_proc (Some demo_list) demo_os with
  | (o', Some (sock, a, status)) =>
      os_fds o' = os_fds demo_os ∪ {[sock]} /\ os_lists o' = os_lists demo_os + 1 /\ 0 < status /\
      status = demo_proc sock a /\
      exists pre c post, demo_list = pre ++ c :: post /\ Forall (rejected demo_proc) pre /\ c_addr c = a /\ c_sock c = Some sock
  | (o', None) => Forall (rejected demo_proc) demo_list /\ o' = demo_os
  end.
Proof.
  apply (AllocSocketFd_spec demo_proc demo_list demo_os). intros c sock Hc Hs.
  repeat (apply elem_of_cons in Hc as [->|Hc]; [cbn in Hs; try discriminate Hs; injection Hs as <-;
    apply (bool_decide_unpack _); by vm_compute|]). by apply elem_of_nil in Hc.
Defined.

(** ** Shutting down *)

Definition in_use (s : ServerImpl) (i : nat) : Prop :=
  exists x, sockets_ s !! i = Some x /\ status_ x <> SS_INVALID.

Definition used (x : slot) : Z := if decide (status_ x = SS_INVALID) then 0 else 1.

(** The slots below [n] have been closed. *)
Record closed_below (n : nat) (s s' : ServerImpl) : Prop := {
  cb_len : length (sockets_ s') = length (sockets_ s);
  cb_slot : forall i x, (i < n)%nat -> sockets_ s' !! i = Some x -> status_ x = SS_INVALID;
  cb_rest : forall i, (n <= i)%nat -> sockets_ s' !! i = sockets_ s !! i;
  cb_poll : forall i, (in_use s i /\ (i < n)%nat -> poller_ s' !! i = None) /\
    (~ (in_use s i /\ (i < n)%nat) -> poller_ s' !! i = poller_ s !! i);
  cb_fds : forall i, i ∈ open_fds s' <-> i ∈ open_fds s /\ ~ (in_use s i /\ (i < n)%nat);
  cb_num : connNum_ s' = connNum_ s - sum_with used (take n (sockets_ s))
}.

Lemma sum_with_take_S {A} (f : A -> Z) (l : list A) n x :
  l !! n = Some x -> sum_with f (take (S n) l) = sum_with f (take n l) + f x.
Proof. intros H. rewrite (take_S_r l n x H), sum_with_app. cbn. lia. Qed.

Lemma not_below_S s n i : ~ in_use s n -> (in_use s i /\ (i < S n)%nat <-> in_use s i /\ (i < n)%nat).
Proof.
  intros Hn. split; [|intros [? ?]; split; [done|lia]]. intros [Hu Hlt]. split; [done|].
  destruct (decide (i = n)) as [->|]; [done|lia].
Qed.

(** The slots of the table belong to their descriptors. *)
Definition own_fds (s : ServerImpl) : Prop :=
  forall i x, sockets_ s !! i = Some x -> status_ x <> SS_INVALID -> fd_ x = i.

Lemma ForceSocketClose_below n s0 s :
  own_fds s0 -> closed_below n s0 s -> (n < length (sockets_ s0))%nat ->
  exists s', ForceSocketClose n s = Some s' /\ closed_below (S n) s0 s'.
Proof.
  intros Hown [C1 C2 C3 C4 C5 C6] Hlt. destruct (lookup_lt_is_Some_2 _ _ Hlt) as [x Hx].
  unfold ForceSocketClose. rewrite (C3 n), Hx by lia.
  assert (Hsum := sum_with_take_S used _ _ _ Hx). unfold used in Hsum at 3. case_decide as Hst.
  - assert (Hnu : ~ in_use s0 n) by (intros (y&Hy&Hsy); congruence).
    exists s. split; [done|]. split; [done| |by intros i Hi; apply C3; lia| | |lia].
    + intros i y Hi Hy. destruct (decide (i = n)) as [->|]; [rewrite (C3 n), Hx in Hy by lia; by injection Hy as <-|].
      eapply C2; [|done]. lia.
    + intros i. rewrite (not_below_S s0 n i Hnu). apply C4.
    + intros i. rewrite (not_below_S s0 n i Hnu). apply C5.
  - rewrite (Hown n x Hx Hst). assert (Hu : in_use s0 n) by by exists x.
    set (s1 := set_connNum (connNum_ s - 1) s).
    assert (exists s2 b, RemoveSocket n s1 = (s2, b) /\ poller_ s2 = delete n (poller_ s) /\
      sockets_ s2 = sockets_ s /\ open_fds s2 = open_fds s /\ connNum_ s2 = connNum_ s - 1) as (s2&b&E&Hp&Hs&Ho&Hn).
    { unfold RemoveSocket. cbn. destruct (poller_ s !! n) eqn:En; eexists _, _; split; try reflexivity; try done.
      cbn. split; [|done]. symmetry. by apply delete_id. }
    rewrite E. eexists. split; [reflexivity|]. split; cbn.
    + by rewrite Hs, length_insert.
    + intros i y Hi Hy. rewrite Hs in Hy. apply list_insert_inv in Hy as [[_ ->]|[Hne Hy]]; [done|].
      eapply C2; [|done]. lia.
    + intros i Hi. rewrite Hs, list_lookup_insert_ne by lia. apply C3. lia.
    + intros i. rewrite Hp, delete_delete_eq. destruct (decide (i = n)) as [->|Hne].
      * split; [by rewrite lookup_delete_eq|]. intros H. exfalso. apply H. split; [done|lia].
      * rewrite lookup_delete_ne by done. destruct (C4 i) as [H1 H2]. split.
        -- intros [Hi Hlt']. apply H1. split; [done|lia].
        -- intros Hi. apply H2. intros [Hi1 Hi2]. apply Hi. split; [done|lia].
    + intros i. rewrite Ho, elem_of_difference, elem_of_singleton, C5. split.
      * intros [[H1 H2] Hne]. split; [done|]. intros [H3 H4]. apply H2. split; [done|lia].
      * intros [H1 H2]. split; [split; [done|]|].
        -- intros [H3 H4]. apply H2. split; [done|lia].
        -- intros ->. apply H2. split; [done|lia].
    + rewrite Hn, Hsum, C6. lia.
Qed.

Lemma ShutDown_below n s :
  own_fds s -> (n <= length (sockets_ s))%nat ->
  exists s', ShutDownAllSockets n s = Some s' /\ closed_below n s s'.
Proof.
  intros Hown. induction n as [|n IH]; intros Hn.
  - exists s. split; [done|]. split; [done|intros; lia|done| | |rewrite take_0; cbn; lia].
    + intros i. split; [intros [_ ?]; lia|done].
    + intros i. split; [|by intros [? _]]. intros H. split; [done|]. intros [_ ?]. lia.
  - destruct IH as (s1&E&HC); [lia|]. cbn [ShutDownAllSockets]. rewrite E.
    apply (ForceSocketClose_below n s s1); [done..|lia].
Qed.

(** The slots that [connNum_] does not count. *)
Definition unheld (x : slot) : Z := used x - held x.

Lemma sum_with_sub {A} (f g : A -> Z) (l : list A) :
  sum_with (fun x => f x - g x) l = sum_with f l - sum_with g l.
Proof. induction l; cbn; lia. Qed.

(** Stopping a running server closes everything: afterwards no slot of the table is in
    use, no descriptor of the table that was in use is open or registered, and every other
    descriptor of the process is as before.  The counter of connections ends at minus the
    number of listening and connecting sockets, which it never counted. *)
Theorem StopServer_closes (x : SocketServer) :
  sinv (impl_ x) -> isRunning_ x = true ->
  exists x', StopServer x = Some x' /\ isRunning_ x' = false /\
    (forall i y, sockets_ (impl_ x') !! i = Some y -> status_ y = SS_INVALID) /\
    (forall i, i ∈ open_fds (impl_ x') <-> i ∈ open_fds (impl_ x) /\ ~ in_use (impl_ x) i) /\
    (forall i, (i < length (sockets_ (impl_ x)))%nat -> poller_ (impl_ x') !! i = None) /\
    GetConnNumber x' = - sum_with unheld (sockets_ (impl_ x)).
Proof.
  intros HI Hr. unfold StopServer, ShutDown. rewrite Hr.
  destruct (ShutDown_below (length (sockets_ (impl_ x))) (impl_ x)) as (s'&->&[C1 C2 C3 C4 C5 C6]); [|done|].
  { intros i y Hy Hst. by destruct (si_fd _ HI i y Hy Hst). }
  assert (Hlt : forall i, in_use (impl_ x) i -> (i < length (sockets_ (impl_ x)))%nat)
    by (intros i (y&Hy&_); by eapply lookup_lt_Some).
  eexists. split; [reflexivity|]. cbn. split_and!; [done| | | |].
  - intros i y Hy. eapply C2; [|done]. rewrite <-C1. by eapply lookup_lt_Some.
  - intros i. rewrite C5. split; intros [H1 H2]; (split; [done|]); [|by intros [? _]].
    intros H. apply H2. split; [done|by apply Hlt].
  - intros i Hi. destruct (C4 i) as [H1 H2]. destruct (lookup_lt_is_Some_2 _ _ Hi) as [y Hy].
    destruct (decide (status_ y = SS_INVALID)) as [Hst|Hst].
    + rewrite H2 by (intros [(z&Hz&Hsz) _]; congruence).
      destruct (poller_ (impl_ x) !! i) eqn:E; [|done].
      destruct (proj2 (si_polled _ HI i y Hy) ltac:(by rewrite E)); congruence.
    + apply H1. split; [by exists y|done].
  - unfold GetConnNumber. cbn. rewrite C6, take_ge by lia. rewrite (si_num _ HI). unfold conns, unheld.
    rewrite sum_with_sub. lia.
Qed.

Lemma StopServer_closes_witness :
  exists x', StopServer (StartServer (SockServer listening false)) = Some x' /\ isRunning_ x' = false /\
    (forall i y, sockets_ (impl_ x') !! i = Some y -> status_ y = SS_INVALID) /\
    (forall i, i ∈ open_fds (impl_ x') <-> i ∈ open_fds listening /\ ~ in_use listening i) /\
    (forall i, (i < length (sockets_ listening))%nat -> poller_ (impl_ x') !! i = None) /\
    GetConnNumber x' = - sum_with unheld (sockets_ listening).
Proof. apply (StopServer_closes (StartServer (SockServer listening false))); [apply listening_sinv|reflexivity]. Defined.

(** The listening socket makes the count -1. *)
Example stop_listening :
  option_map GetConnNumber (StopServer (StartServer (SockServer listening false))) = Some (-1).
Proof. by vm_compute. Qed.

(** A server that was never started is left as it is; the destructor closes its sockets. *)
Lemma StopServer_idle x : isRunning_ x = false -> StopServer x = Some x.
Proof. unfold StopServer. by intros ->. Qed.
