(* ===== verification/SocketApi.v ===== *)
(** * SocketApi.v: the public class [SocketServer] of [http/SocketServer.h]

Every public method of the class (and the three that [SocketConnection] uses), forwarding
to [ServerImpl] (SocketServer.v, SocketSetup.v), and any sequence of calls to them
([calls]), in which the answers of the kernel and of the resolver are arguments.

[api_safe]: within the promises of the kernel ([promise]) a sequence of calls fails - an
[assert], a slot beyond the table, a [NULL] slot - exactly when it contains a [fatal] call;
otherwise the table is consistent with the kernel at the end ([table_ok]: a slot in use is
that of its own open descriptor, and exactly the connected, connecting and listening ones are
in the epoll set), and no descriptor is lost but those given up by [UnwatchSocket] or a
failing [WatchSocket]: every other open one that the server did not get from outside belongs
to a slot in use, so that [StopServer] closes it.  The examples at the end are the fatal and
the leaking uses. *)

From S2P Require Import Prelude Machine HttpBuffer HttpClient SocketServer SocketSetup.

(** ** The class *)

Module Api.
(** [impl_] with the queues of [RunPoll] and the address lists that nothing has freed. *)
Record service : Type := Service { server : SocketServer; events : queues; lists : Z }.

Definition impl (x : service) : ServerImpl := impl_ (server x).

Definition set_impl (s : ServerImpl) (x : service) : service :=
  Service (SockServer s (isRunning_ (server x))) (events x) (lists x).

(** The constructor. *)
Definition SocketServer (mem : list slot) (fds : gset nat) : service :=
  Service (SocketServer_init mem fds) (Queues [] []) 0.

(** [delete impl_]. *)
Definition destroy (x : service) : option service :=
  option_map (fun y => Service y (events x) (lists x)) (SocketServer_destroy (server x)).

(** A call forwarded to [impl_]. *)
Definition forward {R} (f : ServerImpl -> option (ServerImpl * R)) (x : service) : option (service * R) :=
  match f (impl x) with Some (s, r) => Some (set_impl s x, r) | None => None end.

Definition StartServer (x : service) : service := Service (StartServer (server x)) (events x) (lists x).

Definition StopServer (x : service) : option service :=
  option_map (fun y => Service y (events x) (lists x)) (StopServer (server x)).

Definition SendBuffer (fd : nat) (n sz : Z) (again : bool) : service -> option (service * Z) :=
  forward (ServerSend fd n sz again).

Definition ReadBuffer (fd : nat) (n sz : Z) (again : bool) : service -> option (service * Z) :=
  forward (ServerRead fd n sz again).

Definition CloseSocket (fd : nat) : service -> option (service * bool) := forward (CloseSocket fd).

Definition WatchSocket (add_ok : bool) (fd : nat) (listen : bool) : service -> option (service * bool) :=
  forward (WatchSocket add_ok fd listen).

Definition WatchRawSocket (add_ok : bool) (fd : nat) (listen : bool) : service -> option (service * bool) :=
  forward (WatchRawSocket add_ok fd listen).

Definition UnwatchSocket (fd : nat) : service -> option (service * bool) := forward (UnwatchSocket fd).

Definition SetWatchAcceptedSock (watch : bool) (x : service) : service :=
  set_impl (SetWatchAcceptedSock watch (impl x)) x.

Definition GetConnNumber (x : service) : Z := GetConnNumber (server x).

(** [RunPoll(evt)]; [None] as the event when the kernel has nothing more to report. *)
Definition RunPoll (batches : list (list poll_event)) (x : service) : option (service * option socket_event) :=
  match RunPoll batches (impl x, events x) with
  | None => None
  | Some None => Some (x, None)
  | Some (Some (e, (s, q))) => Some (Service (SockServer s (isRunning_ (server x))) q (lists x), Some e)
  end.

Section Making.
Context {A : Type}.
Variables (connect : nat -> A -> Z * bool) (setsockopt : nat -> Z) (bind : nat -> A -> Z) (listen : nat -> Z).

Definition ConnectTo (add_ok : bool) (resolved : option (list (candidate A))) (opaque : Z) (x : service) :
    option (service * option nat) :=
  match ServerConnectTo connect add_ok resolved opaque (impl x) (lists x) with
  | Some (s, l, r) => Some (Service (SockServer s (isRunning_ (server x))) (events x) l, r)
  | None => None
  end.

Definition ListenTo (add_ok : bool) (resolved : option (list (candidate A))) (opaque : Z) (x : service) :
    option (service * Z) :=
  match ServerListenTo setsockopt bind listen add_ok resolved opaque (impl x) (lists x) with
  | Some (s, l, r) => Some (Service (SockServer s (isRunning_ (server x))) (events x) l, r)
  | None => None
  end.
End Making.
End Api.

(** ** The table *)

Definition polled_status (st : SocketStatus) : bool :=
  match st with SS_CONNECTED | SS_LISTENING | SS_CONNECTING => true | _ => false end.

(** [outside] are the descriptors the process had before, which are not the server's to
    close; a raw socket that is watched is one of them. *)
Record table_ok (outside : gset nat) (s : ServerImpl) : Prop := {
  tb_fd : forall i x, sockets_ s !! i = Some x -> status_ x <> SS_INVALID -> fd_ x = i /\ i ∈ open_fds s;
  tb_poll : forall i x, sockets_ s !! i = Some x -> polled_status (status_ x) = true <-> is_Some (poller_ s !! i);
  tb_owned : forall i, i ∈ open_fds s -> i ∈ outside \/ in_use s i
}.

(** The slot [i] gets a new status, and registration and descriptor with it. *)
Lemma table_slot outside s s' i x x' :
  table_ok outside s -> sockets_ s !! i = Some x -> sockets_ s' = <[i := x']> (sockets_ s) ->
  (forall j, j <> i -> is_Some (poller_ s' !! j) <-> is_Some (poller_ s !! j)) ->
  (forall j, j <> i -> j ∈ open_fds s' <-> j ∈ open_fds s) ->
  (polled_status (status_ x') = true <-> is_Some (poller_ s' !! i)) ->
  (status_ x' <> SS_INVALID -> fd_ x' = i /\ i ∈ open_fds s') ->
  (i ∈ open_fds s' -> i ∈ outside \/ status_ x' <> SS_INVALID) ->
  table_ok outside s'.
Proof.
  intros [H1 H2 H3] Hx Hs Hp Ho Hpi Hfi Hoi.
  assert (Hi : (i < length (sockets_ s))%nat) by by eapply lookup_lt_Some. split.
  - intros j y Hy Hst. rewrite Hs in Hy. apply list_insert_inv in Hy as [[-> ->]|[Hne Hy]]; [by apply Hfi|].
    destruct (H1 j y Hy Hst) as [-> Hin]. split; [done|by apply Ho].
  - intros j y Hy. rewrite Hs in Hy. apply list_insert_inv in Hy as [[-> ->]|[Hne Hy]]; [done|]. rewrite Hp by done. by apply H2.
  - intros j Hj. destruct (decide (j = i)) as [->|Hne].
    + destruct (Hoi Hj) as [?|?]; [by left|right]. exists x'. split; [|done]. rewrite Hs. by apply list_lookup_insert_eq.
    + apply Ho in Hj; [|done]. destruct (H3 j Hj) as [?|(y&Hy&Hsy)]; [by left|right]. exists y. split; [|done].
      by rewrite Hs, list_lookup_insert_ne.
Qed.

Lemma table_more outside more s : table_ok outside s -> table_ok (outside ∪ more) s.
Proof. intros [H1 H2 H3]. split; [done..|]. intros i Hi. destruct (H3 i Hi); set_solver. Qed.

(** Only flags of registrations change. *)
Lemma table_flags outside s s' :
  table_ok outside s -> sockets_ s' = sockets_ s -> open_fds s' = open_fds s ->
  (forall j, is_Some (poller_ s' !! j) <-> is_Some (poller_ s !! j)) -> table_ok outside s'.
Proof.
  intros [H1 H2 H3] Hs Ho Hp. split.
  - intros i x. rewrite Hs, Ho. apply H1.
  - intros i x. rewrite Hs, Hp. apply H2.
  - intros i. rewrite Ho. unfold in_use. rewrite Hs. apply H3.
Qed.

Lemma table_modify outside fd w s : table_ok outside s -> table_ok outside (fst (ModifySocket fd w s)).
Proof.
  intros HI. unfold ModifySocket. destruct (poller_ s !! fd) eqn:E; [|done]. cbn.
  eapply table_flags; [exact HI|done..|]. intros j. apply is_Some_insert. by rewrite E.
Qed.

Lemma table_deliver outside fd s s' : table_ok outside s -> deliver fd s = Some s' -> table_ok outside s' /\ sockets_ s' = sockets_ s.
Proof.
  intros HI H. unfold deliver in H. destruct (poller_ s !! fd) as [i|] eqn:E; [|done].
  destruct (armed i); simplify_eq. split; [|done]. eapply table_flags; [exact HI|done..|]. intros j.
  apply is_Some_insert. by rewrite E.
Qed.

(** A descriptor that is not open has a free slot. *)
Lemma table_fresh outside s i x : table_ok outside s -> i ∉ open_fds s -> sockets_ s !! i = Some x ->
  status_ x = SS_INVALID /\ poller_ s !! i = None.
Proof.
  intros HI Hi Hx. assert (Hst : status_ x = SS_INVALID).
  { destruct (decide (status_ x = SS_INVALID)); [done|]. by destruct (tb_fd _ _ HI _ _ Hx). }
  split; [done|]. destruct (poller_ s !! i) eqn:E; [|done].
  pose proof (proj2 (tb_poll _ _ HI _ _ Hx)) as H. rewrite E, Hst in H. by specialize (H ltac:(by eexists)).
Qed.

(** ** The operations on the table *)

Lemma table_slot_lt outside s i : table_ok outside s -> in_use s i -> (i < length (sockets_ s))%nat.
Proof. intros _ (x&Hx&_). by eapply lookup_lt_Some. Qed.

(** A new descriptor gets its slot, and is polled unless it waits for [WatchSocket]. *)
Lemma setup_table outside s ok fd op poll st :
  table_ok outside s -> fd ∉ open_fds s -> (fd < length (sockets_ s))%nat ->
  st <> SS_INVALID -> polled_status st = poll -> (poll = true -> ok = true) ->
  exists s1 s2, SetupSocketConnection ok fd op poll (set_fds (open_fds s ∪ {[fd]}) s) = Some (s1, true) /\
    update_status fd st s1 = Some s2 /\ table_ok outside s2 /\ watchAccepted_ s1 = watchAccepted_ s.
Proof.
  intros HI Hnew Hlt Hst Hpoll Hok. destruct (lookup_lt_is_Some_2 _ _ Hlt) as [x Hx].
  destruct (table_fresh _ _ _ _ HI Hnew Hx) as [Hinv Hnp].
  unfold SetupSocketConnection. cbn [sockets_ set_fds]. rewrite Hx, decide_True by done.
  assert (H : forall s2, sockets_ s2 = <[fd := Slot fd st op]> (sockets_ s) -> open_fds s2 = open_fds s ∪ {[fd]} ->
    poller_ s2 = (if poll then <[fd := Interest true false]> (poller_ s) else poller_ s) -> table_ok outside s2).
  { intros s2 Hs Ho Hp. apply (table_slot outside s s2 fd x (Slot fd st op)); cbn; try done.
    - intros j Hj. rewrite Hp. destruct poll; [by rewrite lookup_insert_ne|done].
    - intros j Hj. rewrite Ho. set_solver.
    - rewrite Hp, Hpoll. destruct poll; [rewrite lookup_insert_eq; by split; [eexists|]|].
      rewrite Hnp. split; [done|by intros [? ?]].
    - intros _. split; [done|]. rewrite Ho. set_solver.
    - intros _. by right. }
  unfold update_status, AddSocket, set_slot. destruct poll; [rewrite Hok by done|]; cbn; rewrite ?Hnp; cbn.
  all: rewrite ?list_lookup_insert_eq by done; eexists _, _; split; [reflexivity|]; cbn.
  all: rewrite list_lookup_insert_eq by done; split; [reflexivity|]; (split; [|done]); apply H; cbn; by rewrite ?list_insert_insert_eq.
Qed.

(** When [epoll_ctl] refuses it, the caller of [SetupSocketConnection] gets [NULL]. *)
Lemma setup_refused outside s fd op :
  table_ok outside s -> fd ∉ open_fds s -> (fd < length (sockets_ s))%nat ->
  exists s1, SetupSocketConnection false fd op true (set_fds (open_fds s ∪ {[fd]}) s) = Some (s1, false).
Proof.
  intros HI Hnew Hlt. destruct (lookup_lt_is_Some_2 _ _ Hlt) as [x Hx].
  destruct (table_fresh _ _ _ _ HI Hnew Hx) as [Hinv Hnp].
  unfold SetupSocketConnection. cbn [sockets_ set_fds]. rewrite Hx, decide_True by done. cbn. by eexists.
Qed.

(** What becomes of a call: it fails exactly when [m] holds, and else [P] holds afterwards. *)
Definition fate {X} (P : X -> Prop) (m : Prop) (o : option X) : Prop :=
  match o with None => m | Some x => ~ m /\ P x end.

Lemma fate_map {X Y} (f : X -> Y) (P : Y -> Prop) m o : fate (fun x => P (f x)) m o -> fate P m (option_map f o).
Proof. by destruct o. Qed.

Lemma accept_table outside s ok fd x client :
  table_ok outside s -> sockets_ s !! fd = Some x ->
  (forall c, client = Some c -> c ∉ open_fds s /\ (c < length (sockets_ s))%nat) ->
  fate (fun r => table_ok outside r.1.1) (is_Some client /\ watchAccepted_ s = true /\ ok = false)
    (HandleAcceptReady ok fd client s).
Proof.
  intros HI Hx Hc. unfold HandleAcceptReady. rewrite Hx. destruct client as [c|]; [|by split; [intros [[? ?] _]|]].
  destruct (Hc c eq_refl) as [Hnew Hlt].
  assert (HI' : table_ok outside (set_connNum (connNum_ s + 1) s)) by by destruct HI.
  set (s0 := set_connNum (connNum_ s + 1) s) in *. set (w := watchAccepted_ s).
  change (set_connNum (connNum_ s + 1) (set_fds (open_fds s ∪ {[c]}) s)) with (set_fds (open_fds s0 ∪ {[c]}) s0).
  change (watchAccepted_ (set_fds _ s0)) with w.
  assert (Hr : (w = true -> ok = true) \/ w = true /\ ok = false) by (destruct w, ok; auto; left; done).
  destruct Hr as [Hr|[Hw Hok]].
  - destruct (setup_table outside s0 ok c (opaque_ x) w (if w then SS_CONNECTED else SS_PACCEPT)) as (s1&s2&E1&E2&H2&Hw);
      [done..|by destruct w|by destruct w|done|].
    rewrite E1, Hw. change (watchAccepted_ s0) with w. rewrite E2. split; [|done]. intros (_&Hwt&Hof).
    rewrite Hr in Hof; done.
  - rewrite Hw, Hok. destruct (setup_refused outside s0 c (opaque_ x)) as [s1 ->]; [done..|]. by split_and!; [eexists|..].
Qed.

(** A slot in use is closed, with its descriptor. *)
Lemma force_close_table outside s fd x :
  table_ok outside s -> sockets_ s !! fd = Some x -> exists s', ForceSocketClose fd s = Some s' /\ table_ok outside s'.
Proof.
  intros HI Hx. unfold ForceSocketClose. rewrite Hx. case_decide as Hst; [by exists s|].
  destruct (tb_fd _ _ HI _ _ Hx Hst) as [-> Hin].
  assert (H : forall s1, sockets_ s1 = sockets_ s -> open_fds s1 = open_fds s ->
    (poller_ s1 = poller_ s \/ poller_ s1 = delete fd (poller_ s)) ->
    table_ok outside (close fd (set_slot fd (set_status SS_INVALID x) s1))).
  { intros s1 Hs Ho Hp. apply (table_slot outside s _ fd x (set_status SS_INVALID x)); cbn; try done.
    - by rewrite Hs.
    - intros j Hj. rewrite lookup_delete_ne by done. destruct Hp as [-> | ->]; [done|]. by rewrite lookup_delete_ne.
    - intros j Hj. rewrite Ho. set_solver.
    - rewrite lookup_delete_eq. split; [done|by intros [? ?]].
    - rewrite Ho. set_solver. }
  unfold RemoveSocket. cbn. destruct (poller_ s !! fd); (eexists; split; [reflexivity|]); apply H; cbn; auto.
Qed.

Lemma close_table outside s fd :
  table_ok outside s -> (fd < length (sockets_ s))%nat ->
  exists s' b, SocketServer.CloseSocket fd s = Some (s', b) /\ table_ok outside s'.
Proof.
  intros HI Hlt. destruct (lookup_lt_is_Some_2 _ _ Hlt) as [x Hx]. unfold SocketServer.CloseSocket. rewrite Hx.
  case_decide; [by eauto|]. destruct (force_close_table _ _ _ _ HI Hx) as (s'&->&HI'). eauto.
Qed.

Lemma shutdown_table outside s n :
  table_ok outside s -> (n <= length (sockets_ s))%nat ->
  exists s', ShutDownAllSockets n s = Some s' /\ table_ok outside s' /\ length (sockets_ s') = length (sockets_ s) /\
    forall i x, (i < n)%nat -> sockets_ s' !! i = Some x -> status_ x = SS_INVALID.
Proof.
  intros HI. induction n as [|n IH]; intros Hn; cbn [ShutDownAllSockets].
  { exists s. split_and!; [done..|lia]. }
  destruct IH as (s1&->&HI1&Hl1&Hst1); [lia|]. destruct (lookup_lt_is_Some_2 (sockets_ s1) n) as [x Hx]; [lia|].
  destruct (force_close_table _ _ _ _ HI1 Hx) as (s2&E2&HI2). exists s2. split; [done|]. split; [done|].
  assert (H2 : sockets_ s2 = <[n := set_status SS_INVALID x]> (sockets_ s1)).
  { unfold ForceSocketClose, RemoveSocket in E2. rewrite Hx in E2. case_decide as Hst.
    - injection E2 as <-. symmetry. apply list_insert_id. rewrite Hx. f_equal. destruct x. cbn in *. by subst.
    - repeat case_match; simplify_eq/=; done. }
  rewrite H2. split; [by rewrite length_insert|]. intros i y Hi Hy. apply list_insert_inv in Hy as [[-> ->]|[Hne Hy]]; [done|].
  eapply Hst1; [|done]. lia.
Qed.

Lemma watch_table outside s add_ok fd l x :
  table_ok outside s -> sockets_ s !! fd = Some x ->
  (add_ok = true -> fd_ x ∈ open_fds s) -> (status_ x = SS_INVALID -> fd_ x = fd) ->
  exists s' b, SocketServer.WatchSocket add_ok fd l s = Some (s', b) /\
    table_ok (outside ∪ if add_ok then ∅ else {[fd]}) s'.
Proof.
  intros HI Hx Hp Hi. unfold SocketServer.WatchSocket. rewrite Hx. case_decide as Hst; [|eexists _, _; split; [done|by apply table_more]].
  assert (Hf : fd_ x = fd).
  { destruct Hst as [Hst|Hst]; [|by apply Hi]. apply (tb_fd _ _ HI _ _ Hx). by rewrite Hst. }
  rewrite Hf in *.
  assert (Hnp : poller_ s !! fd = None).
  { destruct (poller_ s !! fd) eqn:E; [|done]. pose proof (proj2 (tb_poll _ _ HI _ _ Hx)) as H. rewrite E in H.
    specialize (H ltac:(by eexists)). by destruct Hst as [Hst|Hst]; rewrite Hst in H. }
  unfold AddSocket. rewrite Hnp. destruct add_ok.
  - eexists _, _. split; [reflexivity|].
    apply (table_more outside). apply (table_slot outside s _ fd x (set_status (if decide (status_ x = SS_PACCEPT) then SS_CONNECTED
      else if l then SS_LISTENING else SS_CONNECTED) x)); cbn; try done.
    + intros j Hj. by rewrite lookup_insert_ne.
    + rewrite lookup_insert_eq. split; [by eexists|]. intros _. by repeat case_match.
    + intros _. split; [done|by apply Hp].
    + intros _. right. by repeat case_match.
  - eexists _, _. split; [reflexivity|].
    apply (table_slot (outside ∪ {[fd]}) s _ fd x (set_status SS_INVALID x)); cbn; try done.
    + by apply table_more.
    + rewrite Hnp. split; [done|by intros [? ?]].
    + intros _. left. set_solver.
Qed.

Lemma watch_raw_table outside s add_ok fd l :
  table_ok outside s -> (add_ok = true -> fd ∈ open_fds s) -> (fd < length (sockets_ s))%nat ->
  exists s' b, SocketServer.WatchRawSocket add_ok fd l s = Some (s', b) /\ table_ok outside s'.
Proof.
  intros HI Hin Hlt. destruct (lookup_lt_is_Some_2 _ _ Hlt) as [x Hx]. unfold SocketServer.WatchRawSocket. rewrite Hx.
  case_decide as Hst; [by eauto|]. assert (Hinv : status_ x = SS_INVALID) by (destruct (decide (status_ x = SS_INVALID)); done).
  assert (Hout : fd ∈ open_fds s -> fd ∈ outside) by (intros H; destruct (tb_owned _ _ HI _ H) as [?|(y&Hy&Hsy)]; [done|congruence]).
  assert (Hnp : poller_ s !! fd = None).
  { destruct (poller_ s !! fd) eqn:E; [|done]. pose proof (proj2 (tb_poll _ _ HI _ _ Hx)) as H. rewrite E, Hinv in H.
    by specialize (H ltac:(by eexists)). }
  unfold AddSocket. cbn. rewrite Hnp. destruct add_ok; (eexists _, _; split; [reflexivity|]).
  - apply (table_slot outside s _ fd x (Slot fd (if l then SS_LISTENING else SS_CONNECTED) (opaque_ x))); cbn; try done.
    + intros j Hj. by rewrite lookup_insert_ne.
    + rewrite lookup_insert_eq. split; [by eexists|]. intros _. by destruct l.
    + intros _. split; [done|by apply Hin].
    + intros H. left. by apply Hout.
  - apply (table_slot outside s _ fd x (Slot fd SS_INVALID (opaque_ x))); cbn; try done.
    + by rewrite list_insert_insert_eq.
    + rewrite Hnp. split; [done|by intros [? ?]].
    + intros H. left. by apply Hout.
Qed.

Lemma unwatch_table outside s fd :
  table_ok outside s -> (fd < length (sockets_ s))%nat ->
  exists s' b, SocketServer.UnwatchSocket fd s = Some (s', b) /\ table_ok (outside ∪ {[fd]}) s'.
Proof.
  intros HI%(table_more _ {[fd]}) Hlt. destruct (lookup_lt_is_Some_2 _ _ Hlt) as [x Hx].
  unfold SocketServer.UnwatchSocket. rewrite Hx. case_decide as Hst; [by eauto|]. unfold RemoveSocket.
  destruct (poller_ s !! fd); [|by eauto]. eexists _, _. split; [reflexivity|].
  apply (table_slot (outside ∪ {[fd]}) s _ fd x (set_status SS_INVALID x)); cbn; try done.
  - intros j Hj. by rewrite lookup_delete_ne.
  - rewrite lookup_delete_eq. split; [done|by intros [? ?]].
  - intros _. left. set_solver.
Qed.

Lemma send_table outside s fd n sz again :
  table_ok outside s ->
  fate (fun r => table_ok outside r.1)
    ((length (sockets_ s) <= fd)%nat \/ exists x, sockets_ s !! fd = Some x /\ status_ x = SS_LISTENING)
    (ServerSend fd n sz again s).
Proof.
  intros HI. unfold ServerSend. destruct (sockets_ s !! fd) as [x|] eqn:Hx; [|left; by apply lookup_ge_None].
  pose proof (lookup_lt_Some _ _ _ Hx) as Hlt.
  assert (Hno : status_ x <> SS_LISTENING ->
    ~ ((length (sockets_ s) <= fd)%nat \/ exists y, Some x = Some y /\ status_ y = SS_LISTENING)).
  { intros Hst [?|(y&[= <-]&Hy)]; [lia|done]. }
  destruct (decide (status_ x = SS_LISTENING)) as [Hst|Hst].
  - rewrite decide_False; [right; by exists x|].
    intros [?|?]; [congruence|]. destruct (tb_fd _ _ HI _ _ Hx); congruence.
  - case_decide; [by split; [apply Hno|]|]. case_match; [by split; [apply Hno|]|].
    pose proof (table_modify outside (fd_ x) ((if n <? 0 then 0 else n) <? sz) s HI) as Hm.
    destruct (ModifySocket (fd_ x) _ s) as [s1 b]. by split; [apply Hno|].
Qed.

Lemma read_table outside s fd n sz again :
  table_ok outside s ->
  fate (fun r => table_ok outside r.1) (sz = 0 \/ ~ in_use s fd) (ServerRead fd n sz again s).
Proof.
  intros HI. unfold ServerRead. destruct (sockets_ s !! fd) as [x|] eqn:Hx; [|right; intros (y&Hy&_); congruence].
  destruct (Z.eqb_spec sz 0) as [E|E]; [by left|]. cbn [orb]. case_bool_decide as Hst.
  { right. intros (y&Hy&Hsy). congruence. }
  assert (Hno : ~ (sz = 0 \/ ~ in_use s fd)) by (intros [?|H]; [done|]; apply H; by exists x).
  pose proof (table_modify outside (fd_ x) false s HI) as Hm. destruct (ModifySocket (fd_ x) false s) as [s1 b].
  repeat case_match; by split.
Qed.

(** ** Polling *)

(** What the kernel promises: [epoll_wait] reports a registered, armed descriptor of the
    table, and [accept] returns a new one of the table. *)
Definition poll_ok (s : ServerImpl) (e : poll_event) : Prop :=
  (exists i, poller_ s !! ev_fd e = Some i /\ armed i = true) /\ (ev_fd e < length (sockets_ s))%nat /\
  (forall c, ev_client e = Some c -> c ∉ open_fds s /\ (c < length (sockets_ s))%nat).

Fixpoint polls_ok (es : list poll_event) (sq : ServerImpl * queues) : Prop :=
  match es with
  | [] => True
  | e :: es' => poll_ok (fst sq) e /\ match poll_one e sq with Some sq' => polls_ok es' sq' | None => True end
  end.

Fixpoint polling_ok (bs : list (list poll_event)) (sq : ServerImpl * queues) : Prop :=
  match next_event (snd sq), bs with
  | None, b :: bs' => polls_ok b sq /\ match poll_all b sq with Some sq' => polling_ok bs' sq' | None => True end
  | _, _ => True
  end.

(** The event brings a connection that is to be watched at once, and [epoll_ctl] refuses it. *)
Definition refused (s : ServerImpl) (e : poll_event) : Prop :=
  (exists x, sockets_ s !! ev_fd e = Some x /\ status_ x = SS_LISTENING) /\
  is_Some (ev_client e) /\ watchAccepted_ s = true /\ ev_add_ok e = false.

(** One of the events that a call of [RunPoll] gets to is [refused]. *)
Fixpoint refused_in (es : list poll_event) (sq : ServerImpl * queues) : Prop :=
  match es with
  | [] => False
  | e :: es' => refused (fst sq) e \/ match poll_one e sq with Some sq' => refused_in es' sq' | None => False end
  end.

Fixpoint poll_refused (bs : list (list poll_event)) (sq : ServerImpl * queues) : Prop :=
  match next_event (snd sq), bs with
  | None, b :: bs' =>
      refused_in b sq \/ match poll_all b sq with Some sq' => poll_refused bs' sq' | None => False end
  | _, _ => False
  end.

Lemma deliver_same fd s s' : deliver fd s = Some s' -> open_fds s' = open_fds s /\ watchAccepted_ s' = watchAccepted_ s.
Proof. unfold deliver. repeat case_match; try done; by intros [= <-]. Qed.

Lemma poll_one_table outside e s q :
  table_ok outside s -> poll_ok s e ->
  fate (fun sq => table_ok outside sq.1) (refused s e) (poll_one e (s, q)).
Proof.
  intros HI (Hi&Hlt&Hc). destruct (lookup_lt_is_Some_2 _ _ Hlt) as [x Hx]. unfold poll_one.
  destruct (deliver (ev_fd e) s) as [s1|] eqn:Ed; [|destruct Hi as (i&Hi&Ha); unfold deliver in Ed; by rewrite Hi, Ha in Ed].
  destruct (deliver_same _ _ _ Ed) as [Ho1 Hw1]. destruct (table_deliver _ _ _ _ HI Ed) as [HI1 Hs1]. rewrite Hs1, Hx.
  assert (Hx1 : sockets_ s1 !! ev_fd e = Some x) by by rewrite Hs1.
  assert (Hno : status_ x <> SS_LISTENING -> ~ refused s e) by (intros Hst ((y&Hy&Hsy)&_); congruence).
  destruct (status_ x) eqn:Hst; try by split; [apply Hno|].
  - pose proof (accept_table outside s1 (ev_add_ok e) (ev_fd e) x (ev_client e) HI1 Hx1) as H.
    rewrite Ho1, Hs1, Hw1 in H. specialize (H Hc).
    destruct (HandleAcceptReady _ _ _ s1) as [[[s2 c] k]|]; cbn in H.
    + destruct H as [Hnr HI2]. assert (~ refused s e) by (intros [_ ?]; by apply Hnr). by destruct c.
    + split; [by exists x|done].
  - unfold HandleConnectDone. rewrite Hx1. destruct (ev_failed e); [by split; [apply Hno|]|]. split; [by apply Hno|].
    apply table_modify. apply (table_slot outside s1 _ (ev_fd e) x (set_status SS_CONNECTED x)); cbn; try done.
    + rewrite <-(tb_poll _ _ HI1 _ _ Hx1), Hst. done.
    + intros _. apply (tb_fd _ _ HI1 _ _ Hx1). by rewrite Hst.
    + intros _. by right.
Qed.

Lemma poll_all_table outside es s q :
  table_ok outside s -> polls_ok es (s, q) ->
  fate (fun sq => table_ok outside sq.1) (refused_in es (s, q)) (poll_all es (s, q)).
Proof.
  revert s q. induction es as [|e es IH]; intros s q HI H; cbn [poll_all polls_ok refused_in] in *; [by split; [intros []|]|].
  destruct H as [He H]. pose proof (poll_one_table outside e s q HI He) as H1. cbn [fst].
  destruct (poll_one e (s, q)) as [[s1 q1]|]; cbn in H1; [|by left]. destruct H1 as [Hno HI1].
  specialize (IH s1 q1 HI1 H). destruct (poll_all es (s1, q1)); cbn in *; [|by right].
  split; [|by apply IH]. destruct IH as [IH _]. tauto.
Qed.

Lemma RunPoll_table outside bs s q :
  table_ok outside s -> polling_ok bs (s, q) ->
  fate (fun r => match r with Some (_, (s', _)) => table_ok outside s' | None => True end)
    (poll_refused bs (s, q)) (SocketServer.RunPoll bs (s, q)).
Proof.
  revert s q. induction bs as [|b bs IH]; intros s q HI H; cbn [SocketServer.RunPoll polling_ok poll_refused fst snd] in *;
    destruct (next_event q) as [[e q1]|]; try by split; [intros []|].
  destruct H as [Hb H]. pose proof (poll_all_table outside b s q HI Hb) as H1.
  destruct (poll_all b (s, q)) as [[s1 q1]|]; cbn in H1; [|by left]. destruct H1 as [Hno HI1].
  specialize (IH s1 q1 HI1 H). destruct (SocketServer.RunPoll bs (s1, q1)); cbn in *; [|by right].
  split; [|by apply IH]. destruct IH as [IH _]. tauto.
Qed.

(** ** New sockets *)

Section Making.
Context {A : Type}.

(** The sockets that the kernel makes for the addresses are new and in the table. *)
Definition resolved_ok (resolved : option (list (candidate A))) (s : ServerImpl) : Prop :=
  match resolved with
  | None => True
  | Some l => fresh_socks l (open_fds s) /\
      Forall (fun c => match c_sock c with Some k => (k < length (sockets_ s))%nat | None => True end) l
  end.

Lemma AllocSocketFd_fresh proc resolved s n :
  resolved_ok resolved s ->
  match AllocSocketFd proc resolved (Os (open_fds s) n) with
  | (o, Some (sock, _, status)) => os_fds o = open_fds s ∪ {[sock]} /\ sock ∉ open_fds s /\ (sock < length (sockets_ s))%nat /\ 0 < status
  | (o, None) => os_fds o = open_fds s
  end.
Proof.
  destruct resolved as [l|]; [|done]. intros [Hf Hl]. pose proof (AllocSocketFd_spec proc l (Os (open_fds s) n) Hf) as H.
  destruct (AllocSocketFd proc (Some l) (Os (open_fds s) n)) as [o [[[sock a] status]|]]; [|by destruct H as [_ ->]].
  destruct H as (Ho&_&Hpos&_&pre&c&post&->&_&_&Hc). split; [exact Ho|]. split; [apply (Hf c); [|done]; set_solver|].
  split; [|done]. rewrite Forall_app, Forall_cons in Hl. destruct Hl as (_&Hl&_). by rewrite Hc in Hl.
Qed.

Lemma set_fds_id s : set_fds (open_fds s) s = s.
Proof. by destruct s. Qed.

Lemma set_fds_twice s k : set_fds (open_fds (set_fds (open_fds s ∪ {[k]}) s) ∪ {[k]}) (set_fds (open_fds s ∪ {[k]}) s) =
  set_fds (open_fds s ∪ {[k]}) s.
Proof. unfold set_fds. cbn. f_equal. set_solver. Qed.

(** Some address gives a socket that the predicate takes. *)
Definition makes_socket (proc : nat -> A -> Z) (resolved : option (list (candidate A))) (s : ServerImpl) : Prop :=
  exists r, (AllocSocketFd proc resolved (Os (open_fds s) 0)).2 = Some r.

Lemma AllocSocketFd_lists (proc : nat -> A -> Z) resolved fds n m :
  (AllocSocketFd proc resolved (Os fds n)).2 = (AllocSocketFd proc resolved (Os fds m)).2.
Proof. destruct resolved as [l|]; [|done]. cbn. by destruct (try_addresses proc l fds) as [? [|]]. Qed.

Lemma listen_table outside setsockopt bind listen ok resolved op s n :
  table_ok outside s -> resolved_ok resolved s ->
  fate (fun r => table_ok outside r.1.1) (ok = false /\ makes_socket (TryListenTo setsockopt bind listen) resolved s)
    (ServerListenTo setsockopt bind listen ok resolved op s n).
Proof.
  intros HI Hr. unfold ServerListenTo, ListenTo_fd, makes_socket. rewrite (AllocSocketFd_lists _ _ _ 0 n).
  pose proof (AllocSocketFd_fresh (TryListenTo setsockopt bind listen) resolved s n Hr) as H.
  destruct (AllocSocketFd _ resolved _) as [o [[[sock a] status]|]].
  - destruct H as (Ho&Hnew&Hlt&_). rewrite Ho, (proj2 (Z.ltb_ge _ _)), Nat2Z.id by lia. unfold SocketServer.ListenTo.
    rewrite set_fds_twice. destruct ok.
    + destruct (setup_table outside s true sock op true SS_LISTENING) as (s1&s2&->&->&H2&_); [done..|]. by split; [intros [? _]|].
    + destruct (setup_refused outside s sock op) as [s1 ->]; [done..|]. split; [done|by eexists].
  - cbn. rewrite H, set_fds_id. split; [by intros [_ [r Hr']]|done].
Qed.

Lemma connect_table outside connect ok resolved op s n :
  table_ok outside s -> resolved_ok resolved s ->
  fate (fun r => table_ok outside r.1.1) (ok = false /\ makes_socket (TryConnectTo connect) resolved s)
    (ServerConnectTo connect ok resolved op s n).
Proof.
  intros HI Hr. unfold ServerConnectTo, makes_socket. rewrite (AllocSocketFd_lists _ _ _ 0 n).
  pose proof (AllocSocketFd_fresh (TryConnectTo connect) resolved s n Hr) as H.
  destruct (AllocSocketFd _ resolved _) as [o [[[sock a] status]|]].
  - destruct H as (Ho&Hnew&Hlt&_). rewrite Ho. unfold SocketServer.ConnectTo. rewrite set_fds_twice. destruct ok.
    + destruct (status =? 1).
      * destruct (setup_table outside s true sock op true SS_CONNECTED) as (s1&s2&->&->&H2&_); [done..|]. by split; [intros [? _]|].
      * destruct (setup_table outside s true sock op true SS_CONNECTING) as (s1&s2&->&->&H2&_); [done..|].
        split; [by intros [? _]|]. by apply table_modify.
    + destruct (setup_refused outside s sock op) as [s1 ->]; [done..|]. split; [done|by eexists].
  - cbn. rewrite H, set_fds_id. split; [by intros [_ [r Hr']]|done].
Qed.

(** ** The calls of a user *)

(** [add_ok]: whether [epoll_ctl] takes the new socket. *)
Inductive call : Type :=
| CStart | CStop
| CRunPoll (batches : list (list poll_event))
| CListenTo (setsockopt : nat -> Z) (bind : nat -> A -> Z) (listen : nat -> Z) (add_ok : bool)
    (resolved : option (list (candidate A))) (opaque : Z)
| CConnectTo (connect : nat -> A -> Z * bool) (add_ok : bool) (resolved : option (list (candidate A))) (opaque : Z)
| CWatch (add_ok : bool) (fd : nat) (listen : bool)
| CWatchRaw (add_ok : bool) (fd : nat) (listen : bool)
| CUnwatch (fd : nat)
| CSetWatch (watch : bool)
| CSend (fd : nat) (n sz : Z) (again : bool)
| CRead (fd : nat) (n sz : Z) (again : bool)
| CClose (fd : nat).

Definition run_call (c : call) (x : Api.service) : option Api.service :=
  match c with
  | CStart => Some (Api.StartServer x)
  | CStop => Api.StopServer x
  | CRunPoll bs => option_map fst (Api.RunPoll bs x)
  | CListenTo so b l ok r op => option_map fst (Api.ListenTo so b l ok r op x)
  | CConnectTo cn ok r op => option_map fst (Api.ConnectTo cn ok r op x)
  | CWatch ok fd l => option_map fst (Api.WatchSocket ok fd l x)
  | CWatchRaw ok fd l => option_map fst (Api.WatchRawSocket ok fd l x)
  | CUnwatch fd => option_map fst (Api.UnwatchSocket fd x)
  | CSetWatch w => Some (Api.SetWatchAcceptedSock w x)
  | CSend fd n sz ag => option_map fst (Api.SendBuffer fd n sz ag x)
  | CRead fd n sz ag => option_map fst (Api.ReadBuffer fd n sz ag x)
  | CClose fd => option_map fst (Api.CloseSocket fd x)
  end.

Fixpoint calls (cs : list call) (x : Api.service) : option Api.service :=
  match cs with
  | [] => Some x
  | c :: cs' => match run_call c x with Some x' => calls cs' x' | None => None end
  end.

(** What the kernel promises: new sockets have new numbers, below the limit that sizes the
    table; [epoll_wait] reports what is registered and armed; [epoll_ctl] takes open
    descriptors only.  And the one duty of the caller that no failure enforces:
    [WatchSocket] of an unused slot uses the number which the slot holds, so the slot must
    have been used before (a slot never used holds what the memory held). *)
Definition promise (c : call) (x : Api.service) : Prop :=
  let s := Api.impl x in
  match c with
  | CRunPoll bs => polling_ok bs (s, Api.events x)
  | CListenTo _ _ _ _ r _ | CConnectTo _ _ r _ => resolved_ok r s
  | CWatch ok fd _ => forall y, sockets_ s !! fd = Some y ->
      (ok = true -> fd_ y ∈ open_fds s) /\ (status_ y = SS_INVALID -> fd_ y = fd)
  | CWatchRaw ok fd _ => ok = true -> fd ∈ open_fds s
  | _ => True
  end.

Fixpoint promises (cs : list call) (x : Api.service) : Prop :=
  match cs with
  | [] => True
  | c :: cs' => promise c x /\ match run_call c x with Some x' => promises cs' x' | None => True end
  end.

(** What makes a call fail: a number beyond the table, sending to a listening socket,
    reading nothing or from a slot that is not in use, and a new socket, listening, connecting
    or accepted to be watched at once, that [epoll_ctl] refuses. *)
Definition fatal (c : call) (x : Api.service) : Prop :=
  let s := Api.impl x in
  match c with
  | CStart | CStop | CSetWatch _ => False
  | CRunPoll bs => poll_refused bs (s, Api.events x)
  | CListenTo so b l ok r _ => ok = false /\ makes_socket (TryListenTo so b l) r s
  | CConnectTo cn ok r _ => ok = false /\ makes_socket (TryConnectTo cn) r s
  | CWatch _ fd _ | CWatchRaw _ fd _ | CUnwatch fd | CClose fd => (length (sockets_ s) <= fd)%nat
  | CSend fd _ _ _ =>
      (length (sockets_ s) <= fd)%nat \/ exists y, sockets_ s !! fd = Some y /\ status_ y = SS_LISTENING
  | CRead fd _ sz _ => sz = 0 \/ ~ in_use s fd
  end.

Fixpoint fatal_in (cs : list call) (x : Api.service) : Prop :=
  match cs with
  | [] => False
  | c :: cs' => fatal c x \/ match run_call c x with Some x' => fatal_in cs' x' | None => False end
  end.

(** The descriptors that are taken out of the table open: unwatched, or refused by
    [epoll_ctl] when they were to be watched. *)
Definition given_up1 (c : call) : gset nat :=
  match c with CUnwatch fd | CWatch false fd _ => {[fd]} | _ => ∅ end.

Fixpoint given_up (cs : list call) : gset nat :=
  match cs with [] => ∅ | c :: cs' => given_up1 c ∪ given_up cs' end.

Definition good outside (x : Api.service) : Prop := table_ok outside (Api.impl x).

Lemma forward_fate {R} (f : ServerImpl -> option (ServerImpl * R)) x outside m :
  fate (fun r => table_ok outside r.1) m (f (Api.impl x)) -> fate (good outside) m (option_map fst (Api.forward f x)).
Proof. unfold Api.forward. by destruct (f (Api.impl x)) as [[s r]|]. Qed.

Lemma good_more outside more x : good outside x -> good (outside ∪ more) x.
Proof. apply table_more. Qed.

Lemma fate_more outside more m o : fate (good outside) m o -> fate (good (outside ∪ more)) m o.
Proof. destruct o; [|done]. cbn. intros [? ?]. split; [done|]. by apply good_more. Qed.

(** An operation that fails beyond the table only. *)
Lemma fate_in_table {R} (f : ServerImpl -> option (ServerImpl * R)) outside s fd :
  (sockets_ s !! fd = None -> f s = None) ->
  ((fd < length (sockets_ s))%nat -> exists s' b, f s = Some (s', b) /\ table_ok outside s') ->
  fate (fun r => table_ok outside r.1) (length (sockets_ s) <= fd)%nat (f s).
Proof.
  intros H1 H2. destruct (decide (fd < length (sockets_ s))%nat) as [Hlt|Hge].
  - destruct (H2 Hlt) as (s'&b&->&H). split; [lia|done].
  - rewrite H1 by (apply lookup_ge_None; lia). cbn. lia.
Qed.

Lemma run_call_fate outside c x :
  good outside x -> promise c x -> fate (good (outside ∪ given_up1 c)) (fatal c x) (run_call c x).
Proof.
  intros HI HD. destruct c as [| |bs|so b l ok r op|cn ok r op|ok fd l|ok fd l|fd|w|fd n sz ag|fd n sz ag|fd];
    cbn [run_call promise fatal given_up1] in *; rewrite ?(right_id_L ∅ (∪)).
  - split; [by intros []|]. unfold good, Api.StartServer, Api.impl, StartServer in *. cbn. by destruct (isRunning_ _).
  - unfold Api.StopServer, StopServer. destruct (isRunning_ _); [|by split; [intros []|]]. unfold ShutDown.
    destruct (shutdown_table outside (Api.impl x) (length (sockets_ (Api.impl x)))) as (s'&E&HI'&_); [done..|].
    unfold Api.impl in E. rewrite E. by split; [intros []|].
  - apply fate_map. unfold Api.RunPoll. pose proof (RunPoll_table outside bs _ _ HI HD) as H.
    destruct (SocketServer.RunPoll bs _) as [[[e [s' q']]|]|]; cbn in *; [done| |done]. by split; [apply H|].
  - apply fate_map. unfold Api.ListenTo. pose proof (listen_table outside so b l ok r op _ (Api.lists x) HI HD) as H.
    destruct (ServerListenTo _ _ _ _ _ _ _ _) as [[[s' n'] k]|]; exact H.
  - apply fate_map. unfold Api.ConnectTo. pose proof (connect_table outside cn ok r op _ (Api.lists x) HI HD) as H.
    destruct (ServerConnectTo _ _ _ _ _ _) as [[[s' n'] k]|]; exact H.
  - apply forward_fate, fate_in_table; [unfold SocketServer.WatchSocket; by intros ->|]. intros Hlt.
    destruct (lookup_lt_is_Some_2 _ _ Hlt) as [y Hy]. destruct (HD y Hy) as [H1 H2].
    destruct (watch_table outside _ ok fd l y HI Hy H1 H2) as (s'&b&E&HI'). exists s', b. split; [done|]. by destruct ok.
  - apply forward_fate, fate_in_table; [unfold SocketServer.WatchRawSocket; by intros ->|]. intros Hlt.
    by apply watch_raw_table.
  - apply forward_fate, fate_in_table; [unfold SocketServer.UnwatchSocket; by intros ->|]. intros Hlt.
    by apply unwatch_table.
  - split; [by intros []|]. by destruct HI.
  - apply forward_fate. by apply send_table.
  - apply forward_fate. by apply read_table.
  - apply forward_fate, fate_in_table; [unfold SocketServer.CloseSocket; by intros ->|]. intros Hlt.
    by apply close_table.
Qed.

Lemma calls_fate outside cs x :
  good outside x -> promises cs x -> fate (good (outside ∪ given_up cs)) (fatal_in cs x) (calls cs x).
Proof.
  revert outside x. induction cs as [|c cs IH]; intros outside x HI HD; cbn [calls promises fatal_in given_up] in *.
  { split; [by intros []|]. by apply good_more. }
  destruct HD as [HD HDs]. pose proof (run_call_fate outside c x HI HD) as H.
  destruct (run_call c x) as [x1|]; [|by left]. destruct H as [Hno HI1]. specialize (IH _ x1 HI1 HDs).
  rewrite <-(assoc_L (∪)) in IH. destruct (calls cs x1); cbn in *; [|by right].
  split; [|by apply IH]. destruct IH as [IH _]. tauto.
Qed.

Lemma init_table mem fds : table_ok fds (Api.impl (Api.SocketServer mem fds)).
Proof.
  assert (H : forall i x, (set_status SS_INVALID <$> mem) !! i = Some x -> status_ x = SS_INVALID).
  { intros i x Hx. by apply list_lookup_fmap_Some in Hx as (y&->&_). }
  split; cbn.
  - intros i x Hx Hst. by specialize (H i x Hx).
  - intros i x Hx. rewrite (H i x Hx), lookup_empty. split; [done|by intros [? ?]].
  - by left.
Qed.

(** C7. The class [SocketServer], used through its public methods in any order, whatever the
    memory of its table held and whatever the kernel answers within its promises ([promise],
    which also asks the caller not to [WatchSocket] a slot that was never used).  A sequence of
    calls fails (an [assert], a slot beyond the table, a [NULL] slot) exactly when one of its
    calls, in the state it meets, is [fatal]: a number beyond the table; sending to a listening
    socket; reading no bytes, or from a slot not in use, as a stale event of [RunPoll] invites
    to ([stale_event]); or a new socket that [epoll_ctl] refuses to [ListenTo], [ConnectTo]
    or, when accepted sockets are watched at once, [RunPoll].  After a sequence without such a
    call every slot in use is that of its own, open descriptor, exactly the connected, connecting
    and listening sockets are registered with epoll, and every open descriptor belongs to a
    slot in use, was open at the start, or was given up ([given_up]: unwatched, or pending and
    refused by [epoll_ctl] in [WatchSocket]); and deleting the server succeeds and leaves no slot
    in use and none but the latter two open. *)
Theorem api_safe (mem : list slot) (fds : gset nat) (cs : list call) :
  let x0 := Api.SocketServer mem fds in
  promises cs x0 ->
  (calls cs x0 = None <-> fatal_in cs x0) /\
  forall x, calls cs x0 = Some x ->
    table_ok (fds ∪ given_up cs) (Api.impl x) /\
    exists x', Api.destroy x = Some x' /\
      (forall i, i ∈ open_fds (Api.impl x') -> i ∈ fds ∪ given_up cs) /\ (forall i, ~ in_use (Api.impl x') i).
Proof.
  intros x0 HD. pose proof (calls_fate fds cs x0 (init_table mem fds) HD) as H. split.
  { destruct (calls cs x0); cbn in H; [|done]. split; [done|]. by destruct H. }
  intros x E. rewrite E in H. destruct H as [_ HI]. split; [done|]. unfold good in HI.
  destruct (shutdown_table _ (Api.impl x) (length (sockets_ (Api.impl x))) HI (Nat.le_refl _)) as (s'&E'&HI'&Hl&Hst).
  unfold Api.destroy, SocketServer_destroy, ShutDown. unfold Api.impl in E'. rewrite E'. eexists.
  split; [reflexivity|].
  assert (Hnu : forall i, ~ in_use s' i).
  { intros i (y&Hy&Hsy). apply Hsy. eapply Hst; [|exact Hy]. apply lookup_lt_Some in Hy. unfold Api.impl in *. lia. }
  split; [|exact Hnu]. intros i Hi. destruct (tb_owned _ _ HI' i Hi) as [?|Hu]; [done|]. by destruct (Hnu i).
Qed.
End Making.
Arguments call A : clear implicits.

(** ** A server that listens, connects and stops *)

Lemma promises_cons {A} (c : call A) cs x x1 :
  run_call c x = Some x1 -> promise c x -> promises cs x1 -> promises (c :: cs) x.
Proof. intros E H1 H2. cbn [promises]. by rewrite E. Qed.

Lemma resolved_one {A} (a : A) k s :
  k ∉ open_fds s -> (k < length (sockets_ s))%nat -> resolved_ok (Some [Candidate a (Some k)]) s.
Proof.
  intros Hk Hlt. split; [|by repeat constructor]. intros c sock ->%list_elem_of_singleton [= <-]. done.
Qed.

(** The table is made of memory that looks like eight connections to descriptor 6. *)
Definition demo_server : Api.service :=
  Api.SocketServer (replicate 8 (Slot 6 SS_CONNECTED 9)) {[0%nat; 1%nat; 2%nat]}.

(** 3 listens, 4 is accepted and pending until it is watched, 5 connects in the background;
    reading from 4 after it was closed fails. *)
Definition user_calls : list (call string) :=
  [CStart;
   CListenTo (fun _ => 0) (fun _ _ => 0) (fun _ => 0) true (Some [Candidate "any"%string (Some 3%nat)]) 7;
   CRunPoll [[Ev 3 true false (Some 4%nat) true false]];
   CWatch true 4 false;
   CConnectTo (fun _ _ => (-1, true)) true (Some [Candidate "far"%string (Some 5%nat)]) 8;
   CRunPoll [[Ev 5 false true None true false]];
   CSend 5 10 10 false;
   CRunPoll [[Ev 4 true false None true false]];
   CRead 4 (-1) 64 true;
   CClose 4].

(** The promises for the next call. *)
Ltac next_call := eapply promises_cons; [vm_compute; reflexivity|..].

Ltac one_poll :=
  split; [split; [split; [eexists; split; vm_compute; reflexivity|split; [cbn; lia|]]|by vm_compute]|by vm_compute];
  intros c [= <-]; (split; [apply (bool_decide_unpack _); by vm_compute|cbn; lia]).

Ltac new_socket := apply resolved_one; [apply (bool_decide_unpack _); by vm_compute|cbn; lia].

Lemma api_safe_witness :
  exists x x', calls user_calls demo_server = Some x /\
    table_ok ({[0%nat; 1%nat; 2%nat]} ∪ given_up user_calls) (Api.impl x) /\ Api.destroy x = Some x' /\
    (forall i, i ∈ open_fds (Api.impl x') -> i ∈ ({[0%nat; 1%nat; 2%nat]} : gset nat)) /\
    run_call (A := string) (CRead 4 10 64 false) x = None.
Proof.
  destruct (api_safe (replicate 8 (Slot 6 SS_CONNECTED 9)) {[0%nat; 1%nat; 2%nat]} user_calls) as [_ H].
  - change (promises user_calls demo_server).
    next_call; [exact I|].
    next_call; [new_socket|].
    next_call; [one_poll|].
    next_call; [intros y Hy; vm_compute in Hy; injection Hy as <-;
      split; [intros _; apply (bool_decide_unpack _); by vm_compute|done]|].
    next_call; [new_socket|].
    next_call; [one_poll|].
    next_call; [exact I|].
    next_call; [one_poll|].
    next_call; [exact I|].
    next_call; [exact I|]. exact I.
  - destruct (calls user_calls demo_server) as [x|] eqn:E; [|by vm_compute in E].
    destruct (H x E) as (HT&x'&HD&HF&_). exists x, x'. split_and!; [done|done|done| |].
    + intros i Hi. specialize (HF i Hi). clear -HF. cbn in HF. set_solver.
    + vm_compute in E. injection E as <-. by vm_compute.
Defined.

(** An event stays in the queue of [RunPoll] when its socket is closed: 4 and 5 are readable,
    the user gets the event of 4 and closes 5, and then gets the event of 5, on which
    [ReadBuffer] fails its [assert]. *)
Definition stale_calls : list (call string) :=
  [CListenTo (fun _ => 0) (fun _ _ => 0) (fun _ => 0) true (Some [Candidate "any"%string (Some 3%nat)]) 7;
   CSetWatch true;
   CConnectTo (fun _ _ => (0, false)) true (Some [Candidate "a"%string (Some 4%nat)]) 8;
   CConnectTo (fun _ _ => (0, false)) true (Some [Candidate "b"%string (Some 5%nat)]) 8;
   CRunPoll [[Ev 4 true false None true false; Ev 5 true false None true false]];
   CClose 5].

Lemma stale_event :
  match calls stale_calls demo_server with
  | Some x =>
      match Api.RunPoll [] x with
      | Some (x', Some e) => e = SE (Some SC_READ) 5 /\ Api.ReadBuffer 5 10 64 false x' = None
      | _ => False
      end
  | None => False
  end.
Proof. by vm_compute. Qed.

(** [epoll_ctl] refuses an accepted connection that was to be watched at once, and the
    server crashes. *)
Example refused_accept :
  calls (A := string)
    [CListenTo (fun _ => 0) (fun _ _ => 0) (fun _ => 0) true (Some [Candidate "any"%string (Some 3%nat)]) 7;
     CSetWatch true; CRunPoll [[Ev 3 true false (Some 4%nat) false false]]] demo_server = None.
Proof. by vm_compute. Qed.

(** [WatchSocket] of a pending connection that [epoll_ctl] refuses frees the slot and leaves
    the descriptor open: nothing closes it any more. *)
Example refused_watch_leaks :
  match calls (A := string)
    [CListenTo (fun _ => 0) (fun _ _ => 0) (fun _ => 0) true (Some [Candidate "any"%string (Some 3%nat)]) 7;
     CRunPoll [[Ev 3 true false (Some 4%nat) true false]]; CWatch false 4 false; CClose 4] demo_server with
  | Some x => option_map (fun x' => bool_decide (4%nat ∈ open_fds (Api.impl x'))) (Api.destroy x) = Some true
  | None => False
  end.
Proof. by vm_compute. Qed.

(** [WatchSocket] of a slot that was never used watches whatever descriptor the memory names:
    here 2, in the slot of 6. *)
Example watch_unused :
  match Api.WatchSocket true 6 false (Api.SocketServer (replicate 8 (Slot 2 SS_INVALID 0)) {[2%nat]}) with
  | Some (x, true) => sockets_ (Api.impl x) !! 6%nat = Some (Slot 2 SS_CONNECTED 0)
  | _ => False
  end.
Proof. by vm_compute. Qed.
