(* ===== verification/HttpServer.v ===== *)
(** * HttpServer.v: [http/HttpServer.cc]

The default request handler, whose response echoes the headers and the body of
the request; the choice of [PollHandler] for each event; and the watch policy of
[RunPoll], which takes the listening socket out of the epoll set and back in
according to the number of connections. *)

From stdpp Require Import pretty.
From S2P Require Import Prelude Machine HttpBuffer HttpRequest HttpResponse HttpClient SocketServer.

(** ** [DefaultHttpRequestHandler] *)

(** The double quote. *)
Definition dq : bytes := [ascii_of_nat 34].

Definition quoted (s : string) : bytes := dq ++ bs s ++ dq.

Definition body_head : bytes :=
  bs "<!DOCTYPE HTML PUBLIC " ++ quoted "-//W3C//DTD HTML 1.0 Frameset//EN" ++ bs " " ++
  quoted "http://www.w3.org/TR/xhtml1/DTD/xhtml1-Frameset.dtd" ++ bs "><html><head>    <meta http-equiv=" ++
  quoted "Content-Type" ++ bs " content=" ++ quoted "text/html; charset=gb2312" ++
  bs " />    <title>miliao http server</title></head><body> <p>".

Definition body_tail : bytes := bs "</p>             </body>             </html>".

(** The loop over the headers of the request. *)
Fixpoint echo_headers (it : smap) (body : bytes) : bytes :=
  match it with
  | [] => body
  | (first, second) :: it' => echo_headers it' ((((body ++ first) ++ bs ":") ++ second) ++ bs "</p>")
  end.

Definition default_body (req : HttpRequest) : bytes :=
  let body := body_head in
  let body := body ++ (bs "Page auto-generated from http request header:" ++ crlf) in
  let body := body ++ bs "</p>" in
  let body := body ++ bs "<p>" in
  let body := echo_headers (httpHeader_ req) body in
  let body := body ++ bs "</p>" in
  let body := body ++ (bs "Body from request: </p> " ++ httpBody_ req) in
  body ++ body_tail.

(** [date] is what [strftime] wrote; [bodylen] has room for 31 characters. *)
Definition DefaultHttpRequestHandler (date : bytes) (req : HttpRequest) (response : HttpResponse) : HttpResponse :=
  let response := SetShouldResponse true response in
  let response := SetStatusCode HSC_200 response in
  let response := SetStatusMessage (bs "OK") response in
  let body := default_body req in
  let response := SetBody body response in
  let bodylen := take 31 (dec (i32 (blen body))) in
  let response := AddRespHeader (bs "Connection") (bs "close") response in
  let response := AddRespHeader (bs "Host") (bs "miliao server") response in
  let response := AddRespHeader (bs "Content-Type") (bs "text/html;charset=utf-8") response in
  let response := AddRespHeader (bs "Content-Length") bodylen response in
  let response := AddRespHeader (bs "Date") date response in
  SetCloseConn false response.

(** ** [PollHandler] *)

(** What the handler does with the client of the event's connection; the client
    is created first when there is none. *)
Inductive client_action : Type := Process | Reset | CloseConn | Nothing.

Definition PollHandler (code : SocketCode) : client_action :=
  match code with
  | SC_READ | SC_WRITE => Process
  | SC_ACCEPTED => Reset
  | SC_FAIL_CONN => CloseConn
  | _ => Nothing
  end.

(** ** The watch policy of [RunPoll] *)

Record HttpServer : Type := Http {
  stop_ : bool; watching_ : bool; listenFd_ : nat; tcpServer_ : ServerImpl
}.

Definition SetStop (h : HttpServer) : HttpServer := Http true (watching_ h) (listenFd_ h) (tcpServer_ h).

Definition SetListenSock (add_ok : bool) (fd : nat) (h : HttpServer) : option HttpServer :=
  match WatchRawSocket add_ok fd true (tcpServer_ h) with
  | Some (s, w) => Some (Http (stop_ h) w fd s)
  | None => None
  end.

(** The first half of a round of the loop of [RunPoll]; [total] is
    [max_conn_id]. *)
Definition watch_policy (total : Z) (add_ok : bool) (h : HttpServer) : option HttpServer :=
  let num_conn := connNum_ (tcpServer_ h) in
  if watching_ h && (total - Z.quot total 8 <? num_conn) then
    match UnwatchSocket (listenFd_ h) (tcpServer_ h) with
    | Some (s, ok) => Some (Http (stop_ h) (negb ok) (listenFd_ h) s)
    | None => None
    end
  else if negb (watching_ h) && (num_conn <=? Z.quot total 2) then
    match WatchRawSocket add_ok (listenFd_ h) true (tcpServer_ h) with
    | Some (s, w) => Some (Http (stop_ h) w (listenFd_ h) s)
    | None => None
    end
  else Some h.

(** ** Theorems *)

(** Decimal numbers: their characters and their length. *)
Definition decimal (b : bytes) : Prop := Forall (fun c => c <> nul) b.

Lemma decimal_char x : (x < 10)%N -> pretty_N_char x <> nul.
Proof. intros H. destruct x as [|p]; [done|]. do 4 (destruct p as [p|p|]; try done). Qed.

Lemma pretty_N_go_spec k x s :
  (x < 10 ^ N.of_nat k)%N -> decimal (bs s) ->
  decimal (bs (pretty_N_go x s)) /\ (length (bs (pretty_N_go x s)) <= k + length (bs s))%nat.
Proof.
  revert x s. induction k as [|k IH]; intros x s Hx Hs.
  - assert (x = 0%N) as -> by (simpl in Hx; lia). by rewrite pretty_N_go_0.
  - destruct (decide (x = 0%N)) as [->|Hne]; [rewrite pretty_N_go_0; split; [done|lia]|].
    rewrite pretty_N_go_step by lia.
    destruct (IH (x / 10)%N (String (pretty_N_char (x mod 10)) s)) as [H1 H2].
    + rewrite Nat2N.inj_succ, N.pow_succ_r' in Hx. by apply N.Div0.div_lt_upper_bound.
    + constructor; [|done]. apply decimal_char. by apply N.mod_lt.
    + split; [done|]. simpl in H2. lia.
Qed.

Lemma dec_spec z : 0 <= z < 10 ^ 20 -> nul ∉ dec z /\ (length (dec z) <= 20)%nat.
Proof.
  intros Hz. destruct z as [|p|p]; [| |lia].
  - split; [apply (bool_decide_unpack _); by vm_compute|]. vm_compute. lia.
  - change (dec (Z.pos p)) with
      (bs (if decide (N.pos p = 0%N) then "0" else pretty_N_go (N.pos p) "")%string).
    rewrite decide_False by done.
    destruct (pretty_N_go_spec 20 (N.pos p) "") as [H1 H2]; [change (10 ^ N.of_nat 20)%N with (Z.to_N (10 ^ 20)); lia|constructor|].
    split; [|simpl in H2; lia]. intros Hin. by apply (proj1 (Forall_forall _ _) H1 nul Hin).
Qed.

(** Look a key up past one insertion. *)
Ltac find_key :=
  rewrite smap_find_set by (repeat apply smap_set_ok; exact I);
  first [rewrite decide_True by reflexivity | rewrite decide_False by (let H := fresh in intros H; discriminate H)].

(** The page as a reader of the browser would write it down, with ['] for the double quote:
    what stands before the headers, each header in a paragraph, the body. *)
Definition with_quotes (b : bytes) : bytes := (fun c => if decide (c = "'"%char) then ascii_of_nat 34 else c) <$> b.

Definition page_open : bytes := with_quotes (bs
"<!DOCTYPE HTML PUBLIC '-//W3C//DTD HTML 1.0 Frameset//EN' 'http://www.w3.org/TR/xhtml1/DTD/xhtml1-Frameset.dtd'><html><head>    <meta http-equiv='Content-Type' content='text/html; charset=gb2312' />    <title>miliao http server</title></head><body> <p>Page auto-generated from http request header:") ++
  crlf ++ bs "</p><p>".

Definition echo_page (headers : list (bytes * bytes)) (body : bytes) : bytes :=
  page_open ++ mjoin ((fun '(name, value) => name ++ bs ":" ++ value ++ bs "</p>") <$> headers) ++
  bs "</p>Body from request: </p> " ++ body ++ bs "</p>             </body>             </html>".

Lemma echo_headers_spec it body :
  echo_headers it body = body ++ mjoin ((fun '(name, value) => name ++ bs ":" ++ value ++ bs "</p>") <$> it).
Proof.
  revert body. induction it as [|[k v] it IH]; intros body; [by rewrite app_nil_r|].
  cbn [echo_headers]. rewrite IH. cbn [fmap list_fmap mjoin list_join concat]. by rewrite <-!app_assoc.
Qed.

Lemma default_body_page req : default_body req = echo_page (httpHeader_ req) (httpBody_ req).
Proof.
  unfold default_body, echo_page. rewrite echo_headers_spec.
  replace page_open with (body_head ++ bs "Page auto-generated from http request header:" ++ crlf ++ bs "</p>" ++ bs "<p>")
    by by vm_compute.
  rewrite <-!app_assoc. done.
Qed.

(** C26. The default handler answers every request, whose page is shorter than 2^31
    characters, with status 200 and the page that shows every header of the request, in
    order, and its body ([echo_page]; a NUL in them cuts the page short); the response has
    exactly five headers: it announces [Connection: close] and, as [Content-Length], the
    length of the page before the cut, in decimal; but it asks for the connection to be
    kept. *)
Theorem default_handler_spec (date : bytes) (req : HttpRequest) (r0 : HttpResponse) :
  let page := echo_page (httpHeader_ req) (httpBody_ req) in
  blen page < 2 ^ 31 ->
  let r := DefaultHttpRequestHandler date req (CleanUpResponse r0) in
  respBody_ r = c_str page /\ statusCode_ r = HSC_200 /\ statusMsg_ r = bs "OK" /\
  respHeader_ r = [(bs "Connection", bs "close"); (bs "Content-Length", dec (blen page));
    (bs "Content-Type", bs "text/html;charset=utf-8"); (bs "Date", c_str date); (bs "Host", bs "miliao server")] /\
  response_ r = true /\ closeConn_ r = false.
Proof.
  cbv zeta. rewrite <-default_body_page. intros Hb. pose proof (blen_nonneg (default_body req)) as H0.
  destruct (dec_spec (blen (default_body req))) as [Hd1 Hd2]; [lia|].
  unfold DefaultHttpRequestHandler. cbv zeta.
  rewrite i32_id, take_ge by lia. set (body := default_body req) in *.
  split; [done|]. split; [done|]. split; [done|]. split; [|done].
  cbn [respHeader_ SetCloseConn AddRespHeader]. rewrite (c_str_no_nul (dec _)) by done. reflexivity.
Qed.

(** The page of a request with one header and a body. *)
Lemma default_handler_spec_witness :
  let req := AppendBody_str (fun _ n => n) (bs "hi") (AddHeader (bs "Host") (bs "x") (HttpRequest_init 15)) in
  let r := DefaultHttpRequestHandler (bs "today") req (CleanUpResponse (HttpResponse_init false HSC_UNKNOWN)) in
  respBody_ r = page_open ++ bs "Host:x</p></p>Body from request: </p> hi</p>             </body>             </html>" /\
  smap_find (bs "Content-Length") (respHeader_ r) = Some (dec (blen (respBody_ r))) /\ closeConn_ r = false.
Proof.
  cbv zeta.
  destruct (default_handler_spec (bs "today") (AppendBody_str (fun _ n => n) (bs "hi") (AddHeader (bs "Host") (bs "x") (HttpRequest_init 15)))
    (HttpResponse_init false HSC_UNKNOWN)) as (Hb&_&_&Hh&_&Hc); [by vm_compute|].
  rewrite Hb, Hh, Hc. by vm_compute.
Defined.

(** The policy leaves the listening socket alone until the table is nearly full,
    so that with SocketServer.v's one-shot registration a watched server accepts
    one connection. *)
Lemma watch_policy_idle total add_ok h :
  watching_ h = true -> connNum_ (tcpServer_ h) <= total - Z.quot total 8 ->
  watch_policy total add_ok h = Some h.
Proof.
  intros Hw Hn. unfold watch_policy. rewrite Hw. cbn [negb andb].
  by rewrite (proj2 (Z.ltb_ge _ _)) by lia.
Qed.
