(* ===== verification/HttpServerLoop.v ===== *)
(** * HttpServerLoop.v: the server as a whole - [http/HttpServer.cc] over the clients and
    the table of sockets

One process of the server ([site]): the table of sockets (SocketServer.v), an
[HttpClient] per descriptor, the queues of events, and for every descriptor what the
kernel answers to [read] and [write] ([wire]).  A connection is a slot of the table over
the kernel ([port]): the instance of HttpClient.v's [Connection] that the running server
uses.  [server_round] is one round of [HttpServer::RunPoll]: the watch policy, the next
event, its handler; [serve] is its loop.

First, what a client can do to its connection: an event ends in a sequence of reads and
sends, and a close when the result is negative ([ProcessEvent_io]).  Then, whatever the
peers send and whenever the kernel delivers it: no [assert] of the socket table fails and
the table, the queues and the clients stay consistent ([server_safe]), an event of one
connection touches no other ([clients_isolated]), and a listening socket that has
delivered its one event adds no connection any more ([server_accepts_once]).  The
promises of the kernel ([event_ok], [rounds_ok]) are decidable, and the last section runs
a whole exchange. *)

From S2P Require Import Prelude Machine HttpBuffer HttpRequest HttpResponse HttpClient SocketServer HttpServer.

(** ** What a client does to its connection *)

Section Io.
Context {C : Type} `{CC : Connection C}.

Inductive io : C -> C -> Prop :=
| io_refl p : io p p
| io_read p p' sz : sz <> 0 -> io (fst (ReadBuffer sz p)) p' -> io p p'
| io_send p p' data : io (fst (SendBuffer data p)) p' -> io p p'.

Lemma io_trans p1 p2 p3 : io p1 p2 -> io p2 p3 -> io p1 p3.
Proof. induction 1; intros; [done|eapply io_read; eauto|eapply io_send; eauto]. Qed.

Variable cgi_ : HttpRequest -> HttpResponse -> HttpResponse.
Variables (reserve grow : Z -> Z -> Z) (malloc_ok : bool).

(** The pointer to the connection stays, the connection is used. *)
Definition uses (c c' : HttpClient C) : Prop := conn_ c' = conn_ c /\ io (peer c) (peer c').

Lemma uses_refl c : uses c c.
Proof. split; [done|constructor]. Qed.

Lemma uses_trans c1 c2 c3 : uses c1 c2 -> uses c2 c3 -> uses c1 c3.
Proof. intros [E1 H1] [E2 H2]. split; [congruence|by eapply io_trans]. Qed.

(** The same pointer and the same connection. *)
Lemma uses_same c c' : conn_ c' = conn_ c -> peer c' = peer c -> uses c c'.
Proof. intros H1 H2. split; [done|]. rewrite H2. constructor. Qed.

Lemma ReadHttpData_uses c c' n : ReadHttpData c = Some (c', n) -> uses c c'.
Proof.
  unfold ReadHttpData. intros H.
  destruct (_ =? 0); [|simplify_eq; apply uses_refl].
  destruct (GetFreeBuffer _) as [[b off] sz]. destruct (Z.eqb_spec sz 0); [simplify_eq; by apply uses_same|].
  destruct (conn_ c) eqn:Ec; [|done].
  assert (io (peer c) (fst (ReadBuffer sz (peer c)))) as Hio by (eapply io_read; [done|constructor]).
  destruct (ReadBuffer sz (peer c)) as [p [code|data]]; simpl in Hio;
    repeat case_match; try discriminate H; injection H as <- _; by split.
Qed.

Lemma ParseRequestLine_uses c c' n : ParseRequestLine c = Some (c', n) -> uses c c'.
Proof.
  unfold ParseRequestLine, ParseUrl, ParseVersion. intros H.
  repeat case_match; try discriminate H; injection H as <- _; by apply uses_same.
Qed.

Lemma header_loop_uses fuel e len c c' n : header_loop fuel e len c = Val (c', n) -> uses c c'.
Proof.
  revert len c. induction fuel as [|fuel IH]; intros len c H; cbn [header_loop] in H; [done|].
  repeat case_match; try discriminate H; try (injection H as <- _; by apply uses_same).
  eapply uses_trans; [|by eapply IH]. by apply uses_same.
Qed.

Lemma ParseHeader_uses fuel c c' n : ParseHeader fuel c = Val (c', n) -> uses c c'.
Proof.
  unfold ParseHeader. intros H. destruct (header_loop _ _ _ _) as [[c1 [len|]]| |] eqn:E; simplify_eq.
  - eapply uses_trans; [by eapply header_loop_uses|]. by apply uses_same.
  - by eapply header_loop_uses.
Qed.

Lemma ParseBody_uses c c' n : ParseBody reserve grow c = Some (c', n) -> uses c c'.
Proof.
  unfold ParseBody. intros H. repeat case_match; try discriminate H; injection H as <- _; by apply uses_same.
Qed.

Lemma GenerateResponse_uses c c' n : GenerateResponseH cgi_ malloc_ok c = Some (c', n) -> uses c c'.
Proof.
  unfold GenerateResponseH. intros H. repeat case_match; try discriminate H; injection H as <- _; by apply uses_same.
Qed.

Lemma send_loop_uses fuel len c c' n b : send_loop fuel len c = Some (c', n, b) -> uses c c'.
Proof.
  revert len c. induction fuel as [|fuel IH]; intros len c H; cbn [send_loop] in H; [done|].
  destruct (GetFront _) as [buf|]; [|simplify_eq; apply uses_refl].
  destruct (heap_ c !! buf) as [x|]; [|done]. destruct (conn_ c) eqn:Ec; [|done].
  set (data := slice _ _ _) in H.
  assert (io (peer c) (fst (SendBuffer data (peer c)))) as Hio by (eapply io_send; constructor).
  destruct (SendBuffer data (peer c)) as [p sz]. simpl in Hio.
  repeat case_match; try discriminate H; try (injection H as <- _ _; by split).
  eapply uses_trans; [|by eapply IH]. by split.
Qed.

Lemma SendResponse_uses c c' n : SendResponse c = Some (c', n) -> uses c c'.
Proof.
  unfold SendResponse. intros H. destruct (send_loop _ _ _) as [[[c1 len] []]|] eqn:E; simplify_eq.
  - eapply uses_trans; [by eapply send_loop_uses|]. by apply uses_same.
  - by eapply send_loop_uses.
Qed.

Lemma with_read_uses evt parse c c' n :
  (forall c1 c2 m, parse c1 = Val (c2, m) -> uses c1 c2) ->
  with_read evt parse c = Val (c', n) -> uses c c'.
Proof.
  intros Hp. unfold with_read. case_decide; [|apply Hp].
  destruct (ReadHttpData c) as [[c1 ret]|] eqn:E; [|done]. apply ReadHttpData_uses in E.
  case_match; [by intros [= <- _]|]. intros Hx. eapply uses_trans; [exact E|by eapply Hp].
Qed.

Lemma lift_val {A} (x : option A) a : lift x = Val a -> x = Some a.
Proof. destruct x; simpl; congruence. Qed.

Lemma handler_uses evt c c' n : handler cgi_ reserve grow malloc_ok evt c = Val (c', n) -> uses c c'.
Proof.
  unfold handler. destruct (evtHandler_ c).
  - apply with_read_uses. intros c1 c2 m H%lift_val. by eapply ParseRequestLine_uses.
  - apply with_read_uses. intros c1 c2 m. apply ParseHeader_uses.
  - apply with_read_uses. intros c1 c2 m H%lift_val. by eapply ParseBody_uses.
  - intros H%lift_val. by eapply GenerateResponse_uses.
  - intros H%lift_val. by eapply SendResponse_uses.
Qed.

Lemma process_loop_uses fuel evt ret c c' n :
  process_loop cgi_ reserve grow malloc_ok fuel evt ret c = Val (c', n) ->
  exists c1, uses c c1 /\ (c' = c1 \/ CloseClient c1 = Some c').
Proof.
  revert ret c. induction fuel as [|fuel IH]; intros ret c H; cbn [process_loop] in H; [done|].
  destruct (handler _ _ _ _ evt c) as [[c1 len]| |] eqn:E; try done. apply handler_uses in E.
  case_match.
  - destruct (CloseClient c1) as [c2|] eqn:Ec; [|discriminate H]. injection H as <- _. exists c1. auto.
  - case_match; [|injection H as <- _; exists c1; auto].
    destruct (IH _ _ H) as (c2&Hu&Hc). exists c2. split; [by eapply uses_trans|done].
Qed.

(** What is left of a client that closes its connection. *)
Lemma CloseClient_peer c c' :
  CloseClient c = Some c' -> conn_ c = true /\ conn_ c' = false /\ peer c' = CloseConnection (peer c).
Proof. unfold CloseClient, ResetClient. intros H. repeat case_match; simplify_eq/=; done. Qed.

(** The effect of an event on the connection: reads and sends, then perhaps a close, after
    which the client has no connection. *)
Lemma ProcessEvent_io fuel evt c c' n :
  ProcessEvent cgi_ reserve grow malloc_ok fuel evt c = Val (c', n) ->
  exists p, io (peer c) p /\
    ((peer c' = p /\ conn_ c' = conn_ c) \/
     (peer c' = CloseConnection p /\ conn_ c = true /\ conn_ c' = false)).
Proof.
  intros H. apply process_loop_uses in H as (c1&[Hc Hio]&Hor). exists (peer c1). split; [done|].
  destruct Hor as [->|Hcl]; [by left|]. apply CloseClient_peer in Hcl as (H1&H2&H3). right. by rewrite <-Hc.
Qed.

End Io.

(** ** The connection of a client: a slot of the table over the kernel *)

(** An answer of [read] (at most the bytes asked for, the rest stays) and of [write] (at
    most so many bytes are taken). *)
Inductive kread : Type := KData (d : bytes) | KAgain | KErr | KEof.
Inductive kwrite : Type := WTake (n : nat) | WAgain | WErr.

(** What the kernel will answer on a descriptor, for all the connections that get it one
    after the other, and what has been written to it. *)
Record wire : Type := Wire { w_reads : list kread; w_writes : list kwrite; w_sent : bytes }.

(** [read(fd, buffer, sz)]: the result, whether [errno] is [EAGAIN], the bytes. *)
Definition kernel_read (sz : Z) (w : wire) : wire * (Z * bool * bytes) :=
  match w_reads w with
  | KData d :: ks =>
      let rest := drop (Z.to_nat sz) d in
      (Wire (if decide (rest = []) then ks else KData rest :: ks) (w_writes w) (w_sent w),
       (blen (take (Z.to_nat sz) d), false, take (Z.to_nat sz) d))
  | KAgain :: ks => (Wire ks (w_writes w) (w_sent w), (-1, true, []))
  | KErr :: ks => (Wire ks (w_writes w) (w_sent w), (-1, false, []))
  | KEof :: ks => (Wire ks (w_writes w) (w_sent w), (0, false, []))
  | [] => (w, (-1, true, []))
  end.

(** [write(fd, data, size)]: the result and whether [errno] is [EAGAIN]. *)
Definition kernel_write (data : bytes) (w : wire) : wire * (Z * bool) :=
  match w_writes w with
  | WTake n :: ks => (Wire (w_reads w) ks (w_sent w ++ take n data), (blen (take n data), false))
  | WAgain :: ks => (Wire (w_reads w) ks (w_sent w), (-1, true))
  | WErr :: ks => (Wire (w_reads w) ks (w_sent w), (-1, false))
  | [] => (Wire (w_reads w) [] (w_sent w ++ data), (blen data, false))
  end.

(** A [SocketConnection*]: the index of its slot, with the table it forwards to, the kernel,
    and whether an [assert] of the table has failed. *)
Record port : Type := Port {
  p_slot : nat; p_server : ServerImpl; p_wires : gmap nat wire; p_bad : bool
}.

Definition no_wire : wire := Wire [] [] [].
Definition wire_at (fd : nat) (m : gmap nat wire) : wire := default no_wire (m !! fd).

Definition assert_failed (p : port) : port := Port (p_slot p) (p_server p) (p_wires p) true.

Definition port_read (sz : Z) (p : port) : port * read_result :=
  match sockets_ (p_server p) !! p_slot p with
  | None => (assert_failed p, ReadFail (-1))
  | Some x =>
      let '(w, (n, again, data)) := kernel_read sz (wire_at (fd_ x) (p_wires p)) in
      match ServerRead (fd_ x) n sz again (p_server p) with
      | None => (assert_failed p, ReadFail (-1))
      | Some (s, r) =>
          (Port (p_slot p) s (<[fd_ x := w]> (p_wires p)) (p_bad p),
           if r <? 0 then ReadFail r else ReadData data)
      end
  end.

Definition port_send (data : bytes) (p : port) : port * Z :=
  match sockets_ (p_server p) !! p_slot p with
  | None => (assert_failed p, -1)
  | Some x =>
      let '(w, (n, again)) := kernel_write data (wire_at (fd_ x) (p_wires p)) in
      match ServerSend (fd_ x) n (blen data) again (p_server p) with
      | None => (assert_failed p, -1)
      | Some (s, r) =>          (* -2: the slot is not in use, and [write] is not called *)
          (Port (p_slot p) s (if r =? -2 then p_wires p else <[fd_ x := w]> (p_wires p)) (p_bad p), r)
      end
  end.

Definition port_close (p : port) : port :=
  match sockets_ (p_server p) !! p_slot p with
  | None => assert_failed p
  | Some x =>
      match CloseSocket (fd_ x) (p_server p) with
      | None => assert_failed p
      | Some (s, _) => Port (p_slot p) s (p_wires p) (p_bad p)
      end
  end.

#[export] Instance port_connection : Connection port := {|
  ReadBuffer := port_read; SendBuffer := port_send; CloseConnection := port_close
|}.

(** What the client relies on: no more bytes than asked for, negative failures, no more
    sent than given. *)
#[export] Instance port_connection_spec : ConnectionSpec port.
Proof.
  split; cbn.
  - intros sz c c' data Hsz. unfold port_read, kernel_read.
    destruct (sockets_ (p_server c) !! p_slot c) as [x|]; [|done].
    destruct (w_reads (wire_at (fd_ x) (p_wires c))) as [|[d| | |] ks];
      (destruct (ServerRead _ _ _ _ _) as [[s r]|]; [|done]); (destruct (r <? 0); [done|]);
      intros [= _ <-]; try (by change (blen []) with 0).
    unfold blen. rewrite length_take. lia.
  - intros sz c c' code. unfold port_read.
    destruct (sockets_ (p_server c) !! p_slot c) as [x|]; [|by intros [= _ <-]].
    destruct (kernel_read _ _) as [w [[n a] d]]. destruct (ServerRead _ _ _ _ _) as [[s r]|]; [|by intros [= _ <-]].
    destruct (Z.ltb_spec r 0); [|done]. by intros [= _ <-].
  - intros data c c' n. unfold port_send. pose proof (blen_nonneg data).
    destruct (sockets_ (p_server c) !! p_slot c) as [x|]; [|intros [= _ <-]; lia].
    destruct (kernel_write data _) as [w [k a]] eqn:E.
    assert (Hk : k <= blen data).
    { unfold kernel_write in E. destruct (w_writes _) as [|[m| |] ks]; injection E as _ <- _; try lia.
      unfold blen. rewrite length_take. lia. }
    unfold ServerSend. destruct (sockets_ (p_server c) !! fd_ x) as [y|]; [|intros [= _ <-]; lia].
    repeat case_match; simplify_eq; intros [= _ <-]; lia.
Qed.

(** ** The server *)

(** The same client over another view of its connection. *)
Definition rebind {C D} (p : D) (c : HttpClient C) : HttpClient D :=
  Client (keepalive_ c) (readBuffer_ c) (heap_ c) (writeBuffer_ c) (pendingWrite_ c) (request_ c)
    (clientResponse_ c) (evtHandler_ c) (conn_ c) p.

(** [conn_[id]] holds the clients, whose connection is the index of a slot; [pending] are
    the two queues of [ServerImpl::RunPoll]. *)
Record site : Type := Site {
  http : HttpServer; clients : list (option (HttpClient nat));
  wires : gmap nat wire; pending : queues; broken : bool
}.

Definition table (t : site) : ServerImpl := tcpServer_ (http t).

Definition set_table (s : ServerImpl) (h : HttpServer) : HttpServer :=
  Http (stop_ h) (watching_ h) (listenFd_ h) s.

Inductive outcome : Type :=
| Serving (t : site)
| Waiting                (* [epoll_wait] has nothing more to report *)
| ClientCrash (id : nat) | ClientSpin (id : nat)
| ServerCrash.

(** One round of [HttpServer::RunPoll]: whether [epoll_ctl] accepts the listening socket,
    and what [epoll_wait] reports each time it is called. *)
Record round : Type := Round { r_add_ok : bool; r_batches : list (list poll_event) }.

Section Server.
Variable date : bytes.                        (* what [strftime] writes *)
Variables (reserve grow : Z -> Z -> Z) (malloc_ok : bool).
Variables (junk : bytes) (cap0 : Z) (fuel : nat).

(** [new HttpClient(DefaultHttpRequestHandler)]: 8 write buffers of 1024 bytes; [junk] is
    the memory of the read buffer. *)
Definition new_client (slot : nat) : HttpClient nat :=
  let '(h, w, _) := InitBuffer 1024 (replicate 8 malloc_ok) ∅ in
  Client false (HttpReadBuffer_init junk) h w HttpBufferList_init (HttpRequest_init cap0)
    (HttpResponse_init false HSC_UNKNOWN) ProcessRequestLine_h false slot.

(** The client works on the table of the site, and leaves its changes there. *)
Definition attach (t : site) (c : HttpClient nat) : HttpClient port :=
  rebind (Port (peer c) (table t) (wires t) (broken t)) c.

Definition detach (id : nat) (c : HttpClient port) (t : site) : site :=
  let p := peer c in
  Site (set_table (p_server p) (http t)) (<[id := Some (rebind (p_slot p) c)]> (clients t))
    (p_wires p) (pending t) (p_bad p).

(** [HttpServer::PollHandler]; an event without a code is a crash here. *)
Definition handle_event (e : socket_event) (t : site) : outcome :=
  match sockets_ (table t) !! conn e, code e with
  | Some x, Some c =>
      let id := fd_ x in                      (* [evt.conn->GetConnectionId()] *)
      match clients t !! id with
      | None => ServerCrash
      | Some o =>
          let cl := default (new_client id) o in
          let t := Site (http t) (<[id := Some cl]> (clients t)) (wires t) (pending t) (broken t) in
          match HttpServer.PollHandler c with
          | Process =>
              match ProcessEvent (DefaultHttpRequestHandler date) reserve grow malloc_ok fuel c (attach t cl) with
              | Val (cl', _) => Serving (detach id cl' t)
              | Crash => ClientCrash id
              | Spin => ClientSpin id
              end
          | Reset =>
              match ResetClient true (set_peer (conn e) cl) with
              | Some cl' => Serving (Site (http t) (<[id := Some cl']> (clients t)) (wires t) (pending t) (broken t))
              | None => ClientCrash id
              end
          | CloseConn =>
              match CloseSocket id (table t) with
              | Some (s, _) => Serving (Site (set_table s (http t)) (clients t) (wires t) (pending t) (broken t))
              | None => ServerCrash
              end
          | Nothing => Serving t
          end
      end
  | _, _ => ServerCrash
  end.

(** The loop of [HttpServer::RunPoll]. *)
Definition server_round (r : round) (t : site) : outcome :=
  match watch_policy (Z.of_nat (length (clients t))) (r_add_ok r) (http t) with
  | None => ServerCrash
  | Some h =>
      match RunPoll (r_batches r) (tcpServer_ h, pending t) with
      | None => ServerCrash
      | Some None => Waiting
      | Some (Some (e, (s, q))) =>
          handle_event e (Site (set_table s h) (clients t) (wires t) q (broken t))
      end
  end.

Fixpoint serve (rs : list round) (t : site) : outcome :=
  match rs with
  | [] => Serving t
  | r :: rs' =>
      if stop_ (http t) then Serving t
      else match server_round r t with Serving t' => serve rs' t' | o => o end
  end.

(** [HttpServer::HttpServer], [SetListenSock] and the first lines of [RunServer]; [ws] are
    the answers of the kernel, [mem] the memory of the [max_conn_id] slots.  [listenFd_] is -1 until [SetListenSock]; nothing reads it
    before. *)
Definition start (mem : list slot) (fds : gset nat) (ws : gmap nat wire) (add_ok : bool) (fd : nat) :
    option site :=
  match SetListenSock add_ok fd (Http false false 0 (ServerImpl_init mem fds)) with
  | Some h =>
      Some (Site (set_table (SetWatchAcceptedSock true (tcpServer_ h)) h) (replicate (length mem) None) ws
              (Queues [] []) false)
  | None => None
  end.

End Server.

(** ** One connection at a time *)

(** At most the slot [i], its registration and its descriptor are touched. *)
Record only (i : nat) (s s' : ServerImpl) : Prop := {
  on_slot : forall j, j <> i -> sockets_ s' !! j = sockets_ s !! j;
  on_poll : forall j, j <> i -> poller_ s' !! j = poller_ s !! j;
  on_fds : forall j, j <> i -> (j ∈ open_fds s' <-> j ∈ open_fds s);
  on_sub : open_fds s' ⊆ open_fds s;
  on_len : length (sockets_ s') = length (sockets_ s);
  on_watch : watchAccepted_ s' = watchAccepted_ s
}.

Lemma only_refl i s : only i s s.
Proof. by split. Qed.

Lemma only_trans i s1 s2 s3 : only i s1 s2 -> only i s2 s3 -> only i s1 s3.
Proof.
  intros [A1 A2 A3 A4 A5 A6] [B1 B2 B3 B4 B5 B6]. split.
  - intros j Hj. by rewrite B1, A1.
  - intros j Hj. by rewrite B2, A2.
  - intros j Hj. by rewrite B3, A3.
  - by etrans.
  - congruence.
  - congruence.
Qed.

Lemma ModifySocket_only i w s : only i s (fst (ModifySocket i w s)).
Proof.
  unfold ModifySocket. destruct (poller_ s !! i); [|apply only_refl]. split; try done.
  intros j Hj. cbn. by rewrite lookup_insert_ne.
Qed.

Lemma ModifySocket_sockets i w s : sockets_ (fst (ModifySocket i w s)) = sockets_ s.
Proof. unfold ModifySocket. by destruct (poller_ s !! i). Qed.

Lemma ServerRead_only i x n sz again s s' r :
  sockets_ s !! i = Some x -> fd_ x = i -> ServerRead i n sz again s = Some (s', r) ->
  only i s s' /\ sockets_ s' = sockets_ s.
Proof.
  intros Hx Hf. unfold ServerRead. rewrite Hx, Hf. case_match; [done|]. intros Hr.
  pose proof (ModifySocket_only i false s) as Ho. pose proof (ModifySocket_sockets i false s) as Hs.
  destruct (ModifySocket i false s) as [s1 b]. repeat case_match; injection Hr as <- _; done.
Qed.

Lemma ServerSend_only i x n sz again s s' r :
  sockets_ s !! i = Some x -> fd_ x = i -> ServerSend i n sz again s = Some (s', r) ->
  only i s s' /\ sockets_ s' = sockets_ s.
Proof.
  intros Hx Hf. unfold ServerSend. rewrite Hx, Hf. intros H.
  case_match; [injection H as <- _; split; [apply only_refl|done]|]. case_match; [done|].
  case_match; [injection H as <- _; split; [apply only_refl|done]|].
  pose proof (ModifySocket_only i ((if n <? 0 then 0 else n) <? sz) s) as Ho.
  pose proof (ModifySocket_sockets i ((if n <? 0 then 0 else n) <? sz) s) as Hs.
  destruct (ModifySocket i _ s) as [s1 b]. by injection H as <- _.
Qed.

Lemma RemoveSocket_only i s : only i s (fst (RemoveSocket i s)).
Proof.
  unfold RemoveSocket. destruct (poller_ s !! i); [|apply only_refl]. split; try done.
  intros j Hj. cbn. by rewrite lookup_delete_ne.
Qed.

Lemma set_slot_only i x s : only i s (set_slot i x s).
Proof.
  split; try done; cbn; [|by rewrite length_insert].
  intros j Hj. by rewrite list_lookup_insert_ne.
Qed.

Lemma close_only i s : only i s (close i s).
Proof.
  split; cbn; [done| |set_solver..|done|done].
  intros j Hj. by rewrite lookup_delete_ne.
Qed.

Lemma CloseSocket_only i x s s' b :
  sockets_ s !! i = Some x -> fd_ x = i -> CloseSocket i s = Some (s', b) -> only i s s'.
Proof.
  intros Hx Hf. unfold CloseSocket, ForceSocketClose. rewrite Hx, Hf. intros H.
  destruct (decide _); [injection H as <- _; apply only_refl|].
  destruct (decide _); [injection H as <- _; apply only_refl|].
  pose proof (RemoveSocket_only i (set_connNum (connNum_ s - 1) s)) as Ho.
  destruct (RemoveSocket i (set_connNum (connNum_ s - 1) s)) as [s1 b1].
  injection H as <- _. eapply only_trans; [|apply close_only]. eapply only_trans; [|apply set_slot_only].
  eapply only_trans; [|exact Ho]. by split.
Qed.

(** A port to a connection of a consistent table. *)
Record port_ok (p : port) : Prop := {
  po_table : sinv (p_server p);
  po_slot : exists x, sockets_ (p_server p) !! p_slot p = Some x /\ status_ x = SS_CONNECTED;
  po_good : p_bad p = false
}.

(** The rest of the world stays. *)
Record port_only (p p' : port) : Prop := {
  pn_slot : p_slot p' = p_slot p;
  pn_table : only (p_slot p) (p_server p) (p_server p');
  pn_wires : forall j, j <> p_slot p -> p_wires p' !! j = p_wires p !! j
}.

Lemma port_only_refl p : port_only p p.
Proof. by split. Qed.

Lemma port_only_trans p1 p2 p3 : port_only p1 p2 -> port_only p2 p3 -> port_only p1 p3.
Proof.
  intros [A1 A2 A3] [B1 B2 B3]. rewrite A1 in *. split; [done|by eapply only_trans|].
  intros j Hj. by rewrite B3, A3.
Qed.

Lemma port_read_ok sz p :
  port_ok p -> sz <> 0 -> port_ok (fst (port_read sz p)) /\ port_only p (fst (port_read sz p)).
Proof.
  intros [HI (x&Hx&Hst) Hb] Hsz. destruct (si_fd _ HI _ _ Hx) as [Hf _]; [by rewrite Hst|].
  unfold port_read. rewrite Hx, Hf. destruct (kernel_read sz _) as [w [[n again] data]].
  destruct (exec_sinv (ORead (p_slot p) n sz again) _ HI) as (s'&E&HI'); [by split; [|exists x]|].
  cbn in E. destruct (ServerRead (p_slot p) n sz again (p_server p)) as [[s1 r]|] eqn:Er; [|done].
  injection E as ->. destruct (ServerRead_only _ x _ _ _ _ _ _ Hx Hf Er) as [Ho Hs]. cbn. split.
  - split; [done| |done]. cbn. rewrite Hs. by exists x.
  - split; [done|done|]. intros j Hj. cbn. by rewrite lookup_insert_ne.
Qed.

Lemma port_send_ok data p :
  port_ok p -> port_ok (fst (port_send data p)) /\ port_only p (fst (port_send data p)).
Proof.
  intros [HI (x&Hx&Hst) Hb]. destruct (si_fd _ HI _ _ Hx) as [Hf _]; [by rewrite Hst|].
  unfold port_send. rewrite Hx, Hf. destruct (kernel_write data _) as [w [n again]].
  destruct (exec_sinv (OSend (p_slot p) n (blen data) again) _ HI) as (s'&E&HI'); [by exists x|].
  cbn in E. destruct (ServerSend (p_slot p) n (blen data) again (p_server p)) as [[s1 r]|] eqn:Er; [|done].
  injection E as ->. destruct (ServerSend_only _ x _ _ _ _ _ _ Hx Hf Er) as [Ho Hs]. cbn. split.
  - split; [done| |done]. cbn. rewrite Hs. by exists x.
  - split; [done|done|]. intros j Hj. cbn. case_match; [done|]. by rewrite lookup_insert_ne.
Qed.

Lemma io_ok p p' : io p p' -> port_ok p -> port_ok p' /\ port_only p p'.
Proof.
  induction 1 as [p|p p' sz Hsz _ IH|p p' data _ IH]; intros Hp; [split; [done|apply port_only_refl]|..].
  - destruct (port_read_ok sz p Hp Hsz) as [H1 H2]. destruct (IH H1) as [H3 H4].
    split; [done|by eapply port_only_trans].
  - destruct (port_send_ok data p Hp) as [H1 H2]. destruct (IH H1) as [H3 H4].
    split; [done|by eapply port_only_trans].
Qed.

(** A close frees the slot. *)
Lemma port_close_ok p :
  port_ok p ->
  sinv (p_server (port_close p)) /\ p_bad (port_close p) = false /\ port_only p (port_close p) /\
  exists x, sockets_ (p_server (port_close p)) !! p_slot p = Some x /\ status_ x = SS_INVALID.
Proof.
  intros [HI (x&Hx&Hst) Hb]. destruct (si_fd _ HI _ _ Hx) as [Hf _]; [by rewrite Hst|].
  destruct (close_sinv (p_slot p) _ HI) as (s'&E&HI'); [exists x; auto|].
  unfold port_close. rewrite Hx, Hf. cbn in E.
  destruct (CloseSocket (p_slot p) (p_server p)) as [[s1 b]|] eqn:Ec; [|done]. injection E as ->. cbn.
  split; [done|]. split; [done|]. split; [split; [done|by eapply CloseSocket_only|done]|].
  unfold CloseSocket, ForceSocketClose, RemoveSocket in Ec. rewrite Hx, Hf in Ec.
  rewrite decide_False in Ec by (rewrite Hst; intros [?|?]; done). rewrite decide_False in Ec by by rewrite Hst.
  exists (set_status SS_INVALID x). split; [|done].
  destruct (poller_ _ !! p_slot p); injection Ec as <- _; cbn; apply list_lookup_insert_eq;
    by eapply lookup_lt_Some.
Qed.

(** ** The invariant of the server *)

(** The table of a server that listens on [lf]. *)
Record tinv (lf : nat) (s : ServerImpl) : Prop := {
  ti_inv : sinv s;
  ti_watch : watchAccepted_ s = true;
  ti_open : lf ∈ open_fds s;
  ti_len : (lf < length (sockets_ s))%nat;
  ti_status : forall i x, sockets_ s !! i = Some x ->
    status_ x = SS_INVALID \/ (status_ x = SS_CONNECTED /\ i <> lf) \/ (status_ x = SS_LISTENING /\ i = lf)
}.

Definition qconns (q : queues) : list nat := map conn (accept_queue q ++ read_write_queue q).

Definition connected (s : ServerImpl) (i : nat) : Prop :=
  exists x, sockets_ s !! i = Some x /\ status_ x = SS_CONNECTED.

(** At most one event is queued for each connection, and the connection is open. *)
Record qinv (s : ServerImpl) (q : queues) : Prop := {
  qi_nodup : NoDup (qconns q);
  qi_conn : forall i, i ∈ qconns q -> connected s i;
  qi_acc : forall e, e ∈ accept_queue q -> code e = Some SC_ACCEPTED;
  qi_rw : forall e, e ∈ read_write_queue q -> code e = Some SC_READ \/ code e = Some SC_WRITE
}.

(** Every connection has its client, unless it has just been accepted. *)
Record cinv (s : ServerImpl) (q : queues) (cs : list (option (HttpClient nat))) : Prop := {
  ci_len : length cs = length (sockets_ s);
  ci_client : forall i, connected s i -> i ∈ map conn (accept_queue q) \/
    exists c, cs !! i = Some (Some c) /\ conn_ c = true /\ peer c = i
}.

(** What [epoll_wait] and the calls that handle its events promise: the descriptors it
    reports are registered (with their slot) and armed, readable or writable; [accept]
    returns a new descriptor of the table, and [epoll_ctl] registers it.  The source leaves
    the code of an event that is neither readable nor writable uninitialised, and crashes
    when [epoll_ctl] refuses an accepted connection ([accept_add_fails]): both are outside
    the theorems of this file; SocketApi.v has them. *)
Definition event_ok (s : ServerImpl) (e : poll_event) : Prop :=
  (exists i, poller_ s !! ev_fd e = Some i /\ armed i = true) /\
  (ev_fd e < length (sockets_ s))%nat /\
  ev_read e || ev_write e = true /\ ev_add_ok e = true /\
  (forall x c, sockets_ s !! ev_fd e = Some x -> status_ x = SS_LISTENING -> ev_client e = Some c ->
     c ∉ open_fds s /\ (c < length (sockets_ s))%nat).

Definition batch_ok (s : ServerImpl) (b : list poll_event) : Prop :=
  NoDup (map ev_fd b) /\ Forall (event_ok s) b.

#[export] Instance event_ok_dec s e : Decision (event_ok s e).
Proof.
  unfold event_ok. repeat apply and_dec; try exact _.
  - destruct (poller_ s !! ev_fd e) as [i|]; [|right; by intros (?&?&_)].
    destruct (decide (armed i = true)); [left; eauto|right; by intros (?&[= <-]&?)].
  - destruct (sockets_ s !! ev_fd e) as [x|]; [|by left].
    destruct (decide (status_ x = SS_LISTENING)) as [Hl|Hl]; [|left; by intros ? ? [= <-] ?].
    destruct (ev_client e) as [c|]; [|by left].
    destruct (decide (c ∉ open_fds s /\ (c < length (sockets_ s))%nat)) as [Hc|Hc].
    + left. by intros ? ? [= <-] _ [= <-].
    + right. intros H. by apply Hc, (H x c).
Defined.

#[export] Instance batch_ok_dec s b : Decision (batch_ok s b).
Proof. unfold batch_ok. apply _. Defined.

(** A new connection. *)
Lemma accept_shape lf s c x :
  tinv lf s -> sockets_ s !! lf = Some x -> c ∉ open_fds s -> (c < length (sockets_ s))%nat ->
  exists s', HandleAcceptReady true lf (Some c) s = Some (s', SC_SUCC, c) /\
    sockets_ s' = <[c := Slot c SS_CONNECTED (opaque_ x)]> (sockets_ s) /\
    poller_ s' = <[c := Interest true false]> (poller_ s) /\
    open_fds s' = open_fds s ∪ {[c]} /\ watchAccepted_ s' = true /\ connNum_ s' = connNum_ s + 1.
Proof.
  intros HT Hx Hnew Hlt. unfold HandleAcceptReady. rewrite Hx.
  destruct (lookup_lt_is_Some_2 (sockets_ s) c Hlt) as [y Hy].
  assert (Hinv : status_ y = SS_INVALID).
  { destruct (decide (status_ y = SS_INVALID)); [done|]. by destruct (si_fd _ (ti_inv _ _ HT) c y Hy). }
  assert (Hnp : poller_ s !! c = None).
  { destruct (poller_ s !! c) eqn:E; [|done].
    destruct (proj2 (si_polled _ (ti_inv _ _ HT) c y Hy)) as [H|H]; rewrite ?E, ?Hinv in *; done. }
  unfold SetupSocketConnection. cbn [sockets_ set_connNum set_fds]. rewrite Hy, decide_True by done.
  pose proof (ti_watch _ _ HT) as Hw.
  unfold AddSocket, update_status, set_slot. cbn. rewrite Hnp, Hw. cbn. rewrite ?Hw, list_lookup_insert_eq by done. cbn.
  eexists. split; [reflexivity|]. cbn. rewrite list_insert_insert_eq. done.
Qed.

Lemma deliver_some s e :
  event_ok s e -> exists i, deliver (ev_fd e) s = Some (set_poller (<[ev_fd e := Interest false (want_write i)]> (poller_ s)) s).
Proof. intros [(i&Hi&Ha) _]. exists i. unfold deliver. by rewrite Hi, Ha. Qed.

Lemma deliver_tinv lf fd s s' : tinv lf s -> deliver fd s = Some s' -> tinv lf s'.
Proof.
  intros [H1 H2 H3 H4 H5] Hd. pose proof (deliver_sinv _ _ _ H1 Hd) as HI. unfold deliver in Hd.
  destruct (poller_ s !! fd) as [i|]; [|done]. destruct (armed i); [|done]. by injection Hd as <-.
Qed.

(** What does not depend on the flags of the registrations. *)
Lemma qinv_sockets s s' q : sockets_ s' = sockets_ s -> qinv s q -> qinv s' q.
Proof. intros Hs [H1 H2 H3 H4]. split; try done. intros i Hi. unfold connected. rewrite Hs. by apply H2. Qed.

Lemma cinv_sockets s s' q cs : sockets_ s' = sockets_ s -> cinv s q cs -> cinv s' q cs.
Proof. intros Hs [H1 H2]. split; [by rewrite Hs|]. intros i. unfold connected. rewrite Hs. apply H2. Qed.

(** A registered event of the table belongs to a connection or to the listening socket. *)
Lemma event_slot lf s e :
  tinv lf s -> event_ok s e -> exists x, sockets_ s !! ev_fd e = Some x /\
    ((status_ x = SS_CONNECTED /\ ev_fd e <> lf) \/ (status_ x = SS_LISTENING /\ ev_fd e = lf)).
Proof.
  intros HT ((i&Hi&_)&Hlt&_). destruct (lookup_lt_is_Some_2 _ _ Hlt) as [x Hx]. exists x. split; [done|].
  destruct (ti_status _ _ HT _ _ Hx) as [Hs|[H|H]]; [|by left|by right].
  destruct (proj2 (si_polled _ (ti_inv _ _ HT) _ _ Hx) ltac:(by exists i)) as [H|H]; congruence.
Qed.

(** One more event at the end of a queue. *)
Lemma qinv_rw s q i c :
  qinv s q -> i ∉ qconns q -> connected s i -> c = SC_READ \/ c = SC_WRITE ->
  qinv s (Queues (accept_queue q) (read_write_queue q ++ [SE (Some c) i])).
Proof.
  intros [H1 H2 H3 H4] Hi Hc Hrw.
  assert (E : qconns (Queues (accept_queue q) (read_write_queue q ++ [SE (Some c) i])) = qconns q ++ [i]).
  { unfold qconns. cbn. by rewrite app_assoc, map_app. }
  split; [| |done|].
  - rewrite E. apply NoDup_app. split; [done|]. split; [|apply NoDup_singleton].
    intros j Hj. rewrite list_elem_of_singleton. by intros ->.
  - intros j. rewrite E, elem_of_app, list_elem_of_singleton. intros [Hj| ->]; [by apply H2|done].
  - cbn. intros e. rewrite elem_of_app, list_elem_of_singleton. intros [He| ->]; [by apply H4|].
    cbn. destruct Hrw as [-> | ->]; auto.
Qed.

Lemma qinv_acc s q i :
  qinv s q -> i ∉ qconns q -> connected s i ->
  qinv s (Queues (accept_queue q ++ [SE (Some SC_ACCEPTED) i]) (read_write_queue q)).
Proof.
  intros [H1 H2 H3 H4] Hi Hc.
  assert (E : qconns (Queues (accept_queue q ++ [SE (Some SC_ACCEPTED) i]) (read_write_queue q)) ≡ₚ i :: qconns q).
  { unfold qconns. cbn. rewrite !map_app. cbn. by rewrite <-app_assoc, Permutation_middle. }
  split; [| | |done].
  - rewrite E. by constructor.
  - intros j. rewrite E, elem_of_cons. intros [-> |Hj]; [done|by apply H2].
  - cbn. intros e. rewrite elem_of_app, list_elem_of_singleton. intros [He| ->]; [by apply H3|done].
Qed.

Lemma cinv_rw s q cs r : cinv s q cs -> cinv s (Queues (accept_queue q) r) cs.
Proof. by intros [H1 H2]. Qed.

(** The slot of a new connection was free, so that the other connections stay. *)
Lemma connected_insert s s' c op :
  sockets_ s' = <[c := Slot c SS_CONNECTED op]> (sockets_ s) ->
  forall i, connected s' i -> i = c \/ connected s i.
Proof.
  intros Hs i (x&Hx&Hst). rewrite Hs in Hx. apply list_insert_inv in Hx as [[-> _]|[_ Hx]]; [by left|].
  right. by exists x.
Qed.

Lemma insert_connected s s' c op i :
  (c < length (sockets_ s))%nat -> sockets_ s' = <[c := Slot c SS_CONNECTED op]> (sockets_ s) ->
  i = c \/ connected s i -> connected s' i.
Proof.
  intros Hlt Hs Hi. destruct (decide (i = c)) as [->|Hne].
  - exists (Slot c SS_CONNECTED op). by rewrite Hs, list_lookup_insert_eq.
  - destruct Hi as [?|(x&Hx&Hst)]; [done|]. exists x. by rewrite Hs, list_lookup_insert_ne.
Qed.

Lemma accept_inv lf s c q cs x :
  tinv lf s -> qinv s q -> cinv s q cs -> sockets_ s !! lf = Some x -> status_ x = SS_LISTENING ->
  c ∉ open_fds s -> (c < length (sockets_ s))%nat ->
  exists s', HandleAcceptReady true lf (Some c) s = Some (s', SC_SUCC, c) /\
    tinv lf s' /\ qinv s' (Queues (accept_queue q ++ [SE (Some SC_ACCEPTED) c]) (read_write_queue q)) /\
    cinv s' (Queues (accept_queue q ++ [SE (Some SC_ACCEPTED) c]) (read_write_queue q)) cs /\
    (forall j, j <> c -> sockets_ s' !! j = sockets_ s !! j /\ poller_ s' !! j = poller_ s !! j) /\
    length (sockets_ s') = length (sockets_ s) /\ (forall j, connected s j -> connected s' j).
Proof.
  intros HT HQ HC Hx Hst Hnew Hlt. destruct (accept_shape lf s c x) as (s'&E&Hs&Hp&Ho&Hw&_); try done.
  exists s'. assert (Hlen : length (sockets_ s') = length (sockets_ s)) by by rewrite Hs, length_insert.
  assert (Hcl : c <> lf) by (intros ->; by destruct (Hnew (ti_open _ _ HT))).
  destruct (accept_sinv lf (Some c) s (ti_inv _ _ HT)) as (s1&E1&HI).
  { split; [by exists x|]. by intros ? [= <-]. }
  cbn in E1. rewrite E in E1. injection E1 as <-.
  assert (Hcs : connected s' c) by (eapply insert_connected; eauto).
  split_and!; [done| | | | |done|by intros j Hj; eapply insert_connected; eauto].
  - split; [done|done| |rewrite Hlen; apply (ti_len _ _ HT)|].
    + rewrite Ho. apply elem_of_union_l, (ti_open _ _ HT).
    + intros i y Hy. rewrite Hs in Hy. apply list_insert_inv in Hy as [[-> ->]|[_ Hy]].
      * right. left. done.
      * by apply (ti_status _ _ HT).
  - apply qinv_acc; [|intros Hin|done].
    + destruct HQ as [H1 H2 H3 H4]. split; try done. intros i Hi. eapply insert_connected; eauto.
    + destruct (qi_conn _ _ HQ c Hin) as (y&Hy&Hsy).
      destruct (si_fd _ (ti_inv _ _ HT) c y Hy) as [_ ?]; [by rewrite Hsy|done].
  - split; [rewrite Hlen; apply (ci_len _ _ _ HC)|]. intros i Hi. cbn [accept_queue].
    rewrite map_app, elem_of_app. destruct (connected_insert _ _ _ _ Hs i Hi) as [-> |Hi'].
    + left. right. cbn. by apply list_elem_of_singleton.
    + destruct (ci_client _ _ _ HC i Hi') as [?|?]; [by left; left|by right].
  - intros j Hj. by rewrite Hs, Hp, list_lookup_insert_ne, lookup_insert_ne.
Qed.

(** What the events of [epoll_wait] do to the table: connections stay, and as long as the
    listening socket is disarmed there are no new ones. *)
Record polled (lf : nat) (s s' : ServerImpl) : Prop := {
  pd_open : forall j, connected s j -> connected s' j;
  pd_quiet : disarmed lf s -> disarmed lf s' /\ sockets_ s' = sockets_ s /\ connNum_ s' = connNum_ s
}.

Lemma polled_refl lf s : polled lf s s.
Proof. by split. Qed.

Lemma polled_trans lf s1 s2 s3 : polled lf s1 s2 -> polled lf s2 s3 -> polled lf s1 s3.
Proof.
  intros [A1 A2] [B1 B2]. split; [by intros j Hj; apply B1, A1|].
  intros Hd. destruct (A2 Hd) as (Hd'&Hs&Hn). destruct (B2 Hd') as (Hd2&Hs2&Hn2).
  split; [done|]. split; congruence.
Qed.

Lemma deliver_polled lf fd s s' : deliver fd s = Some s' -> polled lf s s'.
Proof.
  unfold deliver. destruct (poller_ s !! fd) as [i|] eqn:Hi; [|done]. destruct (armed i) eqn:Ha; [|done].
  intros [= <-]. split; [done|]. intros [Hl (k&Hk&Hak)]. split; [|done]. split; [done|]. exists k. cbn.
  rewrite lookup_insert_ne; [done|]. intros ->. congruence.
Qed.

(** One event of a batch: it is queued or accepted, and the other events of the batch are
    as good as before. *)
Lemma poll_one_inv lf s q cs e :
  tinv lf s -> qinv s q -> cinv s q cs -> event_ok s e -> ev_fd e ∉ qconns q ->
  exists s' q', poll_one e (s, q) = Some (s', q') /\ tinv lf s' /\ qinv s' q' /\ cinv s' q' cs /\
    polled lf s s' /\
    (forall e', ev_fd e' <> ev_fd e -> event_ok s e' -> ev_fd e' ∉ qconns q ->
       event_ok s' e' /\ ev_fd e' ∉ qconns q').
Proof.
  intros HT HQ HC HE Hnq. destruct (deliver_some s e HE) as [i Hd].
  destruct (event_slot lf s e HT HE) as (x&Hx&Hst). pose proof HE as (_&_&Hrw&Hadd&Hacc).
  unfold poll_one. rewrite Hd.
  set (s1 := set_poller (<[ev_fd e := Interest false (want_write i)]> (poller_ s)) s) in *.
  assert (HT1 : tinv lf s1) by by eapply deliver_tinv.
  assert (HP1 : polled lf s s1) by by eapply deliver_polled.
  assert (HQ1 : qinv s1 q) by by apply (qinv_sockets s s1).
  assert (HC1 : cinv s1 q cs) by by apply (cinv_sockets s s1).
  assert (Hkeep : forall e', ev_fd e' <> ev_fd e -> event_ok s e' -> event_ok s1 e').
  { intros e' Hne ((k&Hk&Ha)&Hrest). split; [|exact Hrest]. exists k. unfold s1. cbn. by rewrite lookup_insert_ne. }
  change (sockets_ s1 !! ev_fd e) with (sockets_ s !! ev_fd e). rewrite Hx.
  destruct Hst as [[Hst Hlf]|[Hst Hlf]]; rewrite Hst.
  - assert (exists c, (if ev_read e then Some SC_READ else if ev_write e then Some SC_WRITE else None) = Some c /\
      (c = SC_READ \/ c = SC_WRITE)) as (c&->&Hc) by (destruct (ev_read e), (ev_write e); eauto; done).
    eexists _, _. split; [reflexivity|]. split_and!; [done| |by apply cinv_rw|done|].
    + apply qinv_rw; [done..| |done]. by exists x.
    + intros e' Hne He' Hq. split; [by apply Hkeep|]. unfold qconns. cbn. rewrite app_assoc, map_app, elem_of_app.
      intros [Hin|Hin]; [done|]. cbn in Hin. by apply list_elem_of_singleton in Hin.
  - rewrite Hlf in *. destruct (ev_client e) as [c|] eqn:Ec.
    + rewrite Hadd. destruct (Hacc x c Hx Hst eq_refl) as [Hnew Hlt].
      destruct (accept_inv lf s1 c q cs x) as (s'&E&HT'&HQ'&HC'&Hoth&Hlen&Hmono); try done.
      rewrite E. eexists _, _. split; [reflexivity|]. split_and!; [done..| |].
      { split; [by intros j Hj; apply Hmono, HP1|]. intros [_ (k&Hk&Ha)].
        destruct HE as [(k'&Hk'&Ha') _]. rewrite Hlf in Hk'. congruence. }
      intros e' Hne He' Hq. pose proof (Hkeep e' Hne He') as He1.
      assert (Hc' : ev_fd e' <> c).
      { intros Heq. destruct (event_slot lf s1 e' HT1 He1) as (y&Hy&Hys).
        destruct (si_fd _ (ti_inv _ _ HT1) _ _ Hy) as [_ Hop]; [by destruct Hys as [[-> _]|[-> _]]|].
        apply Hnew. by rewrite <-Heq. }
      destruct (event_slot lf s1 e' HT1 He1) as (y&Hy&Hys).
      destruct (Hoth _ Hc') as [Hs' Hp']. destruct He1 as ((k&Hk&Ha)&Hl1&Hr1&Hadd1&_). split.
      * split; [exists k; by rewrite Hp'|]. split; [by rewrite Hlen|]. split; [done|]. split; [done|].
        intros y' c' Hy' Hsy' _. rewrite Hs', Hy in Hy'. injection Hy' as <-.
        destruct Hys as [[Hys _]|[_ Hys]]; [by rewrite Hys in Hsy'|done].
      * unfold qconns. cbn. rewrite !map_app. rewrite !elem_of_app. unfold qconns in Hq.
        rewrite map_app, elem_of_app in Hq. intros [[Hin|Hin]|Hin]; [tauto| |tauto].
        cbn in Hin. by apply list_elem_of_singleton in Hin.
    + unfold HandleAcceptReady. change (sockets_ s1 !! lf) with (sockets_ s !! lf). rewrite Hx.
      eexists _, _. split; [reflexivity|]. split_and!; [done..|]. intros e' Hne He' Hq. split; [by apply Hkeep|done].
Qed.

Lemma poll_all_inv lf b s q cs :
  tinv lf s -> qinv s q -> cinv s q cs -> batch_ok s b -> (forall e, e ∈ b -> ev_fd e ∉ qconns q) ->
  exists s' q', poll_all b (s, q) = Some (s', q') /\ tinv lf s' /\ qinv s' q' /\ cinv s' q' cs /\
    polled lf s s'.
Proof.
  revert s q. induction b as [|e b IH]; intros s q HT HQ HC [Hnd Hok] Hnq.
  { exists s, q. split_and!; [done..|apply polled_refl]. }
  cbn [map] in Hnd. apply NoDup_cons in Hnd as [Hnd1 Hnd2]. apply Forall_cons in Hok as [He Hok].
  destruct (poll_one_inv lf s q cs e) as (s1&q1&E&HT1&HQ1&HC1&Hm1&Hkeep); [done..|apply Hnq; by left|].
  assert (Hb : forall e', e' ∈ b -> event_ok s1 e' /\ ev_fd e' ∉ qconns q1).
  { intros e' He'. apply Hkeep; [|by eapply Forall_forall|apply Hnq; by right].
    intros Heq. apply Hnd1. rewrite <-Heq. apply list_elem_of_In, in_map, list_elem_of_In, He'. }
  destruct (IH s1 q1) as (s2&q2&E2&HT2&HQ2&HC2&Hm2); try done.
  - split; [done|]. apply Forall_forall. intros e' He'. by apply Hb.
  - intros e' He'. by apply Hb.
  - exists s2, q2. cbn [poll_all]. rewrite E. split_and!; [done..|by eapply polled_trans].
Qed.

(** The kernel keeps its promises in every call of [epoll_wait] of a round. *)
Fixpoint batches_ok (bs : list (list poll_event)) (sq : ServerImpl * queues) : Prop :=
  match next_event (snd sq), bs with
  | None, b :: bs' =>
      batch_ok (fst sq) b /\ match poll_all b sq with Some sq' => batches_ok bs' sq' | None => True end
  | _, _ => True
  end.

#[export] Instance batches_ok_dec bs sq : Decision (batches_ok bs sq).
Proof.
  revert sq. induction bs as [|b bs IH]; intros sq; cbn; destruct (next_event (snd sq)); try (by left).
  apply and_dec; [apply _|]. destruct (poll_all b sq); [apply IH|by left].
Defined.

Definition has_client (cs : list (option (HttpClient nat))) (i : nat) : Prop :=
  exists c, cs !! i = Some (Some c) /\ conn_ c = true /\ peer c = i.

(** The next event: its connection is open, no other event of it is queued, and it has a
    client unless the event is the one that announces it. *)
Record ready (s : ServerImpl) (q : queues) (cs : list (option (HttpClient nat))) (e : socket_event) : Prop := {
  rd_queue : qinv s q;
  rd_new : conn e ∉ qconns q;
  rd_conn : connected s (conn e);
  rd_len : length cs = length (sockets_ s);
  rd_code : code e = Some SC_ACCEPTED \/
    ((code e = Some SC_READ \/ code e = Some SC_WRITE) /\ has_client cs (conn e));
  rd_client : forall i, i <> conn e -> connected s i -> i ∈ map conn (accept_queue q) \/ has_client cs i
}.

Lemma next_event_ready s q cs e q' :
  qinv s q -> cinv s q cs -> next_event q = Some (e, q') -> ready s q' cs e.
Proof.
  intros [H1 H2 H3 H4] [C1 C2]. unfold next_event. destruct q as [a r]. cbn in *.
  destruct a as [|x a]; [destruct r as [|x r]; [done|]|]; intros [= <- <-].
  - unfold qconns in *. cbn in *. apply NoDup_cons in H1 as [H1 H1'].
    assert (Hx : connected s (conn x)) by (apply H2; by left).
    assert (Hc : has_client cs (conn x)) by (destruct (C2 _ Hx) as [Hin|Hc]; [by apply elem_of_nil in Hin|done]).
    split; [|done|done|done|right; split; [apply H4; by left|done]|by intros i _; apply C2].
    split; [done| |by intros ? ?%elem_of_nil|].
    + intros i Hi. apply H2. by right.
    + intros y Hy. apply H4. by right.
  - unfold qconns in *. cbn in *. apply NoDup_cons in H1 as [H1 H1'].
    assert (Hx : connected s (conn x)) by (apply H2; by left).
    split; [|done|done|done|left; apply H3; by left|].
    + split; [done| | |done].
      * intros i Hi. apply H2. by right.
      * intros y Hy. apply H3. by right.
    + intros i Hi Hci. destruct (C2 i Hci) as [Hin|Hc]; [|by right].
      apply elem_of_cons in Hin as [?|Hin]; [done|by left].
Qed.

Lemma RunPoll_inv lf bs s q cs :
  tinv lf s -> qinv s q -> cinv s q cs -> batches_ok bs (s, q) ->
  RunPoll bs (s, q) = Some None \/
  exists e s' q', RunPoll bs (s, q) = Some (Some (e, (s', q'))) /\ tinv lf s' /\ ready s' q' cs e /\
    polled lf s s'.
Proof.
  revert s q. induction bs as [|b bs IH]; intros s q HT HQ HC HB; cbn [RunPoll batches_ok snd fst] in *.
  all: destruct (next_event q) as [[e q']|] eqn:En.
  1,3: right; exists e, s, q'; split_and!; [done..|by eapply next_event_ready|apply polled_refl].
  - by left.
  - destruct HB as [Hb HB]. assert (Hq : qconns q = []).
    { unfold next_event in En. destruct q as [[|? ?] [|? ?]]; done. }
    destruct (poll_all_inv lf b s q cs) as (s1&q1&E&HT1&HQ1&HC1&Hm); [done..| |].
    { intros e _. rewrite Hq. by intros ?%elem_of_nil. }
    rewrite E in *. destruct (IH s1 q1) as [?|(e&s2&q2&E2&HT2&HR2&Hm2)]; [done..|by left|].
    right. exists e, s2, q2. split_and!; [done..|by eapply polled_trans].
Qed.

(** ** Serving one event *)

(** What the event of the connection [i] may change: its slot, its registration, its
    descriptor, what the kernel holds for it, and its client. *)
Record serves (i : nat) (t t' : site) : Prop := {
  sv_table : only i (table t) (table t');
  sv_clients : forall j, j <> i -> clients t' !! j = clients t !! j;
  sv_wires : forall j, j <> i -> wires t' !! j = wires t !! j;
  sv_pending : pending t' = pending t;
  sv_http : set_table (table t) (http t') = http t;
  sv_len : length (clients t') = length (clients t)
}.

(** After the event the connection is either closed or with its client. *)
Definition settled (i : nat) (t : site) : Prop :=
  sinv (table t) /\ broken t = false /\
  exists x, sockets_ (table t) !! i = Some x /\
    (status_ x = SS_INVALID \/ (status_ x = SS_CONNECTED /\ has_client (clients t) i)).

Section Serving.
Variables (date : bytes) (reserve grow : Z -> Z -> Z) (malloc_ok : bool) (junk : bytes) (cap0 : Z) (fuel : nat).

Abbreviation handle := (handle_event date reserve grow malloc_ok junk cap0 fuel).

Lemma ResetClient_conn {C} b (c c' : HttpClient C) :
  ResetClient b c = Some c' -> conn_ c' = b /\ peer c' = peer c.
Proof.
  unfold ResetClient. destruct (release_pending _ _ _ _) as [[[h w] p]|]; [|done]. by intros [= <-].
Qed.

(** The client of an open connection handles its event. *)
Lemma process_serves t i c evt c' n :
  sinv (table t) -> broken t = false -> connected (table t) i -> clients t !! i = Some (Some c) ->
  conn_ c = true -> peer c = i ->
  ProcessEvent (DefaultHttpRequestHandler date) reserve grow malloc_ok fuel evt (attach t c) = Val (c', n) ->
  serves i t (detach i c' t) /\ settled i (detach i c' t).
Proof.
  intros HI Hb (x&Hx&Hst) Hcl Hc Hp H.
  assert (Hok : port_ok (peer (attach t c))).
  { split; [done| |done]. cbn. rewrite Hp. by exists x. }
  destruct (ProcessEvent_io _ _ _ _ _ _ _ _ _ H) as (p&Hio&Hor).
  destruct (io_ok _ _ Hio Hok) as [[HI1 Hs1 Hb1] [Hn1 Ho1 Hw1]]. cbn in Hn1, Ho1, Hw1. rewrite Hp in *.
  assert (Hlt : (i < length (clients t))%nat) by by eapply lookup_lt_Some.
  assert (Hsv : forall p', p_slot p' = i -> only i (table t) (p_server p') ->
    (forall j, j <> i -> p_wires p' !! j = wires t !! j) -> peer c' = p' -> serves i t (detach i c' t)).
  { intros p' _ Ho Hw E. unfold detach. rewrite E. split; [exact Ho| |exact Hw|done| |].
    - intros j Hj. cbn. by rewrite list_lookup_insert_ne.
    - unfold table. cbn. by destruct (http t).
    - cbn. by rewrite length_insert. }
  destruct Hor as [[E Ec]|(E&Ec&_)].
  - split; [by eapply Hsv|]. unfold settled, detach. rewrite E. cbn. split; [done|]. split; [done|].
    destruct Hs1 as (y&Hy&Hsy). rewrite Hn1 in Hy. exists y. split; [done|]. right. split; [done|].
    exists (rebind (p_slot p) c'). rewrite list_lookup_insert_eq by done. cbn. by rewrite Ec.
  - destruct (port_close_ok p) as (HI2&Hb2&[Hn2 Ho2 Hw2]&y&Hy&Hsy); [done|]. rewrite Hn1 in *. split.
    + eapply (Hsv (port_close p)); [done|by eapply only_trans| |done].
      intros j Hj. by rewrite Hw2, Hw1.
    + unfold settled, detach. rewrite E. cbn. split; [done|]. split; [done|]. exists y. split; [done|by left].
Qed.

Lemma serves_client i o t :
  (i < length (clients t))%nat -> serves i t (Site (http t) (<[i := o]> (clients t)) (wires t) (pending t) (broken t)).
Proof.
  intros Hi. split; [by split| |done|done|unfold table; cbn; by destruct (http t)|cbn; by rewrite length_insert].
  intros j Hj. cbn. by rewrite list_lookup_insert_ne.
Qed.

Lemma serves_trans i t1 t2 t3 : serves i t1 t2 -> serves i t2 t3 -> serves i t1 t3.
Proof.
  intros [A1 A2 A3 A4 A5 A6] [B1 B2 B3 B4 B5 B6]. split; [by eapply only_trans| | |congruence| |congruence].
  - intros j Hj. by rewrite B2, A2.
  - intros j Hj. by rewrite B3, A3.
  - rewrite <-A5. unfold table in B5. rewrite <-B5. by destruct (http t3).
Qed.

(** The next event never crashes the server, and only its own connection notices. *)
Lemma handle_event_serves t e lf :
  tinv lf (table t) -> broken t = false -> ready (table t) (pending t) (clients t) e ->
  (exists id, handle e t = ClientCrash id \/ handle e t = ClientSpin id) \/
  exists t', handle e t = Serving t' /\ serves (conn e) t t' /\ settled (conn e) t'.
Proof.
  intros HT Hb [_ _ (x&Hx&Hst) Hlen Hcode _]. destruct (si_fd _ (ti_inv _ _ HT) _ _ Hx) as [Hf _]; [by rewrite Hst|].
  assert (Hlt : (conn e < length (clients t))%nat) by (rewrite Hlen; by eapply lookup_lt_Some).
  destruct (lookup_lt_is_Some_2 _ _ Hlt) as [o Ho]. unfold handle_event. rewrite Hx.
  destruct Hcode as [Hc|[Hc (cl&Hcl&Hcc&Hcp)]].
  - rewrite Hc, Hf, Ho. cbn [HttpServer.PollHandler]. set (cl := default _ o).
    destruct (ResetClient true (set_peer (conn e) cl)) as [cl'|] eqn:E; [|left; eauto].
    destruct (ResetClient_conn _ _ _ E) as [E1 E2]. right. eexists. split; [reflexivity|]. cbn [http clients wires pending broken].
    rewrite list_insert_insert_eq. split; [by apply serves_client|].
    split; [apply (ti_inv _ _ HT)|]. split; [done|]. exists x. split; [done|]. right. split; [done|].
    exists cl'. cbn. by rewrite list_lookup_insert_eq.
  - rewrite Hcl in Ho. injection Ho as <-.
    assert (exists c, code e = Some c /\ HttpServer.PollHandler c = Process) as (c&Ec&Hp)
      by (destruct Hc as [-> | ->]; eauto).
    rewrite Ec, Hf, Hcl, Hp. cbn [default].
    set (t1 := Site (http t) (<[conn e := Some cl]> (clients t)) (wires t) (pending t) (broken t)).
    destruct (ProcessEvent _ _ _ _ _ _ _) as [[cl' n]| |] eqn:E; [right|left; eauto..].
    eexists. split; [reflexivity|].
    destruct (process_serves t1 (conn e) cl c cl' n) as [H1 H2]; [apply (ti_inv _ _ HT)|done|by exists x| |done..|].
    { cbn. by rewrite list_lookup_insert_eq. }
    split; [|done]. eapply serves_trans; [|exact H1]. by apply serves_client.
Qed.
End Serving.

(** ** The watch policy *)

Lemma AddSocket_only ok i s : only i s (fst (AddSocket ok i s)).
Proof.
  unfold AddSocket. destruct ok; [|apply only_refl]. destruct (poller_ s !! i); [apply only_refl|].
  split; try done. intros j Hj. cbn. by rewrite lookup_insert_ne.
Qed.

Lemma WatchRawSocket_only ok i l s s' b : WatchRawSocket ok i l s = Some (s', b) -> only i s s'.
Proof.
  unfold WatchRawSocket. destruct (sockets_ s !! i) as [x|]; [|done].
  case_decide; [intros [= <- _]; apply only_refl|]. set (s1 := set_slot _ _ s).
  pose proof (AddSocket_only ok i s1) as Ho. assert (H1 : only i s s1) by apply set_slot_only.
  destruct (AddSocket ok i s1) as [s2 []]; intros [= <- _].
  - by eapply only_trans.
  - eapply only_trans; [exact H1|]. eapply only_trans; [exact Ho|]. apply set_slot_only.
Qed.

Lemma UnwatchSocket_only i s s' b : UnwatchSocket i s = Some (s', b) -> only i s s'.
Proof.
  unfold UnwatchSocket. destruct (sockets_ s !! i) as [x|]; [|done].
  case_decide; [intros [= <- _]; apply only_refl|]. pose proof (RemoveSocket_only i s) as Ho.
  destruct (RemoveSocket i s) as [s2 []]; intros [= <- _]; [|done].
  eapply only_trans; [exact Ho|]. apply set_slot_only.
Qed.

Lemma tinv_only lf i s s' :
  tinv lf s -> only i s s' -> sinv s' -> (i = lf -> lf ∈ open_fds s') ->
  (forall x, sockets_ s' !! i = Some x -> status_ x = SS_INVALID \/
     (status_ x = SS_CONNECTED /\ i <> lf) \/ (status_ x = SS_LISTENING /\ i = lf)) -> tinv lf s'.
Proof.
  intros [H1 H2 H3 H4 H5] [O1 O2 O3 O4 O5 O6] HI Hlf Hst. split; [done|congruence| |by rewrite O5|].
  - destruct (decide (lf = i)) as [->|Hne]; [by apply Hlf|]. by apply O3.
  - intros j x Hx. destruct (decide (j = i)) as [->|Hne]; [by apply Hst|]. rewrite O1 in Hx by done. by apply H5.
Qed.

Lemma connected_only i s s' j : only i s s' -> j <> i -> connected s' j <-> connected s j.
Proof. intros Ho Hj. unfold connected. by rewrite (on_slot _ _ _ Ho). Qed.

Lemma listener_not_connected lf s : tinv lf s -> ~ connected s lf.
Proof.
  intros HT (x&Hx&Hst). destruct (ti_status _ _ HT _ _ Hx) as [H|[[_ H]|[H _]]]; congruence.
Qed.

Lemma connected_listener lf s s' j : tinv lf s -> tinv lf s' -> only lf s s' -> connected s' j <-> connected s j.
Proof.
  intros HT HT' Ho. destruct (decide (j = lf)) as [->|Hj]; [|by eapply connected_only].
  split; intros H; exfalso; by eapply listener_not_connected; [|exact H].
Qed.

(** The listening socket goes in and out of the epoll set. *)
Lemma watch_tinv ok lf s :
  tinv lf s -> exists s' b, WatchRawSocket ok lf true s = Some (s', b) /\ tinv lf s' /\ only lf s s'.
Proof.
  intros HT. destruct (lookup_lt_is_Some_2 _ _ (ti_len _ _ HT)) as [x Hx].
  assert (exists s' b, WatchRawSocket ok lf true s = Some (s', b) /\ sinv s' /\ open_fds s' = open_fds s) as (s'&b&E&HI&Hop).
  { destruct ok.
    - destruct (listen_sinv lf s (ti_inv _ _ HT)) as (s'&E&HI).
      { split; [apply (ti_open _ _ HT)|by exists x]. }
      cbn in E. unfold WatchRawSocket, AddSocket in *. rewrite Hx in *. revert E. case_decide.
      + intros [= <-]. eauto.
      + cbn. destruct (poller_ s !! lf); intros [= <-]; eauto.
    - unfold WatchRawSocket. rewrite Hx. case_decide as Hst; [exists s, false; split; [done|]; by split; [apply (ti_inv _ _ HT)|]|].
      cbn. eexists _, _. split; [reflexivity|]. split; [|done].
      assert (Hst' : status_ x = SS_INVALID) by (destruct (decide (status_ x = SS_INVALID)); done).
      apply (sinv_slot s _ lf x (Slot lf SS_INVALID (opaque_ x))); cbn;
        [apply (ti_inv _ _ HT)|done|by rewrite list_insert_insert_eq|done| |done|done|].
      + rewrite <-(si_polled _ (ti_inv _ _ HT) _ _ Hx), Hst'. done.
      + unfold held. rewrite Hst'. cbn. lia. }
  pose proof (WatchRawSocket_only _ _ _ _ _ _ E) as Ho. exists s', b. split; [done|]. split; [|done].
  eapply tinv_only; [done..|by rewrite Hop; intros _; apply (ti_open _ _ HT)|].
  intros y Hy. unfold WatchRawSocket in E. rewrite Hx in E. revert E. case_decide as Hst.
  - intros [= <- _]. destruct (ti_status _ _ HT _ _ Hy) as [H|[H|H]]; auto.
  - destruct (AddSocket ok lf _) as [s2 b2] eqn:Ea.
    assert (Hs2 : sockets_ s2 = <[lf := Slot lf SS_LISTENING (opaque_ x)]> (sockets_ s)).
    { unfold AddSocket in Ea. cbn in Ea. destruct ok; [destruct (poller_ s !! lf)|]; by injection Ea as <- _. }
    destruct b2; intros [= <- _]; cbn in Hy; rewrite Hs2 in Hy;
      rewrite ?list_insert_insert_eq, list_lookup_insert_eq in Hy by (apply (ti_len _ _ HT));
      injection Hy as <-; cbn; auto.
Qed.

Lemma unwatch_tinv lf s :
  tinv lf s -> exists s' b, UnwatchSocket lf s = Some (s', b) /\ tinv lf s' /\ only lf s s'.
Proof.
  intros HT. destruct (lookup_lt_is_Some_2 _ _ (ti_len _ _ HT)) as [x Hx].
  destruct (unlisten_sinv lf s (ti_inv _ _ HT)) as (s'&E&HI).
  { exists x. split; [done|]. destruct (ti_status _ _ HT _ _ Hx) as [->|[[_ ?]|[-> _]]]; done. }
  cbn in E. destruct (UnwatchSocket lf s) as [[s1 b]|] eqn:Eu; [|done]. injection E as ->.
  pose proof (UnwatchSocket_only _ _ _ _ Eu) as Ho. exists s', b. split; [done|]. split; [|done].
  assert (H : open_fds s' = open_fds s /\ forall y, sockets_ s' !! lf = Some y ->
    sockets_ s !! lf = Some y \/ status_ y = SS_INVALID).
  { unfold UnwatchSocket, RemoveSocket in Eu. rewrite Hx in Eu. revert Eu.
    case_decide; [intros [= <- _]; auto|]. destruct (poller_ s !! lf); intros [= <- _]; [|auto].
    split; [done|]. intros y. cbn. rewrite list_lookup_insert_eq by (apply (ti_len _ _ HT)). intros [= <-]. by right. }
  destruct H as [Hop Hsl]. eapply tinv_only; [done..|by rewrite Hop; intros _; apply (ti_open _ _ HT)|].
  intros y Hy. destruct (Hsl y Hy) as [Hy'|?]; [|by left]. destruct (ti_status _ _ HT _ _ Hy') as [H|[H|H]]; auto.
Qed.

(** ** The whole server *)

Record ginv (lf : nat) (t : site) : Prop := {
  gi_listen : listenFd_ (http t) = lf;
  gi_table : tinv lf (table t);
  gi_queue : qinv (table t) (pending t);
  gi_clients : cinv (table t) (pending t) (clients t);
  gi_good : broken t = false
}.

Lemma qinv_connected s s' q : (forall j, j ∈ qconns q -> connected s j -> connected s' j) -> qinv s q -> qinv s' q.
Proof. intros H [H1 H2 H3 H4]. split; try done. intros i Hi. apply H; [done|by apply H2]. Qed.

Lemma watch_policy_inv lf total ok t :
  ginv lf t -> exists h, watch_policy total ok (http t) = Some h /\ listenFd_ h = lf /\
    tinv lf (tcpServer_ h) /\ qinv (tcpServer_ h) (pending t) /\ cinv (tcpServer_ h) (pending t) (clients t) /\
    (forall j, connected (table t) j -> connected (tcpServer_ h) j).
Proof.
  intros [Hl HT HQ [C1 C2] Hb].
  assert (Hnext : forall s', tinv lf s' -> only lf (table t) s' -> qinv s' (pending t) /\ cinv s' (pending t) (clients t) /\
    (forall j, connected (table t) j -> connected s' j)).
  { intros s' HT' Ho. split_and!; [| |by intros j; apply (connected_listener lf)].
    - apply (qinv_connected (table t)); [|done]. intros j _. by apply (connected_listener lf).
    - split; [by rewrite (on_len _ _ _ Ho)|]. intros j Hj. apply C2. by apply (connected_listener lf _ s'). }
  destruct (unwatch_tinv lf (table t) HT) as (su&bu&Eu&HTu&Hou).
  destruct (watch_tinv ok lf (table t) HT) as (sw&bw&Ew&HTw&How).
  unfold table in Eu, Ew. unfold watch_policy. rewrite Hl, Eu, Ew.
  destruct (watching_ _ && _); [|destruct (negb _ && _)]; (eexists; split; [reflexivity|]).
  - destruct (Hnext su HTu Hou). done.
  - destruct (Hnext sw HTw How). done.
  - destruct (Hnext (table t) HT (only_refl _ _)). done.
Qed.

(** The event of a connection leaves the invariant. *)
Lemma serves_inv lf t t' e :
  listenFd_ (http t) = lf -> tinv lf (table t) -> ready (table t) (pending t) (clients t) e ->
  serves (conn e) t t' -> settled (conn e) t' -> ginv lf t'.
Proof.
  intros Hl HT HR [Ho Hcl Hw Hp Hh Hlen] (HI&Hb&x&Hx&Hst). destruct HR as [Hq Hnew Hc Hlc _ Hoth].
  assert (Hne : conn e <> lf) by (intros E; rewrite E in Hc; by eapply listener_not_connected).
  assert (Hconn : forall j, j <> conn e -> connected (table t') j <-> connected (table t) j)
    by (intros j; by apply connected_only).
  split; [|eapply tinv_only; try done| | |done].
  - rewrite <-Hl, <-Hh. by destruct (http t').
  - intros y Hy. rewrite Hx in Hy. injection Hy as <-. destruct Hst as [?|[? _]]; auto.
  - rewrite Hp. eapply qinv_connected; [|exact Hq]. intros j Hj. apply Hconn. by intros ->.
  - rewrite Hp. split; [by rewrite Hlen, (on_len _ _ _ Ho)|]. intros j Hj.
    destruct (decide (j = conn e)) as [->|Hje].
    + destruct Hst as [Hi|[_ ?]]; [|by right]. destruct Hj as (y&Hy&Hsy). simplify_eq. congruence.
    + apply Hconn in Hj; [|done]. destruct (Hoth j Hje Hj) as [?|?]; [by left|right].
      unfold has_client. by rewrite Hcl.
Qed.

(** The number of connections does not grow when the event of one of them is handled. *)
Lemma serves_connNum i t t' :
  sinv (table t) -> connected (table t) i -> serves i t t' -> settled i t' ->
  connNum_ (table t') <= connNum_ (table t).
Proof.
  intros HI (x&Hx&Hst) Hsv (HI'&_&y&Hy&Hsy). pose proof (sv_table _ _ _ Hsv) as Ho.
  assert (Hs : sockets_ (table t') = <[i := y]> (sockets_ (table t))).
  { apply list_eq. intros j. destruct (decide (j = i)) as [->|Hj].
    - rewrite Hy. symmetry. apply list_lookup_insert_eq. by eapply lookup_lt_Some.
    - by rewrite (on_slot _ _ _ Ho), list_lookup_insert_ne. }
  rewrite (si_num _ HI'), (si_num _ HI). unfold conns. rewrite Hs, (sum_with_insert held _ _ x) by done.
  assert (held x = 1) by (unfold held; by rewrite Hst).
  assert (held y <= 1) by (unfold held; case_match; lia). lia.
Qed.

Lemma only_disarmed lf i s s' : only i s s' -> i <> lf -> disarmed lf s -> disarmed lf s'.
Proof. intros Ho Hne. apply same_at_disarmed. split; [by apply (on_slot _ _ _ Ho)|by apply (on_poll _ _ _ Ho)]. Qed.

(** The server watches its listening socket, whose one event is gone, and is not nearly
    full. *)
Record deaf (lf : nat) (t : site) : Prop := {
  df_watching : watching_ (http t) = true;
  df_disarmed : disarmed lf (table t);
  df_room : connNum_ (table t) <=
    Z.of_nat (length (clients t)) - Z.quot (Z.of_nat (length (clients t))) 8
}.

Section Rounds.
Variables (date : bytes) (reserve grow : Z -> Z -> Z) (malloc_ok : bool) (junk : bytes) (cap0 : Z) (fuel : nat).

Abbreviation server_round := (server_round date reserve grow malloc_ok junk cap0 fuel).
Abbreviation serve := (serve date reserve grow malloc_ok junk cap0 fuel).

(** The promises of the kernel in a round and in a run of the server. *)
Definition round_ok (r : round) (t : site) : Prop :=
  match watch_policy (Z.of_nat (length (clients t))) (r_add_ok r) (http t) with
  | Some h => batches_ok (r_batches r) (tcpServer_ h, pending t)
  | None => True
  end.

Fixpoint rounds_ok (rs : list round) (t : site) : Prop :=
  match rs with
  | [] => True
  | r :: rs' => round_ok r t /\ match server_round r t with Serving t' => rounds_ok rs' t' | _ => True end
  end.

#[export] Instance round_ok_dec r t : Decision (round_ok r t).
Proof. unfold round_ok. destruct (watch_policy _ _ _); [apply _|by left]. Defined.

#[export] Instance rounds_ok_dec rs t : Decision (rounds_ok rs t).
Proof.
  revert t. induction rs as [|r rs IH]; intros t; cbn [rounds_ok]; [by left|].
  apply and_dec; [apply _|]. destruct (server_round r t); [apply IH|by left..].
Defined.

(** A round: the event of one connection is handled, the others keep their clients and what
    the kernel holds for them, and stay open. *)
Lemma round_inv lf r t :
  ginv lf t -> round_ok r t ->
  match server_round r t with
  | ServerCrash => False
  | Serving t' => ginv lf t' /\ exists i, forall j, j <> i ->
      clients t' !! j = clients t !! j /\ wires t' !! j = wires t !! j /\
      (connected (table t) j -> connected (table t') j)
  | _ => True
  end.
Proof.
  intros HG HR. unfold HttpServerLoop.server_round, round_ok in *.
  destruct (watch_policy_inv lf (Z.of_nat (length (clients t))) (r_add_ok r) t HG) as (h&E&Hl&HT&HQ&HC&Hm).
  rewrite E in *. destruct (RunPoll_inv lf _ _ _ _ HT HQ HC HR) as [E2|(e&s&q&E2&HT2&HR2&Hm2)]; rewrite E2; [done|].
  set (t1 := Site (set_table s h) (clients t) (wires t) q (broken t)).
  destruct (handle_event_serves date reserve grow malloc_ok junk cap0 fuel t1 e lf)
    as [[id [-> | ->]]|(t'&->&Hsv&Hset)]; [done|apply (gi_good _ _ HG)|done..|].
  split; [by eapply (serves_inv lf t1)|]. exists (conn e). intros j Hj. destruct Hsv as [Ho Hc Hw _ _ _].
  rewrite Hc, Hw by done. split_and!; [done..|]. intros H. apply (connected_only _ _ _ _ Ho Hj). by apply (pd_open _ _ _ Hm2), Hm.
Qed.

Lemma start_inv mem fds ws ok fd :
  fd ∈ fds -> (fd < length mem)%nat -> exists t, start mem fds ws ok fd = Some t /\ ginv fd t.
Proof.
  intros Hin Hlt. set (s0 := SetWatchAcceptedSock true (ServerImpl_init mem fds)).
  assert (HT : tinv fd s0).
  { split; [|done|done|by cbn; rewrite length_fmap|].
    - apply server_init_sinv.
    - intros i x Hx. cbn in Hx. apply list_lookup_fmap_Some in Hx as (y&->&_). by left. }
  destruct (watch_tinv ok fd s0 HT) as (s'&b&E&HT'&Ho).
  unfold start, SetListenSock. cbn [tcpServer_].
  assert (E' : exists s1, WatchRawSocket ok fd true (ServerImpl_init mem fds) = Some (s1, b) /\
    SetWatchAcceptedSock true s1 = s').
  { revert E. unfold WatchRawSocket, s0, AddSocket. cbn. destruct ((set_status SS_INVALID <$> mem) !! fd) as [x|]; [|done].
    case_decide; [intros [= <- <-]; eauto|]. cbn. destruct ok; cbn; rewrite ?lookup_empty; intros [= <- <-]; eauto. }
  destruct E' as (s1&->&Hs). eexists. split; [reflexivity|]. cbn [stop_ watching_ listenFd_ tcpServer_].
  split; cbn [table http pending clients broken listenFd_ tcpServer_ set_table]; rewrite ?Hs; try done.
  - split; [apply NoDup_nil_2|..]; intros ? H; by apply elem_of_nil in H.
  - assert (Hn : forall j, ~ connected s' j).
    { intros j Hj. apply (connected_listener fd s0 s') in Hj; [|done..]. destruct Hj as (x&Hx&Hst).
      cbn in Hx. apply list_lookup_fmap_Some in Hx as (y&->&_). done. }
    split; [rewrite (on_len _ _ _ Ho); cbn; by rewrite length_replicate, length_fmap|]. intros j Hj. by destruct (Hn j).
Qed.

Lemma round_deaf lf r t t' :
  ginv lf t -> deaf lf t -> round_ok r t -> server_round r t = Serving t' ->
  deaf lf t' /\ forall j, connected (table t') j -> connected (table t) j.
Proof.
  intros [Hl HT HQ HC Hb] [Hw Hd Hn] HR H. unfold HttpServerLoop.server_round, round_ok in *.
  rewrite (watch_policy_idle _ _ _ Hw Hn) in *.
  destruct (RunPoll_inv lf _ _ _ _ HT HQ HC HR) as [E2|(e&s&q&E2&HT2&HR2&HP)];
    unfold table in E2; rewrite E2 in H; [done|].
  destruct (pd_quiet _ _ _ HP Hd) as (Hd2&Hs2&Hn2).
  set (t1 := Site (set_table s (http t)) (clients t) (wires t) q (broken t)) in *.
  destruct (handle_event_serves date reserve grow malloc_ok junk cap0 fuel t1 e lf)
    as [[id [E|E]]|(t2&E&Hsv&Hset)]; [done..|rewrite E in H; discriminate H|rewrite E in H; discriminate H|].
  rewrite E in H. injection H as <-. pose proof (rd_conn _ _ _ _ HR2) as Hc.
  assert (Hne : conn e <> lf) by (intros Heq; rewrite Heq in Hc; by eapply listener_not_connected).
  pose proof (sv_table _ _ _ Hsv) as Ho. split.
  - split.
    + pose proof (sv_http _ _ _ Hsv) as Hh. rewrite <-Hw. change (watching_ (http t)) with (watching_ (http t1)).
      rewrite <-Hh. by destruct (http t2).
    + eapply only_disarmed; [exact Ho|done..].
    + rewrite (sv_len _ _ _ Hsv). cbn [clients t1].
      pose proof (serves_connNum (conn e) t1 t2 (ti_inv _ _ HT2) Hc Hsv Hset) as Hle.
      change (table t1) with s in Hle. lia.
  - intros j Hj. unfold connected. rewrite <-Hs2. change (connected s j).
    destruct (decide (j = conn e)) as [->|Hje]; [done|]. by apply (connected_only _ _ _ _ Ho Hje).
Qed.

Lemma serve_inv lf rs t :
  ginv lf t -> rounds_ok rs t ->
  match serve rs t with ServerCrash => False | Serving t' => ginv lf t' | _ => True end.
Proof.
  revert t. induction rs as [|r rs IH]; intros t HG HR; [done|].
  cbn [rounds_ok HttpServerLoop.serve] in *. destruct HR as [HR HRs]. destruct (stop_ (http t)); [done|].
  pose proof (round_inv lf r t HG HR) as H. destruct (server_round r t) as [t'| | | |]; try done.
  apply IH; [by destruct H|done].
Qed.

(** C4. The server as a whole, whatever its peers send and whenever the kernel delivers it:
    the start succeeds, no round ever fails an [assert] of the socket table, leaves the
    arrays of slots and clients or meets an event without its connection; a run that has
    not crashed or hung inside the handling of one client's own input has a consistent
    table, at most one queued event per connection, and a client for every open connection
    that has been announced.  ([rounds_ok]: the kernel reports registered descriptors that
    are readable or writable, as the code of another event is not initialised, and
    [epoll_ctl] takes every accepted connection, as the server uses a [NULL] slot when it
    does not, [accept_add_fails].) *)
Theorem server_safe (mem : list slot) (fds : gset nat) (ws : gmap nat wire) (add_ok : bool) (fd : nat) (rs : list round) :
  fd ∈ fds -> (fd < length mem)%nat ->
  exists t0, start mem fds ws add_ok fd = Some t0 /\
    (rounds_ok rs t0 ->
     match serve rs t0 with ServerCrash => False | Serving t => ginv fd t | _ => True end).
Proof.
  intros Hin Hlt. destruct (start_inv mem fds ws add_ok fd Hin Hlt) as (t0&E&HG). exists t0. split; [done|].
  by apply serve_inv.
Qed.

(** C5. One connection at a time: a round of the server handles an event of one connection,
    and every other connection keeps its client (what it has parsed, what it still has to
    send), the bytes the kernel holds for it, and its slot in the table. *)
Theorem clients_isolated (fd : nat) (r : round) (t t' : site) :
  ginv fd t -> round_ok r t -> server_round r t = Serving t' ->
  exists i, forall j, j <> i ->
    clients t' !! j = clients t !! j /\ wires t' !! j = wires t !! j /\
    (connected (table t) j -> connected (table t') j).
Proof.
  intros HG HR E. pose proof (round_inv fd r t HG HR) as H. rewrite E in H. by destruct H.
Qed.

(** C6. The server stops accepting: once the listening socket, which is registered for one
    event only, has delivered it, and with at most seven eighths of the slots in use, no
    round adds a connection whatever the peers and the kernel do: the connections of every
    later state are among those of the state before, and the socket stays disarmed. *)
Theorem server_accepts_once (fd : nat) (rs : list round) (t t' : site) :
  ginv fd t -> deaf fd t -> rounds_ok rs t -> serve rs t = Serving t' ->
  (forall j, connected (table t') j -> connected (table t) j) /\ deaf fd t'.
Proof.
  revert t. induction rs as [|r rs IH]; intros t HG HD HR H; cbn [rounds_ok HttpServerLoop.serve] in *.
  { by injection H as <-. }
  destruct (stop_ (http t)); [by injection H as <-|]. destruct HR as [HR HRs].
  pose proof (round_inv fd r t HG HR) as HG1. destruct (server_round r t) as [t1| | | |] eqn:E; try done.
  destruct HG1 as [HG1 _]. destruct (round_deaf fd r t t1 HG HD HR E) as [HD1 Hc1].
  destruct (IH t1 HG1 HD1 HRs H) as [Hc HD']. split; [|done]. intros j Hj. by apply Hc1, Hc.
Qed.
End Rounds.

(** ** A whole exchange *)

(** Descriptor 3 listens; a client is accepted as 5, asks, gets the answer in two writes and
    goes away. *)
Definition demo_request : bytes := message_text (Message HM_GET (bs "/") None HV_11 [(bs "Host", bs "x")]).

Definition demo_wires : gmap nat wire :=
  {[ 5%nat := Wire [KData demo_request; KAgain; KEof] [WTake 100; WAgain] [] ]}.

Definition demo_rounds : list round :=
  [Round true [[Ev 3 true false (Some 5%nat) true false]];
   Round true [[]; [Ev 5 true false None true false]];
   Round true [[Ev 5 false true None true false]];
   Round true [[Ev 5 true false None true false]]].

Abbreviation demo_serve n :=
  (fun t => serve (bs "today") Z.max Z.max true (replicate 512 nul) 15 10 (take n demo_rounds) t).

(** Memory that looks like connections to descriptor 6. *)
Definition demo_mem : list slot := replicate 8 (Slot 6 SS_CONNECTED 9).

Abbreviation demo_start := (start demo_mem {[3%nat]} demo_wires true 3).

Definition demo_answer : bytes :=
  bs "HTTP/1.1 200 OK" ++ crlf ++ bs "Connection: close" ++ crlf ++ bs "Content-Length: 388" ++ crlf ++
  bs "Content-Type: text/html;charset=utf-8" ++ crlf ++ bs "Date: today" ++ crlf ++
  bs "Host: miliao server" ++ crlf ++ crlf ++
  default_body (AddHeader (bs "Host") (bs "x") (HttpRequest_init 15)).

Abbreviation demo_ok n :=
  (fun t => rounds_ok (bs "today") Z.max Z.max true (replicate 512 nul) 15 10 (take n demo_rounds) t).

(** The answer has been sent, the connection is closed and its descriptor free. *)
Example demo_served :
  match demo_start with
  | Some t0 =>
      bool_decide (demo_ok 4 t0) = true /\
      match demo_serve 4 t0 with
      | Serving t =>
          w_sent (wire_at 5 (wires t)) = demo_answer /\ connNum_ (table t) = 0 /\
          map status_ (sockets_ (table t)) = <[3%nat := SS_LISTENING]> (replicate 8 SS_INVALID) /\
          option_map (option_map conn_) (clients t !! 5%nat) = Some (Some false) /\
          bool_decide (5%nat ∈ open_fds (table t)) = false
      | _ => False
      end
  | None => False
  end.
Proof. by vm_compute. Qed.

Lemma demo_inv n t0 : (n <= 4)%nat -> demo_start = Some t0 -> ginv 3 t0 /\ demo_ok n t0.
Proof.
  intros Hn E. split.
  - destruct (start_inv demo_mem {[3%nat]} demo_wires true 3) as (t1&E1&HG);
      [apply (bool_decide_unpack _); by vm_compute|apply Nat.ltb_lt; by vm_compute|]. rewrite E in E1. by injection E1 as <-.
  - assert (H : match demo_start with
      | Some t => forallb (fun n => bool_decide (demo_ok n t)) (seq 0 5)
      | None => false end = true) by by vm_compute.
    rewrite E in H. rewrite forallb_forall in H. apply (bool_decide_eq_true _), H, in_seq. lia.
Qed.

Lemma server_safe_witness :
  exists t0, demo_start = Some t0 /\
    match demo_serve 4 t0 with ServerCrash => False | Serving t => ginv 3 t | _ => True end.
Proof.
  destruct (server_safe (bs "today") Z.max Z.max true (replicate 512 nul) 15 10 demo_mem {[3%nat]} demo_wires true 3
    (take 4 demo_rounds)) as (t0&E&H); [apply (bool_decide_unpack _); by vm_compute|apply Nat.ltb_lt; vm_compute; reflexivity|].
  exists t0. split; [exact E|]. apply H, (demo_inv 4 t0); [lia|exact E].
Defined.

(** The state after the first round. *)
Lemma demo_second :
  exists t0 t, demo_start = Some t0 /\ demo_serve 1 t0 = Serving t /\ ginv 3 t.
Proof.
  destruct demo_start as [t0|] eqn:E0; [|exfalso; by vm_compute in E0].
  destruct (demo_inv 1 t0 ltac:(lia) E0) as [HG HR].
  pose proof (serve_inv _ _ _ _ _ _ _ 3 _ _ HG HR) as HG1.
  destruct (demo_serve 1 t0) as [t| | | |] eqn:E1; [by exists t0, t|exfalso..];
    injection E0 as <-; by vm_compute in E1.
Qed.

(** The second round handles an event of descriptor 5. *)
Lemma clients_isolated_witness :
  exists t t', server_round (bs "today") Z.max Z.max true (replicate 512 nul) 15 10
      (Round true [[]; [Ev 5 true false None true false]]) t = Serving t' /\
    exists i, forall j, j <> i ->
      clients t' !! j = clients t !! j /\ wires t' !! j = wires t !! j /\
      (connected (table t) j -> connected (table t') j).
Proof.
  destruct demo_second as (t0&t&E0&E1&HG).
  vm_compute in E0. injection E0 as <-. vm_compute in E1. injection E1 as <-.
  match type of HG with ginv _ ?t => exists t end. eexists. split; [vm_compute; reflexivity|].
  eapply (clients_isolated (bs "today") Z.max Z.max true (replicate 512 nul) 15 10 3
    (Round true [[]; [Ev 5 true false None true false]])); [exact HG| |].
  - apply (bool_decide_unpack _). by vm_compute.
  - vm_compute. reflexivity.
Defined.

Lemma server_accepts_once_witness :
  exists t t', serve (bs "today") Z.max Z.max true (replicate 512 nul) 15 10 (drop 1 (take 4 demo_rounds)) t = Serving t' /\
    (forall j, connected (table t') j -> connected (table t) j) /\ deaf 3 t'.
Proof.
  destruct demo_second as (t0&t&E0&E1&HG).
  vm_compute in E0. injection E0 as <-. vm_compute in E1. injection E1 as <-.
  match type of HG with ginv _ ?t => exists t end. eexists. split; [vm_compute; reflexivity|].
  eapply (server_accepts_once (bs "today") Z.max Z.max true (replicate 512 nul) 15 10 3
    (drop 1 (take 4 demo_rounds))); [exact HG| | |].
  - split; [done| |by vm_compute]. split; [by eexists|]. eexists. split; vm_compute; reflexivity.
  - apply (bool_decide_unpack _). by vm_compute.
  - vm_compute. reflexivity.
Defined.
