(* ===== verification/HttpService.v ===== *)
(** * HttpService.v: the server answers - from [SC_ACCEPTED] to the last byte of the response

The exchange of HttpExchange.v over the connections of the running server
(HttpServerLoop.v): a [port], which is a slot of the table over the kernel, says what has
been sent ([Traced]) by the bytes the kernel took from that descriptor.

[connection_events] are the events of one connection as [HttpServer::RunPoll] hands them
to [PollHandler], one after the other, for as long as the connection is open.  The theorem
[connection_served] follows a connection from its first event: it is announced, a request
arrives, and the socket becomes writable any number of times.  Whatever the kernel takes
of each [write], the bytes on the descriptor are the reply to that request, or a prefix of
it, and the rest is in the client of that connection. *)

From S2P Require Import Prelude Machine HttpBuffer HttpRequest HttpResponse HttpClient HttpExchange SocketServer HttpServer HttpServerLoop.

(** ** What has been sent over a port *)

Lemma lookup_fds s s' i x :
  map fd_ (sockets_ s') = map fd_ (sockets_ s) -> sockets_ s !! i = Some x ->
  exists x', sockets_ s' !! i = Some x' /\ fd_ x' = fd_ x.
Proof.
  intros Hm Hx. assert (H : map fd_ (sockets_ s') !! i = Some (fd_ x)) by (by rewrite Hm, list_lookup_fmap, Hx).
  rewrite list_lookup_fmap in H. destruct (sockets_ s' !! i) as [x'|]; [|done]. injection H as H'. by exists x'.
Qed.

Lemma ServerRead_sockets fd n sz again s s' r : ServerRead fd n sz again s = Some (s', r) -> sockets_ s' = sockets_ s.
Proof.
  unfold ServerRead. destruct (sockets_ s !! fd) as [x|]; [|done]. destruct (_ || _); [done|].
  pose proof (ModifySocket_sockets (fd_ x) false s) as Hs. destruct (ModifySocket (fd_ x) false s) as [s1 b].
  intros H. repeat case_match; by injection H as <- _.
Qed.

Lemma ServerSend_sockets fd n sz again s s' r : ServerSend fd n sz again s = Some (s', r) -> sockets_ s' = sockets_ s.
Proof.
  unfold ServerSend. destruct (sockets_ s !! fd) as [x|]; [|done]. intros H.
  case_match; [by injection H as <- _|]. case_match; [done|]. case_match; [by injection H as <- _|].
  pose proof (ModifySocket_sockets (fd_ x) ((if n <? 0 then 0 else n) <? sz) s) as Hs.
  destruct (ModifySocket (fd_ x) _ s) as [s1 b]. by injection H as <- _.
Qed.

Lemma CloseSocket_fds fd s s' b : CloseSocket fd s = Some (s', b) -> map fd_ (sockets_ s') = map fd_ (sockets_ s).
Proof.
  unfold CloseSocket, ForceSocketClose. destruct (sockets_ s !! fd) as [x|] eqn:Hx; [|done].
  destruct (decide _); [by intros [= <- _]|]. destruct (decide _); [by intros [= <- _]|].
  assert (Hr : forall k, sockets_ (fst (RemoveSocket k (set_connNum (connNum_ s - 1) s))) = sockets_ s).
  { intros k. unfold RemoveSocket. by destruct (poller_ _ !! k). }
  specialize (Hr (fd_ x)). destruct (RemoveSocket (fd_ x) (set_connNum (connNum_ s - 1) s)) as [s1 b1]. cbn in Hr.
  intros [= <- _]. cbn. rewrite Hr, list_fmap_insert. apply list_insert_id.
  by rewrite list_lookup_fmap, Hx.
Qed.

#[export] Instance port_traced : Traced port := {|
  sent p := match sockets_ (p_server p) !! p_slot p with Some x => w_sent (wire_at (fd_ x) (p_wires p)) | None => [] end;
  silent p := exists x, sockets_ (p_server p) !! p_slot p = Some x /\ fd_ x = p_slot p /\ status_ x <> SS_INVALID /\
    w_reads (wire_at (fd_ x) (p_wires p)) = [];
  cuts p := match sockets_ (p_server p) !! p_slot p with
    | Some x => length (w_writes (wire_at (fd_ x) (p_wires p))) | None => 0%nat end
|}.

Lemma wire_at_insert fd w m : wire_at fd (<[fd := w]> m) = w.
Proof. unfold wire_at. by rewrite lookup_insert_eq. Qed.

Lemma kernel_write_sent data w w' n again :
  kernel_write data w = (w', (n, again)) ->
  w_reads w' = w_reads w /\ w_sent w' = w_sent w ++ take (Z.to_nat n) data /\ (n < 0 -> w_sent w' = w_sent w).
Proof.
  unfold kernel_write. destruct (w_writes w) as [|[k| |] ks]; intros [= <- <- <-]; cbn; unfold blen.
  - rewrite Nat2Z.id, firstn_all. split_and!; [done..|lia].
  - rewrite Nat2Z.id, length_take. split_and!; [done| |lia]. f_equal.
    destruct (decide (k <= length data)%nat); [by rewrite Nat.min_l by lia|rewrite Nat.min_r by lia; by rewrite !take_ge by lia].
  - by rewrite app_nil_r.
  - by rewrite app_nil_r.
Qed.

Lemma kernel_read_sent sz w w' r : kernel_read sz w = (w', r) -> w_sent w' = w_sent w.
Proof. unfold kernel_read. intros H. repeat case_match; by injection H as <- _. Qed.

(** A [write] that does not take everything uses up an answer. *)
Lemma kernel_write_cuts data w w' n again :
  kernel_write data w = (w', (n, again)) ->
  (length (w_writes w') <= length (w_writes w))%nat /\ (n < blen data -> (length (w_writes w') < length (w_writes w))%nat).
Proof. unfold kernel_write. destruct (w_writes w) as [|[k| |] ks]; intros [= <- <- _]; cbn; split; lia. Qed.

Lemma kernel_read_writes sz w w' r : kernel_read sz w = (w', r) -> w_writes w' = w_writes w.
Proof. unfold kernel_read. intros H. repeat case_match; by injection H as <- _. Qed.

Lemma port_send_cuts data p p' n :
  port_send data p = (p', n) -> (cuts p' <= cuts p)%nat /\ (0 <= n < blen data -> (cuts p' < cuts p)%nat).
Proof.
  unfold port_send, cuts. cbn. destruct (sockets_ (p_server p) !! p_slot p) as [x|] eqn:Hx;
    [|intros [= <- <-]; cbn; rewrite ?Hx; lia].
  destruct (kernel_write data _) as [w [k again]] eqn:Ek. apply kernel_write_cuts in Ek as [Hle Hlt].
  destruct (ServerSend _ _ _ _ _) as [[s r]|] eqn:Es; intros [= <- <-]; [|cbn; rewrite ?Hx; lia].
  cbn. rewrite (ServerSend_sockets _ _ _ _ _ _ _ Es), Hx.
  destruct (Z.eqb_spec r (-2)) as [->|Hr]; [lia|]. rewrite wire_at_insert. split; [done|]. intros Hn. apply Hlt.
  unfold ServerSend in Es. destruct (sockets_ (p_server p) !! fd_ x) as [y|]; [|done].
  destruct (decide _); [by injection Es as _ <-|]. destruct (decide _); [done|].
  destruct (Z.ltb_spec k 0); [lia|]. cbn [andb] in Es. destruct (ModifySocket _ _ _). injection Es as _ <-. lia.
Qed.

#[export] Instance port_traced_spec : TracedSpec port.
Proof.
  split; cbn.
  - intros sz p p' r. unfold port_read. destruct (sockets_ (p_server p) !! p_slot p) as [x|] eqn:Hx;
      [|intros [= <- _]; cbn; by rewrite Hx].
    destruct (kernel_read sz _) as [w [[n again] data]] eqn:Ek.
    destruct (ServerRead _ _ _ _ _) as [[s r0]|] eqn:Er; [|intros [= <- _]; cbn; by rewrite Hx].
    intros [= <- _]. cbn. rewrite (ServerRead_sockets _ _ _ _ _ _ _ Er), Hx, wire_at_insert.
    by eapply kernel_read_sent.
  - intros data p p' n. unfold port_send. destruct (sockets_ (p_server p) !! p_slot p) as [x|] eqn:Hx;
      [|intros [= <- <-]; cbn; by rewrite Hx].
    destruct (kernel_write data _) as [w [k again]] eqn:Ek.
    destruct (ServerSend _ _ _ _ _) as [[s r]|] eqn:Es; [|intros [= <- <-]; cbn; by rewrite Hx, app_nil_r].
    intros [= <- <-]. cbn. rewrite (ServerSend_sockets _ _ _ _ _ _ _ Es), Hx.
    apply kernel_write_sent in Ek as (_&Hw&Hneg). revert Es. unfold ServerSend.
    destruct (sockets_ (p_server p) !! fd_ x) as [y|]; [|done].
    destruct (decide _); [intros [= _ <-]; by rewrite app_nil_r|]. destruct (decide _); [done|].
    destruct (Z.ltb_spec k 0); cbn [andb].
    + destruct again; cbn [negb].
      * destruct (ModifySocket _ _ _). intros [= _ <-]. cbn. rewrite wire_at_insert. cbn. rewrite app_nil_r. auto.
      * intros [= _ <-]. cbn. rewrite wire_at_insert, app_nil_r. auto.
    + destruct (ModifySocket _ _ _). intros [= _ <-]. rewrite (proj2 (Z.eqb_neq _ _)) by lia.
      by rewrite wire_at_insert.
  - intros p (x&Hx&Hf&Hst&Hw). exists (fst (port_read 1 p)).
    assert (Hk : forall sz, kernel_read sz (wire_at (fd_ x) (p_wires p)) = (wire_at (fd_ x) (p_wires p), (-1, true, []))).
    { intros sz. unfold kernel_read. by rewrite Hw. }
    pose proof (ModifySocket_sockets (fd_ x) false (p_server p)) as Hs.
    assert (Hr : forall sz, 0 < sz ->
      ServerRead (fd_ x) (-1) sz true (p_server p) = Some (fst (ModifySocket (fd_ x) false (p_server p)), 0)).
    { intros sz Hsz. unfold ServerRead. rewrite Hf, Hx, (proj2 (Z.eqb_neq sz 0)), bool_decide_false by (done || lia).
      cbn [orb]. rewrite Hf. by destruct (ModifySocket (p_slot p) false (p_server p)). }
    unfold port_read. rewrite Hx, Hk, (Hr 1) by lia. cbn [fst]. split.
    + exists x. cbn. rewrite Hs, wire_at_insert. done.
    + intros sz Hsz. by rewrite Hk, Hr.
  - intros data p p' n (x&Hx&Hf&Hst&Hw). unfold port_send. rewrite Hx.
    destruct (kernel_write data _) as [w [k again]] eqn:Ek. apply kernel_write_sent in Ek as (Hr&_).
    destruct (ServerSend _ _ _ _ _) as [[s r]|] eqn:Es; intros [= <- _]; exists x; [|done].
    cbn. rewrite (ServerSend_sockets _ _ _ _ _ _ _ Es). split_and!; [done..|].
    case_match; [done|]. by rewrite wire_at_insert, Hr.
  - intros sz p p' r. unfold port_read. destruct (sockets_ (p_server p) !! p_slot p) as [x|] eqn:Hx;
      [|intros [= <- _]; cbn; by rewrite Hx].
    destruct (kernel_read sz _) as [w [[n again] data]] eqn:Ek.
    destruct (ServerRead _ _ _ _ _) as [[s r0]|] eqn:Er; [|intros [= <- _]; cbn; by rewrite Hx].
    intros [= <- _]. cbn. rewrite (ServerRead_sockets _ _ _ _ _ _ _ Er), Hx, wire_at_insert.
    by rewrite (kernel_read_writes _ _ _ _ Ek).
  - intros data p p' n H. by apply (port_send_cuts data p p' n).
  - intros data p p' n H. by apply (port_send_cuts data p p' n).
Qed.

(** A close sends nothing. *)
Lemma port_close_sent p : sent (port_close p) = sent p.
Proof.
  unfold port_close, sent. cbn. destruct (sockets_ (p_server p) !! p_slot p) as [x|] eqn:Hx; [|cbn; by rewrite Hx].
  destruct (CloseSocket _ _) as [[s b]|] eqn:Ec; [|cbn; by rewrite Hx].
  destruct (lookup_fds _ _ _ _ (CloseSocket_fds _ _ _ _ Ec) Hx) as (x'&Hx'&Hf). cbn. by rewrite Hx', Hf.
Qed.

Lemma port_close_wires p : p_wires (port_close p) = p_wires p.
Proof. unfold port_close. destruct (sockets_ _ !! _); [|done]. by destruct (CloseSocket _ _) as [[]|]. Qed.

Lemma port_sent p : port_ok p -> sent p = w_sent (wire_at (p_slot p) (p_wires p)).
Proof.
  intros [HI (x&Hx&Hst) _]. destruct (si_fd _ HI _ _ Hx) as [Hf _]; [by rewrite Hst|].
  unfold sent. cbn. by rewrite Hx, Hf.
Qed.

(** ** The events of one connection *)

(** A client is the same over any connection. *)
Lemma ready_rebind {C D} (p : D) (c : HttpClient C) : HttpExchange.ready c -> HttpExchange.ready (rebind p c).
Proof. by intros [[]]. Qed.

(** The client of the connection [i], on its port. *)
Definition client_of (t : site) (i : nat) : option (HttpClient port) :=
  match clients t !! i with Some (Some c) => Some (attach t c) | _ => None end.

Definition wire_sent (t : site) (i : nat) : bytes := w_sent (wire_at i (wires t)).

Lemma message_text_ne q : message_text q <> [].
Proof. unfold message_text. intros [_ E]%app_nil. discriminate E. Qed.

(** How far the reply [rest] of the connection [i] has got, [before] having been sent
    earlier on its descriptor. *)
Inductive progress (before rest : bytes) (i : nat) (t : site) : Prop :=
| answered c :
    connected (table t) i -> client_of t i = Some c -> HttpExchange.ready c ->
    wire_sent t i = before ++ rest -> progress before rest i t
| answering c part left :
    connected (table t) i -> client_of t i = Some c -> sending c left -> left <> [] -> rest = part ++ left ->
    wire_sent t i = before ++ part -> progress before rest i t
| broken_off c part left :
    (exists x, sockets_ (table t) !! i = Some x /\ status_ x = SS_INVALID) -> client_of t i = Some c -> closed_ok c ->
    rest = part ++ left -> wire_sent t i = before ++ part -> progress before rest i t.

(** A consistent site with an open connection and its client. *)
Record open_client (t : site) (i : nat) (c : HttpClient nat) : Prop := {
  oc_table : sinv (table t);
  oc_good : broken t = false;
  oc_conn : connected (table t) i;
  oc_client : clients t !! i = Some (Some c);
  oc_open : conn_ c = true;
  oc_slot : peer c = i
}.

Lemma open_port t i c : open_client t i c -> port_ok (peer (attach t c)) /\ p_slot (peer (attach t c)) = i.
Proof.
  intros [HI Hb (x&Hx&Hst) Hcl Hc Hp]. split; [|exact Hp]. split; [done| |done]. cbn. rewrite Hp. by exists x.
Qed.

Lemma open_sent t i c : open_client t i c -> sent (peer (attach t c)) = wire_sent t i.
Proof. intros H. destruct (open_port _ _ _ H) as [Hok Hs]. by rewrite (port_sent _ Hok), Hs. Qed.

(** Nothing but the descriptors and the tables of sockets ties the clients to each other. *)
Definition connectedb (t : site) (i : nat) : bool :=
  match sockets_ (table t) !! i with Some x => bool_decide (status_ x = SS_CONNECTED) | None => false end.

Lemma connectedb_true t i : connected (table t) i -> connectedb t i = true.
Proof. intros (x&Hx&Hst). unfold connectedb. by rewrite Hx, bool_decide_true. Qed.

Section Service.
Variables (date : bytes) (reserve grow : Z -> Z -> Z) (junk : bytes) (cap0 : Z).

Abbreviation handle fuel := (handle_event date reserve grow true junk cap0 fuel).
Abbreviation run_event := (ProcessEvent (DefaultHttpRequestHandler date) reserve grow true).
Abbreviation new_client := (new_client true junk cap0).

(** What [RunPoll] hands to [PollHandler] for the connection [i], while it is open. *)
Fixpoint connection_events (fuel : nat) (es : list SocketCode) (i : nat) (t : site) : outcome :=
  match es with
  | [] => Serving t
  | e :: es' =>
      if connectedb t i then
        match handle fuel (SE (Some e) i) t with Serving t' => connection_events fuel es' i t' | o => o end
      else Serving t
  end.

(** An event that the client handles. *)
Lemma handle_process fuel t i c evt c' n :
  open_client t i c -> evt = SC_READ \/ evt = SC_WRITE -> run_event fuel evt (attach t c) = Val (c', n) ->
  handle fuel (SE (Some evt) i) t = Serving (detach i c' t).
Proof.
  intros [HI Hb (x&Hx&Hst) Hcl Hc Hp] He H. destruct (si_fd _ HI _ _ Hx) as [Hf _]; [by rewrite Hst|].
  unfold handle_event. cbn [conn code]. rewrite Hx, Hf, Hcl. cbn [default].
  replace (HttpServer.PollHandler evt) with Process by (by destruct He as [-> | ->]).
  assert (Et : Site (http t) (<[i:=Some c]> (clients t)) (wires t) (pending t) (broken t) = t).
  { rewrite list_insert_id by done. by destruct t. }
  cbv zeta. change (id c) with c. by rewrite Et, H.
Qed.

Lemma detach_client t i c' : (i < length (clients t))%nat -> client_of (detach i c' t) i = Some c'.
Proof.
  intros Hi. unfold client_of, detach. cbn [clients]. rewrite list_lookup_insert_eq by done.
  destruct c' as [? ? ? ? ? ? ? ? ? [? ? ? ?]]. reflexivity.
Qed.

(** The port of a client after an event. *)
Lemma event_port fuel evt (c c' : HttpClient port) n :
  run_event fuel evt c = Val (c', n) -> port_ok (peer c) -> conn_ c = true ->
  (conn_ c' = true /\ port_ok (peer c') /\ p_slot (peer c') = p_slot (peer c)) \/
  (conn_ c' = false /\ exists p, port_ok p /\ p_slot p = p_slot (peer c) /\ peer c' = port_close p).
Proof.
  intros H Hok Hc. destruct (ProcessEvent_io _ _ _ _ _ _ _ _ _ H) as (p&Hio&Hor).
  destruct (io_ok _ _ Hio Hok) as [Hok1 [Hn _ _]].
  destruct Hor as [[E Ec]|(E&Ec&Ec')]; [left|right].
  - rewrite E, Ec. done.
  - split; [done|]. by exists p.
Qed.

(** The state of a reply becomes the progress of its connection. *)
Lemma event_progress fuel t i c evt c' n p0 rest :
  open_client t i c -> evt = SC_READ \/ evt = SC_WRITE -> run_event fuel evt (attach t c) = Val (c', n) ->
  reply_state p0 rest c' ->
  let t' := detach i c' t in
  progress (sent p0) rest i t' /\ sinv (table t') /\ broken t' = false /\
  (connected (table t') i -> open_client t' i (rebind i c')).
Proof.
  intros Ho He H Hr t'. destruct (open_port _ _ _ Ho) as [Hok Hslot].
  assert (Hlt : (i < length (clients t))%nat) by (eapply lookup_lt_Some, (oc_client _ _ _ Ho)).
  pose proof (detach_client t i c' Hlt) as Hcl.
  destruct (process_serves date reserve grow true fuel t i c evt c' n) as [_ [HI [Hb _]]];
    [apply Ho..|exact H|].
  assert (Hw : wire_sent t' i = w_sent (wire_at i (p_wires (peer c')))) by done.
  assert (Ht : table t' = p_server (peer c')) by done.
  destruct (event_port _ _ _ _ _ H Hok (oc_open _ _ _ Ho)) as [(Ec&Hok'&Hs')|(Ec&p&Hok'&Hs'&Ep)]; rewrite Hslot in Hs'.
  - assert (Hconn : connected (table t') i) by (rewrite Ht, <-Hs'; exact (po_slot _ Hok')).
    assert (Hwp : wire_sent t' i = sent (peer c')) by (by rewrite (port_sent _ Hok'), Hs').
    split; [|split; [done|split; [done|]]].
    + destruct Hr as [H1 H2|part left H1 H2 H3 H4|p part left H1 H2 H3 H4].
      * by apply (answered _ _ _ _ c'); [..|congruence].
      * by apply (answering _ _ _ _ c' part left); [..|congruence].
      * pose proof (cl_conn _ H1). congruence.
    + intros _. split; [done|done|done| |exact Ec|done].
      unfold t', detach. cbn [clients]. rewrite list_lookup_insert_eq by done. by rewrite Hs'.
  - destruct (port_close_ok _ Hok') as (_&_&_&Hinv). rewrite Hs', <-Ep in Hinv.
    assert (Hwp : wire_sent t' i = sent (peer c')).
    { rewrite Hw, Ep, port_close_wires, port_close_sent, (port_sent _ Hok'), Hs'. done. }
    split; [|split; [done|split; [done|]]].
    + destruct Hr as [H1 H2|part left H1 H2 H3 H4|p' part left H1 H2 H3 H4].
      * pose proof (re_conn _ H1). congruence.
      * pose proof (se_conn _ _ H1). congruence.
      * apply (broken_off _ _ _ _ c' part left); [by rewrite Ht|done..|].
        rewrite Hwp, H2. by etransitivity; [apply port_close_sent|].
    + intros (y&Hy&Hsy). destruct Hinv as (z&Hz&Hsz). rewrite Ht in Hy. congruence.
Qed.

(** [new HttpClient], or a client without a connection, with [room] in its read buffer. *)
Definition resting (room : Z) (o : option (HttpClient nat)) : Prop :=
  match o with
  | None => room <= blen junk
  | Some c => buffers_ok c [] /\ granularity (writeBuffer_ c) = 1024 /\ room <= size_ (readBuffer_ c)
  end.

Lemma resting_default room i o :
  0 < room -> resting room o -> let c := default (new_client i) o in
  buffers_ok c [] /\ granularity (writeBuffer_ c) = 1024 /\ room <= size_ (readBuffer_ c).
Proof.
  intros H0 H. destruct o as [c|]; [exact H|]. change (room <= blen junk) in H. cbn [default from_option]. unfold HttpServerLoop.new_client.
  destruct (InitBuffer_spec 1024 (replicate 8 true) ∅) as (h&w&ls&E&HI&Hg&_); [lia|repeat constructor|].
  rewrite E. split; [|split; [exact Hg|exact H]].
  assert (Hj : junk <> []) by (intros ->; change (blen []) with 0 in H; lia).
  by eapply (buffers_init 1024 (replicate 8 true)); [lia|repeat constructor|..].
Qed.

(** What the default handler answers to [q]. *)
Definition answer (q : message) : HttpResponse :=
  DefaultHttpRequestHandler date (parsed q (CleanUp (HttpRequest_init cap0)))
    (CleanUpResponse (HttpResponse_init false HSC_UNKNOWN)).

(** [ResetClient] of a client whose buffers are at rest. *)
Lemma ResetClient_rest (c : HttpClient nat) b :
  buffers_ok c [] -> exists c', ResetClient b c = Some c' /\ buffers_ok c' [] /\ conn_ c' = b /\ peer c' = peer c /\
    evtHandler_ c' = ProcessRequestLine_h /\ writeBuffer_ c' = writeBuffer_ c /\
    snd (GetFreeBuffer (readBuffer_ c')) = size_ (readBuffer_ c) /\
    forall q, DefaultHttpRequestHandler date (parsed q (request_ c')) (clientResponse_ c') = answer q.
Proof.
  intros [H1 H2 H3 H4 H5 H6]. pose proof (proj1 (empty_list _ _) H6) as Hp. unfold ResetClient. rewrite Hp.
  cbn [release_pending PopFront head_ HttpBufferList_init]. eexists. split; [reflexivity|]. split_and!; try done; cbn.
  - split; cbn; try done; [|by apply empty_list]. destruct H1 as [E1 E2 E3]. split; unfold size_ in *; cbn; lia.
  - destruct (readBuffer_ c) as [mem p0 n]. unfold GetFreeBuffer, MoveDataToFront, ResetBuffer, content, range, slice, size_.
    cbn. case_match; change (blen mem - 0 = blen mem); lia.
Qed.

Lemma handle_accept fuel t i o room :
  sinv (table t) -> broken t = false -> connected (table t) i -> clients t !! i = Some o -> 0 < room -> resting room o ->
  exists c t', handle fuel (SE (Some SC_ACCEPTED) i) t = Serving t' /\ open_client t' i c /\ HttpExchange.ready c /\
    granularity (writeBuffer_ c) = 1024 /\ room <= snd (GetFreeBuffer (readBuffer_ c)) /\
    wires t' = wires t /\ table t' = table t /\
    forall q, DefaultHttpRequestHandler date (parsed q (request_ c)) (clientResponse_ c) = answer q.
Proof.
  intros HI Hb (x&Hx&Hst) Ho H0 Hroom. destruct (si_fd _ HI _ _ Hx) as [Hf _]; [by rewrite Hst|].
  destruct (resting_default room i o H0 Hroom) as (Hbuf&Hg&Hsz). set (c0 := default (new_client i) o) in *.
  destruct (ResetClient_rest (set_peer i c0) true) as (c&E&Hbc&Hc&Hp&Hh&Hw&Hf'&Ha).
  { destruct Hbuf. by split. }
  assert (Hlt : (i < length (clients t))%nat) by by eapply lookup_lt_Some.
  exists c. eexists. split; [|split_and!].
  - unfold handle_event. cbn [conn code]. rewrite Hx, Hf, Ho. cbn [HttpServer.PollHandler]. fold c0. rewrite E. reflexivity.
  - split; cbn [table http clients broken tcpServer_]; try done; [by exists x|].
    rewrite list_insert_insert_eq. by apply list_lookup_insert_eq.
  - by split.
  - by rewrite Hw.
  - rewrite Hf'. exact Hsz.
  - done.
  - done.
  - exact Ha.
Qed.

(** A request that fits the read buffer comes in one read, and nothing behind it. *)
Lemma port_delivers sz d p :
  port_ok p -> w_reads (wire_at (p_slot p) (p_wires p)) = [KData d] -> d <> [] -> blen d <= sz ->
  exists p1, ReadBuffer sz p = (p1, ReadData d) /\ silent p1.
Proof.
  intros [HI (x&Hx&Hst) _] Hw Hd Hsz. destruct (si_fd _ HI _ _ Hx) as [Hf _]; [by rewrite Hst|].
  assert (Hpos : 0 < blen d) by (unfold blen; destruct d; [done|cbn; lia]). cbn. unfold port_read. rewrite Hx, Hf.
  unfold kernel_read. rewrite Hw. assert (Htake : take (Z.to_nat sz) d = d) by (apply take_ge; unfold blen in *; lia).
  assert (Hdrop : drop (Z.to_nat sz) d = []) by (apply drop_ge; unfold blen in *; lia).
  rewrite Htake, Hdrop. rewrite decide_True by done.
  unfold ServerRead. rewrite Hx, (proj2 (Z.eqb_neq sz 0)), bool_decide_false by (lia || by rewrite Hst).
  cbn [orb]. rewrite Hf. pose proof (ModifySocket_sockets (p_slot p) false (p_server p)) as Hs.
  destruct (ModifySocket _ _ _) as [s1 b]. cbn in Hs.
  rewrite (proj2 (Z.ltb_ge _ _)), (proj2 (Z.eqb_neq _ _)) by lia.
  rewrite (proj2 (Z.ltb_ge _ _)) by lia. eexists. split; [reflexivity|].
  exists x. cbn. rewrite Hs, Hf, wire_at_insert. split_and!; [done..|by rewrite Hst|done].
Qed.

(** The events that say the socket is writable. *)
Lemma writes_served p0 rest i m t :
  progress (sent p0) rest i t -> sinv (table t) -> broken t = false ->
  (connected (table t) i -> exists c, open_client t i c) ->
  exists fuel t', progress (sent p0) rest i t' /\ sinv (table t') /\ broken t' = false /\
    forall more, connection_events (fuel + more) (replicate m SC_WRITE) i t = Serving t'.
Proof.
  revert t. induction m as [|m IH]; intros t HP HI Hb Hoc; [by exists 0%nat, t|].
  assert (Hgo : forall c, connected (table t) i -> client_of t i = Some c ->
    (forall c0, open_client t i c0 -> attach t c0 = c -> sent (peer c) = wire_sent t i) ->
    (sent (peer c) = wire_sent t i -> reply_state p0 rest c) ->
    exists fuel t', progress (sent p0) rest i t' /\ sinv (table t') /\ broken t' = false /\
      forall more, connection_events (fuel + more) (replicate (S m) SC_WRITE) i t = Serving t').
  { intros c Hcon Hcl Hsent Hrs. destruct (Hoc Hcon) as [c0 Hc0].
    assert (Ec : attach t c0 = c) by (revert Hcl; unfold client_of; rewrite (oc_client _ _ _ Hc0); by intros [= ->]).
    destruct (write_event_ok (DefaultHttpRequestHandler date) reserve grow p0 rest c (Hrs (Hsent _ Hc0 Ec)))
      as (k&c'&ret&_&Hr'&Hk). rewrite <-Ec in Hk.
    assert (He : SC_WRITE = SC_READ \/ SC_WRITE = SC_WRITE) by by right.
    destruct (event_progress _ _ _ _ _ _ _ _ _ Hc0 He (Hk 0%nat) Hr') as (HP'&HI'&Hb'&Ho').
    destruct (IH (detach i c' t) HP' HI' Hb') as (f&t'&HP2&HI2&Hb2&Hf); [by intros H; eexists; apply Ho'|].
    exists (k + f)%nat, t'. split_and!; [done..|]. intros more. cbn [replicate connection_events].
    rewrite (connectedb_true _ _ Hcon).
    rewrite (handle_process _ _ _ _ _ c' ret Hc0 He) by (rewrite <-Nat.add_assoc; apply Hk).
    replace (k + f + more)%nat with (f + (k + more))%nat by lia. apply Hf. }
  destruct HP as [c Hcon Hcl Hrd Hw|c part left Hcon Hcl Hse Hne Hsum Hw|c part left (x&Hx&Hst) Hcl Hcd Hsum Hw].
  - apply (Hgo c Hcon Hcl); [intros c0 Hc0 <-; by apply open_sent|]. intros E. apply reply_done; [done|congruence].
  - apply (Hgo c Hcon Hcl); [intros c0 Hc0 <-; by apply open_sent|].
    intros E. apply (reply_waits _ _ _ part left); [done..|congruence].
  - exists 0%nat, t. split_and!; [|done..|].
    + apply (broken_off _ _ _ _ c part left); [by exists x|done..].
    + intros more. cbn [replicate connection_events]. unfold connectedb. rewrite Hx, bool_decide_false; [done|by rewrite Hst].
Qed.

(** The server answers.  A connection of a consistent server is announced
    ([SC_ACCEPTED]), whether its slot has a client from an earlier connection or none yet; a
    request (not a POST) that fits the read buffer arrives; then the socket becomes
    writable any number of times.  Whatever part of each [write] the kernel takes, the
    events come to their end without a failed [assert], and what was added to the bytes on
    the descriptor is the [reply] to the answer of the default handler to exactly that
    request, after which the client is ready for the next; or a prefix of it, with exactly
    the rest in the buffer of this connection's client; or a prefix, the connection having
    failed and been closed. *)
Theorem connection_served (t : site) (i : nat) (o : option (HttpClient nat)) (q : message) (m : nat) :
  sinv (table t) -> broken t = false -> connected (table t) i ->
  clients t !! i = Some o -> resting (blen (message_text q)) o ->
  message_ok q -> m_method q <> HM_POST ->
  w_reads (wire_at i (wires t)) = [KData (message_text q)] ->
  0 < GetResponseSize (answer q) <= 8192 -> blen (render (answer q)) < 2 ^ 61 ->
  exists fuel t', progress (wire_sent t i) (reply 1024 (answer q)) i t' /\ sinv (table t') /\ broken t' = false /\
    forall more, connection_events (fuel + more) (SC_ACCEPTED :: SC_READ :: replicate m SC_WRITE) i t = Serving t'.
Proof.
  intros HI Hb Hcon Ho Hrest Hq Hpost Hw Hsz Hlen.
  pose proof (message_text_ne q) as Hne.
  assert (Hpos : 0 < blen (message_text q)) by (unfold blen; destruct (message_text q); [done|cbn; lia]).
  destruct (handle_accept 0 t i o _ HI Hb Hcon Ho Hpos Hrest) as (c&t1&E1&Hoc&Hrd&Hg&Hfree&Hwt&Htt&Ha).
  assert (E1' : forall fuel, handle fuel (SE (Some SC_ACCEPTED) i) t = Serving t1).
  { intros fuel. rewrite <-E1. unfold handle_event. cbn [conn code]. repeat case_match; done. }
  destruct (open_port _ _ _ Hoc) as [Hok Hslot]. pose proof (open_sent _ _ _ Hoc) as Hsent.
  destruct (port_delivers (snd (GetFreeBuffer (readBuffer_ c))) (message_text q) (peer (attach t1 c)) Hok)
    as (p1&Er&Hs1); [cbn; by rewrite Hwt, (oc_slot _ _ _ Hoc)|done|done|].
  destruct (request_ok (DefaultHttpRequestHandler date) reserve grow (attach t1 c) q p1) as (k&c'&ret&_&[Hr _]&Hk);
    [by apply ready_rebind|done|done|done|exact Er|done|..]; cbn [request_ clientResponse_ writeBuffer_ attach rebind];
    rewrite ?Ha, ?Hg; [lia|change (Z.of_nat num_slot_) with 8; lia| |done|].
  { apply (bool_decide_unpack _). by vm_compute. }
  cbn [request_ clientResponse_ writeBuffer_ attach rebind] in Hr. rewrite Ha, Hg in Hr.
  assert (He : SC_READ = SC_READ \/ SC_READ = SC_WRITE) by by left.
  destruct (event_progress _ _ _ _ _ _ _ _ _ Hoc He (Hk 0%nat) Hr) as (HP&HI2&Hb2&Ho2). rewrite Hsent in HP.
  assert (Hp0 : wire_sent t1 i = wire_sent t i) by (unfold wire_sent; by rewrite Hwt).
  rewrite <-Hp0, <-Hsent in *.
  destruct (writes_served (peer (attach t1 c)) (reply 1024 (answer q)) i m (detach i c' t1)) as (f&t'&HP'&HI'&Hb'&Hf);
    [done..|by intros H; eexists; apply Ho2|].
  exists (k + f)%nat, t'. split_and!; [done..|]. intros more. cbn [connection_events].
  rewrite (connectedb_true _ _ Hcon), E1', (connectedb_true _ _ (oc_conn _ _ _ Hoc)).
  rewrite (handle_process _ _ _ _ _ c' ret Hoc He) by (rewrite <-Nat.add_assoc; apply Hk).
  replace (k + f + more)%nat with (f + (k + more))%nat by lia. apply Hf.
Qed.
End Service.

(** ** A connection of the running server *)

Definition served_message : message := Message HM_GET (bs "/") None HV_11 [(bs "Host", bs "x")].

Lemma served_message_ok : message_ok served_message.
Proof.
  split; try done.
  - repeat split; apply (bool_decide_unpack _); by vm_compute.
  - intros _. apply (bool_decide_unpack _); by vm_compute.
  - repeat constructor; apply (bool_decide_unpack _); by vm_compute.
Defined.

(** Descriptor 3 listens, and 5 has been accepted: the site after the first events, when
    [RunPoll] has found [SC_ACCEPTED]. *)
Definition announced : option site :=
  match start demo_mem {[3%nat]} {[5%nat := Wire [KData (message_text served_message)] [WTake 100; WAgain; WTake 7; WAgain] []]} true 3 with
  | Some t =>
      match RunPoll [[Ev 3 true false (Some 5%nat) true false]] (table t, pending t) with
      | Some (Some (_, (s, q))) => Some (Site (set_table s (http t)) (clients t) (wires t) q (broken t))
      | _ => None
      end
  | None => None
  end.

Lemma announced_ok : exists t, announced = Some t /\ sinv (table t) /\ broken t = false /\ connected (table t) 5.
Proof.
  unfold announced.
  set (ws := ({[5%nat := Wire [KData (message_text served_message)] [WTake 100; WAgain; WTake 7; WAgain] []]} : gmap nat wire)).
  destruct (start_inv demo_mem {[3%nat]} ws true 3) as (t0&E0&[_ HT HQ HC Hb]);
    [apply (bool_decide_unpack _); by vm_compute|apply Nat.ltb_lt; by vm_compute|]. rewrite E0.
  assert (HB : batches_ok [[Ev 3 true false (Some 5%nat) true false]] (table t0, pending t0)).
  { assert (H : match start demo_mem {[3%nat]} ws true 3 with
      | Some t => bool_decide (batches_ok [[Ev 3 true false (Some 5%nat) true false]] (table t, pending t))
      | None => false end = true) by by vm_compute. rewrite E0 in H. by apply bool_decide_eq_true in H. }
  destruct (RunPoll_inv 3 _ _ _ _ HT HQ HC HB) as [E1|(e&s&q&E1&HT1&HR&_)].
  { exfalso. assert (H : match start demo_mem {[3%nat]} ws true 3 with
      | Some t => match RunPoll [[Ev 3 true false (Some 5%nat) true false]] (table t, pending t) with
          Some (Some _) => true | _ => false end
      | None => false end = true) by by vm_compute. by rewrite E0, E1 in H. }
  rewrite E1. eexists. split; [reflexivity|]. split; [apply HT1|]. split; [exact Hb|].
  pose proof (rd_conn _ _ _ _ HR) as Hc.
  assert (He : match start demo_mem {[3%nat]} ws true 3 with
      | Some t => match RunPoll [[Ev 3 true false (Some 5%nat) true false]] (table t, pending t) with
          Some (Some (e, _)) => conn e | _ => 0%nat end
      | None => 0%nat end = 5%nat) by by vm_compute.
  rewrite E0, E1 in He. by rewrite He in Hc.
Defined.

Lemma connection_served_witness :
  exists t, announced = Some t /\
  exists fuel t', progress [] (reply 1024 (answer (bs "today") 15 served_message)) 5 t' /\ sinv (table t') /\
    broken t' = false /\
    forall more, connection_events (bs "today") Z.max Z.max (replicate 512 nul) 15 (fuel + more)
      (SC_ACCEPTED :: SC_READ :: replicate 2 SC_WRITE) 5 t = Serving t'.
Proof.
  destruct announced_ok as (t&E&HI&Hb&Hc). exists t. split; [done|].
  assert (Hs : wire_sent t 5 = []) by (clear HI Hb Hc; vm_compute in E; by injection E as <-). rewrite <-Hs.
  apply (connection_served (bs "today") Z.max Z.max (replicate 512 nul) 15 t 5 None served_message 2); try done.
  - clear HI Hb Hc Hs. vm_compute in E. by injection E as <-.
  - apply served_message_ok.
  - clear HI Hb Hc Hs. vm_compute in E. by injection E as <-.
Defined.

(** 100 bytes go out with the request, 7 with the next event, the rest with the last. *)
Example service_demo :
  match announced with
  | Some t =>
      map (fun m => match connection_events (bs "today") Z.max Z.max (replicate 512 nul) 15 10
                      (SC_ACCEPTED :: SC_READ :: replicate m SC_WRITE) 5 t with
                    | Serving t' => Some (blen (wire_sent t' 5)) | _ => None end) [0; 1; 2; 3]%nat
  | None => []
  end = [Some 100; Some 107; Some 520; Some 520].
Proof. by vm_compute. Qed.
