(* ===== verification/HttpRun.v ===== *)
(** * HttpRun.v: one connection in a run of the whole server

The theorem of HttpService.v follows the events of one connection, one after the other.
Here they come as they do in [HttpServer::RunServer]: round after round, the watch policy,
[epoll_wait], the two queues, and in between the events of every other connection, whose
peers send what they want.  [request_served] says what such a run does for the connection
on the descriptor [i], whose peer sends one request: until the server has read it nothing
is sent; and from then on the bytes on [i] are the reply to that request as far as the
kernel has taken it, with exactly the rest in the client of [i].

A connection goes through three phases ([phase]): it is not yet accepted or only announced,
the server waits for its request, or the reply is under way.  A round handles an event of
[i], which moves the phase ([phase_event]), or of another connection, which does not touch
it ([phase_frame]); what [epoll_wait] does in between is [heard]. *)

From S2P Require Import Prelude Machine HttpBuffer HttpRequest HttpResponse HttpClient HttpExchange SocketServer HttpServer HttpServerLoop HttpService.

(** ** What a connection notices of [epoll_wait] *)

(** How often the kernel offers the descriptor [i] as a new connection. *)
Definition offers (i : nat) (es : list poll_event) : nat := length (filter (fun e => ev_client e = Some i) es).

Lemma offers_app i es1 es2 : offers i (es1 ++ es2) = (offers i es1 + offers i es2)%nat.
Proof. unfold offers. by rewrite filter_app, length_app. Qed.

Lemma offers_cons i e es : offers i (e :: es) = (offers i [e] + offers i es)%nat.
Proof. apply (offers_app i [e] es). Qed.

Definition announced_in (q : queues) (i : nat) : Prop := i ∈ map conn (accept_queue q).

(** The connection [i] before and after some events of [epoll_wait] that offer it [k]
    times: it stays open, and it is only opened by an offer, which announces it. *)
Record heard (i k : nat) (s : ServerImpl) (q : queues) (s' : ServerImpl) (q' : queues) : Prop := {
  hd_open : connected s i -> connected s' i;
  hd_new : connected s' i -> connected s i \/ announced_in q' i;
  hd_keep : announced_in q i -> announced_in q' i;
  hd_offer : announced_in q' i -> announced_in q i \/ (0 < k)%nat
}.

Lemma heard_refl i k s q : heard i k s q s q.
Proof. split; auto. Qed.

Lemma heard_trans i k1 k2 s1 q1 s2 q2 s3 q3 :
  heard i k1 s1 q1 s2 q2 -> heard i k2 s2 q2 s3 q3 -> heard i (k1 + k2) s1 q1 s3 q3.
Proof.
  intros [A1 A2 A3 A4] [B1 B2 B3 B4]. split; [auto| |auto|].
  - intros H. destruct (B2 H) as [H2|H2]; [|by right]. destruct (A2 H2); [by left|right; auto].
  - intros H. destruct (B4 H) as [H2|H2]; [|right; lia]. destruct (A4 H2); [by left|right; lia].
Qed.

Lemma heard_more i k k' s q s' q' : (k <= k')%nat -> heard i k s q s' q' -> heard i k' s q s' q'.
Proof. intros Hk [A1 A2 A3 A4]. split; [done..|]. intros H. destruct (A4 H); [by left|right; lia]. Qed.

(** Only the queue of reads and writes has grown. *)
Lemma heard_rw i k s q s' r : sockets_ s' = sockets_ s -> heard i k s q s' (Queues (accept_queue q) r).
Proof. intros Hs. split; [..|auto]; unfold connected; rewrite ?Hs; auto. Qed.

Lemma poll_one_heard lf i e s q s' q' :
  tinv lf s -> event_ok s e -> poll_one e (s, q) = Some (s', q') -> heard i (offers i [e]) s q s' q'.
Proof.
  intros HT HE. destruct (deliver_some s e HE) as [w Hd]. destruct (event_slot lf s e HT HE) as (x&Hx&Hst).
  unfold poll_one. rewrite Hd. assert (HT1 : tinv lf (set_poller (<[ev_fd e := Interest false (want_write w)]> (poller_ s)) s))
    by by eapply deliver_tinv. set (s1 := set_poller _ s) in *.
  change (sockets_ s1 !! ev_fd e) with (sockets_ s !! ev_fd e). rewrite Hx.
  destruct Hst as [[-> Hlf]|[Hst Hlf]]; [intros [= <- <-]; by apply heard_rw|]. rewrite Hst, Hlf in *.
  destruct HE as (_&_&_&Hadd&Hacc). rewrite Hlf in Hacc. unfold offers. cbn [filter]. destruct q as [a r].
  destruct (ev_client e) as [c|] eqn:Ec.
  - rewrite Hadd. destruct (Hacc x c Hx Hst eq_refl) as [Hnew Hlt].
    destruct (accept_shape lf s1 c x HT1 Hx Hnew Hlt) as (s2&E&Hs&_). rewrite E. intros [= <- <-].
    assert (Hc : forall j, j = c \/ connected s1 j -> connected s2 j) by (intros j; by eapply insert_connected).
    split; unfold announced_in; cbn [accept_queue]; rewrite ?map_app; cbn [map]; rewrite ?elem_of_app.
    + intros H. by apply Hc; right.
    + intros H. destruct (connected_insert _ _ _ _ Hs i H) as [->|H']; [right; right; by left|by left].
    + by left.
    + intros [H|H]; [by left|right]. apply list_elem_of_singleton in H as ->. cbn [conn].
      rewrite filter_cons_True by done. cbn. lia.
  - unfold HandleAcceptReady. change (sockets_ s1 !! lf) with (sockets_ s !! lf). rewrite Hx. intros [= <- <-].
    by apply heard_rw.
Qed.

Lemma poll_all_heard lf i b s q cs s' q' :
  tinv lf s -> qinv s q -> cinv s q cs -> batch_ok s b -> (forall e, e ∈ b -> ev_fd e ∉ qconns q) ->
  poll_all b (s, q) = Some (s', q') -> heard i (offers i b) s q s' q'.
Proof.
  revert s q. induction b as [|e b IH]; intros s q HT HQ HC [Hnd Hok] Hnq H; cbn [poll_all] in H.
  { injection H as <- <-. apply heard_refl. }
  cbn [map] in Hnd. apply NoDup_cons in Hnd as [Hnd1 Hnd2]. apply Forall_cons in Hok as [He Hok].
  destruct (poll_one_inv lf s q cs e) as (s1&q1&E&HT1&HQ1&HC1&_&Hkeep); [done..|apply Hnq; by left|].
  rewrite E in H. rewrite offers_cons. eapply heard_trans; [by eapply poll_one_heard|].
  assert (Hb : forall e', e' ∈ b -> event_ok s1 e' /\ ev_fd e' ∉ qconns q1).
  { intros e' He'. apply Hkeep; [|by eapply Forall_forall|apply Hnq; by right].
    intros Heq. apply Hnd1. rewrite <-Heq. apply list_elem_of_In, in_map, list_elem_of_In, He'. }
  apply IH; try done; [split; [done|]; apply Forall_forall|]; intros e' He'; by apply Hb.
Qed.

(** An event is taken from the queue: what is due, and what stays announced. *)
Definition due (e : socket_event) (q : queues) (i : nat) : Prop :=
  announced_in q i \/ (conn e = i /\ code e = Some SC_ACCEPTED).

Lemma next_event_due q e q' s i :
  qinv s q -> next_event q = Some (e, q') -> due e q' i <-> announced_in q i.
Proof.
  intros HQ H. unfold due, announced_in. destruct q as [[|x a] r]; cbn in H.
  - destruct r as [|x r]; [done|]. injection H as <- <-. cbn. split; [|by intros ?%elem_of_nil].
    intros [H|[_ H]]; [by apply elem_of_nil in H|]. destruct (qi_rw _ _ HQ x); cbn; [by left|congruence..].
  - injection H as <- <-. cbn. rewrite elem_of_cons. split; [intros [H|[H _]]; auto|].
    intros [->|H]; [right|by left]. split; [done|]. apply (qi_acc _ _ HQ). by left.
Qed.

(** [RunPoll] up to its event. *)
Lemma RunPoll_heard lf i bs s q cs e s' q' :
  tinv lf s -> qinv s q -> cinv s q cs -> batches_ok bs (s, q) ->
  RunPoll bs (s, q) = Some (Some (e, (s', q'))) ->
  exists q1, heard i (offers i (concat bs)) s q s' q1 /\ (due e q' i <-> announced_in q1 i).
Proof.
  revert s q. induction bs as [|b bs IH]; intros s q HT HQ HC HB H; cbn [RunPoll batches_ok snd fst] in *.
  all: destruct (next_event q) as [[e1 q1]|] eqn:En.
  1,3: injection H as <- <- <-; exists q; split; [apply heard_refl|by eapply next_event_due].
  - done.
  - destruct HB as [Hb HB]. assert (Hq : qconns q = []).
    { unfold next_event in En. destruct q as [[|? ?] [|? ?]]; done. }
    assert (Hnq : forall e, e ∈ b -> ev_fd e ∉ qconns q) by (intros e' _; rewrite Hq; by intros ?%elem_of_nil).
    destruct (poll_all_inv lf b s q cs) as (s1&q1&E&HT1&HQ1&HC1&_); [done..|].
    pose proof (poll_all_heard lf i b s q cs s1 q1 HT HQ HC Hb Hnq E) as H1.
    rewrite E in HB, H. destruct (IH s1 q1) as (q2&H2&Hd); [done..|].
    exists q2. split; [|done]. cbn [concat]. rewrite offers_app. by eapply heard_trans.
Qed.

(** ** A round, seen from one connection *)

Lemma watch_policy_only total ok h h' :
  watch_policy total ok h = Some h' -> only (listenFd_ h) (tcpServer_ h) (tcpServer_ h').
Proof.
  unfold watch_policy. destruct (watching_ h && _); [|destruct (negb _ && _); [|intros [= <-]; apply only_refl]].
  - destruct (UnwatchSocket _ _) as [[s b]|] eqn:E; [|done]. intros [= <-]. by eapply UnwatchSocket_only.
  - destruct (WatchRawSocket _ _ _ _) as [[s b]|] eqn:E; [|done]. intros [= <-]. by eapply WatchRawSocket_only.
Qed.

(** The connection whose event a round handles. *)
Definition event_of (r : round) (t : site) : option nat :=
  match watch_policy (Z.of_nat (length (clients t))) (r_add_ok r) (http t) with
  | Some h =>
      match RunPoll (r_batches r) (tcpServer_ h, pending t) with Some (Some (e, _)) => Some (conn e) | _ => None end
  | None => None
  end.

Section Round.
Variables (date : bytes) (reserve grow : Z -> Z -> Z) (malloc_ok : bool) (junk : bytes) (cap0 : Z) (fuel : nat).

Abbreviation handle := (handle_event date reserve grow malloc_ok junk cap0 fuel).
Abbreviation server_round := (server_round date reserve grow malloc_ok junk cap0 fuel).

(** The site when a round has found its event [e]. *)
Record found (lf i k : nat) (t : site) (e : socket_event) (t1 : site) : Prop := {
  fo_listen : listenFd_ (http t1) = lf;
  fo_table : tinv lf (table t1);
  fo_good : broken t1 = false;
  fo_ready : ready (table t1) (pending t1) (clients t1) e;
  fo_clients : clients t1 = clients t;
  fo_wires : wires t1 = wires t;
  fo_heard : exists q1, heard i k (table t) (pending t) (table t1) q1 /\
    (due e (pending t1) i <-> announced_in q1 i)
}.

Lemma round_split lf i r t :
  ginv lf t -> round_ok r t ->
  server_round r t = Waiting \/
  exists e t1, server_round r t = handle e t1 /\ event_of r t = Some (conn e) /\
    found lf i (offers i (concat (r_batches r))) t e t1.
Proof.
  intros HG HR. unfold HttpServerLoop.server_round, HttpServerLoop.round_ok, event_of in *.
  destruct (watch_policy_inv lf (Z.of_nat (length (clients t))) (r_add_ok r) t HG) as (h&E&Hl&HT&HQ&HC&Hm).
  pose proof (watch_policy_only _ _ _ _ E) as Ho. rewrite (gi_listen _ _ HG) in Ho. change (tcpServer_ (http t)) with (table t) in Ho.
  rewrite E in *. destruct (RunPoll_inv lf _ _ _ _ HT HQ HC HR) as [E2|(e&s&q&E2&HT2&HR2&Hm2)]; rewrite E2; [by left|right].
  exists e, (Site (set_table s h) (clients t) (wires t) q (broken t)). split; [done|]. split; [done|].
  destruct (RunPoll_heard lf i _ _ _ _ _ _ _ HT HQ HC HR E2) as (q1&H1&Hd).
  split; try done; [apply (gi_good _ _ HG)|]. exists q1. split; [|done]. destruct H1 as [A1 A2 A3 A4]. split; try done.
  - intros H. by apply A1, Hm.
  - intros H. destruct (A2 H) as [H2|H2]; [left|by right]. by apply (connected_listener lf (table t) (tcpServer_ h)); [apply HG| | |].
Qed.

(** Only the client of the event's connection can crash or loop. *)
Lemma handle_event_blames t e :
  sinv (table t) -> connected (table t) (conn e) ->
  match handle e t with ClientCrash id | ClientSpin id => id = conn e | _ => True end.
Proof.
  intros HI (x&Hx&Hst). destruct (si_fd _ HI _ _ Hx) as [Hf _]; [by rewrite Hst|].
  unfold handle_event. rewrite Hx, Hf. destruct (code e) as [c|]; [|done].
  destruct (clients t !! conn e) as [o|]; [|done]. destruct (HttpServer.PollHandler c); try done.
  - destruct (ProcessEvent _ _ _ _ _ _ _) as [[]| |]; done.
  - destruct (ResetClient _ _); done.
  - destruct (CloseSocket _ _) as [[]|]; done.
Qed.
End Round.

(** ** The phases of a connection *)

(** Some port over which [b] has been sent. *)
Lemma sent_port (b : bytes) : exists p : port, sent p = b.
Proof.
  exists (Port 0 (set_slot 0 (Slot 0 SS_INVALID 0) (ServerImpl_init [Slot 0 SS_INVALID 0] ∅)) {[0%nat := Wire [] [] b]} false).
  reflexivity.
Qed.

Section Crowd.
Variables (date : bytes) (reserve grow : Z -> Z -> Z) (junk : bytes) (cap0 : Z) (fuel : nat).
Variables (lf i : nat) (q : message) (before : bytes).

Abbreviation handle := (handle_event date reserve grow true junk cap0 fuel).
Abbreviation server_round := (server_round date reserve grow true junk cap0 fuel).
Abbreviation serve := (serve date reserve grow true junk cap0 fuel).
Abbreviation rounds_ok := (rounds_ok date reserve grow true junk cap0 fuel).
Abbreviation answer := (answer date cap0).
Abbreviation rest := (reply 1024 (answer q)).

Definition reads_at (t : site) : list kread := w_reads (wire_at i (wires t)).

(** The request has not been read, and nothing has been sent. *)
Definition unread (t : site) : Prop := reads_at t = [KData (message_text q)] /\ wire_sent t i = before.

(** The request has been read, and the reply is under way. *)
Definition replying (t : site) : Prop := reads_at t = [] /\ progress before rest i t.

(** The client has bytes to send, and the kernel has so many answers to [write] left. *)
Definition sends (t : site) : Prop := exists c, clients t !! i = Some (Some c) /\ evtHandler_ c = SendResponse_h.

Definition writes_at (t : site) : nat := length (w_writes (wire_at i (wires t))).

(** A client that waits for the request. *)
Record asking (c : HttpClient nat) : Prop := {
  as_open : conn_ c = true;
  as_slot : peer c = i;
  as_ready : HttpExchange.ready c;
  as_gran : granularity (writeBuffer_ c) = 1024;
  as_room : blen (message_text q) <= snd (GetFreeBuffer (readBuffer_ c));
  as_fresh : DefaultHttpRequestHandler date (parsed q (request_ c)) (clientResponse_ c) = answer q
}.

(** [n] offers of the descriptor are still to come. *)
Inductive phase (n : nat) (t : site) : Prop :=
| to_come o :
    (n <= 1)%nat -> (connected (table t) i -> announced_in (pending t) i /\ n = 0%nat) ->
    clients t !! i = Some o -> resting junk (blen (message_text q)) o -> unread t -> phase n t
| to_ask c :
    n = 0%nat -> ~ announced_in (pending t) i -> connected (table t) i ->
    clients t !! i = Some (Some c) -> asking c -> unread t -> phase n t
| to_reply : n = 0%nat -> ~ announced_in (pending t) i -> replying t -> phase n t.

(** A site that is the same for [i]. *)
Record alike (t t' : site) : Prop := {
  al_client : clients t' !! i = clients t !! i;
  al_wire : wires t' !! i = wires t !! i;
  al_conn : connected (table t') i <-> connected (table t) i
}.

Lemma alike_unread t t' : alike t t' -> unread t -> unread t'.
Proof. intros [_ Hw _]. unfold unread, reads_at, wire_sent, wire_at. by rewrite Hw. Qed.

Lemma sending_rebind {C D} (p : D) (c : HttpClient C) left : sending c left -> sending (rebind p c) left.
Proof. intros [(a&x&[[] ? ? ? ?]) ? ?]. split; [exists a, x; by split|done..]. Qed.

Lemma closed_rebind {C D} (p : D) (c : HttpClient C) : closed_ok c -> closed_ok (rebind p c).
Proof. by intros [[]]. Qed.

Lemma client_of_alike t t' c :
  alike t t' -> client_of t i = Some c -> exists p, client_of t' i = Some (rebind p c).
Proof.
  intros [Hc _ _]. unfold client_of. rewrite Hc. destruct (clients t !! i) as [[c0|]|]; [|done..].
  intros [= <-]. by eexists (Port _ _ _ _).
Qed.

Lemma alike_replying t t' : alike t t' -> i <> lf -> tinv lf (table t') -> (i < length (sockets_ (table t')))%nat ->
  replying t -> replying t'.
Proof.
  intros Ha Hne HT Hlt [Hr HP]. split; [revert Hr; unfold reads_at, wire_at; by rewrite (al_wire _ _ Ha)|].
  assert (Hs : wire_sent t' i = wire_sent t i) by (unfold wire_sent, wire_at; by rewrite (al_wire _ _ Ha)).
  destruct HP as [c Hcon Hcl H1 H2|c part left Hcon Hcl H1 H2 H3 H4|c part left (x&Hx&Hst) Hcl H1 H2 H3];
    destruct (client_of_alike _ _ _ Ha Hcl) as [p Hcl'].
  - apply (answered _ _ _ _ (rebind p c)); [by apply Ha|done|by apply ready_rebind|congruence].
  - apply (answering _ _ _ _ (rebind p c) part left); [by apply Ha|done|by apply sending_rebind|done..|congruence].
  - apply (broken_off _ _ _ _ (rebind p c) part left); [|done|by apply closed_rebind|done|congruence].
    destruct (lookup_lt_is_Some_2 _ _ Hlt) as [y Hy]. exists y. split; [done|].
    destruct (ti_status _ _ HT _ _ Hy) as [?|[[Hc _]|[_ ?]]]; [done| |done]. exfalso.
    assert (Hcon : connected (table t) i) by (apply Ha; by exists y). destruct Hcon as (z&Hz&Hsz). congruence.
Qed.

(** ** The events of the connection *)

Hypothesis Hq : message_ok q.
Hypothesis Hpost : m_method q <> HM_POST.
Hypothesis Hsize : 0 < GetResponseSize (answer q) <= 8192.
Hypothesis Hlen : blen (render (answer q)) < 2 ^ 61.
Hypothesis Hfuel : (length rest + 6 <= fuel)%nat.

Lemma ends_fuel {C} B (start : nat -> run (HttpClient C * Z)) P :
  ends B start P -> (B <= fuel)%nat -> exists c ret, P c /\ start fuel = Val (c, ret).
Proof.
  intros (k&c&ret&Hk&HP&E) HB. exists c, ret. split; [done|]. by replace fuel with (k + (fuel - k))%nat by lia.
Qed.

(** Nothing more will arrive: the kernel has nothing more to read. *)
Lemma silent_reads (p : port) : silent p -> w_reads (wire_at (p_slot p) (p_wires p)) = [].
Proof. intros (x&_&Hf&_&Hw). by rewrite <-Hf. Qed.

Lemma silent_port (t : site) c : open_client t i c -> reads_at t = [] -> silent (peer (attach t c)).
Proof.
  intros [HI _ (x&Hx&Hst) _ _ Hp] Hr. destruct (si_fd _ HI _ _ Hx) as [Hf _]; [by rewrite Hst|].
  exists x. cbn. rewrite Hp, Hf, Hst. done.
Qed.

Lemma port_close_slot p : p_slot (port_close p) = p_slot p.
Proof. unfold port_close. destruct (sockets_ _ !! _); [|done]. by destruct (CloseSocket _ _) as [[]|]. Qed.

Lemma port_cuts p : port_ok p -> p_slot p = i -> cuts p = length (w_writes (wire_at i (p_wires p))).
Proof.
  intros [HI (x&Hx&Hst) _] <-. destruct (si_fd _ HI _ _ Hx) as [Hf _]; [by rewrite Hst|]. unfold cuts. cbn. by rewrite Hx, Hf.
Qed.

(** What is left to be sent after an event. *)
Lemma event_sends t c evt c' ret p0 :
  open_client t i c ->
  ProcessEvent (DefaultHttpRequestHandler date) reserve grow true fuel evt (attach t c) = Val (c', ret) ->
  reply_state p0 rest c' ->
  (evtHandler_ c' = SendResponse_h -> evtHandler_ c = SendResponse_h /\ shorter (attach t c) c') ->
  sends (detach i c' t) -> sends t /\ (writes_at (detach i c' t) < writes_at t)%nat.
Proof.
  intros Ho E Hr Hs (d&Hd&Hh). destruct (open_port _ _ _ Ho) as [Hok Hslot]. cbn [clients detach] in Hd.
  rewrite list_lookup_insert_eq in Hd by (eapply lookup_lt_Some, (oc_client _ _ _ Ho)). injection Hd as <-.
  cbn [evtHandler_ rebind] in Hh. destruct (Hs Hh) as [Hc Hsh]. split; [exists c; split; [apply Ho|done]|].
  specialize (Hsh Hh). rewrite (port_cuts (peer (attach t c)) Hok Hslot) in Hsh.
  destruct (event_port _ _ _ _ _ _ _ _ E Hok (oc_open _ _ _ Ho)) as [(Ec&Hok'&Hs')|(Ec&_)].
  - rewrite Hslot in Hs'. by rewrite (port_cuts _ Hok' Hs') in Hsh.
  - destruct Hr as [Hr _|part left Hr _ _ _|p part left Hr _ _ _].
    + pose proof (re_conn _ Hr). congruence.
    + pose proof (se_conn _ _ Hr). congruence.
    + pose proof (cl_handler _ Hr). congruence.
Qed.

(** An event after which the reply is under way. *)
Lemma event_replying t c evt c' ret p0 :
  open_client t i c -> evt = SC_READ \/ evt = SC_WRITE ->
  ProcessEvent (DefaultHttpRequestHandler date) reserve grow true fuel evt (attach t c) = Val (c', ret) ->
  sent p0 = before -> reply_state p0 rest c' -> still c' ->
  handle (SE (Some evt) i) t = Serving (detach i c' t) /\ replying (detach i c' t).
Proof.
  intros Ho He E Hp0 Hr Hs. split; [by eapply handle_process|].
  destruct (event_progress _ _ _ _ _ _ _ _ _ _ _ _ Ho He E Hr) as [HP _]. rewrite Hp0 in HP. split; [|exact HP].
  destruct (open_port _ _ _ Ho) as [Hok Hslot]. unfold reads_at. cbn [wires detach]. unfold still in Hs.
  destruct (event_port _ _ _ _ _ _ _ _ E Hok (oc_open _ _ _ Ho)) as [(Ec&_&Hs')|(Ec&p&_&Hs'&Ep)]; rewrite Ec in Hs.
  - pose proof (silent_reads _ Hs) as Hw. by rewrite Hs', Hslot in Hw.
  - destruct Hs as (p'&Ep'&Hs). pose proof (silent_reads _ Hs) as Hw.
    assert (Hp' : p_slot p' = i).
    { rewrite <-(port_close_slot p'). change (port_close p') with (CloseConnection p'). rewrite <-Ep', Ep.
      by rewrite port_close_slot, Hs'. }
    rewrite Hp' in Hw. rewrite Ep'. cbn. by rewrite port_close_wires.
Qed.

(** Readable or writable, while the reply is under way: it goes on. *)
Lemma event_reply t evt :
  sinv (table t) -> broken t = false -> connected (table t) i -> has_client (clients t) i ->
  evt = SC_READ \/ evt = SC_WRITE -> replying t ->
  exists t', handle (SE (Some evt) i) t = Serving t' /\ replying t' /\
    (sends t' -> sends t /\ (writes_at t' < writes_at t)%nat).
Proof.
  intros HI Hb Hcon (c&Hc&Hcc&Hp) He [Hr HP]. assert (Ho : open_client t i c) by by split.
  destruct (sent_port before) as [p0 Hp0]. pose proof (open_sent _ _ _ Ho) as Hsent.
  assert (Hrs : reply_state p0 rest (attach t c)).
  { assert (Ecl : client_of t i = Some (attach t c)) by (unfold client_of; by rewrite Hc).
    destruct HP as [d _ Hd H1 H2|d part left _ Hd H1 H2 H3 H4|d part left (x&Hx&Hst) Hd H1 H2 H3].
    1,2: rewrite Ecl in Hd; injection Hd as <-.
    - apply reply_done; [done|congruence].
    - apply (reply_waits _ _ _ part left); [done..|congruence].
    - destruct Hcon as (y&Hy&Hsy). congruence. }
  pose proof (silent_port _ _ Ho Hr) as Hsi.
  destruct (ends_fuel _ _ _ (reply_event_ok (DefaultHttpRequestHandler date) reserve grow p0 rest evt (attach t c)
    Hrs Hcc (fun _ => Hsi)) ltac:(lia)) as (c'&ret&(Hr'&Hs'&Hsh)&E).
  exists (detach i c' t). destruct (event_replying t c evt c' ret p0) as [E' Hrep]; auto.
  split_and!; [done..|]. by apply (event_sends t c evt c' ret p0).
Qed.

(** Announced: the server waits for the request. *)
Lemma event_accept t o :
  sinv (table t) -> broken t = false -> connected (table t) i -> clients t !! i = Some o ->
  resting junk (blen (message_text q)) o -> unread t ->
  exists c t', handle (SE (Some SC_ACCEPTED) i) t = Serving t' /\ connected (table t') i /\
    clients t' !! i = Some (Some c) /\ asking c /\ unread t'.
Proof.
  intros HI Hb Hcon Ho Hrest Hun. assert (Hpos : 0 < blen (message_text q)).
  { pose proof (message_text_ne q). unfold blen. destruct (message_text q); [done|cbn; lia]. }
  destruct (handle_accept date reserve grow junk cap0 fuel t i o _ HI Hb Hcon Ho Hpos Hrest)
    as (c&t'&E&Hoc&Hrd&Hg&Hfree&Hwt&Htt&Ha).
  exists c, t'. split_and!; [done|by rewrite Htt|apply Hoc| |].
  - split; [apply Hoc|apply Hoc|done..|apply Ha].
  - revert Hun. unfold unread, reads_at, wire_sent. by rewrite Hwt.
Qed.

(** Readable: the request is read, parsed and answered; writable: nothing happens. *)
Lemma event_ask t c evt :
  sinv (table t) -> broken t = false -> connected (table t) i -> clients t !! i = Some (Some c) -> asking c ->
  evt = SC_READ \/ evt = SC_WRITE -> unread t ->
  exists t', handle (SE (Some evt) i) t = Serving t' /\
    (replying t' \/ (connected (table t') i /\ clients t' !! i = Some (Some c) /\ unread t')).
Proof.
  intros HI Hb Hcon Hcl [Hc Hp Hrd Hg Hroom Ha] He [Hr Hs]. assert (Ho : open_client t i c) by by split.
  destruct (open_port _ _ _ Ho) as [Hok Hslot]. pose proof (open_sent _ _ _ Ho) as Hsent. destruct He as [-> | ->].
  - destruct (port_delivers (snd (GetFreeBuffer (readBuffer_ c))) (message_text q) (peer (attach t c)) Hok)
      as (p1&Er&Hs1); [by rewrite Hslot|apply message_text_ne|done|].
    pose proof (request_ok (DefaultHttpRequestHandler date) reserve grow (attach t c) q p1) as HR. cbv zeta in HR.
    cbn [request_ clientResponse_ writeBuffer_ readBuffer_ attach rebind] in HR. rewrite Ha, Hg in HR.
    destruct (ends_fuel _ _ _ (HR (ready_rebind _ _ Hrd) Hq Hpost Hroom Er Hs1 ltac:(lia) Hsize
      ltac:(apply (bool_decide_unpack _); by vm_compute) Hlen) Hfuel) as (c'&ret&(Hr'&Hs'&_)&E).
    exists (detach i c' t).
    destruct (event_replying t c SC_READ c' ret _ Ho ltac:(by left) E ltac:(by rewrite <-Hs) Hr' Hs') as [E' Hrep].
    split; [done|by left].
  - pose proof (ready_rebind (peer (attach t c)) c Hrd) as [Hbuf _ Hh].
    destruct (idle_loop (DefaultHttpRequestHandler date) reserve grow SC_WRITE (attach t c) 0) as (c'&E&_&_&_&_&_&Hsame); [done..|]. rewrite Hsame in E by done.
    exists (detach i (attach t c) t). split.
    + apply (handle_process date reserve grow junk cap0 fuel t i c SC_WRITE _ 0 Ho); [by right|].
      replace fuel with (S (fuel - 1)) by lia. apply E.
    + right. split_and!; [done| |done]. unfold detach. cbn.
      rewrite list_lookup_insert_eq by by eapply lookup_lt_Some. destruct c as [? ? ? ? ? ? ? ? ? p]. reflexivity.
Qed.

(** ** A round *)

Hypothesis Hne : i <> lf.

(** What a round has done to [i] before its event. *)
Lemma found_alike k t e t1 :
  ginv lf t -> found lf i k t e t1 -> (due e (pending t1) i -> connected (table t) i) -> alike t t1.
Proof.
  intros HG [_ _ _ _ Hc Hw (q1&Hh&Hd)] Hdue. split; [by rewrite Hc|by rewrite Hw|]. split; [|apply Hh].
  intros H. destruct (hd_new _ _ _ _ _ _ Hh H) as [?|?]; [done|]. by apply Hdue, Hd.
Qed.

Lemma serves_alike j t t' : serves j t t' -> i <> j -> alike t t'.
Proof.
  intros Hs Hj. split; [by apply (sv_clients _ _ _ Hs)|by apply (sv_wires _ _ _ Hs)|].
  apply (connected_only j); [apply Hs|done].
Qed.

Lemma alike_trans t1 t2 t3 : alike t1 t2 -> alike t2 t3 -> alike t1 t3.
Proof. intros [A1 A2 A3] [B1 B2 B3]. split; [congruence..|by rewrite B3]. Qed.

(** Before the connection is accepted: only its offer can announce it. *)
Lemma to_come_due k n t e t1 :
  ginv lf t -> found lf i k t e t1 -> (k + n <= 1)%nat ->
  (connected (table t) i -> announced_in (pending t) i /\ (k + n)%nat = 0%nat) ->
  connected (table t1) i -> due e (pending t1) i /\ n = 0%nat.
Proof.
  intros HG [_ _ _ _ _ _ (q1&Hh&Hd)] Hn Hcon H.
  assert (Hdue : announced_in q1 i).
  { destruct (hd_new _ _ _ _ _ _ Hh H) as [H'|H']; [|done]. apply (hd_keep _ _ _ _ _ _ Hh), (Hcon H'). }
  split; [by apply Hd|]. destruct (hd_offer _ _ _ _ _ _ Hh Hdue) as [Ha|Hk]; [|lia].
  assert (Hc : connected (table t) i).
  { apply (qi_conn _ _ (gi_queue _ _ HG)). unfold qconns. rewrite map_app. apply elem_of_app. by left. }
  destruct (Hcon Hc). lia.
Qed.

(** After it: nothing announces it again. *)
Lemma not_due k n t e t1 :
  found lf i k t e t1 -> (k + n)%nat = 0%nat -> ~ announced_in (pending t) i -> ~ due e (pending t1) i.
Proof.
  intros [_ _ _ _ _ _ (q1&Hh&Hd)] Hn Ha H. apply Hd in H.
  destruct (hd_offer _ _ _ _ _ _ Hh H); [done|lia].
Qed.

Lemma later_alike k n t e t1 :
  ginv lf t -> found lf i k t e t1 -> (k + n)%nat = 0%nat -> ~ announced_in (pending t) i ->
  alike t t1 /\ ~ announced_in (pending t1) i.
Proof.
  intros HG Hf Hn Ha. pose proof (not_due _ _ _ _ _ Hf Hn Ha) as Hd. split; [|intros H; apply Hd; by left].
  eapply found_alike; [done..|]. by intros H.
Qed.

(** Then its event is one that the client handles. *)
Lemma later_event k n t e t1 :
  ginv lf t -> found lf i k t e t1 -> (k + n)%nat = 0%nat -> ~ announced_in (pending t) i -> conn e = i ->
  exists evt, e = SE (Some evt) i /\ (evt = SC_READ \/ evt = SC_WRITE) /\ has_client (clients t1) i.
Proof.
  intros HG Hf Hn Ha Hj. pose proof (rd_code _ _ _ _ (fo_ready _ _ _ _ _ _ Hf)) as Hcode. destruct e as [ce je].
  cbn in Hj, Hcode. subst je. destruct Hcode as [->|[[-> | ->] Hcl]]; [|eauto..].
  destruct (not_due _ _ _ _ _ Hf Hn Ha). by right.
Qed.

Lemma replying_lt t t' : alike t t' -> length (clients t') = length (sockets_ (table t')) -> replying t -> (i < length (sockets_ (table t')))%nat.
Proof.
  intros Hal <- [_ HP]. assert (Hcl : is_Some (clients t !! i)).
  { destruct HP as [c _ Hcl _ _|c ? ? _ Hcl|c ? ? _ Hcl]; revert Hcl; unfold client_of; destruct (clients t !! i); by eauto. }
  rewrite <-(al_client _ _ Hal) in Hcl. by apply lookup_lt_is_Some_1.
Qed.

Lemma found_replying k n t e t1 :
  ginv lf t -> found lf i k t e t1 -> (k + n)%nat = 0%nat -> ~ announced_in (pending t) i -> replying t -> replying t1.
Proof.
  intros HG Hf Hn Ha Hrep. destruct (later_alike _ _ _ _ _ HG Hf Hn Ha) as [Hal _].
  apply (alike_replying t t1 Hal Hne (fo_table _ _ _ _ _ _ Hf)); [|done].
  apply (replying_lt t); [done|apply (rd_len _ _ _ _ (fo_ready _ _ _ _ _ _ Hf))|done].
Qed.

Lemma alike_sends t t' : alike t t' -> sends t' -> sends t /\ writes_at t' = writes_at t.
Proof. intros [Hc Hw _]. unfold sends, writes_at, wire_at. by rewrite Hc, Hw. Qed.

(** The event of another connection. *)
Lemma phase_frame k n t e t1 t' :
  ginv lf t -> found lf i k t e t1 -> conn e <> i -> serves (conn e) t1 t' -> ginv lf t' ->
  phase (k + n) t -> phase n t'.
Proof.
  intros HG Hf Hj Hs HG' HP. pose proof (serves_alike _ _ _ Hs (not_eq_sym Hj)) as Ha1.
  assert (Hdue : due e (pending t1) i -> announced_in (pending t') i).
  { rewrite (sv_pending _ _ _ Hs). by intros [?|[? _]]. }
  assert (Hlater : (k + n)%nat = 0%nat -> ~ announced_in (pending t) i -> alike t t' /\ ~ announced_in (pending t') i).
  { intros Hn Ha. destruct (later_alike _ _ _ _ _ HG Hf Hn Ha) as [Hal Ha']. rewrite (sv_pending _ _ _ Hs).
    split; [by eapply alike_trans|done]. }
  destruct HP as [o Hn Hcon Ho Hrest Hun|c Hn Ha Hcon Hc Has Hun|Hn Ha Hrep].
  - apply (to_come _ _ o); [lia| |by rewrite (sv_clients _ _ _ Hs), (fo_clients _ _ _ _ _ _ Hf)|done|].
    + intros H. apply (al_conn _ _ Ha1) in H. destruct (to_come_due _ _ _ _ _ HG Hf Hn Hcon H). auto.
    + revert Hun. unfold unread, reads_at, wire_sent, wire_at. by rewrite (al_wire _ _ Ha1), (fo_wires _ _ _ _ _ _ Hf).
  - destruct (Hlater Hn Ha) as [Hal Ha'].
    apply (to_ask _ _ c); [lia|done|by apply Hal|by rewrite (al_client _ _ Hal)|done|by eapply alike_unread].
  - destruct (Hlater Hn Ha) as [Hal Ha']. apply to_reply; [lia|done|].
    apply (alike_replying t t' Hal Hne (gi_table _ _ HG')); [|done].
    apply (replying_lt t); [done|apply (gi_clients _ _ HG')|done].
Qed.

(** The event of the connection itself. *)
Lemma phase_event k n t e t1 :
  ginv lf t -> found lf i k t e t1 -> conn e = i -> phase (k + n) t ->
  exists t', handle e t1 = Serving t' /\ (serves i t1 t' -> phase n t').
Proof.
  intros HG Hf Hj HP. pose proof (fo_ready _ _ _ _ _ _ Hf) as [_ Hnew Hcon1 _ _ _]. rewrite Hj in *.
  pose proof (ti_inv _ _ (fo_table _ _ _ _ _ _ Hf)) as HI. pose proof (fo_good _ _ _ _ _ _ Hf) as Hb.
  assert (Hna : ~ announced_in (pending t1) i).
  { intros H. apply Hnew. unfold qconns. rewrite map_app. apply elem_of_app. by left. }
  assert (Hna' : forall t', serves i t1 t' -> ~ announced_in (pending t') i).
  { intros t' Hs. by rewrite (sv_pending _ _ _ Hs). }
  assert (Hun1 : unread t -> unread t1) by (unfold unread, reads_at, wire_sent; by rewrite (fo_wires _ _ _ _ _ _ Hf)).
  destruct HP as [o Hn Hcon Ho Hrest Hun|c Hn Ha Hcon Hc Has Hun|Hn Ha Hrep].
  - destruct e as [ce je]. cbn [conn] in Hj. subst je.
    destruct (to_come_due _ _ _ _ _ HG Hf Hn Hcon Hcon1) as [[?|[_ Hce]] Hn0]; [done|]. cbn in Hce. subst ce.
    rewrite <-(fo_clients _ _ _ _ _ _ Hf) in Ho.
    destruct (event_accept t1 o HI Hb Hcon1 Ho Hrest (Hun1 Hun)) as (c&t'&E&Hcon'&Hc&Has&Hun').
    exists t'. split; [done|]. intros Hs. apply (to_ask _ _ c); auto.
  - destruct (later_event _ _ _ _ _ HG Hf Hn Ha Hj) as (evt&->&He&_). rewrite <-(fo_clients _ _ _ _ _ _ Hf) in Hc.
    destruct (event_ask t1 c evt HI Hb Hcon1 Hc Has He (Hun1 Hun)) as (t'&E&Hor).
    exists t'. split; [done|]. intros Hs.
    destruct Hor as [Hrep|(Hcon'&Hc'&Hun')]; [apply to_reply|apply (to_ask _ _ c)]; auto; lia.
  - destruct (later_event _ _ _ _ _ HG Hf Hn Ha Hj) as (evt&->&He&Hcl).
    destruct (event_reply t1 evt HI Hb Hcon1 Hcl He (found_replying _ _ _ _ _ HG Hf Hn Ha Hrep)) as (t'&E&Hrep'&_).
    exists t'. split; [done|]. intros Hs. apply to_reply; auto; lia.
Qed.

Lemma phase_round r n t :
  ginv lf t -> round_ok r t -> phase (offers i (concat (r_batches r)) + n) t ->
  match server_round r t with
  | Serving t' => ginv lf t' /\ phase n t'
  | ClientCrash id | ClientSpin id => id <> i
  | Waiting => True
  | ServerCrash => False
  end.
Proof.
  intros HG HR HP. pose proof (round_inv date reserve grow true junk cap0 fuel lf r t HG HR) as HI.
  destruct (round_split date reserve grow true junk cap0 fuel lf i r t HG HR) as [->|(e&t1&E&_&Hf)]; [done|].
  rewrite E in *. pose proof Hf as [Hl HT Hb Hrd _ _ _].
  pose proof (handle_event_blames date reserve grow true junk cap0 fuel t1 e (ti_inv _ _ HT) (rd_conn _ _ _ _ Hrd)) as Hbl.
  destruct (decide (conn e = i)) as [Hj|Hj].
  - destruct (phase_event _ _ _ _ _ HG Hf Hj HP) as (t'&E'&Hph). rewrite E' in *. split; [by destruct HI|]. apply Hph.
    destruct (handle_event_serves date reserve grow true junk cap0 fuel t1 e lf HT Hb Hrd)
      as [[id [H|H]]|(t2&H&Hs&_)]; rewrite E' in H; [done..|]. injection H as ->. by rewrite Hj in Hs.
  - destruct (handle e t1) as [t'| | | |] eqn:E'; [|done| | |done]; [|by rewrite Hbl..].
    destruct HI as [HG' _]. split; [done|]. apply (phase_frame _ n _ _ _ t' HG Hf Hj); [|done..].
    destruct (handle_event_serves date reserve grow true junk cap0 fuel t1 e lf HT Hb Hrd)
      as [[id [H|H]]|(t2&H&Hs&_)]; rewrite E' in H; [done..|]. by injection H as ->.
Qed.

(** The events of a run. *)
Definition run_events (rs : list round) : list poll_event := concat (concat (map r_batches rs)).

Lemma phase_run rs n t :
  ginv lf t -> rounds_ok rs t -> phase (offers i (run_events rs) + n) t ->
  match serve rs t with
  | Serving t' => ginv lf t' /\ exists n', (n <= n')%nat /\ phase n' t'
  | ClientCrash id | ClientSpin id => id <> i
  | Waiting => True
  | ServerCrash => False
  end.
Proof.
  revert t. induction rs as [|r rs IH]; intros t HG HR HP; [by split; [|exists n]|].
  cbn [HttpServerLoop.rounds_ok HttpServerLoop.serve] in *. destruct HR as [HR HRs].
  destruct (stop_ (http t)); [split; [done|]; eexists; split; [|exact HP]; lia|].
  unfold run_events in *. cbn [map concat] in HP.
  rewrite concat_app, offers_app, <-Nat.add_assoc in HP. pose proof (phase_round r _ t HG HR HP) as H.
  destruct (server_round r t) as [t'| | | |]; try done. destruct H as [HG' HP']. by apply IH.
Qed.

(** ** The end of the reply *)

(** How many rounds of a run handle an event of [i]. *)
Fixpoint handled (rs : list round) (t : site) : nat :=
  match rs with
  | [] => 0
  | r :: rs' =>
      if stop_ (http t) then 0
      else match server_round r t with
           | Serving t' => (if decide (event_of r t = Some i) then 1 else 0) + handled rs' t'
           | _ => 0
           end
  end%nat.

(** While the reply is under way, every event of [i] ends it or uses up an answer. *)
Lemma reply_round r t :
  ginv lf t -> round_ok r t -> offers i (concat (r_batches r)) = 0%nat -> ~ announced_in (pending t) i -> replying t ->
  match server_round r t with
  | Serving t' => ginv lf t' /\ ~ announced_in (pending t') i /\ replying t' /\
      (sends t' -> sends t /\ (writes_at t' + (if decide (event_of r t = Some i) then 1 else 0) <= writes_at t)%nat)
  | _ => True
  end.
Proof.
  intros HG HR Hk Ha Hrep. pose proof (round_inv date reserve grow true junk cap0 fuel lf r t HG HR) as HI.
  destruct (round_split date reserve grow true junk cap0 fuel lf i r t HG HR) as [->|(e&t1&E&->&Hf)]; [done|].
  rewrite E in *. pose proof Hf as [_ HT Hb Hrd Hc1 Hw1 _]. rewrite Hk in Hf.
  pose proof (found_replying 0 0 t e t1 HG Hf eq_refl Ha Hrep) as Hrep1.
  destruct (later_alike 0 0 t e t1 HG Hf eq_refl Ha) as [Hal Ha1].
  destruct (handle_event_serves date reserve grow true junk cap0 fuel t1 e lf HT Hb Hrd)
    as [[id [H|H]]|(t'&H&Hs&_)]; rewrite H in *; [done..|]. destruct HI as [HG' _].
  split; [done|]. split; [by rewrite (sv_pending _ _ _ Hs)|]. destruct (decide (Some (conn e) = Some i)) as [Hj|Hj].
  - injection Hj as Hj. destruct (later_event 0 0 t e t1 HG Hf eq_refl Ha Hj) as (evt&->&He&Hcl). cbn [conn] in *.
    destruct (event_reply t1 evt (ti_inv _ _ HT) Hb (rd_conn _ _ _ _ Hrd) Hcl He Hrep1) as (t2&E2&Hrep2&Hse).
    rewrite H in E2. injection E2 as <-. split; [done|]. intros H2. destruct (Hse H2) as [H3 H4].
    destruct (alike_sends _ _ Hal H3) as [H5 H6]. split; [done|lia].
  - assert (Hal' : alike t1 t') by (eapply serves_alike; [done|congruence]). split.
    + apply (alike_replying t1 t' Hal' Hne (gi_table _ _ HG')); [|done].
      apply (replying_lt t1); [done|apply (gi_clients _ _ HG')|done].
    + intros H2. destruct (alike_sends _ _ Hal' H2) as [H3 H4]. destruct (alike_sends _ _ Hal H3). split; [done|lia].
Qed.

Lemma reply_run rs t :
  ginv lf t -> rounds_ok rs t -> offers i (run_events rs) = 0%nat -> ~ announced_in (pending t) i -> replying t ->
  match serve rs t with
  | Serving t' => replying t' /\ (sends t' -> sends t /\ (writes_at t' + handled rs t <= writes_at t)%nat)
  | _ => True
  end.
Proof.
  revert t. induction rs as [|r rs IH]; intros t HG HR Hk Ha Hrep; cbn [HttpServerLoop.rounds_ok HttpServerLoop.serve handled] in *.
  { split; [done|]. intros H. split; [done|lia]. }
  destruct HR as [HR HRs]. destruct (stop_ (http t)); [split; [done|intros H; split; [done|lia]]|].
  unfold run_events in *. cbn [map concat] in Hk. rewrite concat_app, offers_app in Hk.
  pose proof (reply_round r t HG HR ltac:(lia) Ha Hrep) as H. destruct (server_round r t) as [t1| | | |]; try done.
  destruct H as (HG1&Ha1&Hrep1&Hse). specialize (IH t1 HG1 HRs ltac:(lia) Ha1 Hrep1).
  destruct (serve rs t1) as [t'| | | |]; try done. destruct IH as [Hrep' Hle]. split; [done|].
  intros H'. destruct (Hle H') as [H1 Hle']. destruct (Hse H1) as [H2 Hle2]. split; [done|lia].
Qed.

Lemma replying_sends t : replying t -> ~ sends t ->
  (connected (table t) i /\ wire_sent t i = before ++ rest) \/
  (~ connected (table t) i /\ exists part left, rest = part ++ left /\ wire_sent t i = before ++ part).
Proof.
  intros [_ HP] Hs. destruct HP as [c Hcon Hcl Hrd Hw|c part left Hcon Hcl Hse _ _ _|c part left (x&Hx&Hst) _ _ H1 H2].
  - by left.
  - destruct Hs. revert Hcl. unfold client_of. destruct (clients t !! i) as [[c0|]|] eqn:Hc; [|done..].
    intros [= <-]. exists c0. split; [done|]. exact (se_handler _ _ Hse).
  - right. split; [|by exists part, left]. intros (y&Hy&Hsy). congruence.
Qed.

(** C2. A request is served in a run of the whole server.  A descriptor [i] is not yet in
    use; the kernel offers it for a new connection at most once, on which one request
    arrives (not a POST, and it fits the read buffer).  Then, in every run of the server,
    whatever the other connections send, in whatever order the events come, whatever part
    of each [write] is taken: the server never crashes; no round crashes or hangs in the
    client of [i]; as long as the request has not been read, nothing has been sent on [i];
    and once it has been read, what was sent is the [reply] to the answer of the default
    handler to exactly this request, or a prefix of it with exactly the rest waiting in the
    client of [i], or a prefix, the connection having failed and been closed. *)
Theorem request_served (rs : list round) (t : site) (o : option (HttpClient nat)) :
  ginv lf t -> rounds_ok rs t -> ~ connected (table t) i -> (offers i (run_events rs) <= 1)%nat ->
  clients t !! i = Some o -> resting junk (blen (message_text q)) o -> unread t ->
  match serve rs t with
  | Serving t' => unread t' \/ replying t'
  | ClientCrash id | ClientSpin id => id <> i
  | Waiting => True
  | ServerCrash => False
  end.
Proof.
  intros HG HR Hc Hn Ho Hrest Hun. pose proof (phase_run rs 0 t HG HR) as H.
  assert (HP : phase (offers i (run_events rs) + 0) t) by (apply (to_come _ _ o); [lia|done..]).
  specialize (H HP). destruct (serve rs t) as [t'| | | |]; try done.
  destruct H as (_&n&_&[? _ _ _ _ ?|? _ _ _ _ _ ?|_ _ ?]); auto.
Qed.

(** C3. The reply is completed.  In a run as above, once the server has read the request
    ([rs]): when it then handles more events of [i] ([rs']) than the kernel has answers to
    [write] in store for it - each answer takes a part, nothing ([EAGAIN]), or fails -, the
    whole reply has been sent and the connection is open; or a [write] has failed, and the
    connection is closed after a prefix. *)
Theorem reply_completes (rs rs' : list round) (t t1 t' : site) (o : option (HttpClient nat)) :
  ginv lf t -> rounds_ok rs t -> ~ connected (table t) i -> (offers i (run_events (rs ++ rs')) <= 1)%nat ->
  clients t !! i = Some o -> resting junk (blen (message_text q)) o -> unread t ->
  serve rs t = Serving t1 -> reads_at t1 = [] ->
  rounds_ok rs' t1 -> serve rs' t1 = Serving t' -> (writes_at t1 < handled rs' t1)%nat ->
  (connected (table t') i /\ wire_sent t' i = before ++ rest) \/
  (~ connected (table t') i /\ exists part left, rest = part ++ left /\ wire_sent t' i = before ++ part).
Proof.
  intros HG HR Hc Hn Ho Hrest Hun E1 Hr1 HR' E2 Hlt. unfold run_events in Hn.
  rewrite map_app, !concat_app, offers_app in Hn.
  pose proof (phase_run rs (offers i (run_events rs')) t HG HR) as H.
  rewrite E1 in H. destruct H as (HG1&n&Hle&HP); [by apply (to_come _ _ o)|].
  destruct HP as [? _ _ _ _ [Hr _]|? _ _ _ _ _ [Hr _]|Hn0 Ha Hrep]; [congruence..|].
  pose proof (reply_run rs' t1 HG1 HR' ltac:(lia) Ha Hrep) as H. rewrite E2 in H. destruct H as [Hrep' Hse].
  apply replying_sends; [done|]. intros Hs. destruct (Hse Hs). lia.
Qed.
End Crowd.

(** ** A run *)

(** The site after the start: 3 listens, 5 is offered later and brings a request, of whose
    reply the kernel takes 100 bytes, then 7, then the rest. *)
Abbreviation run_wires :=
  ({[5%nat := Wire [KData (message_text served_message)] [WTake 100; WAgain; WTake 7; WAgain] []]} : gmap nat wire).

Abbreviation run_start := (start demo_mem {[3%nat]} run_wires true 3).

Definition run_rounds : list round :=
  [Round true [[]; [Ev 3 true false (Some 5%nat) true false]];
   Round true [[]; [Ev 5 true true None true false]];
   Round true [[Ev 5 false true None true false]];
   Round true [[Ev 5 true true None true false]];
   Round true [[]; [Ev 5 true false None true false]]].

Abbreviation demo_run n := (fun t => serve (bs "today") Z.max Z.max true (replicate 512 nul) 15 600 (take n run_rounds) t).

Example run_demo :
  match run_start with
  | Some t0 =>
      map (fun n => match demo_run n t0 with
                    | Serving t => Some (blen (wire_sent t 5), bool_decide (reads_at 5 t = [])) | _ => None end) [0; 1; 2; 3; 4; 5]%nat
  | None => []
  end = [Some (0, false); Some (0, false); Some (100, true); Some (107, true); Some (520, true); Some (520, true)].
Proof. by vm_compute. Qed.

Abbreviation demo_rounds_ok rs := (rounds_ok (bs "today") Z.max Z.max true (replicate 512 nul) 15 600 rs).

Abbreviation demo_later := (serve (bs "today") Z.max Z.max true (replicate 512 nul) 15 600 (drop 2 run_rounds)).

Lemma run_start_ok :
  exists t0, run_start = Some t0 /\ ginv 3 t0 /\ demo_rounds_ok run_rounds t0 /\
    connectedb t0 5 = false /\ clients t0 !! 5%nat = Some None /\ unread 5 served_message [] t0.
Proof.
  destruct (start_inv demo_mem {[3%nat]} run_wires true 3) as (t0&E&HG); [apply (bool_decide_unpack _); by vm_compute|apply Nat.ltb_lt; by vm_compute|].
  exists t0. split; [exact E|]. split; [exact HG|]. split.
  { assert (H : match run_start with Some t => bool_decide (demo_rounds_ok run_rounds t) | None => false end = true)
      by by vm_compute. rewrite E in H. by apply bool_decide_eq_true in H. }
  clear HG. vm_compute in E. injection E as <-. repeat split; by vm_compute.
Qed.

Lemma request_served_witness :
  exists t0, run_start = Some t0 /\
    match demo_run 5 t0 with
    | Serving t' => unread 5 served_message [] t' \/ replying (bs "today") 15 5 served_message [] t'
    | ClientCrash id | ClientSpin id => id <> 5%nat
    | Waiting => True
    | ServerCrash => False
    end.
Proof.
  destruct run_start_ok as (t0&E&HG&HR&Hc&Ho&Hun). exists t0. split; [exact E|].
  apply (request_served (bs "today") Z.max Z.max (replicate 512 nul) 15 600 3 5 served_message []) with (o := None).
  - exact served_message_ok.
  - discriminate.
  - by vm_compute.
  - by vm_compute.
  - apply (bool_decide_unpack _). by vm_compute.
  - discriminate.
  - exact HG.
  - exact HR.
  - intros H. rewrite (connectedb_true _ _ H) in Hc. discriminate Hc.
  - apply (bool_decide_unpack _). by vm_compute.
  - exact Ho.
  - by vm_compute.
  - exact Hun.
Defined.

(** Two answers are left when the request has been read, and three events follow. *)
Lemma reply_completes_witness :
  exists t0 t1 t', run_start = Some t0 /\ demo_run 2 t0 = Serving t1 /\ demo_later t1 = Serving t' /\
    ((connected (table t') 5 /\ wire_sent t' 5 = [] ++ reply 1024 (answer (bs "today") 15 served_message)) \/
     (~ connected (table t') 5 /\ exists part left,
        reply 1024 (answer (bs "today") 15 served_message) = part ++ left /\ wire_sent t' 5 = [] ++ part)).
Proof.
  destruct run_start_ok as (t0&E&HG&HR&Hc&Ho&Hun).
  assert (H : match run_start with
    | Some t => match demo_run 2 t with
        | Serving t1 => match demo_later t1 with
            | Serving t' => bool_decide (demo_rounds_ok (take 2 run_rounds) t /\ reads_at 5 t1 = [] /\
                demo_rounds_ok (drop 2 run_rounds) t1 /\
                (writes_at 5 t1 < handled (bs "today") Z.max Z.max (replicate 512 nul) 15 600 5 (drop 2 run_rounds) t1)%nat)
            | _ => false end
        | _ => false end
    | None => false end = true) by by vm_compute.
  rewrite E in H. destruct (demo_run 2 t0) as [t1| | | |] eqn:E1; try discriminate H.
  destruct (demo_later t1) as [t'| | | |] eqn:E2; try discriminate H.
  apply bool_decide_eq_true in H as (HR1&Hr1&HR2&Hlt).
  exists t0, t1, t'. split; [exact E|]. split; [exact E1|]. split; [exact E2|].
  apply (reply_completes (bs "today") Z.max Z.max (replicate 512 nul) 15 600 3 5 served_message [])
    with (rs := take 2 run_rounds) (rs' := drop 2 run_rounds) (t := t0) (t1 := t1) (o := None).
  - exact served_message_ok.
  - discriminate.
  - by vm_compute.
  - by vm_compute.
  - apply (bool_decide_unpack _). by vm_compute.
  - discriminate.
  - exact HG.
  - exact HR1.
  - intros H. rewrite (connectedb_true _ _ H) in Hc. discriminate Hc.
  - apply (bool_decide_unpack _). by vm_compute.
  - exact Ho.
  - by vm_compute.
  - exact Hun.
  - exact E1.
  - exact Hr1.
  - exact HR2.
  - exact E2.
  - exact Hlt.
Defined.
