(* ===== verification/LogStream.v ===== *)
(** * LogStream.v: [slog/LogStream.h] and [slog/LogStream.cc]

A [LogStream] writes text at the end of a character array that somebody else
owns.  The array is [m_buff]; a write outside of it is the error [OutOfBounds],
a failing [assert] the error [AssertFail].  [size_t] subtraction wraps
([u64]), and the [int left] of [FmtAppend] is converted to the [size_t] of
[snprintf].

The integer formatting ([convert]) is compared with stdpp's [pretty], the
pointer formatting with its parser [unhex]. *)

From S2P Require Import Prelude Machine.
From stdpp Require Import pretty.

Inductive fault : Type := AssertFail | OutOfBounds | NoFuel.

Abbreviation res A := (fault + A)%type.

Definition bind {A B} (x : res A) (f : A -> res B) : res B :=
  match x with inl e => inl e | inr a => f a end.

Notation "'let!' x := e 'in' k" := (bind e (fun x => k))
  (at level 10, x pattern, e at level 100, k at level 200) : bef_scope.
#[local] Open Scope Z_scope.
#[local] Open Scope bef_scope.

(** ** Accesses to the array *)

(** [m_buff[p] = c]. *)
Definition poke (mem : bytes) (p : Z) (c : ascii) : res bytes :=
  if (0 <=? p) && (p <? blen mem) then inr (<[Z.to_nat p := c]> mem) else inl OutOfBounds.

(** [memcpy(m_buff + p, data, len)]. *)
Definition copy (mem : bytes) (p : Z) (data : bytes) : res bytes :=
  if (0 <=? p) && (p + blen data <=? blen mem) then inr (blit mem (Z.to_nat p) data)
  else inl OutOfBounds.

(** [std::reverse(m_buff + a, m_buff + b)]. *)
Definition std_reverse (mem : bytes) (a b : Z) : bytes :=
  blit mem (Z.to_nat a) (rev (slice mem (Z.to_nat a) (Z.to_nat (b - a)))).

(** ** The stream *)

Record LogStream : Type := LS { m_buff : bytes; m_cur : Z; m_size : Z }.

Definition Reset (ls : LogStream) : res LogStream :=
  let! b := poke (m_buff ls) 0 nul in inr (LS b 0 (m_size ls)).

Definition Length (ls : LogStream) : Z := m_cur ls.

Definition Buffer (ls : LogStream) : bytes := m_buff ls.

Definition EmptyBuff (ls : LogStream) : res LogStream :=
  let! b := copy (m_buff ls) 0 (replicate (Z.to_nat (m_size ls)) nul) in
  inr (LS b (m_cur ls) (m_size ls)).

Definition SetTrailingNull (ls : LogStream) : res LogStream :=
  let! b := poke (m_buff ls) (m_cur ls) nul in inr (LS b (m_cur ls) (m_size ls)).

Definition Append (data : bytes) (ls : LogStream) : res LogStream :=
  if negb (blen data <=? u64 (m_size ls - m_cur ls)) then inl AssertFail else
  let! b := copy (m_buff ls) (m_cur ls) data in
  inr (LS b (u64 (m_cur ls + blen data)) (m_size ls)).

(** [snprintf(mem + p, n, ...)] whose whole output would be [text]: it stores at
    most [n - 1] characters and a NUL, and returns the length of [text]. *)
Definition snprintf (mem : bytes) (p n : Z) (text : bytes) : res (bytes * Z) :=
  if n =? 0 then inr (mem, blen text) else
  let! b := copy mem p (take (Z.to_nat (n - 1)) text ++ [nul]) in
  inr (b, blen text).

(** The text that [fmt] gives for [v] is the argument. *)
Definition FmtAppend (text : bytes) (ls : LogStream) : res (LogStream * Z) :=
  let left := i32 (m_size ls - m_cur ls) in
  let! (b, n) := snprintf (m_buff ls) (m_cur ls) (u64 left) text in
  let ls' := LS b (m_cur ls) (m_size ls) in
  if n <=? 0 then inr (ls', 0) else inr (LS b (u64 (m_cur ls + n)) (m_size ls), n).

(** ** Integers *)

Definition g_digits : bytes := bs "9876543210123456789".

(** [g_zero[lsd]], [g_zero = g_digits + 9]. *)
Definition g_zero (lsd : Z) : ascii := nth (Z.to_nat (9 + lsd)) g_digits nul.

Definition g_digits_hex : bytes := bs "0123456789ABCDEF".

(** [g_digits_hex[lsd]]. *)
Definition hex_char (lsd : Z) : ascii := nth (Z.to_nat lsd) g_digits_hex nul.

(** The [do ... while] of [convert]; [%] and [/] truncate towards zero. *)
Fixpoint convert_loop (fuel : nat) (mem : bytes) (p i : Z) : res (bytes * Z) :=
  match fuel with
  | O => inl NoFuel
  | S fuel' =>
      let lsd := Z.rem i 10 in
      let i' := Z.quot i 10 in
      let! mem' := poke mem p (g_zero lsd) in
      if negb (i' =? 0) then convert_loop fuel' mem' (p + 1) i' else inr (mem', p + 1)
  end.

(** [convert(mem + buf, value)]; 20 iterations are enough for 64 bits
    ([convert_spec]). *)
Definition convert (mem : bytes) (buf value : Z) : res (bytes * Z) :=
  let! (mem', p) := convert_loop 20 mem buf value in
  let! mem'' := poke mem' p nul in
  inr (mem'', p - buf).

Definition Convert64 (value : Z) (ls : LogStream) : res (LogStream * Z) :=
  if u64 (m_size ls - m_cur ls) <? 32 then inr (ls, 0) else
  let ps := m_cur ls in
  let! (b, len) := convert (m_buff ls) ps value in
  let cur := u64 (m_cur ls + len) in
  let! (b', cur') :=
    if value <? 0 then
      let! b1 := poke b cur "-"%char in
      let! b2 := poke b1 (cur + 1) nul in
      inr (b2, cur + 1)
    else inr (b, cur) in
  inr (LS (std_reverse b' ps cur') cur' (m_size ls), cur' - ps).

Definition Convert64U (value : Z) (ls : LogStream) : res (LogStream * Z) :=
  if u64 (m_size ls - m_cur ls) <? 32 then inr (ls, 0) else
  let ps := m_cur ls in
  let! (b, len) := convert (m_buff ls) ps value in
  let cur := u64 (m_cur ls + len) in
  inr (LS (std_reverse b ps cur) cur (m_size ls), len).

Fixpoint hex_loop (fuel : nat) (mem : bytes) (p i : Z) : res (bytes * Z) :=
  match fuel with
  | O => inl NoFuel
  | S fuel' =>
      let lsd := i mod 16 in
      let i' := i / 16 in
      let! mem' := poke mem p (hex_char lsd) in
      if negb (i' =? 0) then hex_loop fuel' mem' (p + 1) i' else inr (mem', p + 1)
  end.

Definition ConvertHex (value : Z) (ls : LogStream) : res (LogStream * Z) :=
  let buff := m_cur ls in
  let! (b, p) := hex_loop 16 (m_buff ls) buff value in
  let! b1 := copy b p (bs "x0") in
  let p1 := p + 2 in
  let! b2 := poke b1 p1 nul in
  let b3 := std_reverse b2 buff p1 in
  let len := p1 - buff in
  inr (LS b3 (u64 (m_cur ls + len)) (m_size ls), len).

(** ** [operator<<] *)

(** What can be streamed: a [std::string] or a C string up to its NUL, a
    non-const [char[N]] (of which [N - 1] characters are taken), a signed or an
    unsigned integer of any width, a [double] (with the text that ["%.12g"]
    gives for it), a pointer, a [char], a [bool]. *)
Inductive LogArg : Type :=
| AStdString (v : bytes)
| ACString (v : bytes)
| ACharArray (v : bytes)
| ASigned (v : Z)
| AUnsigned (v : Z)
| ADouble (text : bytes)
| APointer (v : Z)
| AChar (v : ascii)
| ABool (v : bool).

Definition shift (a : LogArg) (ls : LogStream) : res LogStream :=
  match a with
  | AStdString v => Append v ls
  | ACString v => Append (c_str v) ls
  | ACharArray v => Append (take (length v - 1) v) ls
  | ASigned v => let! (ls', _) := Convert64 v ls in inr ls'
  | AUnsigned v => let! (ls', _) := Convert64U v ls in inr ls'
  | ADouble text => let! (ls', _) := FmtAppend text ls in inr ls'
  | APointer v => let! (ls', _) := ConvertHex v ls in inr ls'
  | AChar v => Append [v] ls
  | ABool v => Append (if v then bs "1" else bs "0") ls
  end.

Fixpoint shift_all (l : list LogArg) (ls : LogStream) : res LogStream :=
  match l with
  | [] => inr ls
  | a :: l' => let! ls' := shift a ls in shift_all l' ls'
  end.

(** [LogStreamFixed()]. *)
Definition S_MAX_BUFF_SZ : Z := 4 * 1024.

Definition LogStreamFixed (garbage : bytes) : res LogStream :=
  let! b := poke garbage 0 nul in inr (LS b 0 S_MAX_BUFF_SZ).

(** ** Writes that stay inside the array *)

Lemma blit_blit_next {A} (mem a b : list A) p :
  (p + length a + length b <= length mem)%nat ->
  blit (blit mem p a) (p + length a) b = blit mem p (a ++ b).
Proof.
  intros H. unfold blit at 1. rewrite take_blit_end by lia. rewrite <-app_assoc.
  unfold blit. rewrite <-app_assoc. do 3 f_equal.
  rewrite !drop_app_ge; rewrite ?length_take, ?length_app; try lia.
  rewrite drop_drop. f_equal. lia.
Qed.

Lemma insert_blit {A} (mem : list A) p c :
  (p < length mem)%nat -> <[p:=c]> mem = blit mem p [c].
Proof. intros H. unfold blit. rewrite insert_take_drop by done. simpl. by rewrite Nat.add_1_r. Qed.

(** [mem'] is [mem] with something written from [p] on. *)
Definition extends (mem mem' : bytes) (p : Z) (data : bytes) : Prop :=
  length mem' = length mem /\ take (Z.to_nat p + length data) mem' = take (Z.to_nat p) mem ++ data.

Lemma blit_extends mem p data :
  0 <= p -> p + blen data <= blen mem -> extends mem (blit mem (Z.to_nat p) data) p data.
Proof.
  unfold blen. intros H1 H2. split; [apply length_blit; lia|]. apply take_blit_end. lia.
Qed.

Lemma copy_ok mem p data :
  0 <= p -> p + blen data <= blen mem -> copy mem p data = inr (blit mem (Z.to_nat p) data).
Proof.
  intros H1 H2. unfold copy. destruct (Z.leb_spec 0 p); [|lia].
  destruct (Z.leb_spec (p + blen data) (blen mem)); [done|lia].
Qed.

Lemma poke_ok mem p c :
  0 <= p < blen mem -> poke mem p c = inr (blit mem (Z.to_nat p) [c]).
Proof.
  intros H. unfold poke. destruct (Z.leb_spec 0 p); [|lia].
  destruct (Z.ltb_spec p (blen mem)); [|lia]. simpl. f_equal. apply insert_blit.
  unfold blen in *. lia.
Qed.

Lemma extends_blit mem mem' p data b :
  0 <= p -> extends mem mem' p data -> p + blen data + blen b <= blen mem ->
  extends mem (blit mem' (Z.to_nat (p + blen data)) b) p (data ++ b).
Proof.
  unfold blen. intros Hp [Hl Ht] Hb.
  replace (Z.to_nat (p + Z.of_nat (length data))) with (Z.to_nat p + length data)%nat by lia.
  split; [rewrite length_blit; lia|].
  rewrite length_app, Nat.add_assoc, take_blit_end by lia. rewrite Ht. by rewrite app_assoc.
Qed.

(** What is written after the data does not matter. *)
Lemma extends_blit_after mem mem' p data b :
  0 <= p -> extends mem mem' p data -> p + blen data + blen b <= blen mem ->
  extends mem (blit mem' (Z.to_nat (p + blen data)) b) p data.
Proof.
  unfold blen. intros Hp [Hl Ht] Hb.
  replace (Z.to_nat (p + Z.of_nat (length data))) with (Z.to_nat p + length data)%nat by lia.
  split; [rewrite length_blit; lia|]. rewrite take_blit by lia. done.
Qed.

Lemma extends_reverse mem mem' p data :
  0 <= p -> extends mem mem' p data -> p + blen data <= blen mem ->
  extends mem (std_reverse mem' p (p + blen data)) p (rev data).
Proof.
  unfold blen, std_reverse. intros Hp [Hl Ht] Hb.
  replace (Z.to_nat (p + Z.of_nat (length data) - p)) with (length data) by lia.
  assert (slice mem' (Z.to_nat p) (length data) = data) as ->.
  { unfold slice. rewrite take_drop_commute, Ht.
    rewrite drop_app_ge; rewrite length_take; [|lia].
    by replace (Z.to_nat p - Z.to_nat p `min` length mem)%nat with 0%nat by lia. }
  assert (take (Z.to_nat p) mem' = take (Z.to_nat p) mem) as Hp'.
  { replace (Z.to_nat p) with (Z.to_nat p `min` (Z.to_nat p + length data))%nat at 1 by lia.
    rewrite <-take_take, Ht. apply take_app_length'. rewrite length_take. lia. }
  split; [rewrite length_blit; rewrite ?length_rev; lia|].
  rewrite take_blit_end by (rewrite length_rev; lia). by rewrite Hp'.
Qed.

(** ** The digits *)

(** The characters [convert_loop] stores, least significant first. *)
Fixpoint cdigits (fuel : nat) (i : Z) : bytes :=
  match fuel with
  | O => []
  | S fuel' =>
      g_zero (Z.rem i 10) :: if Z.quot i 10 =? 0 then [] else cdigits fuel' (Z.quot i 10)
  end.

Fixpoint hdigits (fuel : nat) (i : Z) : bytes :=
  match fuel with
  | O => []
  | S fuel' =>
      hex_char (i mod 16) ::
      if i / 16 =? 0 then [] else hdigits fuel' (i / 16)
  end.

Lemma blen_1 c : blen [c] = 1.
Proof. done. Qed.

Lemma blen_cons c b : blen (c :: b) = 1 + blen b.
Proof. unfold blen. simpl. lia. Qed.

Lemma convert_loop_spec fuel mem p i :
  (0 < fuel)%nat -> Z.abs i < 10 ^ Z.of_nat fuel -> 0 <= p -> p + blen (cdigits fuel i) <= blen mem ->
  convert_loop fuel mem p i =
  inr (blit mem (Z.to_nat p) (cdigits fuel i), p + blen (cdigits fuel i)).
Proof.
  revert mem p i. induction fuel as [|fuel IH]; intros mem p i Hf Hi Hp Hb; [lia|].
  cbn [convert_loop cdigits] in *. cbv zeta. rewrite blen_cons in *.
  rewrite poke_ok by
    (pose proof (blen_nonneg (if Z.quot i 10 =? 0 then [] else cdigits fuel (Z.quot i 10))); lia).
  simpl bind. destruct (Z.eqb_spec (Z.quot i 10) 0) as [E|E]; simpl negb; cbv iota.
  { rewrite Z.add_0_r. done. }
  assert (Z.abs (Z.quot i 10) < 10 ^ Z.of_nat fuel) as Hq.
  { rewrite <-Z.quot_abs by lia. rewrite Z.quot_div_nonneg by lia.
    apply Z.div_lt_upper_bound; [lia|]. simpl (Z.abs 10).
    rewrite Nat2Z.inj_succ, Z.pow_succ_r in Hi by lia. lia. }
  assert (0 < fuel)%nat. { destruct fuel; [simpl in Hq; lia|lia]. }
  assert (length (blit mem (Z.to_nat p) [g_zero (Z.rem i 10)]) = length mem) as Hl.
  { apply length_blit. simpl. unfold blen in Hb. lia. }
  rewrite IH; [|done|done|lia|unfold blen in *; rewrite Hl; lia].
  f_equal. f_equal; [|lia].
  replace (Z.to_nat (p + 1)) with (Z.to_nat p + length [g_zero (Z.rem i 10)])%nat by (simpl; lia).
  rewrite blit_blit_next; [done|]. simpl. unfold blen in Hb. lia.
Qed.

Lemma hex_loop_spec fuel mem p i :
  (0 < fuel)%nat -> 0 <= i < 16 ^ Z.of_nat fuel -> 0 <= p -> p + blen (hdigits fuel i) <= blen mem ->
  hex_loop fuel mem p i =
  inr (blit mem (Z.to_nat p) (hdigits fuel i), p + blen (hdigits fuel i)).
Proof.
  revert mem p i. induction fuel as [|fuel IH]; intros mem p i Hf Hi Hp Hb; [lia|].
  cbn [hex_loop hdigits] in *. cbv zeta. rewrite blen_cons in *.
  rewrite poke_ok by
    (pose proof (blen_nonneg (if i / 16 =? 0 then [] else hdigits fuel (i / 16))); lia).
  simpl bind. destruct (Z.eqb_spec (i / 16) 0) as [E|E]; simpl negb; cbv iota.
  { rewrite Z.add_0_r. done. }
  assert (0 <= i / 16 < 16 ^ Z.of_nat fuel) as Hq.
  { split; [apply Z.div_pos; lia|]. apply Z.div_lt_upper_bound; [lia|].
    rewrite Nat2Z.inj_succ, Z.pow_succ_r in Hi by lia. lia. }
  assert (0 < fuel)%nat. { destruct fuel; [simpl in Hq; lia|lia]. }
  assert (length (blit mem (Z.to_nat p) [hex_char (i mod 16)])
          = length mem) as Hl.
  { apply length_blit. simpl. unfold blen in Hb. lia. }
  rewrite IH; [|done|done|lia|unfold blen in *; rewrite Hl; lia].
  f_equal. f_equal; [|lia].
  replace (Z.to_nat (p + 1)) with
    (Z.to_nat p + length [hex_char (i mod 16)])%nat by (simpl; lia).
  rewrite blit_blit_next; [done|]. simpl. unfold blen in Hb. lia.
Qed.

Lemma blen_cdigits fuel i : blen (cdigits fuel i) <= Z.of_nat fuel.
Proof.
  revert i. induction fuel as [|fuel IH]; intros i; cbn [cdigits]; [done|]. rewrite blen_cons.
  case_match; [change (blen []) with 0; lia|]. specialize (IH (Z.quot i 10)). lia.
Qed.

Lemma blen_hdigits fuel i : blen (hdigits fuel i) <= Z.of_nat fuel.
Proof.
  revert i. induction fuel as [|fuel IH]; intros i; cbn [hdigits]; [done|]. rewrite blen_cons.
  case_match; [change (blen []) with 0; lia|]. specialize (IH (i / 16)). lia.
Qed.

Lemma g_zero_opp d : -10 < d < 10 -> g_zero (- d) = g_zero d.
Proof.
  intros H. assert (d ∈ seqZ (-9) 19) as Hin by (apply elem_of_seqZ; lia). clear H. revert d Hin.
  apply (proj1 (Forall_forall (fun d => g_zero (- d) = g_zero d) (seqZ (-9) 19))).
  apply (bool_decide_unpack _). by vm_compute.
Qed.

Lemma g_zero_pretty d : 0 <= d < 10 -> g_zero d = pretty_N_char (Z.to_N d).
Proof.
  intros H. assert (d ∈ seqZ 0 10) as Hin by (apply elem_of_seqZ; lia). clear H. revert d Hin.
  apply (proj1 (Forall_forall (fun d => g_zero d = pretty_N_char (Z.to_N d)) (seqZ 0 10))).
  apply (bool_decide_unpack _). by vm_compute.
Qed.

Lemma cdigits_opp fuel i : cdigits fuel (- i) = cdigits fuel i.
Proof.
  revert i. induction fuel as [|fuel IH]; intros i; cbn [cdigits]; [done|].
  rewrite Z.rem_opp_l, Z.quot_opp_l by lia.
  pose proof (Z.rem_bound_abs i 10 ltac:(lia)).
  rewrite g_zero_opp by lia. f_equal. rewrite IH.
  destruct (Z.eqb_spec (- Z.quot i 10) 0), (Z.eqb_spec (Z.quot i 10) 0); done || lia.
Qed.

Lemma bs_cons c s : bs (String.String c s) = c :: bs s.
Proof. done. Qed.

Lemma cdigits_pretty_go fuel i s :
  0 < i < 10 ^ Z.of_nat fuel ->
  bs (pretty_N_go (Z.to_N i) s) = rev (cdigits fuel i) ++ bs s.
Proof.
  revert i s. induction fuel as [|fuel IH]; intros i s H; [simpl in H; lia|].
  rewrite pretty_N_go_step by lia. cbn [cdigits].
  rewrite Z.rem_mod_nonneg, Z.quot_div_nonneg by lia.
  pose proof (Z.mod_pos_bound i 10 ltac:(lia)).
  change 10%N with (Z.to_N 10). rewrite <-Z2N.inj_div, <-Z2N.inj_mod by lia.
  rewrite <-g_zero_pretty by lia. cbn [rev]. rewrite <-app_assoc. simpl app.
  destruct (Z.eqb_spec (i / 10) 0) as [E|E].
  - rewrite E. simpl Z.to_N. rewrite pretty_N_go_0. done.
  - rewrite IH, bs_cons; [done|]. split; [pose proof (Z.div_pos i 10); lia|].
    apply Z.div_lt_upper_bound; [lia|].
    rewrite Nat2Z.inj_succ, Z.pow_succ_r in H by lia. lia.
Qed.

(** The characters stored for [v], with the sign the code adds, are [v] in
    decimal. *)
Lemma cdigits_pretty v :
  Z.abs v < 10 ^ 20 ->
  rev (cdigits 20 v ++ if v <? 0 then ["-"%char] else []) = bs (pretty v).
Proof.
  intros H. rewrite rev_app_distr. destruct v as [|p|p].
  - done.
  - change (pretty (Z.pos p)) with (pretty_N_go (Z.to_N (Z.pos p)) "").
    rewrite (cdigits_pretty_go 20) by lia. simpl bs. by rewrite app_nil_r.
  - change (pretty (Z.neg p)) with (String.append "-" (pretty_N_go (Z.to_N (Z.pos p)) "")).
    rewrite bs_append, (cdigits_pretty_go 20) by lia. change (Z.neg p) with (- Z.pos p).
    rewrite cdigits_opp. simpl bs. by rewrite app_nil_r.
Qed.

(** *** Hexadecimal *)

Definition hex_val (c : ascii) : option Z :=
  let n := Z.of_N (N_of_ascii c) in
  if (48 <=? n) && (n <=? 57) then Some (n - 48)
  else if (65 <=? n) && (n <=? 70) then Some (n - 55) else None.

(** The value of a sequence of upper-case hexadecimal digits. *)
Definition unhex (b : bytes) : option Z :=
  foldl (fun acc c => v ← acc; d ← hex_val c; Some (v * 16 + d)) (Some 0) b.

Lemma hex_val_char d : 0 <= d < 16 -> hex_val (hex_char d) = Some d.
Proof.
  intros H. assert (d ∈ seqZ 0 16) as Hin by (apply elem_of_seqZ; lia). clear H. revert d Hin.
  apply (proj1 (Forall_forall (fun d => hex_val (hex_char d) = Some d) (seqZ 0 16))).
  apply (bool_decide_unpack _). by vm_compute.
Qed.

Lemma unhex_hdigits fuel i :
  0 <= i < 16 ^ Z.of_nat fuel -> unhex (rev (hdigits fuel i)) = Some i.
Proof.
  revert i. induction fuel as [|fuel IH]; intros i H.
  { by assert (i = 0) as -> by (simpl in H; lia). }
  cbn [hdigits rev]. pose proof (Z.div_mod i 16 ltac:(lia)).
  pose proof (Z.mod_pos_bound i 16 ltac:(lia)).
  unfold unhex. rewrite foldl_app. cbn [foldl].
  fold (unhex (rev (if i / 16 =? 0 then [] else hdigits fuel (i / 16)))).
  assert (unhex (rev (if i / 16 =? 0 then [] else hdigits fuel (i / 16))) = Some (i / 16)) as ->.
  { destruct (Z.eqb_spec (i / 16) 0) as [->|E]; [done|]. apply IH.
    split; [apply Z.div_pos; lia|]. apply Z.div_lt_upper_bound; [lia|].
    rewrite Nat2Z.inj_succ, Z.pow_succ_r in H by lia. lia. }
  simpl. rewrite hex_val_char by lia. simpl. f_equal. lia.
Qed.

(** The most significant digit is the last one stored. *)
Lemma last_hdigits fuel i :
  0 < i < 16 ^ Z.of_nat fuel -> exists c, last (hdigits fuel i) = Some c /\ c <> "0"%char.
Proof.
  revert i. induction fuel as [|fuel IH]; intros i H; [simpl in *; lia|].
  cbn [hdigits]. pose proof (Z.div_mod i 16 ltac:(lia)).
  pose proof (Z.mod_pos_bound i 16 ltac:(lia)).
  destruct (Z.eqb_spec (i / 16) 0) as [E|E].
  - eexists; split; [done|]. intros Hc. apply (f_equal hex_val) in Hc.
    rewrite hex_val_char in Hc by lia. injection Hc. lia.
  - destruct (IH (i / 16)) as (c&Hc&Hc').
    { split; [pose proof (Z.div_pos i 16); lia|]. apply Z.div_lt_upper_bound; [lia|].
      rewrite Nat2Z.inj_succ, Z.pow_succ_r in H by lia. lia. }
    exists c. split; [|done]. rewrite last_cons, Hc. done.
Qed.

Lemma nul_not_in_cdigits fuel i : nul ∉ cdigits fuel i.
Proof.
  revert i. induction fuel as [|n IH]; intros i; cbn [cdigits]; [set_solver|].
  assert (g_zero (Z.rem i 10) <> nul) as Hg.
  { assert (Z.rem i 10 ∈ seqZ (-9) 19) as Hin.
    { apply elem_of_seqZ. pose proof (Z.rem_bound_abs i 10 ltac:(lia)). lia. }
    revert Hin. generalize (Z.rem i 10). apply Forall_forall. vm_compute. by repeat constructor. }
  intros Hn. apply elem_of_cons in Hn as [Hn|Hn]; [by apply Hg|].
  destruct (_ =? 0); [set_solver|by apply IH in Hn].
Qed.

Lemma nul_not_in_pretty v : Z.abs v < 10 ^ 20 -> nul ∉ bs (pretty v).
Proof.
  intros Hv. rewrite <-cdigits_pretty by done.
  rewrite list_elem_of_In, <-in_rev, <-list_elem_of_In, not_elem_of_app.
  split; [apply nul_not_in_cdigits|]. destruct (v <? 0); vm_compute; set_solver.
Qed.

Lemma length_cdigits n fuel v :
  0 <= v < 10 ^ Z.of_nat (S n) -> (length (cdigits fuel v) <= S n)%nat.
Proof.
  revert fuel v. induction n as [|n IH]; intros [|fuel] v Hv; cbn [cdigits length]; try lia.
  - rewrite Z.quot_small by (simpl in Hv; lia). simpl. lia.
  - destruct (_ =? 0); simpl; [lia|]. specialize (IH fuel (Z.quot v 10)). apply le_n_S, IH.
    rewrite Z.quot_div_nonneg by lia. replace (Z.of_nat (S (S n))) with (Z.of_nat (S n) + 1) in Hv by lia.
    rewrite Z.pow_add_r in Hv by lia. split; [apply Z.div_pos; lia|]. apply Z.div_lt_upper_bound; lia.
Qed.

Lemma length_pretty n v :
  0 <= v < 10 ^ Z.of_nat (S n) -> (n < 20)%nat -> (length (bs (pretty v)) <= S n)%nat.
Proof.
  intros Hv Hn. assert (10 ^ Z.of_nat (S n) <= 10 ^ 20) by (apply Z.pow_le_mono_r; lia).
  rewrite <-cdigits_pretty by lia. destruct (Z.ltb_spec v 0); [lia|].
  rewrite app_nil_r, length_rev. by apply length_cdigits.
Qed.

(** ** What every [operator<<] does *)

Definition wf (ls : LogStream) : Prop :=
  blen (m_buff ls) = m_size ls /\ 0 <= m_cur ls <= m_size ls /\ m_size ls < 2 ^ 31.

(** The text of the message so far. *)
Definition out (ls : LogStream) : bytes := take (Z.to_nat (m_cur ls)) (m_buff ls).

Definition room (ls : LogStream) : Z := m_size ls - m_cur ls.

(** [ls'] is [ls] with [data] appended. *)
Definition appended (ls ls' : LogStream) (data : bytes) : Prop :=
  wf ls' /\ m_size ls' = m_size ls /\ out ls' = out ls ++ data /\
  m_cur ls' = m_cur ls + blen data.

Lemma extends_appended ls b data cur :
  wf ls -> extends (m_buff ls) b (m_cur ls) data -> cur = m_cur ls + blen data ->
  cur <= m_size ls -> appended ls (LS b cur (m_size ls)) data.
Proof.
  intros (H1&H2&H3) [Hl Ht] -> H4. unfold appended, wf, out in *. simpl in *.
  pose proof (blen_nonneg data). unfold blen in *.
  repeat split; try lia.
  replace (Z.to_nat (m_cur ls + Z.of_nat (length data)))
    with (Z.to_nat (m_cur ls) + length data)%nat by lia. done.
Qed.

Lemma room_u64 ls : wf ls -> u64 (m_size ls - m_cur ls) = room ls.
Proof. intros (H1&H2&H3). unfold room. rewrite u64_id by lia. done. Qed.

Lemma Append_spec data ls :
  wf ls -> blen data <= room ls ->
  exists ls', Append data ls = inr ls' /\ appended ls ls' data.
Proof.
  intros Hwf H. pose proof Hwf as (H1&H2&H3). unfold Append, room in *. pose proof (blen_nonneg data).
  rewrite room_u64 by done. unfold room. destruct (Z.leb_spec (blen data) (m_size ls - m_cur ls)); [|lia].
  simpl negb. cbv iota. rewrite copy_ok by lia. simpl. eexists; split; [done|].
  rewrite u64_id by lia. apply extends_appended; [done| |done|lia].
  apply blit_extends; lia.
Qed.

Lemma Append_no_room data ls : wf ls -> room ls < blen data -> Append data ls = inl AssertFail.
Proof.
  intros Hwf H. unfold Append. rewrite room_u64 by done.
  destruct (Z.leb_spec (blen data) (room ls)); [lia|done].
Qed.

Lemma FmtAppend_fits text ls :
  wf ls -> blen text < room ls ->
  exists ls', FmtAppend text ls = inr (ls', blen text) /\ appended ls ls' text.
Proof.
  intros Hwf H. pose proof Hwf as (H1&H2&H3). pose proof (blen_nonneg text).
  unfold FmtAppend, snprintf, room in *. cbv zeta. rewrite i32_id, u64_id by lia.
  destruct (Z.eqb_spec (m_size ls - m_cur ls) 0); [lia|].
  rewrite take_ge by (unfold blen in *; lia).
  assert (blen (text ++ [nul]) = blen text + 1) by (rewrite blen_app; done).
  rewrite copy_ok by lia. simpl. destruct (Z.leb_spec (blen text) 0).
  - assert (text = []) as -> by (destruct text; [done|unfold blen in *; simpl in *; lia]).
    eexists; split; [done|]. apply extends_appended; [done| |simpl; change (blen []) with 0; lia|simpl; lia].
    change ([] ++ [nul]) with [nul].
    pose proof (extends_blit_after (m_buff ls) (m_buff ls) (m_cur ls) [] [nul]) as Hx.
    change (blen []) with 0 in Hx. rewrite blen_1, Z.add_0_r in Hx.
    apply Hx; [lia| |lia]. split; [done|]. by rewrite Nat.add_0_r, app_nil_r.
  - eexists; split; [done|]. rewrite u64_id by lia.
    apply extends_appended; [done| |done|lia].
    rewrite <-(blit_blit_next (m_buff ls) text [nul])
      by (unfold blen in *; rewrite ?length_app in *; simpl in *; lia).
    replace (Z.to_nat (m_cur ls) + length text)%nat with (Z.to_nat (m_cur ls + blen text))
      by (unfold blen; lia).
    apply extends_blit_after; [lia| |rewrite blen_1; lia]. apply blit_extends; lia.
Qed.

(** [convert] stores the digits and a NUL behind them. *)
Lemma convert_spec mem buf value :
  Z.abs value < 10 ^ 20 -> 0 <= buf -> buf + 21 <= blen mem ->
  exists b, convert mem buf value = inr (b, blen (cdigits 20 value)) /\
    extends mem b buf (cdigits 20 value).
Proof.
  intros Hv Hp Hb. unfold convert. pose proof (blen_cdigits 20 value) as Hd.
  pose proof (blen_nonneg (cdigits 20 value)).
  change (Z.of_nat 20) with 20 in *.
  rewrite (convert_loop_spec 20 mem buf value) by lia. cbn [bind].
  pose proof (blit_extends mem buf (cdigits 20 value) Hp ltac:(lia)) as Hx.
  assert (blen (blit mem (Z.to_nat buf) (cdigits 20 value)) = blen mem) as Hl.
  { unfold blen. f_equal. apply Hx. }
  rewrite poke_ok by lia. cbn [bind].
  replace (buf + blen (cdigits 20 value) - buf) with (blen (cdigits 20 value)) by lia.
  eexists; split; [done|]. apply extends_blit_after; [done|done|rewrite blen_1; lia].
Qed.

Lemma Convert64U_spec v ls :
  wf ls -> 32 <= room ls -> 0 <= v < 2 ^ 64 ->
  exists ls', Convert64U v ls = inr (ls', blen (bs (pretty v))) /\
    appended ls ls' (bs (pretty v)).
Proof.
  intros Hwf Hr Hv. pose proof Hwf as (H1&H2&H3). unfold Convert64U, room in *.
  rewrite room_u64 by done. unfold room. destruct (Z.ltb_spec (m_size ls - m_cur ls) 32); [lia|].
  cbv zeta. destruct (convert_spec (m_buff ls) (m_cur ls) v) as (b&->&Hx); [lia..|].
  cbn [bind]. pose proof (blen_cdigits 20 v) as Hd. pose proof (blen_nonneg (cdigits 20 v)).
  assert (rev (cdigits 20 v) = bs (pretty v)) as Hp.
  { rewrite <-cdigits_pretty by lia. destruct (Z.ltb_spec v 0); [lia|]. by rewrite app_nil_r. }
  assert (blen (bs (pretty v)) = blen (cdigits 20 v)) as Hl.
  { rewrite <-Hp. unfold blen. by rewrite length_rev. }
  rewrite u64_id by lia. rewrite Hl. eexists; split; [done|].
  apply extends_appended; [done| |lia|lia]. rewrite <-Hp. apply extends_reverse; [lia|done|lia].
Qed.

Lemma Convert64_spec v ls :
  wf ls -> 32 <= room ls -> -2 ^ 63 <= v < 2 ^ 63 ->
  exists ls', Convert64 v ls = inr (ls', blen (bs (pretty v))) /\
    appended ls ls' (bs (pretty v)).
Proof.
  intros Hwf Hr Hv. pose proof Hwf as (H1&H2&H3). unfold Convert64, room in *.
  rewrite room_u64 by done. unfold room. destruct (Z.ltb_spec (m_size ls - m_cur ls) 32); [lia|].
  cbv zeta. destruct (convert_spec (m_buff ls) (m_cur ls) v) as (b&->&Hx); [lia..|].
  cbn [bind]. pose proof (blen_cdigits 20 v) as Hd. pose proof (blen_nonneg (cdigits 20 v)).
  pose proof (cdigits_pretty v ltac:(lia)) as Hp.
  assert (blen (bs (pretty v)) = blen (cdigits 20 v) + if v <? 0 then 1 else 0) as Hl.
  { rewrite <-Hp. unfold blen. rewrite length_rev, length_app. destruct (v <? 0); cbn [length]; lia. }
  rewrite u64_id by lia. destruct (Z.ltb_spec v 0).
  - assert (blen b = blen (m_buff ls)) as Hlb. { unfold blen. f_equal. apply Hx. }
    rewrite poke_ok by lia. cbn [bind].
    pose proof (extends_blit _ _ _ _ ["-"%char] (proj1 H2) Hx) as Hy.
    rewrite blen_1 in Hy. specialize (Hy ltac:(lia)).
    assert (blen (blit b (Z.to_nat (m_cur ls + blen (cdigits 20 v))) ["-"%char]) = blen (m_buff ls)) as Hlb'.
    { unfold blen. f_equal. apply Hy. }
    rewrite poke_ok by lia. cbn [bind].
    pose proof (extends_blit_after _ _ _ _ [nul] (proj1 H2) Hy) as Hz.
    rewrite blen_app, !blen_1 in Hz.
    specialize (Hz ltac:(lia)). rewrite Z.add_assoc in Hz.
    replace (m_cur ls + blen (cdigits 20 v) + 1 - m_cur ls) with (blen (bs (pretty v))) by lia.
    eexists; split; [done|]. apply extends_appended; [done| |lia|lia]. rewrite <-Hp.
    replace (m_cur ls + blen (cdigits 20 v) + 1)
      with (m_cur ls + blen (cdigits 20 v ++ ["-"%char]))
      by (rewrite blen_app, blen_1; lia).
    replace (m_cur ls + blen (cdigits 20 v) + 1)
      with (m_cur ls + blen (cdigits 20 v ++ ["-"%char])) in Hz
      by (rewrite blen_app, blen_1; lia).
    apply extends_reverse; [lia|done|rewrite blen_app, blen_1; lia].
  - cbn [bind]. rewrite app_nil_r in Hp.
    replace (m_cur ls + blen (cdigits 20 v) - m_cur ls) with (blen (bs (pretty v))) by lia.
    eexists; split; [done|]. apply extends_appended; [done| |lia|lia]. rewrite <-Hp.
    apply extends_reverse; [lia|done|lia].
Qed.

Lemma ConvertHex_spec v ls :
  wf ls -> 19 <= room ls -> 0 <= v < 2 ^ 64 ->
  exists ls' d, ConvertHex v ls = inr (ls', 2 + blen d) /\ appended ls ls' (bs "0x" ++ d) /\
    unhex d = Some v /\ (0 < v -> exists c, head d = Some c /\ c <> "0"%char) /\ 1 <= blen d <= 16.
Proof.
  intros Hwf Hr Hv. pose proof Hwf as (H1&H2&H3). unfold ConvertHex, room in *. cbv zeta.
  pose proof (blen_hdigits 16 v) as Hd. change (Z.of_nat 16) with 16 in Hd.
  assert (1 <= blen (hdigits 16 v)) as Hd'.
  { change (hdigits 16 v) with
      (hex_char (v mod 16) :: if v / 16 =? 0 then [] else hdigits 15 (v / 16)).
    rewrite blen_cons. pose proof (blen_nonneg (if v / 16 =? 0 then [] else hdigits 15 (v / 16))).
    lia. }
  rewrite (hex_loop_spec 16 (m_buff ls) (m_cur ls) v) by lia. cbn [bind].
  pose proof (blit_extends (m_buff ls) (m_cur ls) (hdigits 16 v) (proj1 H2) ltac:(lia)) as Hx.
  pose proof (f_equal Z.of_nat (proj1 Hx)) as Hl.
  assert (blen (bs "x0") = 2) as Hx0 by done.
  rewrite copy_ok by (unfold blen in *; lia). cbn [bind].
  pose proof (extends_blit _ _ _ _ (bs "x0") (proj1 H2) Hx ltac:(lia)) as Hy.
  pose proof (f_equal Z.of_nat (proj1 Hy)) as Hl'.
  rewrite poke_ok by (unfold blen in *; lia). cbn [bind].
  pose proof (extends_blit_after _ _ _ _ [nul] (proj1 H2) Hy) as Hz.
  rewrite blen_app, Hx0, blen_1, Z.add_assoc in Hz. specialize (Hz ltac:(lia)).
  exists (LS (std_reverse (blit (blit (blit (m_buff ls) (Z.to_nat (m_cur ls)) (hdigits 16 v))
     (Z.to_nat (m_cur ls + blen (hdigits 16 v))) (bs "x0"))
     (Z.to_nat (m_cur ls + blen (hdigits 16 v) + 2)) [nul]) (m_cur ls)
     (m_cur ls + blen (hdigits 16 v) + 2)) (m_cur ls + blen (hdigits 16 v) + 2) (m_size ls)),
     (rev (hdigits 16 v)).
  assert (blen (rev (hdigits 16 v)) = blen (hdigits 16 v)) as Hrv
    by (unfold blen; by rewrite length_rev).
  split; [|split; [|split; [|split]]].
  - replace (m_cur ls + blen (hdigits 16 v) + 2 - m_cur ls) with (2 + blen (hdigits 16 v)) by lia.
    rewrite Hrv, u64_id by lia.
    by replace (m_cur ls + (2 + blen (hdigits 16 v))) with (m_cur ls + blen (hdigits 16 v) + 2) by lia.
  - change (bs "0x") with (rev (bs "x0")). rewrite <-rev_app_distr.
    assert (blen (rev (hdigits 16 v ++ bs "x0")) = blen (hdigits 16 v) + 2) as Hrv2.
    { unfold blen in *. rewrite length_rev, length_app. lia. }
    apply extends_appended; [done| |lia|lia].
    replace (m_cur ls + blen (hdigits 16 v) + 2) with (m_cur ls + blen (hdigits 16 v ++ bs "x0"))
      by (rewrite blen_app; lia).
    replace (m_cur ls + blen (hdigits 16 v) + 2) with (m_cur ls + blen (hdigits 16 v ++ bs "x0")) in Hz
      by (rewrite blen_app; lia).
    apply extends_reverse; [lia|done|rewrite blen_app; lia].
  - apply unhex_hdigits. change (Z.of_nat 16) with 16. lia.
  - intros Hv0. destruct (last_hdigits 16 v) as (c&Hc&Hc'); [change (Z.of_nat 16) with 16; lia|].
    exists c. split; [|done]. apply last_Some in Hc as [l' Hc]. rewrite Hc, rev_app_distr. done.
  - lia.
Qed.

(** What the text of an argument is; the room the code wants for it. *)
Definition shows (a : LogArg) (t : bytes) : Prop :=
  match a with
  | AStdString v => t = v
  | ACString v => t = c_str v
  | ACharArray v => t = take (length v - 1) v
  | ASigned v | AUnsigned v => t = bs (pretty v)
  | ADouble text => t = text
  | APointer v => exists d, t = bs "0x" ++ d /\ unhex d = Some v /\
      (0 < v -> exists c, head d = Some c /\ c <> "0"%char)
  | AChar v => t = [v]
  | ABool v => t = if v then bs "1" else bs "0"
  end.

Definition needs (a : LogArg) : Z :=
  match a with
  | AStdString v => blen v
  | ACString v => blen (c_str v)
  | ACharArray v => blen (take (length v - 1) v)
  | ASigned _ | AUnsigned _ => 32
  | ADouble text => blen text + 1
  | APointer _ => 19
  | AChar _ | ABool _ => 1
  end.

Definition arg_ok (a : LogArg) : Prop :=
  match a with
  | ASigned v => - 2 ^ 63 <= v < 2 ^ 63
  | AUnsigned v | APointer v => 0 <= v < 2 ^ 64
  | _ => True
  end.

Lemma blen_pretty_le v : Z.abs v < 10 ^ 20 -> blen (bs (pretty v)) <= 21.
Proof.
  intros H. rewrite <-cdigits_pretty by done. unfold blen. rewrite length_rev, length_app.
  pose proof (blen_cdigits 20 v). unfold blen in *. destruct (v <? 0); cbn [length]; lia.
Qed.

Lemma shift_spec a ls :
  wf ls -> arg_ok a -> needs a <= room ls ->
  exists ls' t, shift a ls = inr ls' /\ shows a t /\ appended ls ls' t /\ blen t <= needs a.
Proof.
  intros Hwf Ha Hr.
  destruct a as [v|v|v|v|v|text|v|v|v]; cbn [shift shows needs arg_ok] in *.
  - destruct (Append_spec v ls Hwf Hr) as (ls'&->&?). eauto 10 with lia.
  - destruct (Append_spec (c_str v) ls Hwf Hr) as (ls'&->&?). eauto 10 with lia.
  - destruct (Append_spec (take (length v - 1) v) ls Hwf Hr) as (ls'&->&?). eauto 10 with lia.
  - destruct (Convert64_spec v ls Hwf Hr Ha) as (ls'&->&?). pose proof (blen_pretty_le v).
    cbn [bind]. exists ls', (bs (pretty v)). do 3 (split; [done|]). lia.
  - destruct (Convert64U_spec v ls Hwf Hr Ha) as (ls'&->&?). pose proof (blen_pretty_le v).
    cbn [bind]. exists ls', (bs (pretty v)). do 3 (split; [done|]). lia.
  - destruct (FmtAppend_fits text ls Hwf) as (ls'&->&?); [lia|]. cbn [bind].
    exists ls', text. do 3 (split; [done|]). lia.
  - destruct (ConvertHex_spec v ls Hwf Hr Ha) as (ls'&d&->&?&?&?&?). cbn [bind].
    exists ls', (bs "0x" ++ d). split; [done|]. split; [by exists d|]. split; [done|].
    rewrite blen_app. change (blen (bs "0x")) with 2. lia.
  - destruct (Append_spec [v] ls Hwf Hr) as (ls'&->&?). exists ls', [v].
    do 3 (split; [done|]). done.
  - destruct (Append_spec (if v then bs "1" else bs "0") ls Hwf) as (ls'&->&?).
    { by destruct v. }
    eexists ls', _. split; [done|]. split; [done|]. split; [done|]. by destruct v.
Qed.

Lemma appended_trans ls1 ls2 ls3 a b :
  appended ls1 ls2 a -> appended ls2 ls3 b -> appended ls1 ls3 (a ++ b).
Proof.
  intros (H1&H2&H3&H4) (K1&K2&K3&K4). split; [done|]. split; [by rewrite K2|].
  split; [by rewrite K3, H3, app_assoc|]. rewrite blen_app. lia.
Qed.

Lemma shift_all_spec (l : list LogArg) (ls : LogStream) :
  wf ls -> Forall arg_ok l -> sum_with needs l <= room ls ->
  exists ls' ts, shift_all l ls = inr ls' /\ Forall2 shows l ts /\ appended ls ls' (mjoin ts) /\
    blen (mjoin ts) <= sum_with needs l.
Proof.
  intros Hwf Hl. revert ls Hwf. induction Hl as [|a l Ha Hl IH]; intros ls Hwf Hr; cbn [sum_with] in *.
  { exists ls, []. split; [done|]. split; [constructor|]. unfold appended. simpl.
    rewrite app_nil_r. change (blen []) with 0. repeat split; try apply Hwf; lia. }
  assert (forall a, 0 <= needs a) as Hn.
  { intros []; cbn [needs]; try lia; auto with bef. pose proof (blen_nonneg text). lia. }
  pose proof (sum_with_nonneg needs l Hn).
  destruct (shift_spec a ls Hwf Ha) as (ls1&t&Hs&Ht&Hap&Hb); [lia|].
  destruct (IH ls1) as (ls2&ts&Hs2&Hts&Hap2&Hb2).
  { apply Hap. }
  { unfold room in *. destruct Hap as (_&->&_&->). lia. }
  exists ls2, (t :: ts). split; [cbn [shift_all]; by rewrite Hs|].
  split; [by constructor|]. split; [by eapply appended_trans|].
  change (mjoin (t :: ts)) with (t ++ mjoin ts). rewrite blen_app. lia.
Qed.

(** C27. A message built with [<<]: when the buffer has the room that the pieces
    ask for (32 bytes for an integer), every piece is appended completely, behind
    what the stream held, as its reference text - decimal integers of either
    sign, INT64_MIN included, [0x] and the hexadecimal value of a pointer - and no
    write leaves the array. *)
Theorem LogStream_message (l : list LogArg) (ls : LogStream) :
  wf ls -> Forall arg_ok l -> sum_with needs l <= room ls ->
  exists ls' ts, shift_all l ls = inr ls' /\ Forall2 shows l ts /\ appended ls ls' (mjoin ts).
Proof.
  intros Hwf Hl Hr. destruct (shift_all_spec l ls Hwf Hl Hr) as (ls'&ts&?&?&?&_). by exists ls', ts.
Qed.

Lemma LogStream_message_witness :
  exists ls' ts,
    shift_all [ACString (bs "x="); ASigned (- 2 ^ 63); AChar " "%char; APointer 255; ABool true]
      (LS (replicate 128 "z"%char) 3 128) = inr ls' /\
    Forall2 shows [ACString (bs "x="); ASigned (- 2 ^ 63); AChar " "%char; APointer 255; ABool true] ts /\
    appended (LS (replicate 128 "z"%char) 3 128) ls' (mjoin ts).
Proof.
  apply LogStream_message; [split; [done|]; simpl; lia| |vm_compute; discriminate].
  repeat constructor; simpl; lia.
Defined.

Example message_text :
  match shift_all [ACString (bs "x="); ASigned (- 2 ^ 63); AChar " "%char; APointer 255; ABool true]
    (LS (replicate 128 "z"%char) 3 128) with
  | inr ls => out ls = bs "zzzx=-9223372036854775808 0xFF1"
  | inl _ => False
  end.
Proof. by vm_compute. Qed.

(** ** When the room is missing *)

(** An integer is dropped, the rest of the message goes on. *)
Lemma integer_dropped v ls :
  wf ls -> room ls < 32 -> shift (ASigned v) ls = inr ls /\ shift (AUnsigned v) ls = inr ls.
Proof.
  intros Hwf Hr. unfold shift, Convert64, Convert64U. rewrite room_u64 by done.
  destruct (Z.ltb_spec (room ls) 32); [done|lia].
Qed.

(** A string fails the [assert]. *)
Lemma string_asserts v ls :
  wf ls -> room ls < blen v -> shift (AStdString v) ls = inl AssertFail.
Proof. intros. by apply Append_no_room. Qed.

(** [FmtAppend] advances [m_cur] by what the whole text would take: after a
    [double] that does not fit the stream ends behind its array, [m_size - m_cur]
    wraps around, and the check of the next [Append] lets a write outside of the
    array through. *)
Lemma FmtAppend_escapes text ls c :
  wf ls -> 0 < room ls < blen text -> blen text < 2 ^ 31 ->
  exists ls', shift (ADouble text) ls = inr ls' /\ m_size ls' < m_cur ls' /\
    shift (AChar c) ls' = inl OutOfBounds.
Proof.
  intros Hwf Hr Ht. pose proof Hwf as (H1&H2&H3). unfold shift, FmtAppend, snprintf, room in *.
  cbv zeta. rewrite i32_id, u64_id by lia. destruct (Z.eqb_spec (m_size ls - m_cur ls) 0); [lia|].
  assert (blen (take (Z.to_nat (m_size ls - m_cur ls - 1)) text ++ [nul]) = m_size ls - m_cur ls) as Hl.
  { rewrite blen_app, blen_1. unfold blen in *. rewrite length_take. lia. }
  rewrite copy_ok by lia. cbn [bind]. destruct (Z.leb_spec (blen text) 0); [lia|]. cbn [bind].
  rewrite u64_id by lia. eexists; split; [done|]. simpl m_size. simpl m_cur. split; [lia|].
  unfold Append. simpl m_size. simpl m_cur. rewrite blen_1.
  assert (u64 (m_size ls - (m_cur ls + blen text)) = m_size ls - (m_cur ls + blen text) + 2 ^ 64) as ->.
  { unfold u64. symmetry. apply (Z.mod_unique _ _ (-1)); [|lia]. left. lia. }
  destruct (Z.leb_spec 1 (m_size ls - (m_cur ls + blen text) + 2 ^ 64)); [|lia].
  simpl negb. cbv iota. unfold copy. simpl m_buff. rewrite blen_1.
  assert (blen (blit (m_buff ls) (Z.to_nat (m_cur ls))
    (take (Z.to_nat (m_size ls - m_cur ls - 1)) text ++ [nul])) = m_size ls) as ->.
  { unfold blen in *. rewrite length_blit; lia. }
  destruct (Z.leb_spec 0 (m_cur ls + blen text)); [|lia].
  destruct (Z.leb_spec (m_cur ls + blen text + 1) (m_size ls)); [lia|]. done.
Qed.

(** [ConvertHex] checks nothing. *)
Lemma ConvertHex_unchecked :
  shift (APointer (2 ^ 64 - 1)) (LS (replicate 16 nul) 4 16) = inl OutOfBounds.
Proof. by vm_compute. Qed.
