(* ===== verification/LogFileAppender.v ===== *)
(** * LogFileAppender.v: [slog/LogFileAppender.h] and [slog/LogFileAppender.cc]

A [LogFile] collects messages in [m_file_buff] and writes them to a file
descriptor that was opened for appending.  [disk] is the content of the file.
What [write(2)] does is outside of the program: [io] lists the results of the
next calls (a short count, [EINTR], another error); when the list is used up a
call writes everything.  So the retry loop of [AppendRaw] ends, whatever the list
is.

[S_DEF_BUFF_SZ] is 256 KiB in the code; the theorems hold for every size. *)

From S2P Require Import Prelude Machine LogStream.
#[local] Open Scope Z_scope.
#[local] Open Scope bef_scope.

(** The result of one call to [write]. *)
Inductive wres : Type :=
| Wrote (n : Z)   (* the number of bytes taken, at most what was asked *)
| WIntr           (* -1 with [errno == EINTR] *)
| WErr.           (* -1 with another [errno] *)

Record LogFile : Type := LF {
  disk : bytes;
  io : list wres;
  m_cur : Z;
  m_file_buff : bytes
}.

(** The loop of [AppendRaw]: what the file holds, the results left and [ret]. *)
Fixpoint append_loop (io : list wres) (disk msg : bytes) (ret : Z) : bytes * list wres * Z :=
  match msg with
  | [] => (disk, io, ret)
  | _ =>
      match io with
      | [] => (disk ++ msg, [], u64 (ret + blen msg))
      | WErr :: io' => (disk, io', ret)
      | WIntr :: io' => append_loop io' disk msg ret
      | Wrote n :: io' =>
          let written := Z.to_nat (Z.min n (blen msg)) in
          append_loop io' (disk ++ take written msg) (drop written msg)
            (u64 (ret + Z.of_nat written))
      end
  end.

Definition AppendRaw (msg : bytes) (f : LogFile) : LogFile * Z :=
  let '(d, io', ret) := append_loop (io f) (disk f) msg 0 in
  (LF d io' (m_cur f) (m_file_buff f), ret).

Definition Flush (gracefully : bool) (f : LogFile) : LogFile :=
  let '(f', _) := AppendRaw (take (Z.to_nat (m_cur f)) (m_file_buff f)) f in
  LF (disk f') (io f') 0 (m_file_buff f').

Section LogFile.
Variable S_DEF_BUFF_SZ : Z.

Definition Append (msg : bytes) (f : LogFile) : res (LogFile * Z) :=
  if negb (blen msg <=? S_DEF_BUFF_SZ) then inl AssertFail else
  let f1 := if u64 (S_DEF_BUFF_SZ - blen msg) <? m_cur f then Flush true f else f in
  let! b := copy (m_file_buff f1) (m_cur f1) msg in
  inr (LF (disk f1) (io f1) (m_cur f1 + blen msg) b, blen msg).

(** [LogFile(file)]: the file keeps what it held; the array is not initialised
    but for its first character. *)
Definition LogFile_init (d : bytes) (io : list wres) (garbage : bytes) : res LogFile :=
  let! b := poke garbage 0 nul in inr (LF d io 0 b).

(** [~LogFile()], up to [close]. *)
Definition LogFile_destroy (f : LogFile) : LogFile := Flush true f.

(** A client's use of the file. *)
Inductive FileOp : Type := FAppend (msg : bytes) | FFlush (gracefully : bool).

Definition file_op (op : FileOp) (f : LogFile) : res LogFile :=
  match op with
  | FAppend msg => let! (f', _) := Append msg f in inr f'
  | FFlush g => inr (Flush g f)
  end.

Fixpoint file_ops (l : list FileOp) (f : LogFile) : res LogFile :=
  match l with
  | [] => inr f
  | op :: l' => let! f' := file_op op f in file_ops l' f'
  end.

(** ** [AppendRaw] *)

Lemma append_loop_prefix io disk msg ret :
  0 <= ret -> ret + blen msg < 2 ^ 64 ->
  let '(d, _, r) := append_loop io disk msg ret in
  exists w, w `prefix_of` msg /\ d = disk ++ w /\ r = ret + blen w /\
    (WErr ∉ io -> w = msg).
Proof.
  revert disk msg ret. induction io as [|x io IH]; intros disk msg ret H0 H;
    destruct msg as [|c msg]; cbn [append_loop].
  - exists []. rewrite app_nil_r. change (blen []) with 0. repeat split; [done|lia].
  - exists (c :: msg). rewrite u64_id by (pose proof (blen_nonneg (c :: msg)); lia). done.
  - exists []. rewrite app_nil_r. change (blen []) with 0. repeat split; [done|lia].
  - destruct x as [n| |].
    + cbv zeta. set (k := Z.to_nat (Z.min n (blen (c :: msg)))).
      assert (k <= length (c :: msg))%nat as Hk by (unfold k, blen; lia).
      assert (Z.of_nat k + blen (drop k (c :: msg)) = blen (c :: msg)) as Hs.
      { unfold blen. rewrite length_drop. lia. }
      pose proof (blen_nonneg (drop k (c :: msg))). rewrite u64_id by lia.
      specialize (IH (disk ++ take k (c :: msg)) (drop k (c :: msg)) (ret + Z.of_nat k)
        ltac:(lia) ltac:(lia)).
      destruct (append_loop io (disk ++ take k (c :: msg)) (drop k (c :: msg)) (ret + Z.of_nat k))
        as [[d io'] r]. destruct IH as (w&Hp&->&->&Hw).
      exists (take k (c :: msg) ++ w). rewrite app_assoc, blen_app. split; [|split; [done|split]].
      * rewrite <-(take_drop k (c :: msg)) at 2. by apply prefix_app.
      * unfold blen at 2. rewrite length_take. lia.
      * intros He. rewrite Hw by set_solver. apply take_drop.
    + specialize (IH disk (c :: msg) ret H0 H).
      destruct (append_loop io disk (c :: msg) ret) as [[d io'] r].
      destruct IH as (w&?&?&?&Hw). exists w. repeat split; try done. intros. apply Hw. set_solver.
    + exists []. rewrite app_nil_r. change (blen []) with 0.
      repeat split; [apply prefix_nil|lia|]. intros He. set_solver.
Qed.

Lemma append_loop_io io disk msg ret d io' r :
  append_loop io disk msg ret = (d, io', r) -> WErr ∉ io -> WErr ∉ io'.
Proof.
  revert disk msg ret. induction io as [|x io IH]; intros disk msg ret;
    destruct msg as [|c msg]; cbn [append_loop]; intros H He; simplify_eq; try done.
  destruct x as [n| |]; simplify_eq; [eapply IH; [exact H|]..|]; set_solver.
Qed.

(** Without an error that is not [EINTR], [AppendRaw] writes the whole message,
    in as many calls as it takes. *)
Lemma AppendRaw_spec msg f :
  blen msg < 2 ^ 64 -> WErr ∉ io f ->
  exists io', AppendRaw msg f = (LF (disk f ++ msg) io' (m_cur f) (m_file_buff f), blen msg) /\
    WErr ∉ io'.
Proof.
  intros H He. unfold AppendRaw.
  pose proof (append_loop_prefix (io f) (disk f) msg 0 ltac:(lia) ltac:(lia)) as Hl.
  destruct (append_loop (io f) (disk f) msg 0) as [[d io'] r] eqn:E.
  destruct Hl as (w&_&->&->&Hw). rewrite Hw by done. exists io'. split; [done|].
  by eapply append_loop_io.
Qed.

(** ** The buffer *)

Hypothesis sz_ok : 0 <= S_DEF_BUFF_SZ < 2 ^ 32.

Definition file_wf (f : LogFile) : Prop :=
  blen (m_file_buff f) = S_DEF_BUFF_SZ /\ 0 <= m_cur f <= S_DEF_BUFF_SZ.

(** What was appended to the file: written or still in the buffer. *)
Definition content (f : LogFile) : bytes := disk f ++ take (Z.to_nat (m_cur f)) (m_file_buff f).

Lemma Flush_spec g f :
  file_wf f -> WErr ∉ io f ->
  file_wf (Flush g f) /\ content (Flush g f) = content f /\ disk (Flush g f) = content f /\
  m_cur (Flush g f) = 0 /\ WErr ∉ io (Flush g f).
Proof.
  intros [Hl Hc] He. unfold Flush.
  destruct (AppendRaw_spec (take (Z.to_nat (m_cur f)) (m_file_buff f)) f) as (io'&->&He'); [|done|].
  { unfold blen in *. rewrite length_take. lia. }
  unfold file_wf, content. simpl. rewrite app_nil_r. repeat split; try done; lia.
Qed.

Lemma Append_ok msg f :
  file_wf f -> WErr ∉ io f -> blen msg <= S_DEF_BUFF_SZ ->
  exists f', Append msg f = inr (f', blen msg) /\ file_wf f' /\ WErr ∉ io f' /\
    content f' = content f ++ msg.
Proof.
  intros Hwf He Hm. unfold Append. pose proof (blen_nonneg msg).
  destruct (Z.leb_spec (blen msg) S_DEF_BUFF_SZ); [|lia]. simpl negb. cbv iota zeta.
  rewrite u64_id by lia.
  set (f1 := if S_DEF_BUFF_SZ - blen msg <? m_cur f then Flush true f else f).
  assert (file_wf f1 /\ WErr ∉ io f1 /\ content f1 = content f /\
    m_cur f1 + blen msg <= S_DEF_BUFF_SZ) as ((Hl&Hc)&He1&Hct&Hr).
  { unfold f1. destruct (Z.ltb_spec (S_DEF_BUFF_SZ - blen msg) (m_cur f)).
    - destruct (Flush_spec true f Hwf He) as ([??]&?&?&->&?). repeat split; try done; lia.
    - repeat split; try done; try apply Hwf. lia. }
  rewrite copy_ok by lia. cbn [bind]. eexists; split; [done|].
  pose proof (blit_extends (m_file_buff f1) (m_cur f1) msg (proj1 Hc) ltac:(lia)) as [Hx1 Hx2].
  unfold file_wf, content. cbn [m_cur m_file_buff disk io].
  split; [split; [unfold blen in *; by rewrite Hx1|lia]|]. split; [done|].
  replace (Z.to_nat (m_cur f1 + blen msg)) with (Z.to_nat (m_cur f1) + length msg)%nat
    by (unfold blen; lia).
  rewrite Hx2, app_assoc. f_equal. exact Hct.
Qed.

Definition op_msg (op : FileOp) : bytes := match op with FAppend m => m | FFlush _ => [] end.

(** C28. Any use of a log file on a descriptor without write errors (short
    writes and [EINTR] may happen at any point): no operation fails, what is on
    disk and in the buffer is exactly what was appended, in order, and after a
    [Flush] - the destructor's - all of it is on disk. *)
Theorem LogFile_keeps_order (l : list FileOp) (f : LogFile) :
  file_wf f -> WErr ∉ io f -> Forall (fun op => blen (op_msg op) <= S_DEF_BUFF_SZ) l ->
  exists f', file_ops l f = inr f' /\ content f' = content f ++ mjoin (map op_msg l) /\
    disk (LogFile_destroy f') = content f ++ mjoin (map op_msg l).
Proof.
  intros Hwf He Hl. revert f Hwf He. induction Hl as [|op l Ho Hl IH]; intros f Hwf He.
  { exists f. cbn. rewrite app_nil_r. split; [done|]. split; [done|]. by apply Flush_spec. }
  destruct op as [msg|g]; cbn [op_msg file_ops file_op] in *.
  - destruct (Append_ok msg f Hwf He Ho) as (f1&->&Hwf1&He1&Hc1). cbn [bind].
    destruct (IH f1 Hwf1 He1) as (f'&->&Hc&Hd). exists f'. cbn. rewrite app_assoc.
    rewrite <-Hc1. done.
  - destruct (Flush_spec g f Hwf He) as (Hwf1&Hc1&_&_&He1).
    destruct (IH (Flush g f) Hwf1 He1) as (f'&Hf&Hc&Hd). cbn [bind]. rewrite Hf. exists f'.
    cbn. rewrite <-Hc1. done.
Qed.

End LogFile.

Definition S_DEF_BUFF_SZ : Z := 256 * 1024.

Lemma LogFile_keeps_order_witness :
  exists f',
    file_ops 8 [FAppend (bs "hello"); FFlush true; FAppend (bs "abcde"); FAppend (bs "fghi")]
      (LF (bs "old ") [Wrote 2; WIntr; Wrote 0; Wrote 100] 0 (replicate 8 nul)) = inr f' /\
    content f' = bs "old " ++ mjoin [bs "hello"; []; bs "abcde"; bs "fghi"] /\
    disk (LogFile_destroy f') = bs "old " ++ mjoin [bs "hello"; []; bs "abcde"; bs "fghi"].
Proof.
  apply (LogFile_keeps_order 8 ltac:(lia)
    [FAppend (bs "hello"); FFlush true; FAppend (bs "abcde"); FAppend (bs "fghi")]
    (LF (bs "old ") [Wrote 2; WIntr; Wrote 0; Wrote 100] 0 (replicate 8 nul))).
  - split; [done|simpl; lia].
  - simpl. rewrite !not_elem_of_cons. repeat split; try done. apply not_elem_of_nil.
  - repeat constructor; vm_compute; discriminate.
Defined.

(** An error that is not [EINTR] loses the rest of the message, and [Flush]
    clears the buffer all the same. *)
Lemma Flush_error_loses :
  disk (Flush true (LF [] [Wrote 2; WErr] 5 (bs "hello"))) = bs "he" /\
  m_cur (Flush true (LF [] [Wrote 2; WErr] 5 (bs "hello"))) = 0.
Proof. done. Qed.
