(* ===== verification/CacheTimeStamp.v ===== *)
(** * CacheTimeStamp.v: [slog/CacheTimeStamp.h] and [slog/CacheTimeStamp.cc]

A [CacheTimeStamp] keeps microseconds; the formatted second is cached per thread in
[tl_time_str] and is recomputed only when the second differs from [tl_last_sec].  What
[localtime_r] gives is an argument.  The cached text is always the one that would be
computed ([timestamp_cached]), except for the second 0, which the cache pretends to hold
from the start ([epoch_stamp]); but it is the text of the thread's latest stamp, not of the
stamp that asks for it ([older_stamp]), and the theorem says so. *)

From S2P Require Import Prelude Machine LogStream.
From stdpp Require Import pretty.
#[local] Open Scope Z_scope.
#[local] Open Scope bef_scope.

(** ** [printf] of an [int] *)

Definition digits (v : Z) : bytes := bs (pretty v).

(** [%4d] pads with blanks, [%02d] with zeros behind the sign. *)
Definition blank_pad (w : nat) (v : Z) : bytes :=
  replicate (w - length (digits v)) " "%char ++ digits v.

Definition zero_pad (w : nat) (v : Z) : bytes :=
  if v <? 0 then "-"%char :: replicate (w - 1 - length (digits (- v))) "0"%char ++ digits (- v)
  else replicate (w - length (digits v)) "0"%char ++ digits v.

(** ** The stamps *)

Record tm : Type := Tm {
  tm_year : Z; tm_mon : Z; tm_mday : Z; tm_hour : Z; tm_min : Z; tm_sec : Z
}.

(** ["%4d_%02d_%02d-%02d_%02d_%02d"] *)
Definition fmt_time (t : tm) : bytes :=
  blank_pad 4 (tm_year t + 1900) ++ bs "_" ++ zero_pad 2 (tm_mon t + 1) ++ bs "_" ++
  zero_pad 2 (tm_mday t) ++ bs "-" ++ zero_pad 2 (tm_hour t) ++ bs "_" ++
  zero_pad 2 (tm_min t) ++ bs "_" ++ zero_pad 2 (tm_sec t).

Definition S_MS_PER_SEC : Z := 1000 * 1000.
Definition FmtSecLength : Z := 19.

Record CacheTimeStamp : Type := Stamp { m_micro_sec : Z; m_trailing_ms : Z }.

(** The thread-local variables. *)
Record tls : Type := Tls { tl_last_sec : Z; tl_time_str : bytes }.

Definition tls_init : tls := Tls 0 (replicate 32 nul).

Section Stamps.
Variable localtime_r : Z -> tm.

(** The constructor. *)
Definition CacheTimeStamp_init (micro_sec : Z) (s : tls) : res (tls * CacheTimeStamp) :=
  let t := Stamp micro_sec (Z.rem micro_sec S_MS_PER_SEC) in
  let sec := Z.quot micro_sec S_MS_PER_SEC in
  if tl_last_sec s =? sec then inr (s, t) else
  let! (b, len) := snprintf (tl_time_str s) 0 32 (fmt_time (localtime_r sec)) in
  if len =? FmtSecLength then inr (Tls sec b, t) else inl AssertFail.

Definition TrailingMicroSec (t : CacheTimeStamp) : Z := m_trailing_ms t.

Definition GetFmtSec (s : tls) : bytes := tl_time_str s.

(** [":%06d"] into 16 bytes. *)
Definition ToString (s : tls) (t : CacheTimeStamp) : bytes :=
  c_str (tl_time_str s) ++ take 15 (bs ":" ++ zero_pad 6 (i32 (TrailingMicroSec t))).

(** [Now] on what [gettimeofday] returns. *)
Definition Now (tv_sec tv_usec : Z) (s : tls) : res (tls * CacheTimeStamp) :=
  CacheTimeStamp_init (tv_sec * S_MS_PER_SEC + tv_usec) s.

(** What a thread does: it makes stamps, and prints any it made before. *)
Inductive op : Type := Make (micro : Z) | Say (k : nat).

(** [ctor] is the constructor; [made], the stamps so far. *)
Fixpoint run (ctor : Z -> tls -> res (tls * CacheTimeStamp)) (l : list op) (s : tls)
    (made : list CacheTimeStamp) : res (tls * list bytes) :=
  match l with
  | [] => inr (s, [])
  | Make micro :: l' =>
      let! (s', t) := ctor micro s in run ctor l' s' (made ++ [t])
  | Say k :: l' =>
      match made !! k with
      | Some t => let! (s', out) := run ctor l' s made in inr (s', ToString s t :: out)
      | None => run ctor l' s made
      end
  end.

(** ** The cache against the computation without it *)

(** The constructor without the test for the cached second. *)
Definition uncached (micro_sec : Z) (s : tls) : res (tls * CacheTimeStamp) :=
  let t := Stamp micro_sec (Z.rem micro_sec S_MS_PER_SEC) in
  let sec := Z.quot micro_sec S_MS_PER_SEC in
  let! (b, len) := snprintf (tl_time_str s) 0 32 (fmt_time (localtime_r sec)) in
  if negb (len =? FmtSecLength) then inl AssertFail else inr (Tls sec b, t).

(** The second [sec] in full, with the microseconds of the stamp [micro]. *)
Definition stamp_text (sec micro : Z) : bytes :=
  fmt_time (localtime_r sec) ++ bs ":" ++ zero_pad 6 (Z.rem micro S_MS_PER_SEC).

(** What the prints show: [sec] is the second of the stamp made last, [made] what the stamps
    were made of. *)
Fixpoint shown (l : list op) (sec : Z) (made : list Z) : list bytes :=
  match l with
  | [] => []
  | Make micro :: l' => shown l' (Z.quot micro S_MS_PER_SEC) (made ++ [micro])
  | Say k :: l' =>
      match made !! k with
      | Some micro => stamp_text sec micro :: shown l' sec made
      | None => shown l' sec made
      end
  end.

(** The second of the first stamp. *)
Fixpoint first_second (l : list op) : option Z :=
  match l with
  | [] => None
  | Make micro :: _ => Some (Z.quot micro S_MS_PER_SEC)
  | Say _ :: l' => first_second l'
  end.

(** The text is that of the second that the cache says it holds. *)
Definition coherent (s : tls) : Prop :=
  length (tl_time_str s) = 32%nat /\ length (fmt_time (localtime_r (tl_last_sec s))) = 19%nat /\
  exists rest, tl_time_str s = fmt_time (localtime_r (tl_last_sec s)) ++ nul :: rest.

(** A date that the format shows in 19 characters. *)
Definition tm_ok (t : tm) : Prop :=
  0 <= tm_year t + 1900 < 10000 /\ 0 <= tm_mon t + 1 < 100 /\ 0 <= tm_mday t < 100 /\
  0 <= tm_hour t < 100 /\ 0 <= tm_min t < 100 /\ 0 <= tm_sec t < 100.

Definition cache_ok (s : tls) : Prop :=
  length (tl_time_str s) = 32%nat /\
  (tl_last_sec s <> 0 ->
    exists rest, tl_time_str s = fmt_time (localtime_r (tl_last_sec s)) ++ nul :: rest /\
      tm_ok (localtime_r (tl_last_sec s))).

Lemma length_digits n v :
  0 <= v < 10 ^ Z.of_nat (S n) -> (n < 20)%nat -> (length (digits v) <= S n)%nat.
Proof. apply length_pretty. Qed.

Lemma nul_not_in_zero_pad n w v :
  0 <= v < 10 ^ Z.of_nat (S n) -> (n < 10)%nat -> nul ∉ zero_pad w v.
Proof.
  intros Hv Hn. unfold zero_pad. destruct (Z.ltb_spec v 0); [lia|].
  assert (10 ^ Z.of_nat (S n) <= 10 ^ 20) by (apply Z.pow_le_mono_r; lia).
  rewrite not_elem_of_app. split; [|apply nul_not_in_pretty; lia].
  intros Hin. by apply elem_of_replicate in Hin as [[=] _].
Qed.

Lemma nul_not_in_blank_pad n w v :
  0 <= v < 10 ^ Z.of_nat (S n) -> (n < 10)%nat -> nul ∉ blank_pad w v.
Proof.
  intros Hv Hn. unfold blank_pad.
  assert (10 ^ Z.of_nat (S n) <= 10 ^ 20) by (apply Z.pow_le_mono_r; lia).
  rewrite not_elem_of_app. split; [|apply nul_not_in_pretty; lia].
  intros Hin. by apply elem_of_replicate in Hin as [[=] _].
Qed.

Lemma length_zero_pad n v :
  0 <= v < 10 ^ Z.of_nat (S n) -> (n < 20)%nat -> length (zero_pad (S n) v) = S n.
Proof.
  intros Hv Hn. unfold zero_pad. destruct (Z.ltb_spec v 0); [lia|].
  rewrite length_app, length_replicate. pose proof (length_digits n v Hv Hn). lia.
Qed.

Lemma length_blank_pad n v :
  0 <= v < 10 ^ Z.of_nat (S n) -> (n < 20)%nat -> length (blank_pad (S n) v) = S n.
Proof.
  intros Hv Hn. unfold blank_pad. rewrite length_app, length_replicate.
  pose proof (length_digits n v Hv Hn). lia.
Qed.

Lemma fmt_time_ok t : tm_ok t -> length (fmt_time t) = 19%nat /\ nul ∉ fmt_time t.
Proof.
  intros (H1&H2&H3&H4&H5&H6). unfold fmt_time. split.
  - rewrite !length_app, (length_blank_pad 3), !(length_zero_pad 1) by (simpl; lia). done.
  - rewrite !not_elem_of_app. split_and!; try (apply (nul_not_in_zero_pad 1); simpl; lia);
      try (apply (nul_not_in_blank_pad 3); simpl; lia); vm_compute; set_solver.
Qed.

Lemma CacheTimeStamp_init_ok micro s :
  let sec := Z.quot micro S_MS_PER_SEC in
  cache_ok s -> sec <> 0 -> tm_ok (localtime_r sec) ->
  exists s' rest, CacheTimeStamp_init micro s = inr (s', Stamp micro (Z.rem micro S_MS_PER_SEC)) /\
    cache_ok s' /\ tl_time_str s' = fmt_time (localtime_r sec) ++ nul :: rest.
Proof.
  intros sec [Hl Hc] Hs Ht. unfold CacheTimeStamp_init. fold sec.
  destruct (Z.eqb_spec (tl_last_sec s) sec) as [E|E].
  - destruct Hc as (rest&Hr&_); [congruence|]. exists s, rest. rewrite E in Hr.
    split_and!; [done| |done]. split; [done|]. rewrite E. intros _. by exists rest.
  - destruct (fmt_time_ok _ Ht) as [Hf _]. set (f := fmt_time (localtime_r sec)) in *.
    unfold snprintf. change (32 =? 0) with false. cbv iota.
    rewrite take_ge by (rewrite Hf; simpl; lia).
    rewrite copy_ok by (unfold blen; rewrite ?length_app, ?Hf, ?Hl; simpl; lia). cbn [bind].
    unfold blen. rewrite Hf. change (Z.of_nat 19 =? FmtSecLength) with true. cbv iota.
    assert (blit (tl_time_str s) 0 (f ++ [nul]) = f ++ nul :: drop 20 (tl_time_str s)) as Hb.
    { unfold blit. rewrite take_0, length_app, Hf. simpl. by rewrite <-app_assoc. }
    exists (Tls sec (f ++ nul :: drop 20 (tl_time_str s))), (drop 20 (tl_time_str s)).
    change (Z.to_nat 0) with 0%nat. rewrite Hb. split_and!; [done| |done].
    split; simpl; [|by eauto].
    rewrite length_app, Hf. simpl. rewrite length_drop, Hl. lia.
Qed.

Lemma length_zero_pad_6 v : Z.abs v < 10 ^ 6 -> (length (zero_pad 6 v) <= 7)%nat.
Proof.
  intros Hv. unfold zero_pad. destruct (Z.ltb_spec v 0).
  - pose proof (length_digits 5 (- v) ltac:(simpl; lia) ltac:(lia)).
    simpl. rewrite length_app, length_replicate. lia.
  - pose proof (length_digits 5 v ltac:(simpl; lia) ltac:(lia)).
    rewrite length_app, length_replicate. lia.
Qed.

Lemma ToString_coherent micro s :
  coherent s -> tm_ok (localtime_r (tl_last_sec s)) ->
  ToString s (Stamp micro (Z.rem micro S_MS_PER_SEC)) = stamp_text (tl_last_sec s) micro.
Proof.
  intros (_&_&rest&Hs) Ht. destruct (fmt_time_ok _ Ht) as [_ Hn].
  unfold ToString, stamp_text, TrailingMicroSec. rewrite Hs, c_str_nul by done. f_equal. simpl m_trailing_ms.
  pose proof (Z.rem_bound_abs micro S_MS_PER_SEC ltac:(done)) as Hb. unfold S_MS_PER_SEC in *.
  rewrite i32_id by lia. apply take_ge. rewrite length_app.
  pose proof (length_zero_pad_6 (Z.rem micro (1000 * 1000)) ltac:(lia)). simpl. lia.
Qed.

(** Recomputing into the buffer of the cache. *)
Lemma uncached_eq micro s :
  length (tl_time_str s) = 32%nat ->
  let sec := Z.quot micro S_MS_PER_SEC in
  match uncached micro s with
  | inl _ => length (fmt_time (localtime_r sec)) <> 19%nat
  | inr (s', t) => coherent s' /\ tl_last_sec s' = sec /\ t = Stamp micro (Z.rem micro S_MS_PER_SEC) /\
      tl_time_str s' = fmt_time (localtime_r sec) ++ nul :: drop 20 (tl_time_str s)
  end.
Proof.
  intros Hl sec. unfold uncached. fold sec. set (f := fmt_time (localtime_r sec)).
  unfold snprintf. change (32 =? 0) with false. cbv iota.
  assert (length (take (Z.to_nat (32 - 1)) f ++ [nul]) <= 32)%nat as Ht
    by (rewrite length_app, length_take; change (Z.to_nat (32 - 1)) with 31%nat; simpl length; lia).
  rewrite copy_ok by (unfold blen; lia). cbn [bind].
  destruct (Z.eqb_spec (blen f) FmtSecLength) as [E|E]; cbn [negb]; cbv iota; [|unfold blen, FmtSecLength in E; lia].
  unfold blen, FmtSecLength in E. assert (length f = 19%nat) as Hf by lia.
  rewrite take_ge by (rewrite Hf; simpl; lia).
  assert (blit (tl_time_str s) (Z.to_nat 0) (f ++ [nul]) = f ++ nul :: drop 20 (tl_time_str s)) as Hb.
  { unfold blit. change (Z.to_nat 0) with 0%nat.
    rewrite take_0, length_app, Hf. simpl. by rewrite <-app_assoc. }
  rewrite Hb. unfold coherent. simpl. fold f. split_and!; try done; [|by eexists].
  rewrite length_app, Hf. simpl. rewrite length_drop, Hl. lia.
Qed.

Lemma init_uncached micro s :
  coherent s \/ Z.quot micro S_MS_PER_SEC <> tl_last_sec s ->
  CacheTimeStamp_init micro s = uncached micro s.
Proof.
  intros Hc. unfold CacheTimeStamp_init. destruct (Z.eqb_spec (tl_last_sec s) (Z.quot micro S_MS_PER_SEC)) as [E|E].
  - destruct Hc as [Hc|Hc]; [|congruence]. pose proof (uncached_eq micro s (proj1 Hc)) as Hu.
    destruct Hc as (Hl&Hf&rest&Hr). rewrite E in Hf, Hr.
    destruct (uncached micro s) as [|[s' t]]; [done|]. destruct Hu as (_&Hs&->&Ht).
    rewrite Hr, drop_app_ge in Ht by lia. rewrite Hf in Ht. simpl in Ht.
    rewrite drop_0 in Ht. destruct s, s'; simpl in *. by subst.
  - unfold uncached. destruct (snprintf _ _ _ _) as [|[b len]]; [done|]. cbn [bind].
    by destruct (len =? FmtSecLength).
Qed.

Lemma run_uncached l s made :
  coherent s \/ (length (tl_time_str s) = 32%nat /\ first_second l <> Some (tl_last_sec s)) ->
  run CacheTimeStamp_init l s made = run uncached l s made.
Proof.
  revert s made. induction l as [|[micro|k] l IH]; intros s made Hs; simpl; [done| |].
  - rewrite init_uncached by (destruct Hs as [?|[_ ?]]; [by left|right; simpl in *; congruence]).
    assert (length (tl_time_str s) = 32%nat) as Hl by (destruct Hs as [[? _]|[? _]]; done).
    pose proof (uncached_eq micro s Hl) as Hu. destruct (uncached micro s) as [|[s' t]]; [done|].
    cbn [bind]. apply IH. left. apply Hu.
  - by rewrite (IH s made Hs).
Qed.

Lemma run_shown l s (made : list Z) :
  length (tl_time_str s) = 32%nat ->
  (made <> [] -> coherent s /\ tm_ok (localtime_r (tl_last_sec s))) ->
  (forall micro, Make micro ∈ l -> tm_ok (localtime_r (Z.quot micro S_MS_PER_SEC))) ->
  exists s', run uncached l s ((fun micro => Stamp micro (Z.rem micro S_MS_PER_SEC)) <$> made) =
    inr (s', shown l (tl_last_sec s) made).
Proof.
  revert s made. induction l as [|[micro|k] l IH]; intros s made Hl Hs Ht; simpl; [by eexists| |].
  - assert (tm_ok (localtime_r (Z.quot micro S_MS_PER_SEC))) as Hm by (apply Ht; set_solver).
    pose proof (uncached_eq micro s Hl) as Hu. destruct (uncached micro s) as [|[s' t]].
    { by destruct (fmt_time_ok _ Hm). }
    destruct Hu as (Hc&Hsec&->&_). cbn [bind]. rewrite <-Hsec.
    destruct (IH s' (made ++ [micro]) (proj1 Hc)) as [s'' H]; [by rewrite Hsec|set_solver|].
    rewrite fmap_app in H. by exists s''.
  - rewrite list_lookup_fmap. destruct (IH s made Hl Hs ltac:(set_solver)) as [s' H].
    destruct (made !! k) as [micro|] eqn:Ek; simpl; rewrite H; cbn [bind]; [|by eexists].
    destruct Hs as [Hc Hm]; [by intros ->|]. exists s'. by rewrite ToString_coherent.
Qed.

(** C37. A thread makes stamps and prints those it made, in any order and any number of
    times.  When the text of the cache is that of its second, or the first stamp is not of
    the second the cache starts with (for a new thread, the second 0 of the epoch, which the
    cache wrongly takes for its own: [epoch_stamp]), every print and every failed length
    check is the one of a constructor that formats its second each time.  And when
    [localtime_r] gives dates of 19 characters, no check fails and each print shows the
    second of the stamp made last on the thread (for a stamp that is not the last one this
    need not be its own: [older_stamp]) with the stamp's own microseconds in six digits. *)
Theorem timestamp_cached l s :
  length (tl_time_str s) = 32%nat ->
  coherent s \/ first_second l <> Some (tl_last_sec s) ->
  run CacheTimeStamp_init l s [] = run uncached l s [] /\
  ((forall micro, Make micro ∈ l -> tm_ok (localtime_r (Z.quot micro S_MS_PER_SEC))) ->
   exists s', run CacheTimeStamp_init l s [] = inr (s', shown l (tl_last_sec s) [])).
Proof.
  intros Hl Hc. assert (run CacheTimeStamp_init l s [] = run uncached l s []) as E.
  { apply run_uncached. destruct Hc; [by left|by right]. }
  split; [done|]. intros Ht. rewrite E. by apply (run_shown l s []).
Qed.

End Stamps.

(** ** Examples *)

(** A clock that shows the second of the minute only. *)
Abbreviation demo_clock := (fun sec => Tm 123 3 21 20 10 (sec mod 60)).

(** Three stamps; the first is printed again when the cache holds the second of the third. *)
Lemma timestamp_cached_witness :
  exists s', run (CacheTimeStamp_init demo_clock)
      [Make 33562233; Say 0; Make 33562466; Say 1; Say 0; Make 35000007; Say 2; Say 0]
      tls_init [] =
    inr (s', [bs "2023_04_21-20_10_33:562233"; bs "2023_04_21-20_10_33:562466";
              bs "2023_04_21-20_10_33:562233"; bs "2023_04_21-20_10_35:000007";
              bs "2023_04_21-20_10_35:562233"]).
Proof.
  edestruct (timestamp_cached demo_clock) as [_ Hs];
    [| |destruct Hs as (s'&Hs); [|exists s'; rewrite Hs; reflexivity]].
  - reflexivity.
  - right. intros H. vm_compute in H. discriminate H.
  - intros micro Hm. rewrite !elem_of_cons, elem_of_nil in Hm.
    destruct_or! Hm; try discriminate Hm; try done; injection Hm as ->;
      vm_compute; intuition discriminate.
Defined.

(** A stamp that is printed after a newer one was made shows the newer one's second. *)
Example older_stamp :
  match CacheTimeStamp_init demo_clock 33562233 tls_init with
  | inr (s1, t1) =>
      match CacheTimeStamp_init demo_clock 35000007 s1 with
      | inr (s2, _) => ToString s2 t1 = bs "2023_04_21-20_10_35:562233"
      | inl _ => False
      end
  | inl _ => False
  end.
Proof. vm_compute. done. Qed.

(** The first second of the epoch is taken for a cached one: the text is empty. *)
Example epoch_stamp :
  match CacheTimeStamp_init demo_clock 5 tls_init with
  | inr (s, t) => ToString s t = bs ":000005"
  | inl _ => False
  end.
Proof. vm_compute. done. Qed.
