(* ===== verification/SlogLogger.v ===== *)
(** * SlogLogger.v: [slog/Logger.h] and [slog/Logger.cc]

A statement [SLOG_INFO << a << b] makes a [Logger], whose constructor writes the time
and the level into a stream of its own, streams the arguments, and whose destructor adds
the place and hands the line to the global appender.  The appender is the typeclass
[LogAppender] with its contract [LogAppenderSpec]; the synchronous [SynLogAppender] of
LogFileAppender.v and the [DefaultAppender] are instances (AsynLogAppender.v proves the
asynchronous one correct by itself).

A statement from the threshold on appends exactly its line; one below it leaves nothing
([slog_statement]).  The appender is there as long as a translation unit that logs is
alive ([nifty_counter]). *)

From stdpp Require Import pretty.
From S2P Require Import Prelude Machine LogStream LogFileAppender CacheTimeStamp.
#[local] Open Scope Z_scope.
#[local] Open Scope bef_scope.

(** ** Levels *)

Inductive LogLevel : Type :=
| LL_TRACE | LL_DEBUG | LL_INFO | LL_WARN | LL_ERROR | LL_FATAL | LL_ABORT | NUM_LOG_LEVEL.

Definition level_index (l : LogLevel) : Z :=
  match l with
  | LL_TRACE => 0 | LL_DEBUG => 1 | LL_INFO => 2 | LL_WARN => 3
  | LL_ERROR => 4 | LL_FATAL => 5 | LL_ABORT => 6 | NUM_LOG_LEVEL => 7
  end.

Definition g_LogLvlName : list bytes :=
  [bs " TRACE "; bs " DEBUG "; bs " INFO  "; bs " WARN  "; bs " ERROR "; bs " FATAL "; bs " ABORT "].

(** ** Appenders *)

Class LogAppender (A : Type) : Type := {
  append : bytes -> A -> res A;
  flush : bool -> A -> A
}.

(** [received]: all that was appended; a message of at most [max] bytes is taken whole,
    behind [mark]. *)
Class LogAppenderSpec (A : Type) `{LogAppender A} (ok : A -> Prop) (received : A -> bytes)
    (mark : bytes) (max : Z) : Prop := {
  append_spec msg a :
    ok a -> blen msg <= max ->
    exists a', append msg a = inr a' /\ ok a' /\ received a' = received a ++ mark ++ msg;
  flush_spec g a : ok a -> ok (flush g a) /\ received (flush g a) = received a
}.

(** [DefaultAppender] writes to [stderr]. *)
Record DefaultAppender : Type := Stderr { stderr : bytes }.

#[export] Instance DefaultAppender_ops : LogAppender DefaultAppender := {|
  append msg a := inr (Stderr (stderr a ++ bs "(default appender)" ++ msg));
  flush _ a := a
|}.

#[export] Instance DefaultAppender_spec max :
  LogAppenderSpec DefaultAppender (fun _ => True) stderr (bs "(default appender)") max.
Proof. split; [|done]. intros msg a _ _. by eexists. Qed.

(** [SynLogAppender]: a [LogFile] under a lock. *)
Record SynLogAppender : Type := Syn { log_file : LogFile }.

#[export] Instance SynLogAppender_ops : LogAppender SynLogAppender := {|
  append msg a := let! (f, _) := LogFileAppender.Append S_DEF_BUFF_SZ msg (log_file a) in inr (Syn f);
  flush g a := Syn (LogFileAppender.Flush g (log_file a))
|}.

(** Its contract holds while [write] gives no error other than [EINTR]. *)
#[export] Instance SynLogAppender_spec :
  LogAppenderSpec SynLogAppender
    (fun a => file_wf S_DEF_BUFF_SZ (log_file a) /\ WErr ∉ io (log_file a))
    (fun a => content (log_file a)) [] S_DEF_BUFF_SZ.
Proof.
  assert (0 <= S_DEF_BUFF_SZ < 2 ^ 32) as Hsz by (unfold S_DEF_BUFF_SZ; lia).
  split.
  - intros msg [f] [Hwf He] Hm. destruct (Append_ok S_DEF_BUFF_SZ Hsz msg f Hwf He Hm)
      as (f'&Hf&?&?&?). exists (Syn f'). unfold append. simpl. by rewrite Hf.
  - intros g [f] [Hwf He]. by destruct (Flush_spec S_DEF_BUFF_SZ Hsz g f Hwf He) as (?&?&_&_&?).
Qed.

(** ** A log statement *)

Section Logger.
Context {A : Type} `{LogAppender A}.
Variable localtime_r : Z -> tm.

(** What a statement uses: the cached time of its thread, the level and the appender. *)
Record world : Type := World { thread_time : tls; s_global_level : LogLevel; g_global_appender : A }.

Inductive fate : Type := Continues | Aborts.

(** [ls << t]: of [GetFmtSec()] exactly [FmtSecLength()] bytes are taken. *)
Definition shift_stamp (s : tls) (t : CacheTimeStamp) (ls : LogStream) : res LogStream :=
  let! ls := LogStream.Append (take (Z.to_nat FmtSecLength) (GetFmtSec s)) ls in
  let! ls := LogStream.Append (bs ":") ls in
  shift (ASigned (i32 (TrailingMicroSec t))) ls.

(** [Logger::Logger]; [now] is the time of day, [garbage] the uninitialised array. *)
Definition Logger_init (lvl : LogLevel) (now : Z) (garbage : bytes) (s : tls) :
    res (tls * LogStream) :=
  let! ls := LogStreamFixed garbage in
  let! (s', t) := CacheTimeStamp_init localtime_r now s in
  let! ls := shift_stamp s' t ls in
  match g_LogLvlName !! Z.to_nat (level_index lvl) with
  | Some name => let! ls := LogStream.Append name ls in inr (s', ls)
  | None => inl OutOfBounds
  end.

(** [Logger::~Logger]. *)
Definition Logger_destroy (loc func : bytes) (lvl : LogLevel) (ls : LogStream) (a : A) :
    res (A * fate) :=
  let! ls := LogStream.Append loc ls in
  let! ls := LogStream.Append func ls in
  let! ls := LogStream.Append (bs (String.String "010"%char "")) ls in
  let! a' := append (take (Z.to_nat (Length ls)) (Buffer ls)) a in
  inr (a', match lvl with LL_ABORT => Aborts | _ => Continues end).

(** [TRY_LOG(level) << args]: below the threshold the arguments are not evaluated. *)
Definition TRY_LOG (lvl : LogLevel) (args : list LogArg) (loc func : bytes) (now : Z)
    (garbage : bytes) (w : world) : res (world * fate) :=
  if negb (level_index (s_global_level w) <=? level_index lvl) then inr (w, Continues) else
  let! (s', ls) := Logger_init lvl now garbage (thread_time w) in
  let! ls := shift_all args ls in
  let! (a', f) := Logger_destroy loc func lvl ls (g_global_appender w) in
  inr (World s' (s_global_level w) a', f).

(** [SLOG_CHECK(condition) << args] *)
Definition SLOG_CHECK (condition : bool) (text : bytes) (args : list LogArg) (loc func : bytes)
    (now : Z) (garbage : bytes) (w : world) : res (world * fate) :=
  if condition then inr (w, Continues) else
  TRY_LOG LL_ABORT ([ACString (bs "condition:"); ACString text; ACString (bs " failed! ")] ++ args)
    loc func now garbage w.

Definition SetLogLevel (l : LogLevel) (w : world) : world :=
  World (thread_time w) l (g_global_appender w).
Definition SetLogAppender (a : A) (w : world) : world :=
  World (thread_time w) (s_global_level w) a.
Definition FlushPendingLog (gracefully : bool) (w : world) : world :=
  World (thread_time w) (s_global_level w) (flush gracefully (g_global_appender w)).
Definition InitLogging (a : A) (level : LogLevel) (w : world) : world :=
  SetLogAppender a (SetLogLevel level w).

(** [SignalHandler], up to [_exit]. *)
Definition SignalHandler (w : world) : world := FlushPendingLog false w.

End Logger.
Arguments world : clear implicits.

(** [ComputeLogFileName]: [home] is what [getenv] gives, [None] for a null pointer, from
    which no string can be made; [exe] the target of the link, which [readlink] does not
    terminate. *)
Definition ComputeLogFileName (home : option bytes) (basename : bytes -> bytes)
    (exe hostname date : bytes) : res bytes :=
  match home with
  | None => inl OutOfBounds
  | Some home =>
      if (blen exe <? 215) && (blen hostname <? 215)
      then inr (home ++ bs "/" ++ basename exe ++ bs "." ++ hostname ++ bs "." ++ date ++ bs ".log")
      else inl OutOfBounds
  end.

(** ** The nifty counter

One [slogLoggerInitializer] per translation unit; the appender's storage is constructed
by the first and destroyed by the last. *)
Record nifty : Type := Nifty { s_counter : Z; constructed : bool }.

Definition InitLogger (n : nifty) : nifty := Nifty (s_counter n) true.
Definition CleanupLogger (n : nifty) : nifty := Nifty (s_counter n) false.

Definition slogLoggerInitializer (n : nifty) : nifty :=
  let n' := Nifty (i32 (s_counter n + 1)) (constructed n) in
  if s_counter n =? 0 then InitLogger n' else n'.

Definition slogLoggerInitializer_destroy (n : nifty) : nifty :=
  let n' := Nifty (i32 (s_counter n - 1)) (constructed n) in
  if s_counter n' =? 0 then CleanupLogger n' else n'.

(** Units come and go; [true] is a unit that is initialised.  A unit goes only after it
    has come. *)
Fixpoint units (l : list bool) (live : Z) (n : nifty) : option (Z * nifty) :=
  match l with
  | [] => Some (live, n)
  | true :: l' => units l' (live + 1) (slogLoggerInitializer n)
  | false :: l' =>
      if live =? 0 then None else units l' (live - 1) (slogLoggerInitializer_destroy n)
  end.

(** ** The line of a statement *)

Section Statement.
Context {A : Type} `{LogAppender A}.
Context {ok : A -> Prop} {received : A -> bytes} {mark : bytes} {max : Z}.
Context `{!LogAppenderSpec A ok received mark max}.
Variable localtime_r : Z -> tm.
Hypothesis max_ok : S_MAX_BUFF_SZ <= max.

Definition level_name (lvl : LogLevel) : bytes :=
  match lvl with
  | LL_TRACE => bs " TRACE " | LL_DEBUG => bs " DEBUG " | LL_INFO => bs " INFO  "
  | LL_WARN => bs " WARN  " | LL_ERROR => bs " ERROR " | LL_FATAL => bs " FATAL "
  | _ => bs " ABORT "
  end.

(** The time of a line: microseconds are not padded. *)
Definition line_head (lvl : LogLevel) (now : Z) : bytes :=
  fmt_time (localtime_r (Z.quot now S_MS_PER_SEC)) ++ bs ":" ++
  bs (pretty (Z.rem now S_MS_PER_SEC)) ++ level_name lvl.

Definition newline : bytes := bs (String.String "010"%char "").

Lemma LogStreamFixed_ok garbage :
  blen garbage = S_MAX_BUFF_SZ ->
  exists ls, LogStreamFixed garbage = inr ls /\ wf ls /\ out ls = [] /\ m_size ls = S_MAX_BUFF_SZ /\
    room ls = S_MAX_BUFF_SZ.
Proof.
  intros Hg. unfold LogStreamFixed, poke. destruct (Z.ltb_spec 0 (blen garbage)).
  - eexists. split; [done|]. unfold wf, out, room. simpl. unfold blen in *.
    rewrite length_insert, Hg. by unfold S_MAX_BUFF_SZ.
  - unfold S_MAX_BUFF_SZ in Hg. lia.
Qed.

Lemma room_appended ls ls' data : appended ls ls' data -> room ls' = room ls - blen data.
Proof. intros (_&Hs&_&Hc). unfold room. lia. Qed.

Lemma Logger_init_ok lvl now garbage s :
  lvl <> NUM_LOG_LEVEL -> blen garbage = S_MAX_BUFF_SZ -> cache_ok localtime_r s ->
  S_MS_PER_SEC <= now < 2 ^ 63 -> tm_ok (localtime_r (Z.quot now S_MS_PER_SEC)) ->
  exists s' ls, Logger_init localtime_r lvl now garbage s = inr (s', ls) /\
    cache_ok localtime_r s' /\ wf ls /\ out ls = line_head lvl now /\
    m_size ls = S_MAX_BUFF_SZ /\ room ls >= S_MAX_BUFF_SZ - 59.
Proof.
  intros Hlvl Hg Hc Hnow Ht. unfold Logger_init.
  destruct (LogStreamFixed_ok garbage Hg) as (ls0&->&Hwf0&Ho0&Hm0&Hr0). cbn [bind].
  assert (Z.quot now S_MS_PER_SEC <> 0) as Hq.
  { unfold S_MS_PER_SEC in *. rewrite Z.quot_div_nonneg by lia.
    pose proof (Z.div_le_lower_bound now (1000 * 1000) 1 ltac:(lia)). lia. }
  destruct (CacheTimeStamp_init_ok localtime_r now s Hc Hq Ht) as (s'&rest&->&Hc'&Hs'). cbn [bind].
  destruct (fmt_time_ok _ Ht) as [Hf _]. unfold shift_stamp, GetFmtSec. rewrite Hs'.
  set (f := fmt_time _) in *. change (Z.to_nat FmtSecLength) with 19%nat.
  rewrite take_app_le, take_ge by lia.
  destruct (Append_spec f ls0 Hwf0) as (ls1&->&Hap1); [unfold blen; rewrite Hf, Hr0; done|].
  pose proof (room_appended _ _ _ Hap1) as Hr1. unfold blen in Hr1. rewrite Hf, Hr0 in Hr1.
  cbn [bind]. destruct (Append_spec (bs ":") ls1 (proj1 Hap1)) as (ls2&->&Hap2);
    [change (blen (bs ":")) with 1; unfold S_MAX_BUFF_SZ in *; lia|].
  pose proof (room_appended _ _ _ Hap2) as Hr2. change (blen (bs ":")) with 1 in Hr2. cbn [bind].
  pose proof (Z.rem_bound_abs now S_MS_PER_SEC ltac:(done)) as Hb.
  unfold TrailingMicroSec. simpl m_trailing_ms. rewrite i32_id by (unfold S_MS_PER_SEC in *; lia).
  destruct (shift_spec (ASigned (Z.rem now S_MS_PER_SEC)) ls2 (proj1 Hap2)) as (ls3&t&->&->&Hap3&Hn);
    [unfold arg_ok, S_MS_PER_SEC in *; lia|unfold needs, S_MAX_BUFF_SZ in *; lia|].
  pose proof (room_appended _ _ _ Hap3) as Hr3. unfold needs in Hn. cbn [bind].
  assert (g_LogLvlName !! Z.to_nat (level_index lvl) = Some (level_name lvl) /\
    blen (level_name lvl) = 7) as [-> Hl7] by (destruct lvl; done).
  destruct (Append_spec (level_name lvl) ls3 (proj1 Hap3)) as (ls4&->&Hap4);
    [unfold S_MAX_BUFF_SZ in *; lia|].
  pose proof (room_appended _ _ _ Hap4) as Hr4. cbn [bind].
  exists s', ls4. split_and!; [done|done|apply Hap4| | |lia];
  destruct Hap1 as (_&M1&E1&_), Hap2 as (_&M2&E2&_), Hap3 as (_&M3&E3&_), Hap4 as (_&M4&E4&_);
  [|congruence].
  rewrite E4, E3, E2, E1, Ho0. unfold line_head. fold f. by rewrite <-!app_assoc.
Qed.

Lemma Logger_destroy_ok loc func lvl ls a :
  wf ls -> m_size ls = S_MAX_BUFF_SZ -> ok a -> blen loc + blen func + 1 <= room ls ->
  exists a', Logger_destroy loc func lvl ls a =
      inr (a', match lvl with LL_ABORT => Aborts | _ => Continues end) /\
    ok a' /\ received a' = received a ++ mark ++ out ls ++ loc ++ func ++ newline.
Proof.
  intros Hwf Hsz Ha Hr. unfold Logger_destroy. pose proof (blen_nonneg loc). pose proof (blen_nonneg func).
  destruct (Append_spec loc ls Hwf) as (ls1&->&Hap1); [lia|].
  pose proof (room_appended _ _ _ Hap1). cbn [bind].
  destruct (Append_spec func ls1 (proj1 Hap1)) as (ls2&->&Hap2); [lia|].
  pose proof (room_appended _ _ _ Hap2). cbn [bind]. fold newline.
  destruct (Append_spec newline ls2 (proj1 Hap2)) as (ls3&->&Hap3);
    [change (blen newline) with 1; lia|]. cbn [bind].
  pose proof (appended_trans _ _ _ _ _ (appended_trans _ _ _ _ _ Hap1 Hap2) Hap3) as (Hwf3&Hs3&Ho3&_).
  destruct (append_spec (take (Z.to_nat (Length ls3)) (Buffer ls3)) a Ha) as (a'&Ea&Ha'&Hrec).
  { destruct Hwf3 as (Hl&Hc&_). unfold Length, Buffer, blen in *. rewrite length_take. lia. }
  rewrite Ea. cbn [bind]. exists a'. split_and!; [done..|].
  change (take (Z.to_nat (Length ls3)) (Buffer ls3)) with (out ls3) in Hrec.
  by rewrite Hrec, Ho3, <-!app_assoc.
Qed.

Lemma slog_statement_ok lvl args loc func now garbage (w : world A) :
  lvl <> NUM_LOG_LEVEL -> blen garbage = S_MAX_BUFF_SZ ->
  ok (g_global_appender w) -> cache_ok localtime_r (thread_time w) ->
  S_MS_PER_SEC <= now < 2 ^ 63 -> tm_ok (localtime_r (Z.quot now S_MS_PER_SEC)) ->
  Forall arg_ok args -> sum_with needs args + blen loc + blen func + 60 <= S_MAX_BUFF_SZ ->
  if level_index lvl <? level_index (s_global_level w)
  then TRY_LOG localtime_r lvl args loc func now garbage w = inr (w, Continues)
  else exists w' ts,
    TRY_LOG localtime_r lvl args loc func now garbage w =
      inr (w', match lvl with LL_ABORT => Aborts | _ => Continues end) /\
    s_global_level w' = s_global_level w /\ ok (g_global_appender w') /\
    cache_ok localtime_r (thread_time w') /\ Forall2 shows args ts /\
    received (g_global_appender w') = received (g_global_appender w) ++ mark ++
      line_head lvl now ++ mjoin ts ++ loc ++ func ++ newline.
Proof.
  intros Hlvl Hg Ha Hc Hnow Ht Hargs Hfit. unfold TRY_LOG.
  destruct (Z.ltb_spec (level_index lvl) (level_index (s_global_level w))) as [Hlt|Hge].
  { destruct (Z.leb_spec (level_index (s_global_level w)) (level_index lvl)); [lia|done]. }
  destruct (Z.leb_spec (level_index (s_global_level w)) (level_index lvl)); [|lia]. simpl negb. cbv iota.
  destruct (Logger_init_ok lvl now garbage (thread_time w) Hlvl Hg Hc Hnow Ht)
    as (s'&ls&->&Hc'&Hwf&Ho&Hm&Hr). cbn [bind].
  pose proof (blen_nonneg loc). pose proof (blen_nonneg func).
  destruct (shift_all_spec args ls Hwf Hargs) as (ls'&ts&->&Hts&Hap&Hb); [lia|].
  pose proof (room_appended _ _ _ Hap). destruct Hap as (Hwf'&Hs'&Ho'&_). cbn [bind].
  destruct (Logger_destroy_ok loc func lvl ls' (g_global_appender w) Hwf') as (a'&->&Ha'&Hrec);
    [congruence|done|lia|].
  cbn [bind]. eexists _, ts. split; [done|]. simpl. split_and!; try done.
  by rewrite Hrec, Ho', Ho, <-!app_assoc.
Qed.

(** A log statement whose arguments fit in the stream.  From the threshold on it
    appends one line, complete: local time, microseconds, level, the reference text of
    every argument in order, place, function, newline; and [LL_ABORT] then aborts.  Below
    the threshold nothing happens. *)
Theorem slog_statement lvl args loc func now garbage (w : world A) :
  lvl <> NUM_LOG_LEVEL -> blen garbage = S_MAX_BUFF_SZ ->
  ok (g_global_appender w) -> cache_ok localtime_r (thread_time w) ->
  S_MS_PER_SEC <= now < 2 ^ 63 -> tm_ok (localtime_r (Z.quot now S_MS_PER_SEC)) ->
  Forall arg_ok args -> sum_with needs args + blen loc + blen func + 60 <= S_MAX_BUFF_SZ ->
  if level_index lvl <? level_index (s_global_level w)
  then TRY_LOG localtime_r lvl args loc func now garbage w = inr (w, Continues)
  else exists w' ts,
    TRY_LOG localtime_r lvl args loc func now garbage w =
      inr (w', match lvl with LL_ABORT => Aborts | _ => Continues end) /\
    s_global_level w' = s_global_level w /\ ok (g_global_appender w') /\
    cache_ok localtime_r (thread_time w') /\ Forall2 shows args ts /\
    received (g_global_appender w') = received (g_global_appender w) ++ mark ++
      line_head lvl now ++ mjoin ts ++ loc ++ func ++ newline.
Proof. apply slog_statement_ok. Qed.
End Statement.

(** [SLOG_CHECK] of a false condition logs at [LL_ABORT], whatever the threshold. *)
Lemma check_false_logs {A} `{LogAppender A} localtime_r text args loc func now garbage (w : world A) :
  s_global_level w <> NUM_LOG_LEVEL ->
  SLOG_CHECK localtime_r false text args loc func now garbage w =
    let! (s', ls) := Logger_init localtime_r LL_ABORT now garbage (thread_time w) in
    let! ls := shift_all
      ([ACString (bs "condition:"); ACString text; ACString (bs " failed! ")] ++ args) ls in
    let! (a', f) := Logger_destroy loc func LL_ABORT ls (g_global_appender w) in
    inr (World s' (s_global_level w) a', f).
Proof.
  intros Hl. unfold SLOG_CHECK, TRY_LOG.
  assert (level_index (s_global_level w) <=? level_index LL_ABORT = true) as ->; [|done].
  by destruct (s_global_level w).
Qed.

(** ** The nifty counter *)

Lemma units_ok l live n live' n' :
  0 <= live -> live + Z.of_nat (length l) < 2 ^ 31 ->
  s_counter n = live -> constructed n = negb (live =? 0) ->
  units l live n = Some (live', n') ->
  0 <= live' /\ s_counter n' = live' /\ constructed n' = negb (live' =? 0).
Proof.
  revert live n. induction l as [|[] l IH]; intros live n H0 Hb Hs Hc Hu; simpl in Hu.
  - by simplify_eq.
  - simpl in Hb. apply (IH (live + 1) (slogLoggerInitializer n)); [lia|lia| | |done];
      unfold slogLoggerInitializer; rewrite Hs, i32_id by lia;
      destruct (Z.eqb_spec live 0), (Z.eqb_spec (live + 1) 0); simpl; try done; try lia.
  - simpl in Hb. destruct (Z.eqb_spec live 0); [done|].
    apply (IH (live - 1) (slogLoggerInitializer_destroy n)); [lia|lia| | |done];
      unfold slogLoggerInitializer_destroy; rewrite Hs, i32_id by lia; simpl;
      destruct (Z.eqb_spec (live - 1) 0); simpl; try done.
    all: rewrite Hc; by destruct (Z.eqb_spec live 0).
Qed.

(** The appender is constructed exactly while some translation unit is alive, in whatever
    order units are initialised and destroyed. *)
Lemma nifty_counter l live n :
  Z.of_nat (length l) < 2 ^ 31 -> units l 0 (Nifty 0 false) = Some (live, n) ->
  s_counter n = live /\ (constructed n = true <-> 0 < live).
Proof.
  intros Hb Hu. destruct (units_ok l 0 (Nifty 0 false) live n) as (H0&Hs&->); try done.
  split; [done|]. destruct (Z.eqb_spec live 0); simpl; split; lia || done.
Qed.

(** ** Examples *)

Abbreviation demo_world := (World tls_init LL_INFO (Stderr [])).
Abbreviation demo_args := [ACString (bs "x="); ASigned (-7)].
Abbreviation demo_log lvl := (TRY_LOG demo_clock lvl demo_args (bs "-a.cc:3:") (bs "f") 33000042
  (replicate 4096 nul) demo_world).

Lemma slog_statement_witness :
  exists w' ts, demo_log LL_ABORT = inr (w', Aborts) /\ Forall2 shows demo_args ts /\
    stderr (g_global_appender w') = bs "(default appender)" ++
      line_head demo_clock LL_ABORT 33000042 ++ mjoin ts ++ bs "-a.cc:3:" ++ bs "f" ++ newline.
Proof.
  destruct (slog_statement (ok:=fun _ => True) (received:=stderr) (mark:=bs "(default appender)")
    (max:=S_MAX_BUFF_SZ) demo_clock (Z.le_refl _) LL_ABORT demo_args (bs "-a.cc:3:") (bs "f") 33000042
    (replicate 4096 nul) demo_world) as (w'&ts&H1&_&_&_&H2&H3).
  - discriminate.
  - reflexivity.
  - exact I.
  - split; [reflexivity|]. intros H. destruct (H eq_refl).
  - split; [discriminate|reflexivity].
  - vm_compute. intuition discriminate.
  - repeat constructor. discriminate.
  - vm_compute. discriminate.
  - exists w', ts. exact (conj H1 (conj H2 H3)).
Defined.

(** The line of [SLOG_ABORT]; 42 microseconds read as 42, not as 000042. *)
Example abort_line :
  match demo_log LL_ABORT with
  | inr (w', f) => f = Aborts /\ stderr (g_global_appender w') =
      bs "(default appender)2023_04_21-20_10_33:42 ABORT x=-7-a.cc:3:f" ++ newline
  | inl _ => False
  end.
Proof. vm_compute. done. Qed.

Example debug_is_dropped : demo_log LL_DEBUG = inr (demo_world, Continues).
Proof. reflexivity. Qed.

(** Without [HOME] the default file name is built from a null pointer. *)
Example no_home basename exe host date :
  ComputeLogFileName None basename exe host date = inl OutOfBounds.
Proof. done. Qed.
