(* ===== verification/FixedBuffer.v ===== *)
(** * FixedBuffer.v: [slog/FixedBuffer.h]

- [FixedSlab]: [num] items of one memory block; a free item holds the link to the
  next free one.  The theorem is a refinement: the linked list in the items
  behaves as a stack of free item numbers beside a map of the objects.
- [FixedBuffer]: a character array with its used length.
- [FixedBufferPool]: the free buffers ([m_pool], used at its back) and the number
  of buffers that are out ([m_unrecyled]).  The buffers are named by numbers;
  [heap] holds those that exist. *)

From S2P Require Import Prelude Machine LogStream.
#[local] Open Scope Z_scope.
#[local] Open Scope bef_scope.

(** ** [FixedSlab] *)

Section FixedSlab.
Context {T : Type}.
Variable T_default : T.   (* what [T()] constructs *)

(** An item: uninitialised memory, a link, or an object. *)
Inductive cell : Type := Raw | Link (next : option nat) | Obj (v : T).

Record FixedSlab : Type := Slab { m_mem : list cell; m_head : option nat }.

(** [*reinterpret_cast<void**>(item) = v]. *)
Definition store (mem : list cell) (i : nat) (c : cell) : res (list cell) :=
  if decide (i < length mem)%nat then inr (<[i:=c]> mem) else inl OutOfBounds.

(** The [for] of the constructor, from [i]; [num - 1] wraps around for 0. *)
Fixpoint link_loop (fuel : nat) (num i : Z) (item : nat) (mem : list cell) :
    res (nat * list cell) :=
  match fuel with
  | O => inl NoFuel
  | S fuel' =>
      if i <? u64 (num - 1) then
        let next := S item in
        let! mem' := store mem item (Link (Some next)) in
        link_loop fuel' num (i + 1) next mem'
      else inr (item, mem)
  end.

Definition FixedSlab_init (num : nat) : res FixedSlab :=
  let! (item, mem) := link_loop (S num) (Z.of_nat num) 0 0 (replicate num Raw) in
  let! mem' := store mem item (Link None) in
  inr (Slab mem' (Some 0%nat)).

Definition AllocElement (s : FixedSlab) : res (FixedSlab * option nat) :=
  match m_head s with
  | None => inr (s, None)
  | Some item =>
      match m_mem s !! item with
      | Some (Link next) =>
          let! mem' := store (m_mem s) item (Obj T_default) in
          inr (Slab mem' next, Some item)
      | _ => inl OutOfBounds
      end
  end.

Definition ReleaseElement (item : nat) (s : FixedSlab) : res FixedSlab :=
  match m_mem s !! item with
  | Some (Obj _) =>
      let! mem' := store (m_mem s) item (Link (m_head s)) in inr (Slab mem' (Some item))
  | _ => inl AssertFail   (* the destructor runs on memory that is no object *)
  end.

(** The client writes an object it holds. *)
Definition SetElement (item : nat) (v : T) (s : FixedSlab) : res FixedSlab :=
  match m_mem s !! item with
  | Some (Obj _) => let! mem' := store (m_mem s) item (Obj v) in inr (Slab mem' (m_head s))
  | _ => inl AssertFail
  end.

Inductive slab_op : Type := SAlloc | SRelease (item : nat) | SSet (item : nat) (v : T).

Definition slab_step (o : slab_op) (s : FixedSlab) : res (FixedSlab * option nat) :=
  match o with
  | SAlloc => AllocElement s
  | SRelease i => let! s' := ReleaseElement i s in inr (s', None)
  | SSet i v => let! s' := SetElement i v s in inr (s', None)
  end.

Fixpoint slab_run (l : list slab_op) (s : FixedSlab) : res (FixedSlab * list (option nat)) :=
  match l with
  | [] => inr (s, [])
  | o :: l' =>
      let! (s1, r) := slab_step o s in
      let! (s2, rs) := slab_run l' s1 in
      inr (s2, r :: rs)
  end.

(** *** The specification: a stack of free numbers and a map of the objects *)

Record spec_slab : Type := SSlab { s_free : list nat; s_objs : gmap nat T }.

(** [None]: the client uses an object it does not hold. *)
Definition spec_step (o : slab_op) (s : spec_slab) : option (spec_slab * option nat) :=
  match o with
  | SAlloc =>
      match s_free s with
      | [] => Some (s, None)
      | i :: l => Some (SSlab l (<[i:=T_default]> (s_objs s)), Some i)
      end
  | SRelease i =>
      match s_objs s !! i with
      | Some _ => Some (SSlab (i :: s_free s) (delete i (s_objs s)), None)
      | None => None
      end
  | SSet i v =>
      match s_objs s !! i with
      | Some _ => Some (SSlab (s_free s) (<[i:=v]> (s_objs s)), None)
      | None => None
      end
  end.

Fixpoint spec_run (l : list slab_op) (s : spec_slab) : option (spec_slab * list (option nat)) :=
  match l with
  | [] => Some (s, [])
  | o :: l' =>
      '(s1, r) ← spec_step o s; '(s2, rs) ← spec_run l' s1; Some (s2, r :: rs)
  end.

(** [l] is the chain of links from [h]. *)
Fixpoint chain (mem : list cell) (h : option nat) (l : list nat) : Prop :=
  match l with
  | [] => h = None
  | i :: l' => h = Some i /\ exists n, mem !! i = Some (Link n) /\ chain mem n l'
  end.

Definition slab_rel (s : FixedSlab) (a : spec_slab) : Prop :=
  chain (m_mem s) (m_head s) (s_free a) /\ NoDup (s_free a) /\
  (forall i v, s_objs a !! i = Some v <-> m_mem s !! i = Some (Obj v)).

Lemma chain_insert mem h l i c : i ∉ l -> chain mem h l -> chain (<[i:=c]> mem) h l.
Proof.
  revert h. induction l as [|j l IH]; intros h Hi; simpl; [done|].
  apply not_elem_of_cons in Hi as [Hij Hi]. intros (->&n&Hn&Hc). split; [done|].
  exists n. split; [by rewrite list_lookup_insert_ne|]. by apply IH.
Qed.

Lemma chain_link mem h l i : chain mem h l -> i ∈ l -> exists n, mem !! i = Some (Link n).
Proof.
  revert h. induction l as [|j l IH]; intros h; simpl; [by intros _ ?%elem_of_nil|].
  intros (->&n&Hn&Hc) [->|Hi]%elem_of_cons; [by exists n|]. by eapply IH.
Qed.

Lemma store_ok mem i c x : mem !! i = Some x -> store mem i c = inr (<[i:=c]> mem).
Proof. intros H%lookup_lt_Some. unfold store. by rewrite decide_True. Qed.

(** A step on a cell that is not in the chain and on the objects. *)
Lemma slab_rel_objs (mem : list cell) i c (objs : gmap nat T) x (o : option T) :
  mem !! i = Some x ->
  (forall j v, objs !! j = Some v <-> mem !! j = Some (Obj v)) ->
  (forall v, o = Some v <-> c = Obj v) ->
  forall j v, partial_alter (fun _ => o) i objs !! j = Some v <-> <[i:=c]> mem !! j = Some (Obj v).
Proof.
  intros Hx Ho Hc j v. destruct (decide (j = i)) as [->|Hj].
  - rewrite lookup_partial_alter_eq, list_lookup_insert_eq by (by eapply lookup_lt_Some).
    rewrite Hc. split; [by intros ->|by intros [= ->]].
  - by rewrite lookup_partial_alter_ne, list_lookup_insert_ne by done.
Qed.

Lemma slab_step_refines o s a a' r :
  slab_rel s a -> spec_step o a = Some (a', r) ->
  exists s', slab_step o s = inr (s', r) /\ slab_rel s' a'.
Proof.
  intros (Hc&Hd&Ho) Hs. destruct o as [|i|i v]; cbn [spec_step slab_step] in *.
  - unfold AllocElement. destruct (s_free a) as [|i l] eqn:E; simpl in Hc.
    + rewrite Hc. injection Hs as <- <-. eexists; split; [done|].
      unfold slab_rel. rewrite E. repeat split; try done; apply Ho.
    + destruct Hc as (->&n&Hn&Hc). injection Hs as <- <-. rewrite Hn, (store_ok _ _ _ _ Hn).
      cbn [bind]. eexists; split; [done|]. apply NoDup_cons in Hd as [Hi Hd].
      split; [by apply chain_insert|]. split; [done|]. cbn [s_objs m_mem].
      apply (slab_rel_objs _ _ _ _ _ (Some T_default) Hn Ho). intros v.
      split; [by intros [= ->]|by intros [= ->]].
  - destruct (s_objs a !! i) as [v|] eqn:E; [|done]. injection Hs as <- <-.
    pose proof (proj1 (Ho _ _) E) as Hm. unfold ReleaseElement.
    rewrite Hm, (store_ok _ _ _ _ Hm). cbn [bind]. eexists; split; [done|].
    assert (i ∉ s_free a) as Hi.
    { intros Hi. destruct (chain_link _ _ _ _ Hc Hi) as [n Hn]. by rewrite Hm in Hn. }
    split; [|split; [by apply NoDup_cons|]]; cbn [s_objs s_free m_mem m_head].
    + split; [done|]. exists (m_head s). split; [|by apply chain_insert].
      apply list_lookup_insert_eq. by eapply lookup_lt_Some.
    + apply (slab_rel_objs _ _ _ _ _ None Hm Ho). done.
  - destruct (s_objs a !! i) as [w|] eqn:E; [|done]. injection Hs as <- <-.
    pose proof (proj1 (Ho _ _) E) as Hm. unfold SetElement.
    rewrite Hm, (store_ok _ _ _ _ Hm). cbn [bind]. eexists; split; [done|].
    assert (i ∉ s_free a) as Hi.
    { intros Hi. destruct (chain_link _ _ _ _ Hc Hi) as [n Hn]. by rewrite Hm in Hn. }
    split; [by apply chain_insert|]. split; [done|]. cbn [s_objs m_mem].
    apply (slab_rel_objs _ _ _ _ _ (Some v) Hm Ho). intros u.
    split; [by intros [= ->]|by intros [= ->]].
Qed.

(** *** The constructor *)

Lemma link_loop_spec fuel num item mem :
  (0 < num)%nat -> Z.of_nat num < 2 ^ 64 -> (item < num)%nat -> (num <= fuel + item)%nat ->
  length mem = num -> (0 < fuel)%nat ->
  exists mem', link_loop fuel (Z.of_nat num) (Z.of_nat item) item mem = inr ((num - 1)%nat, mem') /\
    length mem' = num /\
    (forall i, (item <= i < num - 1)%nat -> mem' !! i = Some (Link (Some (S i)))) /\
    (forall i, (i < item)%nat \/ i = (num - 1)%nat -> mem' !! i = mem !! i).
Proof.
  intros Hn Hb. revert item mem. induction fuel as [|fuel IH]; intros item mem Hi Hf Hl H0; [lia|].
  cbn [link_loop]. rewrite u64_id by lia.
  destruct (Z.ltb_spec (Z.of_nat item) (Z.of_nat num - 1)).
  - unfold store. rewrite decide_True by lia. cbn [bind].
    replace (Z.of_nat item + 1) with (Z.of_nat (S item)) by lia.
    destruct (IH (S item) (<[item:=Link (Some (S item))]> mem)) as (mem'&He&Hl'&H1&H2);
      [lia|lia|by rewrite length_insert|lia|].
    exists mem'. split; [done|]. split; [done|]. split.
    + intros i Hii. destruct (decide (i = item)) as [->|]; [|apply H1; lia].
      rewrite H2 by lia. apply list_lookup_insert_eq. lia.
    + intros i Hii. rewrite H2 by lia. apply list_lookup_insert_ne. lia.
  - exists mem. replace item with (num - 1)%nat by lia. repeat split; try done. lia.
Qed.

Lemma slab_chain_seq mem n k h :
  (forall i, (k <= i < k + n)%nat -> mem !! i = Some (Link (Some (S i)))) ->
  mem !! (k + n)%nat = Some (Link None) -> h = Some k -> chain mem h (seq k (S n)).
Proof.
  revert k h. induction n as [|n IH]; intros k h Hm Hl ->.
  - simpl. split; [done|]. exists None. rewrite Nat.add_0_r in Hl. done.
  - change (seq k (S (S n))) with (k :: seq (S k) (S n)). split; [done|].
    exists (Some (S k)). split; [apply Hm; lia|]. apply IH; [|by rewrite Nat.add_succ_comm|done].
    intros i Hi. apply Hm. lia.
Qed.

Lemma FixedSlab_init_rel num :
  (0 < num)%nat -> Z.of_nat num < 2 ^ 64 ->
  exists s, FixedSlab_init num = inr s /\ slab_rel s (SSlab (seq 0 num) ∅).
Proof.
  intros Hn Hb. unfold FixedSlab_init.
  destruct (link_loop_spec (S num) num 0 (replicate num Raw)) as (mem&Hl&Hlen&H1&H2);
    [done|done|done|lia|apply length_replicate|lia|].
  change (Z.of_nat 0) with 0 in Hl. rewrite Hl. cbn [bind]. unfold store.
  rewrite decide_True by lia. cbn [bind]. eexists; split; [done|].
  split; [|split; [apply NoDup_seq|]]; cbn [m_mem m_head s_free s_objs].
  - replace num with (S (num - 1)) at 2 by lia. apply slab_chain_seq; [|apply list_lookup_insert_eq; lia|done].
    intros i Hi. rewrite list_lookup_insert_ne by lia. apply H1. lia.
  - intros i v. rewrite lookup_empty. split; [done|]. intros Hm.
    apply list_lookup_insert_Some in Hm as [(_&[=]&_)|(Hi&Hm)].
    destruct (decide (i < num - 1)%nat).
    + rewrite H1 in Hm by lia. done.
    + apply lookup_lt_Some in Hm as Hlt. lia.
Qed.

(** C29. A slab of [num] items is a stack of [num] free items beside the objects:
    whatever sequence of allocations, writes and releases a client makes that
    uses only items it holds, the code fails nowhere and returns what the
    specification returns - distinct items until all [num] are out, then [NULL],
    the last released first - and the objects of the others keep their value. *)
Theorem FixedSlab_refines (num : nat) (l : list slab_op) a rs :
  (0 < num)%nat -> Z.of_nat num < 2 ^ 64 ->
  spec_run l (SSlab (seq 0 num) ∅) = Some (a, rs) ->
  exists s s', FixedSlab_init num = inr s /\ slab_run l s = inr (s', rs) /\ slab_rel s' a.
Proof.
  intros Hn Hb Hr. destruct (FixedSlab_init_rel num Hn Hb) as (s&Hs&Hrel).
  enough (exists s', slab_run l s = inr (s', rs) /\ slab_rel s' a) as (s'&?&?) by eauto.
  clear Hs. revert s rs Hrel Hr. generalize (SSlab (seq 0 num) ∅).
  induction l as [|o l IH]; intros a0 s rs Hrel Hr; cbn [spec_run slab_run] in *.
  { injection Hr as <- <-. by exists s. }
  destruct (spec_step o a0) as [[a1 r]|] eqn:E; [|done]. cbn in Hr.
  destruct (spec_run l a1) as [[a2 rs']|] eqn:E2; [|done]. injection Hr as <- <-.
  destruct (slab_step_refines _ _ _ _ _ Hrel E) as (s1&->&Hrel1). cbn [bind].
  destruct (IH _ _ _ Hrel1 E2) as (s'&->&?). by exists s'.
Qed.

End FixedSlab.

Arguments cell : clear implicits.
Arguments FixedSlab : clear implicits.
Arguments slab_op : clear implicits.
Arguments spec_slab : clear implicits.

Lemma FixedSlab_refines_witness :
  exists s s', FixedSlab_init (T := Z) 2 = inr s /\
    slab_run 0 [SAlloc; SSet 0 7; SAlloc; SAlloc; SRelease 0; SAlloc] s =
      inr (s', [Some 0%nat; None; Some 1%nat; None; None; Some 0%nat]) /\
    slab_rel s' (SSlab [] (<[0%nat:=0]> (delete 0%nat (<[1%nat:=0]> (<[0%nat:=7]> {[0%nat:=0]}))))).
Proof.
  apply (FixedSlab_refines 0 2 [SAlloc; SSet 0 7; SAlloc; SAlloc; SRelease 0; SAlloc]);
    [lia|lia|reflexivity].
Defined.

(** No slab of size 0: the loop of the constructor runs off the memory. *)
Lemma FixedSlab_init_0 : FixedSlab_init (T := Z) 0 = inl OutOfBounds.
Proof. reflexivity. Qed.

(** ** [FixedBuffer] *)

Record FixedBuffer : Type := FB { m_cur : Z; m_buff : bytes }.

(** [FixedBuffer()] on the memory that [new] gives. *)
Definition FixedBuffer_init (raw : bytes) : res FixedBuffer :=
  let! b := poke raw 0 nul in inr (FB 0 b).

(** The returned pointer is an offset into [m_buff].  Nothing is checked. *)
Definition Append (data : bytes) (fb : FixedBuffer) : res (FixedBuffer * Z) :=
  let ret := m_cur fb in
  let cur := u64 (m_cur fb + blen data) in
  let! b := copy (m_buff fb) ret data in inr (FB cur b, ret).

Definition Reset (fb : FixedBuffer) : FixedBuffer := FB 0 (m_buff fb).
Definition DataLength (fb : FixedBuffer) : Z := m_cur fb.
Definition SetUsed (size : Z) (fb : FixedBuffer) : FixedBuffer := FB (u64 (m_cur fb + size)) (m_buff fb).

(** ** [FixedBufferPool] *)

(** [avail] is the number of buffers that the memory still has room for, and
    [next_id] the name of the next buffer that [new] gives. *)
Record FixedBufferPool : Type := Pool {
  m_fix_sz : Z;
  m_inc_gran : Z;
  m_unrecyled : Z;
  m_pool : list nat;
  heap : gmap nat FixedBuffer;
  avail : nat;
  next_id : nat
}.

Section FixedBufferPool.
Variable N : Z.                (* [BUFF_SIZE] *)
Variable raw : nat -> bytes.   (* the memory of the [i]-th buffer *)

Definition Available (fb : FixedBuffer) : Z := u64 (N - m_cur fb).

(** [m_pool.push_back(new BuffType())]; [None] when [new] throws. *)
Definition push_new (p : FixedBufferPool) : option FixedBufferPool :=
  match avail p with
  | O => None
  | S a =>
      Some (Pool (m_fix_sz p) (m_inc_gran p) (m_unrecyled p) (m_pool p ++ [next_id p])
        (<[next_id p := FB 0 (<[0%nat:=nul]> (raw (next_id p)))]> (heap p)) a (S (next_id p)))
  end.

(** The [for] over [push_new], until [new] throws. *)
Fixpoint push_news (k : nat) (p : FixedBufferPool) : FixedBufferPool :=
  match k with
  | O => p
  | S k' => match push_new p with Some p' => push_news k' p' | None => p end
  end.

Definition EnlargePoolUnsafe (p : FixedBufferPool) : FixedBufferPool :=
  if u64 (1024 * m_fix_sz p) <? m_unrecyled p then p else push_news (Z.to_nat (m_inc_gran p)) p.

Definition EnlargePool (p : FixedBufferPool) : FixedBufferPool := EnlargePoolUnsafe p.

(** The last buffer of [m_pool] and the others. *)
Definition pop_back (l : list nat) : option (list nat * nat) :=
  b ← last l; Some (take (length l - 1) l, b).

Definition GetBuff (p : FixedBufferPool) : FixedBufferPool * option nat :=
  let p1 := if bool_decide (m_pool p = []) then EnlargePoolUnsafe p else p in
  match pop_back (m_pool p1) with
  | None => (p1, None)
  | Some (l, ret) =>
      (Pool (m_fix_sz p1) (m_inc_gran p1) (u64 (m_unrecyled p1 + 1)) l (heap p1) (avail p1)
         (next_id p1), Some ret)
  end.

Definition Recycle (buff : nat) (p : FixedBufferPool) : res FixedBufferPool :=
  match heap p !! buff with
  | None => inl OutOfBounds
  | Some fb =>
      inr (Pool (m_fix_sz p) (m_inc_gran p) (u64 (m_unrecyled p - 1)) (m_pool p ++ [buff])
        (<[buff := Reset fb]> (heap p)) (avail p) (next_id p))
  end.

(** [delete] of every buffer of the list. *)
Definition delete_all (l : list nat) (p : FixedBufferPool) : FixedBufferPool :=
  Pool (m_fix_sz p) (m_inc_gran p) (m_unrecyled p) (m_pool p)
    (foldr delete (heap p) l) (avail p + length l) (next_id p).

(** The buffers from position [k] on are deleted, [m_pool.resize(k)]. *)
Definition truncate (k : nat) (p : FixedBufferPool) : FixedBufferPool :=
  let p1 := delete_all (drop k (m_pool p)) p in
  Pool (m_fix_sz p1) (m_inc_gran p1) (m_unrecyled p1) (take k (m_pool p)) (heap p1)
    (avail p1) (next_id p1).

Definition Shrink (factor : Z) (p : FixedBufferPool) : FixedBufferPool :=
  let max_sz := Z.to_nat (m_fix_sz p / u64 factor) in
  if decide (max_sz < length (m_pool p))%nat then truncate max_sz p else p.

(** [FixedBufferPool(num, inc_gran)] in a process that can have [a] buffers;
    the constructor of the pool does not catch the exception of [new]. *)
Definition FixedBufferPool_init (num inc_gran : Z) (a : nat) : res FixedBufferPool :=
  if num =? 0 then inl AssertFail else
  let p := push_news (Z.to_nat num) (Pool num inc_gran 0 [] ∅ a 0) in
  if Z.of_nat (length (m_pool p)) =? num then inr p else inl OutOfBounds.

(** [~FixedBufferPool()]: what is left in [heap] are the unrecycled buffers. *)
Definition FixedBufferPool_destroy (p : FixedBufferPool) : FixedBufferPool := truncate 0 p.

(** *** The pool and the buffers that are out *)

Hypothesis N_range : 0 < N < 2 ^ 63.
Hypothesis raw_length : forall i, blen (raw i) = N.

(** [total] bounds the buffers that can exist at the same time. *)
Definition pool_wf (total : nat) (p : FixedBufferPool) : Prop :=
  NoDup (m_pool p) /\
  (forall b, b ∈ m_pool p -> exists mem, heap p !! b = Some (FB 0 mem)) /\
  (forall b fb, heap p !! b = Some fb -> (b < next_id p)%nat /\ blen (m_buff fb) = N) /\
  (size (heap p) + avail p = total)%nat /\
  Z.of_nat (size (heap p)) = Z.of_nat (length (m_pool p)) + m_unrecyled p /\
  0 <= m_unrecyled p.

(** Buffer [b] is out, with content [fb]. *)
Definition is_out (p : FixedBufferPool) (b : nat) (fb : FixedBuffer) : Prop :=
  heap p !! b = Some fb /\ b ∉ m_pool p.

(** The buffers that are out stay out, with their content. *)
Definition out_kept (p p' : FixedBufferPool) : Prop :=
  forall b fb, is_out p b fb -> is_out p' b fb.

Lemma push_new_wf total p p' :
  pool_wf total p -> push_new p = Some p' -> pool_wf total p' /\ out_kept p p' /\
  (forall b fb, is_out p' b fb -> is_out p b fb).
Proof.
  intros (Hnd&Hp&Hh&Ht&Hu&Hu0). unfold push_new. destruct (avail p) as [|a] eqn:Ha; [done|].
  intros [= <-].
  assert (heap p !! next_id p = None) as Hf.
  { destruct (heap p !! next_id p) eqn:E; [|done]. apply Hh in E as [? _]. lia. }
  assert (next_id p ∉ m_pool p) as Hn.
  { intros Hi. destruct (Hp _ Hi) as [mem Hm]. by rewrite Hm in Hf. }
  unfold pool_wf, out_kept, is_out. simpl. rewrite map_size_insert_None by done.
  rewrite length_app. simpl.
  split; [split; [|split; [|split; [|split; [lia|split; lia]]]]|split].
  - apply NoDup_app. split; [done|]. split; [|apply NoDup_singleton].
    intros b Hb ->%list_elem_of_singleton. done.
  - intros b [Hb| ->%list_elem_of_singleton]%elem_of_app.
    + rewrite lookup_insert_ne by (intros <-; done). by apply Hp.
    + rewrite lookup_insert_eq. eauto.
  - intros b fb [(<-&<-)|(?&Hb)]%lookup_insert_Some.
    + split; [lia|]. simpl. unfold blen. rewrite length_insert. apply raw_length.
    + apply Hh in Hb as [? ?]. split; [lia|done].
  - intros b fb [Hb Hb']. split.
    + rewrite lookup_insert_ne; [done|]. intros <-. by rewrite Hf in Hb.
    + rewrite not_elem_of_app, list_elem_of_singleton. split; [done|]. intros ->. by rewrite Hf in Hb.
  - intros b fb [Hb Hb']. rewrite not_elem_of_app, list_elem_of_singleton in Hb'.
    rewrite lookup_insert_ne in Hb by naive_solver. naive_solver.
Qed.

Lemma push_news_wf total k p :
  pool_wf total p -> pool_wf total (push_news k p) /\ out_kept p (push_news k p) /\
  (forall b fb, is_out (push_news k p) b fb -> is_out p b fb).
Proof.
  revert p. induction k as [|k IH]; intros p Hp; simpl; [by unfold out_kept|].
  destruct (push_new p) as [p'|] eqn:E; [|by unfold out_kept].
  destruct (push_new_wf total p p' Hp E) as (Hp'&Hk&Hk'). destruct (IH p' Hp') as (?&?&?).
  unfold out_kept in *. eauto 10.
Qed.

Lemma EnlargePoolUnsafe_wf total p :
  pool_wf total p -> pool_wf total (EnlargePoolUnsafe p) /\ out_kept p (EnlargePoolUnsafe p) /\
  (forall b fb, is_out (EnlargePoolUnsafe p) b fb -> is_out p b fb).
Proof.
  intros Hp. unfold EnlargePoolUnsafe. case_match; [by unfold out_kept|]. by apply push_news_wf.
Qed.

Lemma pop_back_spec l l' b : pop_back l = Some (l', b) -> l = l' ++ [b].
Proof.
  unfold pop_back. destruct (last l) as [x|] eqn:E; [|done]. cbn. intros [= <- <-].
  apply last_Some in E as [k ->]. rewrite length_app. simpl.
  rewrite take_app_le by lia. by rewrite take_ge by lia.
Qed.

(** [GetBuff] gives a buffer that nobody has, empty. *)
Lemma GetBuff_spec total p p' r :
  pool_wf total p -> Z.of_nat total < 2 ^ 64 -> GetBuff p = (p', r) ->
  pool_wf total p' /\ out_kept p p' /\
  match r with
  | Some b => (exists mem, is_out p' b (FB 0 mem)) /\ (forall fb, ~ is_out p b fb) /\
      (forall b' fb, b' <> b -> is_out p' b' fb -> is_out p b' fb)
  | None => forall b fb, is_out p' b fb -> is_out p b fb
  end.
Proof.
  intros Hp Hto. unfold GetBuff. cbv zeta.
  set (p1 := if bool_decide (m_pool p = []) then EnlargePoolUnsafe p else p).
  assert (pool_wf total p1 /\ out_kept p p1 /\ (forall b fb, is_out p1 b fb -> is_out p b fb))
    as (Hp1&Hk&Hk').
  { unfold p1. case_match; [by apply EnlargePoolUnsafe_wf|by unfold out_kept]. }
  clearbody p1. destruct (pop_back (m_pool p1)) as [[l b]|] eqn:E; intros [= <- <-]; [|done].
  apply pop_back_spec in E. destruct Hp1 as (Hnd&Hpl&Hh&Ht&Hu&Hu0).
  rewrite E in *. apply NoDup_app in Hnd as (Hnd&Hdj&_).
  rewrite length_app in Hu. simpl in Hu.
  unfold out_kept, is_out, pool_wf in *. simpl in *. rewrite E in *. rewrite u64_id by lia.
  split; [|split; [|split; [|split]]].
  - split; [done|]. split; [|split; [done|split; [done|split; lia]]].
    intros b' Hb'. apply Hpl. rewrite elem_of_app. by left.
  - intros b' fb Hb'. apply Hk in Hb' as [? Hb']. split; [done|]. intros Hi. apply Hb'.
    rewrite elem_of_app. by left.
  - destruct (Hpl b) as [mem Hm]; [rewrite elem_of_app, list_elem_of_singleton; by right|].
    exists mem. split; [done|]. intros Hi. apply (Hdj b Hi). by rewrite list_elem_of_singleton.
  - intros fb Hb. apply Hk in Hb as [_ Hb]. apply Hb.
    rewrite elem_of_app, list_elem_of_singleton. by right.
  - intros b' fb Hne [? Hb']. apply Hk'. split; [done|].
    rewrite not_elem_of_app, list_elem_of_singleton. done.
Qed.

(** [Recycle] takes a buffer back and empties it. *)
Lemma Recycle_spec total p b fb :
  pool_wf total p -> Z.of_nat total < 2 ^ 64 -> is_out p b fb ->
  exists p', Recycle b p = inr p' /\ pool_wf total p' /\
    (forall b' fb', is_out p' b' fb' <-> b' <> b /\ is_out p b' fb').
Proof.
  intros (Hnd&Hpl&Hh&Ht&Hu&Hu0) Hto [Hb Hbp]. unfold Recycle. rewrite Hb.
  eexists; split; [done|].
  assert (length (m_pool p) < size (heap p))%nat as Hs.
  { change (length (m_pool p) < size (heap p))%nat.
    enough (size (list_to_set (C:=gset nat) (b :: m_pool p)) <= size (dom (heap p)))%nat as Hle.
    { rewrite size_list_to_set, size_dom in Hle by (by apply NoDup_cons). simpl in Hle. lia. }
    apply subseteq_size. intros x. rewrite elem_of_list_to_set, elem_of_dom, elem_of_cons.
    intros [->|Hx]; [by rewrite Hb|]. destruct (Hpl x Hx) as [mem Hm]. by rewrite Hm. }
  unfold pool_wf, is_out. simpl. rewrite map_size_insert_Some by (by rewrite Hb).
  rewrite length_app. simpl. rewrite u64_id by lia. split.
  - split; [|split; [|split; [|split; [done|split; lia]]]].
    + apply NoDup_app. split; [done|]. split; [|apply NoDup_singleton].
      intros b' Hb' ->%list_elem_of_singleton. done.
    + intros b' [Hb'| ->%list_elem_of_singleton]%elem_of_app.
      * rewrite lookup_insert_ne by (intros <-; done). by apply Hpl.
      * rewrite lookup_insert_eq. unfold Reset. eauto.
    + intros b' fb' [(<-&<-)|(?&Hb')]%lookup_insert_Some; [|by apply Hh].
      split; [by apply Hh in Hb as [? _]|]. by apply Hh in Hb as [_ ?].
  - intros b' fb'. rewrite not_elem_of_app, list_elem_of_singleton. split.
    + intros [Hb' [? Hne]]. rewrite lookup_insert_ne in Hb' by done. done.
    + intros [Hne [? ?]]. rewrite lookup_insert_ne by done. done.
Qed.

Lemma foldr_delete_lookup {A} (l : list nat) (m : gmap nat A) b :
  foldr delete m l !! b = if decide (b ∈ l) then None else m !! b.
Proof.
  induction l as [|x l IH]; cbn [foldr].
  - by rewrite decide_False by apply not_elem_of_nil.
  - destruct (decide (b = x)) as [->|Hne].
    + rewrite lookup_delete_eq, decide_True by set_solver. done.
    + rewrite lookup_delete_ne, IH by done. repeat case_decide; set_solver.
Qed.

Lemma foldr_delete_size {A} (l : list nat) (m : gmap nat A) :
  NoDup l -> (forall b, b ∈ l -> is_Some (m !! b)) ->
  (size (foldr delete m l) + length l = size m)%nat.
Proof.
  induction 1 as [|x l Hx Hl IH]; intros Hm; cbn [foldr length]; [lia|].
  rewrite map_size_delete_Some.
  - specialize (IH ltac:(intros; apply Hm; set_solver)).
    assert (0 < size (foldr delete m l))%nat; [|lia].
    destruct (size (foldr delete m l)) eqn:E; [|lia]. apply map_size_empty_inv in E.
    pose proof (foldr_delete_lookup l m x) as Hlx. rewrite E, decide_False in Hlx by done.
    destruct (Hm x) as [y Hy]; [set_solver|]. rewrite Hy in Hlx. by rewrite lookup_empty in Hlx.
  - rewrite foldr_delete_lookup, decide_False by done. apply Hm. set_solver.
Qed.

Lemma truncate_spec total k p :
  pool_wf total p -> pool_wf total (truncate k p) /\ out_kept p (truncate k p) /\
  (forall b fb, is_out (truncate k p) b fb -> is_out p b fb).
Proof.
  intros (Hnd&Hpl&Hh&Ht&Hu&Hu0). unfold truncate. cbv zeta.
  pose proof Hnd as Hnd2. rewrite <-(take_drop k (m_pool p)) in Hnd2.
  apply NoDup_app in Hnd2 as (Hn1&Hdj&Hn2).
  pose proof (foldr_delete_size (drop k (m_pool p)) (heap p) Hn2) as Hsz.
  rewrite length_drop in Hsz.
  assert (forall b, b ∈ drop k (m_pool p) -> b ∈ m_pool p) as Hdp.
  { intros b Hb. rewrite <-(take_drop k (m_pool p)), elem_of_app. by right. }
  assert (forall b, b ∈ take k (m_pool p) -> b ∈ m_pool p) as Htp.
  { intros b Hb. rewrite <-(take_drop k (m_pool p)), elem_of_app. by left. }
  unfold pool_wf, out_kept, is_out, delete_all. simpl.
  rewrite length_take, length_drop.
  specialize (Hsz ltac:(intros b Hb; destruct (Hpl b (Hdp b Hb)) as [? ->]; done)).
  split; [|split].
  - split; [done|]. split; [|split; [|split; [lia|split; lia]]].
    + intros b Hb. rewrite foldr_delete_lookup, decide_False; [by apply Hpl, Htp|].
      by apply Hdj.
    + intros b fb. rewrite foldr_delete_lookup. case_decide; [done|]. by apply Hh.
  - intros b fb [Hb Hb']. rewrite foldr_delete_lookup, decide_False by naive_solver.
    split; [done|]. naive_solver.
  - intros b fb [Hb Hb']. rewrite foldr_delete_lookup in Hb. case_decide as Hd; [done|].
    split; [done|]. rewrite <-(take_drop k (m_pool p)), elem_of_app. naive_solver.
Qed.

Lemma Shrink_spec total factor p :
  pool_wf total p -> pool_wf total (Shrink factor p) /\ out_kept p (Shrink factor p) /\
  (forall b fb, is_out (Shrink factor p) b fb -> is_out p b fb).
Proof.
  intros Hp. unfold Shrink. case_decide; [by apply truncate_spec|by unfold out_kept].
Qed.

Lemma FixedBufferPool_init_wf num inc_gran a p :
  FixedBufferPool_init num inc_gran a = inr p -> pool_wf a p /\ (forall b fb, ~ is_out p b fb).
Proof.
  unfold FixedBufferPool_init. destruct (num =? 0); [done|]. cbv zeta.
  case_match; [|done]. intros [= <-].
  destruct (push_news_wf a (Z.to_nat num) (Pool num inc_gran 0 [] ∅ a 0)) as (Hp&_&Hk).
  - split; [apply NoDup_nil_2|]. split; [by intros b ?%elem_of_nil|].
    split; [|simpl; split; [done|split; done]]. simpl. intros b fb. by rewrite lookup_empty.
  - split; [done|]. intros b fb Hb. apply Hk in Hb as [Hb _]. simpl in Hb. by rewrite lookup_empty in Hb.
Qed.

(** An empty pool and an empty memory: [NULL]. *)
Lemma GetBuff_NULL p : m_pool p = [] -> avail p = 0%nat -> snd (GetBuff p) = None.
Proof.
  intros Hp Ha. unfold GetBuff. rewrite bool_decide_eq_true_2 by done. cbv zeta.
  assert (EnlargePoolUnsafe p = p) as ->.
  { unfold EnlargePoolUnsafe. case_match; [done|].
    destruct (Z.to_nat (m_inc_gran p)); [done|]. simpl. unfold push_new. by rewrite Ha. }
  by rewrite Hp.
Qed.

(** *** [FixedBuffer::Append] with room *)

Lemma buffer_append_spec data fb :
  blen (m_buff fb) = N -> 0 <= m_cur fb -> m_cur fb + blen data <= N ->
  exists fb', Append data fb = inr (fb', m_cur fb) /\ blen (m_buff fb') = N /\
    m_cur fb' = m_cur fb + blen data /\
    slice (m_buff fb') (Z.to_nat (m_cur fb)) (length data) = data /\
    (forall o n, (o + n <= Z.to_nat (m_cur fb))%nat ->
       slice (m_buff fb') o n = slice (m_buff fb) o n).
Proof.
  intros Hl Hc Hr. pose proof (blen_nonneg data). unfold Append. cbv zeta.
  rewrite copy_ok by lia. cbn [bind]. rewrite u64_id by lia. eexists; split; [done|].
  simpl. unfold blen in *. rewrite length_blit by lia. split; [done|]. split; [done|].
  split; [apply slice_blit; lia|]. intros o n Ho. apply slice_blit_before; lia.
Qed.

End FixedBufferPool.
