(* ===== verification/AsynLogAppender.v ===== *)
(** * AsynLogAppender.v: [slog/AsynLogAppender.h] and [slog/AsynLogAppender.cc]

The application's threads append messages to buffers of their own and push a
pointer to each message on the vector [m_pb1]; one thread ([LoggingThreadFunc])
swaps the two vectors and writes the messages of the other one to the log file.
A buffer that is full is pushed as a message of length 0: the writer recycles it
after the messages before it.

The code is a set of steps in the sense of Conc.v.  One step is a critical
section of [m_lock] or of the pool's lock, with the thread-local accesses beside
it; filling a buffer is a step of its own, since no lock is held.  A
[timed_wait] may return at any time, so [notify_one] changes nothing but the
order of the steps, and every order is considered.

The theorems: whatever the schedule, an [assert] fails only after an empty message or the
exit of a thread whose last message was dropped ([misused]), and no freed, recycled or
foreign memory is read; the file is always a prefix of the acknowledged messages
in the order of their pushes, and once the writer has ended it is all of them;
the writer, when it runs, brings every pushed message to the file. *)

From S2P Require Import Prelude Machine Conc LogStream.
From S2P Require LogFileAppender FixedBuffer.
#[local] Open Scope Z_scope.
#[local] Open Scope bef_scope.

Abbreviation LogFile := LogFileAppender.LogFile.
Abbreviation Pool := FixedBuffer.FixedBufferPool.
Abbreviation is_out := FixedBuffer.is_out.

(** ** Data *)

(** A [char*]: the address of a buffer object, or of a character in its array. *)
Inductive ptr : Type := PBuff (b : nat) | PChar (b : nat) (off : Z).

#[export] Instance ptr_eq_dec : EqDecision ptr.
Proof. solve_decision. Defined.

Record LogMsg : Type := Msg { len : Z; data : ptr }.

(** A [std::vector<LogMsg>]. *)
Record vec : Type := Vec { elems : list LogMsg; capacity : Z }.

Definition g_msg_queue_sz : Z := 4 * 4096.

(** [tl] is [tl_buff_info] of every thread: no item, or an item with its
    [buff].  [m_pb1] tells which vector [m_pb1] points to ([true]:
    [m_pending_buff1]), [m_pb2] points to the other one.  [alive]: a shared
    pointer to the appender exists; [joined]: the writer thread has ended. *)
Record AsynLogAppender : Type := App {
  m_running : bool;
  m_curPendingMsg : Z;
  m_flush_cnt : Z;
  m_log_file : LogFile;
  m_pool : Pool;
  m_pending_buff1 : vec;
  m_pending_buff2 : vec;
  m_pb1 : bool;
  tl : gmap nat (option nat);
  alive : bool;
  joined : bool
}.

Definition get_vec (which : bool) (g : AsynLogAppender) : vec :=
  if which then m_pending_buff1 g else m_pending_buff2 g.

Definition set_vec (which : bool) (v : vec) (g : AsynLogAppender) : AsynLogAppender :=
  App (m_running g) (m_curPendingMsg g) (m_flush_cnt g) (m_log_file g) (m_pool g)
    (if which then v else m_pending_buff1 g) (if which then m_pending_buff2 g else v)
    (m_pb1 g) (tl g) (alive g) (joined g).

Definition set_pool (p : Pool) (g : AsynLogAppender) : AsynLogAppender :=
  App (m_running g) (m_curPendingMsg g) (m_flush_cnt g) (m_log_file g) p (m_pending_buff1 g)
    (m_pending_buff2 g) (m_pb1 g) (tl g) (alive g) (joined g).

Definition set_file (f : LogFile) (g : AsynLogAppender) : AsynLogAppender :=
  App (m_running g) (m_curPendingMsg g) (m_flush_cnt g) f (m_pool g) (m_pending_buff1 g)
    (m_pending_buff2 g) (m_pb1 g) (tl g) (alive g) (joined g).

Definition set_tl (m : gmap nat (option nat)) (g : AsynLogAppender) : AsynLogAppender :=
  App (m_running g) (m_curPendingMsg g) (m_flush_cnt g) (m_log_file g) (m_pool g)
    (m_pending_buff1 g) (m_pending_buff2 g) (m_pb1 g) m (alive g) (joined g).

(** The points of the operations. *)
Inductive pc : Type :=
| AStart (t : nat) (msg : bytes)              (* Append: the thread-local item *)
| ACheck (t : nat) (msg : bytes)              (* Append: is there room in the buffer *)
| AGet (t : nat) (msg : bytes)                (* Append: m_pool.GetBuff() *)
| ACopy (t : nat) (msg : bytes) (b : nat)     (* Append: buff->Append(msg, len) *)
| APush (t : nat) (msg : bytes) (b : nat) (addr : Z)  (* Append: AddToWriter *)
| TExit (t : nat)                             (* ~PerThreadItem *)
| WStart                                      (* writer: takes the lock *)
| WWait (idle : Z)                            (* writer: returns from timed_wait *)
| WProc (vp : bool) (i : nat)                 (* writer: the for over vp *)
| SStop                                       (* Stop: m_running = false *)
| SJoin                                       (* Stop: m_thread->join() *)
| SDestroy.                                   (* the members' destructors *)

Inductive aop : Type := OAppend (t : nat) (msg : bytes) | OExit (t : nat) | OStop.

Inductive ares : Type := RAppend (t : nat) (msg : bytes) (ret : Z) | RVoid.

Section Appender.
Variable N : Z.                    (* S_BUFF_SIZE *)
Variable raw : nat -> bytes.       (* what new gives for a buffer *)
Variable FSZ : Z.                  (* LogFile::S_DEF_BUFF_SZ *)
Variable grow : Z -> Z -> Z.       (* capacity after a push_back that does not fit *)

(** ** Operations *)

Definition push_back (m : LogMsg) (v : vec) : vec :=
  let sz := Z.of_nat (length (elems v)) + 1 in
  Vec (elems v ++ [m]) (if sz <=? capacity v then capacity v else grow (capacity v) sz).

(** [AddToWriter(addr, len, buff)], [None] when an [assert] fails. *)
Definition AddToWriter (addr : option ptr) (ln : Z) (buff : option nat) (g : AsynLogAppender) :
    option AsynLogAppender :=
  match
    match addr with
    | Some a => Some a
    | None => if ln =? 0 then PBuff <$> buff else None
    end
  with
  | None => None
  | Some a =>
      if m_running g then
        let v := push_back (Msg ln a) (get_vec (m_pb1 g) g) in
        let g1 := set_vec (m_pb1 g) v g in
        Some (App (m_running g1) (u64 (m_curPendingMsg g1 + 1)) (m_flush_cnt g1)
          (m_log_file g1) (m_pool g1) (m_pending_buff1 g1) (m_pending_buff2 g1) (m_pb1 g1)
          (tl g1) (alive g1) (joined g1))
      else None
  end.

(** [if (capacity > g_msg_queue_sz)]: swap with a new empty vector. *)
Definition shrink_vec (v : vec) : vec :=
  if g_msg_queue_sz <? capacity v then Vec [] g_msg_queue_sz else v.

Definition ShrinkMemoryUsageUnlock (g : AsynLogAppender) : AsynLogAppender :=
  let g1 := set_pool (FixedBuffer.Shrink 1 (m_pool g)) g in
  let g2 := set_vec true (shrink_vec (m_pending_buff1 g1)) g1 in
  set_vec false (shrink_vec (m_pending_buff2 g2)) g2.

(** [buff->Append(msg, len)] on buffer [b]. *)
Definition fill (b : nat) (msg : bytes) (g : AsynLogAppender) : option (AsynLogAppender * Z) :=
  match FixedBuffer.heap (m_pool g) !! b with
  | None => None
  | Some fb =>
      match FixedBuffer.Append msg fb with
      | inl _ => None
      | inr (fb', addr) =>
          let p := m_pool g in
          Some (set_pool (FixedBuffer.Pool (FixedBuffer.m_fix_sz p) (FixedBuffer.m_inc_gran p)
            (FixedBuffer.m_unrecyled p) (FixedBuffer.m_pool p)
            (<[b:=fb']> (FixedBuffer.heap p)) (FixedBuffer.avail p) (FixedBuffer.next_id p)) g, addr)
      end
  end.

(** The characters [data .. data + len) of a message. *)
Definition read_msg (m : LogMsg) (g : AsynLogAppender) : option bytes :=
  match data m with
  | PBuff _ => None
  | PChar b off =>
      fb ← FixedBuffer.heap (m_pool g) !! b;
      if (0 <=? off) && (off + len m <=? blen (FixedBuffer.m_buff fb))
      then Some (slice (FixedBuffer.m_buff fb) (Z.to_nat off) (Z.to_nat (len m)))
      else None
  end.

Abbreviation out := (outcome AsynLogAppender pc ares).

(** The writer leaves the wait loop with the lock held. *)
Definition take_messages (g : AsynLogAppender) : out :=
  if negb (m_running g) && bool_decide (elems (get_vec (m_pb1 g) g) = []) then
    Ret (App (m_running g) (m_curPendingMsg g) (m_flush_cnt g) (m_log_file g) (m_pool g)
      (m_pending_buff1 g) (m_pending_buff2 g) (m_pb1 g) (tl g) (alive g) true) RVoid
  else
    Next (App (m_running g) 0 (m_flush_cnt g) (m_log_file g) (m_pool g)
      (m_pending_buff1 g) (m_pending_buff2 g) (negb (m_pb1 g)) (tl g) (alive g) (joined g))
      (WProc (m_pb1 g) 0).

(** [while (m_running)], with the lock held. *)
Definition wait_or_take (idle : Z) (g : AsynLogAppender) : out :=
  if m_running g then Next g (WWait idle) else take_messages g.

Definition process (vp : bool) (i : nat) (g : AsynLogAppender) : out :=
  match elems (get_vec vp g) !! i with
  | None =>
      let g1 := set_file (LogFileAppender.Flush true (m_log_file g)) g in
      Next (set_vec vp (Vec [] (capacity (get_vec vp g1))) g1) WStart
  | Some m =>
      if len m =? 0 then
        match data m with
        | PChar _ _ => Fault
        | PBuff b =>
            match FixedBuffer.Recycle b (m_pool g) with
            | inl _ => Fault
            | inr p => Next (set_pool p g) (WProc vp (S i))
            end
        end
      else
        match read_msg m g with
        | None => Fault
        | Some txt =>
            match LogFileAppender.Append FSZ txt (m_log_file g) with
            | inl _ => Fault
            | inr (f, _) => Next (set_file f g) (WProc vp (S i))
            end
        end
  end.

(** [Append]: the item of the thread ([tl_buff_info]), the test for room and the
    return of a full buffer, a new buffer, the copy, the push. *)
Definition Append_step (g : AsynLogAppender) (l : pc) : out :=
  match l with
  | AStart t msg =>
      if blen msg =? 0 then Fault else        (* assert(len && msg) *)
      match tl g !! t with
      | None =>
          let '(p, b) := FixedBuffer.GetBuff raw (m_pool g) in
          Next (set_tl (<[t:=b]> (tl g)) (set_pool p g)) (ACheck t msg)
      | Some _ => Next g (ACheck t msg)
      end
  | ACheck t msg =>
      match mjoin (tl g !! t) with
      | None => Next g (AGet t msg)
      | Some b =>
          match FixedBuffer.heap (m_pool g) !! b with
          | None => Fault
          | Some fb =>
              if FixedBuffer.Available N fb <? blen msg then
                match AddToWriter None 0 (Some b) g with
                | None => Fault
                | Some g' => Next g' (AGet t msg)
                end
              else Next g (ACopy t msg b)
          end
      end
  | AGet t msg =>
      let '(p, r) := FixedBuffer.GetBuff raw (m_pool g) in
      let g' := set_tl (<[t:=r]> (tl g)) (set_pool p g) in
      match r with
      | None => Ret g' (RAppend t msg 0)
      | Some b => Next g' (ACopy t msg b)
      end
  | ACopy t msg b =>
      match fill b msg g with
      | None => Fault
      | Some (g', addr) => Next g' (APush t msg b addr)
      end
  | APush t msg b addr =>
      match AddToWriter (Some (PChar b addr)) (blen msg) (Some b) g with
      | None => Fault
      | Some g' => Ret g' (RAppend t msg (blen msg))
      end
  | _ => Fault
  end.

(** [~PerThreadItem], which runs when thread [t] exits.  The destructor frees the
    buffer [if (!buff)], that is: deletes a null pointer. *)
Definition PerThreadItem_destroy (t : nat) (g : AsynLogAppender) : out :=
  match tl g !! t with
  | None => Ret g RVoid
  | Some buff =>
      let g0 := set_tl (delete t (tl g)) g in
      if alive g then
        match AddToWriter None 0 buff g0 with
        | None => Fault
        | Some g' => Ret g' RVoid
        end
      else Ret g0 RVoid
  end.

(** [LoggingThreadFunc]. *)
Definition LoggingThread_step (g : AsynLogAppender) (l : pc) : out :=
  match l with
  | WStart => wait_or_take 0 g
  | WWait idle =>
      if bool_decide (elems (get_vec (m_pb1 g) g) = []) then
        let idle' := idle + 1 in
        wait_or_take idle' (if idle' =? 8 then ShrinkMemoryUsageUnlock g else g)
      else take_messages g
  | WProc vp i => process vp i g
  | _ => Fault
  end.

(** [~AsynLogAppender]: [Stop], then the members' destructors. *)
Definition Stop_step (g : AsynLogAppender) (l : pc) : out :=
  match l with
  | SStop =>
      Next (App false (m_curPendingMsg g) (m_flush_cnt g) (m_log_file g) (m_pool g)
        (m_pending_buff1 g) (m_pending_buff2 g) (m_pb1 g) (tl g) false (joined g)) SJoin
  | SJoin => if joined g then Next g SDestroy else Next g SJoin
  | SDestroy =>
      Ret (set_file (LogFileAppender.LogFile_destroy (m_log_file g))
        (set_pool (FixedBuffer.FixedBufferPool_destroy (m_pool g)) g)) RVoid
  | _ => Fault
  end.

Definition code (g : AsynLogAppender) (l : pc) : out :=
  match l with
  | AStart _ _ | ACheck _ _ | AGet _ _ | ACopy _ _ _ | APush _ _ _ _ => Append_step g l
  | TExit t => PerThreadItem_destroy t g
  | WStart | WWait _ | WProc _ _ => LoggingThread_step g l
  | SStop | SJoin | SDestroy => Stop_step g l
  end.

(** The step at a known point. *)
#[local] Ltac code_step := cbn [code Append_step LoggingThread_step Stop_step]; try unfold PerThreadItem_destroy.

Definition start (op : aop) : pc :=
  match op with
  | OAppend t msg => AStart t msg
  | OExit t => TExit t
  | OStop => SStop
  end.

(** [Flush(false)], what the signal handler calls before [_exit]: the messages
    of the two vectors, whoever works on them, straight to the descriptor. *)
Fixpoint flush_vec (tag : bytes) (l : list LogMsg) (g : AsynLogAppender) : option AsynLogAppender :=
  match l with
  | [] => Some g
  | m :: l' =>
      if len m =? 0 then flush_vec tag l' g else
      txt ← read_msg m g;
      let '(f1, _) := LogFileAppender.AppendRaw tag (m_log_file g) in
      let '(f2, _) := LogFileAppender.AppendRaw txt f1 in
      flush_vec tag l' (set_file f2 g)
  end.

Definition Flush (gracefully : bool) (g : AsynLogAppender) : option AsynLogAppender :=
  if gracefully then Some g else
  g1 ← flush_vec (bs "(f2)") (elems (m_pending_buff2 g)) g;
  flush_vec (bs "(f)") (elems (m_pending_buff1 g1)) g1.

(** The constructor: the log file (that held [d], with the results [io] of the
    coming writes), the pool of 32 buffers, the reserved vectors, the thread
    started. *)
Definition AsynLogAppender_init (flush_cnt : Z) (f : LogFile) (p : Pool) : AsynLogAppender :=
  App true 0 flush_cnt f p (Vec [] g_msg_queue_sz) (Vec [] g_msg_queue_sz) true ∅ true false.

Definition AsynLogAppender_ctor (flush_cnt : Z) (d : bytes) (io : list LogFileAppender.wres)
    (garbage : bytes) (a : nat) : res AsynLogAppender :=
  let! f := LogFileAppender.LogFile_init d io garbage in
  let! p := FixedBuffer.FixedBufferPool_init raw 32 16 a in
  inr (AsynLogAppender_init flush_cnt f p).

(** ** The callers

Thread 0 is the writer.  The other threads append messages that fit a buffer
(the logger's have at most 4096 bytes), may exit at any time, and the last owner of the
appender destroys it when nobody is appending.  Nothing keeps them from appending an empty
message, or from exiting after their last message was dropped ([Append] gave 0), which are
the two ways into an [assert]; [wrong] records that one of the two was begun. *)
Record client : Type := Client {
  in_flight : Z; stopped : bool; acked : list bytes; dropped : gset nat; wrong : bool }.

Definition cl_inv (k : client) (t : nat) (op : aop) : option client :=
  if decide (t = 0%nat) then None else
  match op with
  | OAppend t' msg =>
      if decide (t' = t /\ stopped k = false /\ blen msg <= N /\ blen msg <= FSZ)
      then Some (Client (in_flight k + 1) (stopped k) (acked k) (dropped k) (wrong k || (blen msg =? 0))) else None
  | OExit t' =>
      if decide (t' = t)
      then Some (Client (in_flight k) (stopped k) (acked k) (dropped k) (wrong k || bool_decide (t ∈ dropped k)))
      else None
  | OStop =>
      if decide (in_flight k = 0 /\ stopped k = false)
      then Some (Client (in_flight k) true (acked k) (dropped k) (wrong k)) else None
  end.

Definition cl_ret (k : client) (t : nat) (r : ares) : client :=
  match r with
  | RAppend t' msg n =>
      if n =? 0 then Client (in_flight k - 1) (stopped k) (acked k) ({[t]} ∪ dropped k) (wrong k)
      else Client (in_flight k - 1) (stopped k) (acked k ++ [msg]) (dropped k ∖ {[t]}) (wrong k)
  | RVoid => k
  end.

(** The messages that [Append] acknowledged, in the order of the responses. *)
Definition acked_of (h : list (event aop ares)) : list bytes :=
  omap (fun e => match e with
    | ERes _ (RAppend _ msg n) => if n =? 0 then None else Some msg
    | _ => None end) h.

(** The threads whose last [Append] dropped its message. *)
Definition note_drop (d : gset nat) (e : event aop ares) : gset nat :=
  match e with
  | ERes t (RAppend _ _ n) => if n =? 0 then {[t]} ∪ d else d ∖ {[t]}
  | _ => d
  end.

(** An empty message is appended, or a thread of [d] exits. *)
Definition misuse (d : gset nat) (e : event aop ares) : bool :=
  match e with
  | EInv _ (OAppend _ msg) => blen msg =? 0
  | EInv t (OExit _) => bool_decide (t ∈ d)
  | _ => false
  end.

Fixpoint misused_from (d : gset nat) (h : list (event aop ares)) : bool :=
  match h with
  | [] => false
  | e :: h' => misuse d e || misused_from (note_drop d e) h'
  end.

Definition misused : list (event aop ares) -> bool := misused_from ∅.

Definition asyn_init (g : AsynLogAppender) (threads : nat) :
    cfg (G:=AsynLogAppender) (L:=pc) (C:=client) :=
  Cfg g (Run WStart :: replicate threads Idle) (Client 0 false [] ∅ false) false.

(** ** The data invariant

[held t] is the buffer that thread [t] may append to, [q] the messages that are
not processed yet, [txt] everything that was acknowledged. *)

Variable total : nat.
Hypothesis N_range : 0 < N < 2 ^ 63.
Hypothesis raw_length : forall i, blen (raw i) = N.
Hypothesis FSZ_range : 0 <= FSZ < 2 ^ 32.
Hypothesis total_range : Z.of_nat total < 2 ^ 64.

Definition buf (m : LogMsg) : nat := match data m with PBuff b => b | PChar b _ => b end.

(** The text a pending message stands for. *)
Definition text (p : Pool) (m : LogMsg) : bytes :=
  match data m with
  | PBuff _ => []
  | PChar b off =>
      match FixedBuffer.heap p !! b with
      | Some fb => slice (FixedBuffer.m_buff fb) (Z.to_nat off) (Z.to_nat (len m))
      | None => []
      end
  end.

Definition msg_ok (p : Pool) (m : LogMsg) : Prop :=
  match data m with
  | PBuff b => len m = 0 /\ exists fb, is_out p b fb
  | PChar b off => 0 < len m <= FSZ /\ 0 <= off /\
      exists fb, is_out p b fb /\ off + len m <= FixedBuffer.m_cur fb
  end.

(** Behind the message that gives a buffer back there is nothing in it. *)
Fixpoint ordered (q : list LogMsg) : Prop :=
  match q with
  | [] => True
  | m :: q' =>
      match data m with PBuff b => Forall (fun m' => buf m' <> b) q' | _ => True end /\ ordered q'
  end.

Record Core (p : Pool) (f : LogFile) (held : nat -> option nat) (q : list LogMsg) (txt : bytes) :
    Prop := {
  c_pool : FixedBuffer.pool_wf N total p;
  c_cur : forall b fb, is_out p b fb -> 0 <= FixedBuffer.m_cur fb <= N;
  c_held : forall t b, held t = Some b -> (exists fb, is_out p b fb) /\ Forall (fun m => data m <> PBuff b) q;
  c_inj : forall t t' b, held t = Some b -> held t' = Some b -> t = t';
  c_msgs : Forall (msg_ok p) q;
  c_ord : ordered q;
  c_file : LogFileAppender.file_wf FSZ f;
  c_io : LogFileAppender.WErr ∉ LogFileAppender.io f;
  c_text : LogFileAppender.content f ++ mjoin (map (text p) q) = txt
}.

(** The buffers of [p] that satisfy [P] are out in [p'] too, with at least the
    same characters. *)
Definition grows (P : nat -> Prop) (p p' : Pool) : Prop :=
  forall b fb, P b -> is_out p b fb -> exists fb', is_out p' b fb' /\
    FixedBuffer.m_cur fb <= FixedBuffer.m_cur fb' /\
    forall o n, (o + n <= Z.to_nat (FixedBuffer.m_cur fb))%nat ->
      slice (FixedBuffer.m_buff fb') o n = slice (FixedBuffer.m_buff fb) o n.

Lemma out_kept_grows p p' : FixedBuffer.out_kept p p' -> grows (fun _ => True) p p'.
Proof. intros Hk b fb _ Ho. exists fb. split; [by apply Hk|]. done. Qed.

Lemma msg_grows P p p' m :
  grows P p p' -> P (buf m) -> msg_ok p m -> msg_ok p' m /\ text p' m = text p m.
Proof.
  unfold msg_ok, text, buf. destruct m as [ln [b|b off]]; cbn [len data].
  - intros Hg HP (Hl&fb&Ho). destruct (Hg b fb HP Ho) as (fb'&Ho'&_). eauto.
  - intros Hg HP (Hl&Hoff&fb&Ho&Hb). destruct (Hg b fb HP Ho) as (fb'&Ho'&Hc&Hs).
    destruct Ho as [Hh _], Ho' as [Hh' Hp']. rewrite Hh, Hh'.
    split; [|apply Hs; lia]. split; [done|]. split; [done|].
    exists fb'. split; [done|]. lia.
Qed.

Lemma msgs_grows P p p' q :
  grows P p p' -> Forall (fun m => P (buf m)) q -> Forall (msg_ok p) q ->
  Forall (msg_ok p') q /\ map (text p') q = map (text p) q.
Proof.
  intros Hg HP Hq. induction Hq as [|m q Hm Hq IH]; [done|].
  apply Forall_cons in HP as [HPm HP]. destruct (IH HP) as [H1 H2].
  destruct (msg_grows P p p' m Hg HPm Hm) as [H3 H4].
  split; [by constructor|]. simpl. by rewrite H2, H4.
Qed.

Definition upd (held : nat -> option nat) (t : nat) (r : option nat) : nat -> option nat :=
  fun t' => if decide (t' = t) then r else held t'.

Lemma upd_eq held t r : upd held t r t = r.
Proof. unfold upd. by rewrite decide_True. Qed.

Lemma upd_ne held t r t' : t' <> t -> upd held t r t' = held t'.
Proof. intros. unfold upd. by rewrite decide_False. Qed.

Lemma upd_Some held t r t' b :
  upd held t r t' = Some b -> (t' = t /\ r = Some b) \/ (t' <> t /\ held t' = Some b).
Proof. unfold upd. case_decide; naive_solver. Qed.

Lemma core_ext p f held held' q txt :
  Core p f held q txt -> (forall t, held' t = held t) -> Core p f held' q txt.
Proof.
  intros [] He. constructor; try done; intros *; rewrite !He; eauto.
Qed.

(** A change of the pool that keeps every buffer that is out. *)
Lemma core_pool p p' f held q txt :
  Core p f held q txt -> FixedBuffer.pool_wf N total p' -> FixedBuffer.out_kept p p' ->
  (forall b fb, is_out p' b fb -> is_out p b fb \/ FixedBuffer.m_cur fb = 0) ->
  Core p' f held q txt.
Proof.
  intros [] Hwf Hk Hn.
  destruct (msgs_grows (fun _ => True) p p' q (out_kept_grows _ _ Hk)) as [Hq Ht]; [|done|].
  { by apply Forall_forall. }
  constructor; try done.
  - intros b fb Ho. destruct (Hn b fb Ho) as [Ho' | ->]; [by eauto|lia].
  - intros t b Hb. destruct (c_held0 t b Hb) as [[fb Ho] ?]. split; [|done]. exists fb. by apply Hk.
  - by rewrite Ht.
Qed.

Lemma core_release p f held q txt t : Core p f held q txt -> Core p f (upd held t None) q txt.
Proof.
  intros []. constructor; try done.
  - intros t' b [[_ [=]]|[_ Hb]]%upd_Some. by eapply c_held0.
  - intros t1 t2 b [[_ [=]]|[_ Hb]]%upd_Some [[_ [=]]|[_ Hb']]%upd_Some. by eapply c_inj0.
Qed.

(** [GetBuff]. *)
Lemma core_GetBuff p f held q txt t p' r :
  Core p f held q txt -> FixedBuffer.GetBuff raw p = (p', r) ->
  Core p' f (upd held t r) q txt /\ FixedBuffer.out_kept p p' /\
  (forall b, r = Some b -> exists fb, is_out p' b fb /\ FixedBuffer.m_cur fb = 0).
Proof.
  intros Hc Hg. pose proof Hc as [].
  destruct (FixedBuffer.GetBuff_spec N raw N_range raw_length total p p' r) as (Hwf&Hk&Hr); try done.
  destruct r as [b|].
  - destruct Hr as ([mem Hm]&Hnew&Hold).
    assert (Core p' f held q txt) as Hc'.
    { apply (core_pool p); try done. intros b' fb Ho. destruct (decide (b' = b)) as [->|Hne].
      - right. destruct Ho as [Ho _], Hm as [Hm _]. rewrite Hm in Ho. by injection Ho as <-.
      - left. by eapply Hold. }
    split; [|split; [done|intros ? [= <-]; eauto]].
    apply core_release with (t := t) in Hc'. pose proof Hc' as [].
    assert (Forall (fun m => data m <> PBuff b) q) as Hnq.
    { apply Forall_forall. intros m Hmq Hd. rewrite Forall_forall in c_msgs0.
      specialize (c_msgs0 m Hmq). unfold msg_ok in c_msgs0. rewrite Hd in c_msgs0.
      destruct c_msgs0 as (_&fb&Ho). by eapply Hnew. }
    constructor; try done.
    + intros t' b' [[-> [= <-]]|[Hne Hb]]%upd_Some; [split; [eauto|done]|].
      apply (c_held1 t'). by rewrite upd_ne.
    + intros t1 t2 b' [[-> [= <-]]|[Hne1 Hb1]]%upd_Some [[-> [=]]|[Hne2 Hb2]]%upd_Some; try done.
      * subst. destruct (c_held0 t2 _ Hb2) as [[fb Ho] _]. by destruct (Hnew fb).
      * subst. destruct (c_held0 t1 _ Hb1) as [[fb Ho] _]. by destruct (Hnew fb).
      * by eapply c_inj0.
  - split; [|split; [done|done]]. apply core_release. apply (core_pool p); try done.
    intros b fb Ho. left. by apply Hr.
Qed.

Lemma ordered_app q1 q2 :
  ordered q1 -> ordered q2 ->
  (forall m b, m ∈ q1 -> data m = PBuff b -> Forall (fun m' => buf m' <> b) q2) -> ordered (q1 ++ q2).
Proof.
  induction q1 as [|m q1 IH]; intros H1 H2 H; simpl in *; [done|]. destruct H1 as [Hm H1].
  split; [|apply IH; try done; intros; eapply H; [by apply list_elem_of_further|done]].
  destruct (data m) eqn:E; [|done]. apply Forall_app. split; [done|].
  eapply H; [apply list_elem_of_here|done].
Qed.

(** The end of the queue: a buffer given back, a message. *)
Lemma core_push p f held q txt t b m held' :
  Core p f held q txt -> held t = Some b -> buf m = b -> msg_ok p m ->
  (forall t' b', held' t' = Some b' -> held t' = Some b' /\ (data m = PBuff b -> t' <> t)) ->
  Core p f held' (q ++ [m]) (txt ++ text p m).
Proof.
  intros [] Hb Hm Hok Hh. constructor; try done.
  - intros t' b' [Hb' Hne]%Hh. destruct (c_held0 t' b' Hb') as [? ?]. split; [done|].
    apply Forall_app. split; [done|]. apply Forall_singleton. intros Hd.
    unfold buf in Hm. rewrite Hd in Hm. subst b'. apply Hne; [done|]. by eapply c_inj0.
  - intros t1 t2 b' [? _]%Hh [? _]%Hh. by eapply c_inj0.
  - apply Forall_app. split; [done|]. by apply Forall_singleton.
  - apply ordered_app; [done|simpl; by destruct (data m)|].
    intros m' b' Hm' Hd. apply Forall_singleton. intros Heq.
    destruct (c_held0 t b Hb) as [_ Hall]. rewrite Forall_forall in Hall.
    apply (Hall m' Hm'). rewrite Hd. congruence.
  - rewrite map_app, join_app. simpl. by rewrite app_nil_r, app_assoc, c_text0.
Qed.

(** Filling a buffer that the thread holds. *)
Lemma core_fill g f held q txt t b fb msg :
  Core (m_pool g) f held q txt -> held t = Some b -> is_out (m_pool g) b fb ->
  FixedBuffer.m_cur fb + blen msg <= N ->
  exists p' fb', fill b msg g = Some (set_pool p' g, FixedBuffer.m_cur fb) /\
    Core p' f held q txt /\ is_out p' b fb' /\
    FixedBuffer.m_cur fb' = FixedBuffer.m_cur fb + blen msg /\
    slice (FixedBuffer.m_buff fb') (Z.to_nat (FixedBuffer.m_cur fb)) (length msg) = msg /\
    (forall b' fb'', b' <> b -> is_out (m_pool g) b' fb'' -> is_out p' b' fb'').
Proof.
  intros Hc Hb [Ho Hop] Hr. pose proof Hc as []. unfold fill. rewrite Ho.
  destruct c_pool0 as (Hnd&Hpl&Hh&Ht&Hu&Hu0). destruct (Hh b fb Ho) as [Hlt HN].
  destruct (c_cur0 b fb (conj Ho Hop)) as [Hc0 HcN].
  destruct (FixedBuffer.buffer_append_spec N N_range msg fb HN Hc0 Hr) as (fb'&->&HN'&Hcur&Hs&Hk).
  eexists _, fb'. split; [done|]. pose proof (blen_nonneg msg).
  match goal with |- Core ?p _ _ _ _ /\ _ => set (p' := p) end.
  assert (is_out p' b fb') as Hout.
  { split; [apply lookup_insert_eq|done]. }
  assert (forall b' fb'', b' <> b -> is_out (m_pool g) b' fb'' -> is_out p' b' fb'') as Hoth.
  { intros b' fb'' Hne [H1 H2]. split; [|done]. unfold p'. simpl. by rewrite lookup_insert_ne. }
  assert (forall b' fb'', is_out p' b' fb'' -> (b' = b /\ fb'' = fb') \/ is_out (m_pool g) b' fb'')
    as Hinv.
  { intros b' fb'' [H1 H2]. unfold p' in H1. simpl in H1.
    apply lookup_insert_Some in H1 as [[-> ->]|[? ?]]; [by left|by right]. }
  assert (grows (fun _ => True) (m_pool g) p') as Hg.
  { intros b' fb'' _ Ho'. destruct (decide (b' = b)) as [->|Hne]; [|exists fb''; split; [by apply Hoth|done]].
    destruct Ho' as [Ho' _]. rewrite Ho in Ho'. injection Ho' as <-. exists fb'.
    split; [done|]. split; [lia|done]. }
  destruct (msgs_grows _ _ _ q Hg) as [Hq Htx]; [by apply Forall_forall|done|].
  split; [|done]. constructor; try done.
  - unfold FixedBuffer.pool_wf, p'. simpl. rewrite map_size_insert_Some by (by rewrite Ho).
    split; [done|]. split; [|split; [|done]].
    + intros b' Hb'. rewrite lookup_insert_ne by (by intros <-). by apply Hpl.
    + intros b' fb'' [[<- <-]|[? ?]]%lookup_insert_Some; [done|by apply Hh].
  - intros b' fb'' [[-> ->]|Ho']%Hinv; [lia|by eapply c_cur0].
  - intros t' b' Hb'. destruct (c_held0 t' b' Hb') as [[fb'' Ho'] ?]. split; [|done].
    destruct (Hg b' fb'' I Ho') as (fb3&?&_). by exists fb3.
  - by rewrite Htx.
Qed.

(** The head of the queue. *)
Lemma core_recycle p f held q txt m b :
  Core p f held (m :: q) txt -> data m = PBuff b ->
  len m = 0 /\ exists p', FixedBuffer.Recycle b p = inr p' /\ Core p' f held q txt /\
    (forall b' fb, b' <> b -> is_out p b' fb -> is_out p' b' fb) /\
    (forall t, held t <> Some b).
Proof.
  intros [] Hd. apply Forall_cons in c_msgs0 as [Hm Hq]. destruct c_ord0 as [Hnb Hord].
  unfold msg_ok in Hm. rewrite Hd in Hm, Hnb. destruct Hm as (Hl&fb&Ho). split; [done|].
  destruct (FixedBuffer.Recycle_spec N total p b fb c_pool0 total_range Ho) as (p'&HR&Hwf&Hout).
  exists p'. split; [done|].
  assert (forall b' fb', b' <> b -> is_out p b' fb' -> is_out p' b' fb') as Hkeep.
  { intros b' fb' Hne Ho'. by apply Hout. }
  assert (forall t, held t <> Some b) as Hnh.
  { intros t Ht. destruct (c_held0 t b Ht) as [_ Hall]. by apply Forall_cons in Hall as [? _]. }
  split; [|done].
  destruct (msgs_grows (fun b' => b' <> b) p p' q) as [Hq' Htx]; [|done|done|].
  { intros b' fb' Hne Ho'. exists fb'. split; [by apply Hkeep|]. done. }
  constructor; try done.
  - intros b' fb' [_ Ho']%Hout. by eapply c_cur0.
  - intros t b' Hb'. destruct (c_held0 t b' Hb') as [[fb' Ho'] Hall].
    apply Forall_cons in Hall as [_ Hall]. split; [|done]. exists fb'. apply Hkeep; [|done].
    intros ->. by eapply Hnh.
  - assert (text p m = []) as Hm0 by (unfold text; by rewrite Hd).
    rewrite Htx, <-c_text0. simpl. by rewrite Hm0.
Qed.

Lemma core_write g held q txt m b off :
  Core (m_pool g) (m_log_file g) held (m :: q) txt -> data m = PChar b off ->
  0 < len m /\ exists s f' n, read_msg m g = Some s /\
    LogFileAppender.Append FSZ s (m_log_file g) = inr (f', n) /\ Core (m_pool g) f' held q txt.
Proof.
  intros [] Hd. apply Forall_cons in c_msgs0 as [Hm Hq]. destruct c_ord0 as [_ Hord].
  pose proof Hm as Hm'. unfold msg_ok in Hm'. rewrite Hd in Hm'.
  destruct Hm' as (Hl&Hoff&fb&Ho&Hb). split; [lia|].
  destruct (c_cur0 b fb Ho) as [_ HcN]. destruct Ho as [Ho Hop].
  destruct c_pool0 as (Hnd&Hpl&Hh&Ht&Hu&Hu0). destruct (Hh b fb Ho) as [_ HN].
  set (s := slice (FixedBuffer.m_buff fb) (Z.to_nat off) (Z.to_nat (len m))).
  assert (blen s = len m) as Hs.
  { unfold s, blen in *. rewrite length_slice; lia. }
  destruct (LogFileAppender.Append_ok FSZ FSZ_range s (m_log_file g)) as (f'&HA&Hwf&Hio&Hct);
    [done|done|lia|].
  exists s, f', (blen s). split; [|split; [done|]].
  - unfold read_msg. rewrite Hd, Ho. cbn.
    destruct (Z.leb_spec 0 off); [|lia]. destruct (Z.leb_spec (off + len m) (blen (FixedBuffer.m_buff fb)));
      [done|lia].
  - assert (text (m_pool g) m = s) as Htx by (unfold text; by rewrite Hd, Ho).
    constructor; try done.
    + intros t b' Hb'. destruct (c_held0 t b' Hb') as [? Hall]. by apply Forall_cons in Hall as [_ ?].
    + rewrite <-c_text0, Hct. simpl. by rewrite Htx, <-app_assoc.
Qed.

Lemma core_flush p f held q txt :
  Core p f held q txt ->
  Core p (LogFileAppender.Flush true f) held q txt /\
  LogFileAppender.m_cur (LogFileAppender.Flush true f) = 0 /\
  LogFileAppender.disk (LogFileAppender.Flush true f) = LogFileAppender.content f.
Proof.
  intros []. destruct (LogFileAppender.Flush_spec FSZ FSZ_range true f) as (?&Hct&?&?&?); try done.
  split; [|done]. constructor; try done. by rewrite Hct.
Qed.

(** ** The invariant of the threads *)

Variable d0 : bytes.   (* what the file held before *)

Abbreviation st := (tstate pc).

(** The buffer that a thread at [x] may use. *)
Definition hold_at (m : gmap nat (option nat)) (t : nat) (x : option st) : option nat :=
  match x with
  | None => None
  | Some (Run (AGet _ _)) => None
  | _ => mjoin (m !! t)
  end.

Definition hold (g : AsynLogAppender) (ts : list st) (t : nat) : option nat :=
  hold_at (tl g) t (ts !! t).

(** The messages that are not in the log file yet. *)
Definition pend (g : AsynLogAppender) (ts : list st) : list LogMsg :=
  match ts !! 0%nat with
  | Some (Run (WProc vp i)) => drop i (elems (get_vec vp g)) ++ elems (get_vec (m_pb1 g) g)
  | _ => elems (get_vec (m_pb1 g) g)
  end.

Definition in_app (x : st) : Z :=
  match x with
  | Run (AStart _ _) | Run (ACheck _ _) | Run (AGet _ _) | Run (ACopy _ _ _)
  | Run (APush _ _ _ _) => 1
  | _ => 0
  end.

Definition arg (t t' : nat) (msg : bytes) : Prop :=
  t' = t /\ t <> 0%nat /\ 0 < blen msg <= N /\ blen msg <= FSZ.

(** The writer between two rounds. *)
Definition w_clean (g : AsynLogAppender) : Prop :=
  elems (get_vec (negb (m_pb1 g)) g) = [] /\ LogFileAppender.m_cur (m_log_file g) = 0.

Definition begin_ok (k : client) (t t' : nat) (msg : bytes) : Prop :=
  t' = t /\ t <> 0%nat /\ blen msg <= N /\ blen msg <= FSZ /\ (blen msg = 0 -> wrong k = true).

Definition state_ok (g : AsynLogAppender) (k : client) (t : nat) (x : st) : Prop :=
  match x with
  | Idle =>
      (t = 0%nat -> joined g = true /\ m_running g = false /\
         elems (get_vec (m_pb1 g) g) = [] /\ w_clean g) /\
      (t <> 0%nat -> tl g !! t = Some None -> t ∈ dropped k)
  | Run (AStart t' msg) => begin_ok k t t' msg
  | Run (ACheck t' msg) | Run (AGet t' msg) => arg t t' msg
  | Run (ACopy t' msg b) =>
      arg t t' msg /\ tl g !! t = Some (Some b) /\
      exists fb, is_out (m_pool g) b fb /\ FixedBuffer.m_cur fb + blen msg <= N
  | Run (APush t' msg b addr) =>
      arg t t' msg /\ tl g !! t = Some (Some b) /\ 0 <= addr /\
      exists fb, is_out (m_pool g) b fb /\ addr + blen msg <= FixedBuffer.m_cur fb /\
        slice (FixedBuffer.m_buff fb) (Z.to_nat addr) (length msg) = msg
  | Run (TExit t') => t' = t /\ t <> 0%nat /\ (tl g !! t = Some None -> wrong k = true)
  | Run WStart | Run (WWait _) => t = 0%nat /\ joined g = false /\ w_clean g
  | Run (WProc vp i) => t = 0%nat /\ joined g = false /\ vp = negb (m_pb1 g)
  | Run SStop =>
      t <> 0%nat /\ stopped k = true /\ (tl g !! t = Some None -> t ∈ dropped k)
  | Run SJoin =>
      t <> 0%nat /\ stopped k = true /\ m_running g = false /\
      (tl g !! t = Some None -> t ∈ dropped k)
  | Run SDestroy =>
      t <> 0%nat /\ stopped k = true /\ m_running g = false /\ joined g = true /\
      (tl g !! t = Some None -> t ∈ dropped k)
  end.

Record Inv (n : nat) (g : AsynLogAppender) (ts : list st) (k : client) : Prop := {
  i_core : Core (m_pool g) (m_log_file g) (hold g ts) (pend g ts) (d0 ++ mjoin (acked k));
  i_st : forall t x, ts !! t = Some x -> state_ok g k t x;
  i_w : is_Some (ts !! 0%nat);
  i_cnt : sum_with in_app ts = in_flight k;
  i_run : m_running g = false -> stopped k = true;
  i_stop : stopped k = true -> in_flight k = 0;
  i_alive : alive g = m_running g
}.

Lemma in_app_nonneg x : 0 <= in_app x.
Proof. destruct x as [|[]]; simpl; lia. Qed.

(** While a thread appends the appender runs. *)
Lemma in_app_running n g ts k t x :
  Inv n g ts k -> ts !! t = Some x -> in_app x = 1 -> m_running g = true /\ stopped k = false.
Proof.
  intros HI Ht Hx. pose proof HI as [].
  pose proof (sum_with_lookup_le in_app ts t x in_app_nonneg Ht).
  assert (stopped k = false) as Hs. { destruct (stopped k); [|done]. specialize (i_stop0 eq_refl). lia. }
  split; [|done]. destruct (m_running g); [done|]. specialize (i_run0 eq_refl). congruence.
Qed.

(** What a step of another thread leaves as it is for thread [t]. *)
Record frame (g : AsynLogAppender) (k : client) (g' : AsynLogAppender) (k' : client)
    (hb : option nat) (t : nat) : Prop := {
  f_tl : tl g' !! t = tl g !! t;
  f_buf : forall b fb, hb = Some b -> is_out (m_pool g) b fb -> is_out (m_pool g') b fb;
  f_drop : t ∈ dropped k -> t ∈ dropped k';
  f_wrong : wrong k = true -> wrong k' = true;
  f_stop : stopped k = true -> stopped k' = true;
  f_run : m_running g = false -> m_running g' = false;
  f_join : joined g = true -> joined g' = true;
  f_w : t = 0%nat -> joined g' = joined g /\ m_pb1 g' = m_pb1 g /\
      (elems (get_vec (m_pb1 g) g') = elems (get_vec (m_pb1 g) g) \/ m_running g = true) /\
      elems (get_vec (negb (m_pb1 g)) g') = elems (get_vec (negb (m_pb1 g)) g) /\
      (LogFileAppender.m_cur (m_log_file g) = 0 -> LogFileAppender.m_cur (m_log_file g') = 0)
}.

Lemma state_ok_frame g k g' k' t x :
  frame g k g' k' (hold_at (tl g) t (Some x)) t -> state_ok g k t x -> state_ok g' k' t x.
Proof.
  intros [] H. destruct x as [|l]; [|destruct l]; cbn [state_ok hold_at] in *; try done.
  - destruct H as [H1 H2]. split.
    + intros ->. destruct (H1 eq_refl) as (?&Hr&He&Hc&?). destruct (f_w0 eq_refl) as (Hj&Hp&Hv&Hn&Hf).
      unfold w_clean. rewrite Hp, Hj, Hn. repeat split; try done; [by apply f_run0| |by apply Hf].
      destruct Hv as [-> | Hv]; [done|congruence].
    + intros Hne. rewrite f_tl0. auto.
  - destruct H as (->&H1&H2&H3&H4). split_and!; auto.
  - destruct H as (Ha&Hb&fb&Ho&Hc). split; [done|]. rewrite f_tl0. split; [done|].
    exists fb. split; [|done]. apply f_buf0; [by rewrite Hb|done].
  - destruct H as (Ha&Hb&Hadr&fb&Ho&Hc). split; [done|]. rewrite f_tl0. split; [done|].
    split; [done|]. exists fb. split; [|done]. apply f_buf0; [by rewrite Hb|done].
  - rewrite f_tl0. naive_solver.
  - destruct H as (->&Hj&Hc&Hf0). destruct (f_w0 eq_refl) as (Hj'&Hp&_&Hn&Hf).
    unfold w_clean. rewrite Hj', Hp, Hn. auto.
  - destruct H as (->&Hj&Hc&Hf0). destruct (f_w0 eq_refl) as (Hj'&Hp&_&Hn&Hf).
    unfold w_clean. rewrite Hj', Hp, Hn. auto.
  - destruct H as (->&Hj&Hv). destruct (f_w0 eq_refl) as (Hj'&Hp&_). by rewrite Hj', Hp.
  - rewrite f_tl0. naive_solver.
  - rewrite f_tl0. naive_solver.
  - rewrite f_tl0. naive_solver.
Qed.

Lemma inv_step n g ts k t x0 x g' k' held q :
  Inv n g ts k -> ts !! t = Some x0 ->
  Core (m_pool g') (m_log_file g') held q (d0 ++ mjoin (acked k')) ->
  (forall t', hold g' (<[t:=x]> ts) t' = held t') -> pend g' (<[t:=x]> ts) = q ->
  state_ok g' k' t x ->
  (forall t' y, t' <> t -> ts !! t' = Some y -> frame g k g' k' (hold_at (tl g) t' (Some y)) t') ->
  in_flight k' = in_flight k - in_app x0 + in_app x ->
  (m_running g' = false -> stopped k' = true) -> (stopped k' = true -> in_flight k' = 0) ->
  alive g' = m_running g' ->
  Inv (S n) g' (<[t:=x]> ts) k'.
Proof.
  intros HI Ht Hc Hh Hq Hx Hfr Hcnt Hr Hs Ha. pose proof HI as []. constructor; try done.
  - rewrite Hq. by eapply core_ext.
  - intros t' y Hy. apply list_insert_inv in Hy as [[-> ->]|[Hne Hy]]; [done|].
    eapply state_ok_frame; [by apply Hfr|by apply i_st0].
  - destruct (decide (t = 0%nat)) as [->|Hne].
    + rewrite list_lookup_insert_eq by (by eapply lookup_lt_Some). eauto.
    + by rewrite list_lookup_insert_ne by done.
  - rewrite (sum_with_insert in_app ts t x0 x Ht). lia.
Qed.

(** [hold] and [pend] after a step of thread [t]. *)
Lemma hold_step g g' ts t x0 x :
  ts !! t = Some x0 -> (forall t', t' <> t -> tl g' !! t' = tl g !! t') ->
  forall t', hold g' (<[t:=x]> ts) t' = upd (hold g ts) t (hold_at (tl g') t (Some x)) t'.
Proof.
  intros Ht Htl t'. unfold hold, upd. case_decide as Hd.
  - subst. by rewrite list_lookup_insert_eq by (by eapply lookup_lt_Some).
  - rewrite list_lookup_insert_ne by done. unfold hold_at. by rewrite Htl.
Qed.

Lemma hold_step_same g g' ts t x0 x :
  ts !! t = Some x0 -> tl g' = tl g ->
  hold_at (tl g) t (Some x) = hold_at (tl g) t (Some x0) ->
  forall t', hold g' (<[t:=x]> ts) t' = hold g ts t'.
Proof.
  intros Ht Htl Hx t'. rewrite (hold_step g g' ts t x0 x Ht) by (intros; by rewrite Htl).
  unfold upd. case_decide as Hd; [|done]. subst. unfold hold. rewrite Ht, Htl, Hx. done.
Qed.

Lemma pend_step g ts t x :
  t <> 0%nat -> pend g (<[t:=x]> ts) = pend g ts.
Proof. intros Hne. unfold pend. by rewrite list_lookup_insert_ne by done. Qed.

(** Steps of the application's threads that do not touch the vectors. *)
Lemma pend_same g g' ts :
  m_pending_buff1 g' = m_pending_buff1 g -> m_pending_buff2 g' = m_pending_buff2 g ->
  m_pb1 g' = m_pb1 g -> pend g' ts = pend g ts.
Proof. intros H1 H2 H3. unfold pend, get_vec. by rewrite H1, H2, H3. Qed.

Lemma frame_same g k p m f r al :
  forall hb t', m !! t' = tl g !! t' ->
  (forall b fb, hb = Some b -> is_out (m_pool g) b fb -> is_out p b fb) ->
  (m_running g = false -> r = false) ->
  (LogFileAppender.m_cur (m_log_file g) = 0 -> LogFileAppender.m_cur f = 0) ->
  frame g k (App r (m_curPendingMsg g) (m_flush_cnt g) f p (m_pending_buff1 g)
    (m_pending_buff2 g) (m_pb1 g) m al (joined g)) k hb t'.
Proof.
  intros hb t' H1 H2 H3 H4. constructor; try done. intros _. simpl. repeat split; auto.
Qed.

Lemma frame_k g k g' k' hb t :
  frame g k g' k hb t -> (t ∈ dropped k -> t ∈ dropped k') -> (wrong k = true -> wrong k' = true) ->
  (stopped k = true -> stopped k' = true) -> frame g k g' k' hb t.
Proof. intros []. by constructor. Qed.

Lemma frame_refl g k hb t : frame g k g k hb t.
Proof. constructor; try done. intros _. repeat split; auto. Qed.

(** *** The start of an operation *)

Lemma inv_invoke n g ts k t op k' :
  Inv n g ts k -> ts !! t = Some Idle -> cl_inv k t op = Some k' ->
  Inv (S n) g (<[t:=Run (start op)]> ts) k'.
Proof.
  intros HI Ht Hk. pose proof HI as []. unfold cl_inv in Hk. case_decide as Ht0; [done|].
  assert (Core (m_pool g) (m_log_file g) (hold g ts) (pend g ts) (d0 ++ mjoin (acked k')) /\
    (forall t', t' ∈ dropped k -> t' ∈ dropped k') /\ (wrong k = true -> wrong k' = true) /\
    (stopped k = true -> stopped k' = true) /\
    state_ok g k' t (Run (start op)) /\ in_flight k' = in_flight k + in_app (Run (start op)) /\
    (stopped k' = true -> in_flight k' = 0)) as (Hc&Hd&Hw&Hs&Hx&Hf&Hs').
  { destruct op as [t' msg|t'|]; cbn [start].
    - case_decide as Ha; [|done]. destruct Ha as (->&Hst&Hm1&Hm2). injection Hk as <-. simpl.
      split_and!; try done; try lia.
      + by intros ->.
      + split_and!; try done. intros ->. simpl. by rewrite orb_true_r.
      + rewrite Hst. done.
    - case_decide as Ha; [|done]. subst t'. injection Hk as <-. simpl.
      split_and!; try done; try lia.
      + by intros ->.
      + intros Htl. apply orb_true_iff. right. apply bool_decide_eq_true. by apply (i_st0 t Idle).
    - case_decide as Ha; [|done]. destruct Ha as (Hz&Hst). injection Hk as <-. simpl.
      split_and!; try done; try lia. by eapply (i_st0 t Idle). }
  eapply inv_step; try done.
  - intros t'. eapply (hold_step_same g g); [done|done|]. by destruct op.
  - by apply pend_step.
  - intros t' y Hne Hy. apply frame_k; [apply frame_refl|apply Hd|done..].
  - simpl in_app at 1. lia.
  - intros Hr. apply Hs. by apply i_run0.
Qed.

(** *** Pushing a message *)

Definition pushed (m : LogMsg) (g : AsynLogAppender) : AsynLogAppender :=
  let g1 := set_vec (m_pb1 g) (push_back m (get_vec (m_pb1 g) g)) g in
  App (m_running g1) (u64 (m_curPendingMsg g1 + 1)) (m_flush_cnt g1)
    (m_log_file g1) (m_pool g1) (m_pending_buff1 g1) (m_pending_buff2 g1) (m_pb1 g1)
    (tl g1) (alive g1) (joined g1).

Lemma AddToWriter_msg a ln buff g :
  m_running g = true -> AddToWriter (Some a) ln buff g = Some (pushed (Msg ln a) g).
Proof. intros Hr. unfold AddToWriter. by rewrite Hr. Qed.

Lemma AddToWriter_buff b g :
  m_running g = true -> AddToWriter None 0 (Some b) g = Some (pushed (Msg 0 (PBuff b)) g).
Proof. exact (AddToWriter_msg (PBuff b) 0 (Some b) g). Qed.

Lemma pushed_elems m g :
  elems (get_vec (m_pb1 g) (pushed m g)) = elems (get_vec (m_pb1 g) g) ++ [m] /\
  elems (get_vec (negb (m_pb1 g)) (pushed m g)) = elems (get_vec (negb (m_pb1 g)) g).
Proof. unfold pushed, get_vec, set_vec. simpl. by destruct (m_pb1 g). Qed.

Lemma pend_pushed n m g ts k :
  Inv n g ts k -> pend (pushed m g) ts = pend g ts ++ [m].
Proof.
  intros []. unfold pend. change (m_pb1 (pushed m g)) with (m_pb1 g).
  destruct (pushed_elems m g) as [E1 E2]. rewrite E1.
  destruct (ts !! 0%nat) as [[|[]]|] eqn:E0; try done.
  destruct (i_st0 _ _ E0) as (_&_&->). by rewrite E2, app_assoc.
Qed.

Lemma frame_pushed g k m tl' hb t :
  m_running g = true -> tl' !! t = tl g !! t ->
  frame g k (set_tl tl' (pushed m g)) k hb t.
Proof.
  intros Hr Ht. destruct (pushed_elems m g) as [E1 E2].
  constructor; try done. intros _. repeat split; auto.
Qed.

(** A thread at [x0] that holds [b] pushes a message about [b]. *)
Lemma inv_push n g ts k t x0 x b m tl' k' :
  Inv n g ts k -> ts !! t = Some x0 -> t <> 0%nat -> m_running g = true ->
  hold g ts t = Some b -> buf m = b -> msg_ok (m_pool g) m ->
  (forall t', t' <> t -> tl' !! t' = tl g !! t') ->
  (forall b', hold_at tl' t (Some x) = Some b' -> b' = b /\ data m <> PBuff b) ->
  state_ok (set_tl tl' (pushed m g)) k' t x ->
  d0 ++ mjoin (acked k') = (d0 ++ mjoin (acked k)) ++ text (m_pool g) m ->
  (forall t', t' <> t -> t' ∈ dropped k -> t' ∈ dropped k') -> wrong k' = wrong k ->
  stopped k' = stopped k -> in_flight k' = in_flight k - in_app x0 + in_app x ->
  (stopped k' = true -> in_flight k' = 0) ->
  Inv (S n) (set_tl tl' (pushed m g)) (<[t:=x]> ts) k'.
Proof.
  intros HI Ht Ht0 Hr Hb Hm Hok Htl Hx Hst Htx Hdr Hwr Hsk Hif Hif0. pose proof HI as [].
  eapply (inv_step n g ts k t x0 x _ k' (upd (hold g ts) t (hold_at tl' t (Some x)))
    (pend g ts ++ [m])); try done.
  - rewrite Htx.
    apply (core_push _ _ _ _ _ t b m (upd (hold g ts) t (hold_at tl' t (Some x))) i_core0); try done.
    intros t' b' [[-> H]|[Hne H]]%upd_Some; [|done].
    destruct (Hx b' H) as [-> Hd]. done.
  - intros t'. by eapply (hold_step g).
  - rewrite pend_step by done.
    rewrite (pend_same (pushed m g) (set_tl tl' (pushed m g))) by done. by eapply pend_pushed.
  - intros t' y Hne Hy. apply frame_k; [|by apply Hdr|by rewrite Hwr|by rewrite Hsk].
    apply frame_pushed; auto.
  - intros Hr'. change (m_running g = false) in Hr'. congruence.
Qed.

Lemma set_tl_id m g : set_tl (tl (pushed m g)) (pushed m g) = pushed m g.
Proof. done. Qed.

(** *** [Append] *)

(** The steps that change only the pool and the item of the thread. *)
Lemma inv_pool_step n g ts k t x0 x p m k' held q :
  Inv n g ts k -> ts !! t = Some x0 -> t <> 0%nat ->
  Core p (m_log_file g) held q (d0 ++ mjoin (acked k)) -> q = pend g ts ->
  (forall t', held t' = upd (hold g ts) t (hold_at m t (Some x)) t') ->
  (forall t', t' <> t -> m !! t' = tl g !! t') ->
  (forall t' b fb, t' <> t -> hold g ts t' = Some b -> is_out (m_pool g) b fb -> is_out p b fb) ->
  state_ok (set_tl m (set_pool p g)) k' t x ->
  acked k' = acked k -> (forall t', t' ∈ dropped k -> t' ∈ dropped k') -> wrong k' = wrong k ->
  stopped k' = stopped k -> in_flight k' = in_flight k - in_app x0 + in_app x ->
  (stopped k' = true -> in_flight k' = 0) ->
  Inv (S n) (set_tl m (set_pool p g)) (<[t:=x]> ts) k'.
Proof.
  intros HI Ht Ht0 Hc -> Hh Htl Hk Hst Ha Hdr Hwr Hsk Hif Hif0. pose proof HI as [].
  eapply (inv_step n g ts k t x0 x _ k' held (pend g ts)); try done.
  - by rewrite Ha.
  - intros t'. rewrite Hh. by eapply (hold_step g).
  - by rewrite pend_step by done.
  - intros t' y Hne Hy. apply frame_k; [|apply Hdr|by rewrite Hwr|by rewrite Hsk].
    apply (frame_same g k p m (m_log_file g) (m_running g) (alive g)); [by apply Htl| |done|done].
    intros b fb Hb. apply (Hk t'); [done|]. unfold hold. by rewrite Hy.
  - intros Hr'. rewrite Hsk. by apply i_run0.
Qed.

Lemma set_tl_pool_id g : set_tl (tl g) (set_pool (m_pool g) g) = g.
Proof. by destruct g. Qed.

(** A step that changes nothing but the thread's point. *)
Lemma inv_local_step n g ts k t x0 x :
  Inv n g ts k -> ts !! t = Some x0 -> t <> 0%nat ->
  (forall b, hold_at (tl g) t (Some x) = Some b -> hold_at (tl g) t (Some x0) = Some b) ->
  state_ok g k t x -> in_app x = in_app x0 -> Inv (S n) g (<[t:=x]> ts) k.
Proof.
  intros HI Ht Ht0 Hh Hst Hin. pose proof HI as [].
  rewrite <-(set_tl_pool_id g).
  eapply (inv_pool_step n g ts k t x0 x (m_pool g) (tl g) k
    (upd (hold g ts) t (hold_at (tl g) t (Some x))) (pend g ts)); try done.
  - destruct (hold_at (tl g) t (Some x)) as [b|] eqn:E; [|by apply core_release].
    eapply core_ext; [exact i_core0|]. intros t'. unfold upd. case_decide; [|done]. subst.
    unfold hold. rewrite Ht. symmetry. by apply Hh.
  - lia.
Qed.

Lemma tl_insert (m : gmap nat (option nat)) t r : mjoin (<[t:=r]> m !! t) = r.
Proof. by rewrite lookup_insert_eq. Qed.

Lemma code_AStart n g ts k t t0 msg :
  Inv n g ts k -> ts !! t = Some (Run (AStart t0 msg)) ->
  match code g (AStart t0 msg) with
  | Next g' l' => Inv (S n) g' (<[t:=Run l']> ts) k
  | Ret _ _ => False
  | Fault => wrong k = true
  end.
Proof.
  intros HI Ht. pose proof HI as []. pose proof (i_st0 _ _ Ht) as Ha. cbn [state_ok] in Ha.
  destruct Ha as (->&Ht0&Hm&Hm'&Hz). code_step. destruct (Z.eqb_spec (blen msg) 0) as [E0|E0]; [by apply Hz|].
  assert (Ha : arg t t msg) by (pose proof (blen_nonneg msg); split_and!; done || lia).
  destruct (tl g !! t) as [o|] eqn:E.
  - eapply inv_local_step; done.
  - destruct (FixedBuffer.GetBuff raw (m_pool g)) as [p r] eqn:Eg.
    destruct (core_GetBuff _ _ _ _ _ t _ _ i_core0 Eg) as (Hc&Hk&_).
    eapply inv_pool_step; try done.
    + intros t'. simpl. by rewrite tl_insert.
    + intros t' Hne. by rewrite lookup_insert_ne.
    + intros. by apply Hk.
    + simpl. lia.
Qed.

Lemma code_ACheck n g ts k t t0 msg :
  Inv n g ts k -> ts !! t = Some (Run (ACheck t0 msg)) ->
  match code g (ACheck t0 msg) with
  | Next g' l' => Inv (S n) g' (<[t:=Run l']> ts) k
  | _ => False
  end.
Proof.
  intros HI Ht. pose proof HI as []. pose proof (i_st0 _ _ Ht) as Ha. cbn [state_ok] in Ha.
  pose proof Ha as (->&Ht0&Hm&Hm').
  destruct (in_app_running _ _ _ _ _ _ HI Ht eq_refl) as [Hr Hs].
  code_step. destruct (mjoin (tl g !! t)) as [b|] eqn:E.
  - assert (hold g ts t = Some b) as Hb by (unfold hold; by rewrite Ht).
    destruct (c_held _ _ _ _ _ i_core0 t b Hb) as [[fb Ho] _].
    pose proof (c_cur _ _ _ _ _ i_core0 b fb Ho) as Hcur.
    rewrite (proj1 Ho). unfold FixedBuffer.Available. rewrite u64_id by lia.
    destruct (Z.ltb_spec (N - FixedBuffer.m_cur fb) (blen msg)).
    + rewrite AddToWriter_buff by done. rewrite <-set_tl_id.
      eapply inv_push; try done.
      * split; [done|]. by exists fb.
      * unfold text. simpl. by rewrite app_nil_r.
      * simpl. lia.
    + eapply inv_local_step; try done. split; [done|]. split; [|exists fb; split; [done|lia]].
      destruct (tl g !! t) as [o|]; [|done]. simpl in E. by subst.
  - eapply inv_local_step; done.
Qed.

Lemma code_AGet n g ts k t t0 msg :
  Inv n g ts k -> ts !! t = Some (Run (AGet t0 msg)) ->
  match code g (AGet t0 msg) with
  | Next g' l' => Inv (S n) g' (<[t:=Run l']> ts) k
  | Ret g' r => Inv (S n) g' (<[t:=Idle]> ts) (cl_ret k t r)
  | Fault => False
  end.
Proof.
  intros HI Ht. pose proof HI as []. pose proof (i_st0 _ _ Ht) as Ha. cbn [state_ok] in Ha.
  pose proof Ha as (->&Ht0&Hm&Hm').
  destruct (in_app_running _ _ _ _ _ _ HI Ht eq_refl) as [Hr Hs].
  code_step. destruct (FixedBuffer.GetBuff raw (m_pool g)) as [p r] eqn:Eg.
  destruct (core_GetBuff _ _ _ _ _ t _ _ i_core0 Eg) as (Hc&Hk&Hnew).
  assert (forall t', t' <> t -> <[t:=r]> (tl g) !! t' = tl g !! t') as Htl.
  { intros t' Hne. by rewrite lookup_insert_ne. }
  destruct r as [b|].
  - destruct (Hnew b eq_refl) as (fb&Ho&Hcur).
    eapply inv_pool_step; try done.
    + intros t'. simpl. by rewrite tl_insert.
    + intros. by apply Hk.
    + cbn [state_ok]. split; [done|]. simpl. rewrite lookup_insert_eq. split; [done|].
      exists fb. split; [done|lia].
    + simpl. lia.
  - eapply inv_pool_step; try done.
    + intros t'. simpl. by rewrite tl_insert.
    + intros. by apply Hk.
    + split; [done|]. intros _ _. simpl. set_solver.
    + simpl. set_solver.
    + simpl. lia.
    + simpl. rewrite Hs. done.
Qed.

Lemma code_ACopy n g ts k t t0 msg b :
  Inv n g ts k -> ts !! t = Some (Run (ACopy t0 msg b)) ->
  match code g (ACopy t0 msg b) with
  | Next g' l' => Inv (S n) g' (<[t:=Run l']> ts) k
  | _ => False
  end.
Proof.
  intros HI Ht. pose proof HI as []. pose proof (i_st0 _ _ Ht) as Ha. cbn [state_ok] in Ha.
  destruct Ha as ((->&Ht0&Hm&Hm')&Htl&fb&Ho&Hroom).
  assert (hold g ts t = Some b) as Hb by (unfold hold; rewrite Ht; simpl; by rewrite Htl).
  pose proof (c_cur _ _ _ _ _ i_core0 b fb Ho) as Hcur.
  destruct (core_fill g _ _ _ _ t b fb msg i_core0 Hb Ho Hroom)
    as (p'&fb'&Hf&Hc&Ho'&Hcur'&Hs&Hoth).
  code_step. rewrite Hf. rewrite <-(set_tl_pool_id (set_pool p' g)).
  change (set_tl (tl (set_pool p' g)) (set_pool (m_pool (set_pool p' g)) (set_pool p' g)))
    with (set_tl (tl g) (set_pool p' g)).
  eapply inv_pool_step; try done.
  - intros t'. unfold upd. case_decide; [|done]. subst. simpl. rewrite Htl. done.
  - intros t' b' fb'' Hne Hb' Ho''. apply Hoth; [|done]. intros ->. apply Hne.
    by eapply (c_inj _ _ _ _ _ i_core0).
  - cbn [state_ok]. split; [done|]. split; [done|]. split; [lia|]. exists fb'.
    split; [done|]. split; [lia|done].
  - simpl. lia.
Qed.

Lemma code_APush n g ts k t t0 msg b addr :
  Inv n g ts k -> ts !! t = Some (Run (APush t0 msg b addr)) ->
  match code g (APush t0 msg b addr) with
  | Ret g' r => Inv (S n) g' (<[t:=Idle]> ts) (cl_ret k t r)
  | _ => False
  end.
Proof.
  intros HI Ht. pose proof HI as []. pose proof (i_st0 _ _ Ht) as Ha. cbn [state_ok] in Ha.
  destruct Ha as ((->&Ht0&Hm&Hm')&Htl&Hadr&fb&Ho&Hend&Hs).
  destruct (in_app_running _ _ _ _ _ _ HI Ht eq_refl) as [Hr Hsk].
  assert (hold g ts t = Some b) as Hb by (unfold hold; rewrite Ht; simpl; by rewrite Htl).
  assert (text (m_pool g) (Msg (blen msg) (PChar b addr)) = msg) as Htx.
  { unfold text. simpl. rewrite (proj1 Ho). unfold blen. by rewrite Nat2Z.id. }
  code_step. rewrite AddToWriter_msg by done. rewrite <-set_tl_id. unfold cl_ret.
  destruct (Z.eqb_spec (blen msg) 0); [lia|].
  eapply inv_push; try done.
  - split; [simpl; lia|]. split; [done|]. by exists fb.
  - simpl. rewrite Htl. simpl. intros b' [= <-]. done.
  - split; [done|]. intros _. simpl. by rewrite Htl.
  - rewrite Htx. simpl. rewrite join_app. simpl. by rewrite app_nil_r, app_assoc.
  - simpl. intros t' Hne Hd. set_solver.
  - simpl. lia.
  - simpl. rewrite Hsk. done.
Qed.

(** *** The exit of a thread, [Stop] *)

(** The item goes and nothing is left to give back. *)
Lemma exit_quiet n g ts k t :
  Inv n g ts k -> ts !! t = Some (Run (TExit t)) -> t <> 0%nat ->
  Inv (S n) (set_tl (delete t (tl g)) g) (<[t:=Idle]> ts) k.
Proof.
  intros HI Ht Ht0. pose proof HI as [].
  eapply (inv_pool_step n g ts k t _ Idle (m_pool g) (delete t (tl g)) k
    (upd (hold g ts) t None) (pend g ts)); try done.
  - by apply core_release.
  - intros t'. simpl. by rewrite lookup_delete_eq.
  - intros t' Hne. by rewrite lookup_delete_ne.
  - split; [done|]. simpl. rewrite lookup_delete_eq. done.
  - simpl. lia.
Qed.

Lemma code_TExit n g ts k t t0 :
  Inv n g ts k -> ts !! t = Some (Run (TExit t0)) ->
  match code g (TExit t0) with
  | Ret g' r => Inv (S n) g' (<[t:=Idle]> ts) (cl_ret k t r)
  | Next _ _ => False
  | Fault => wrong k = true
  end.
Proof.
  intros HI Ht. pose proof HI as []. pose proof (i_st0 _ _ Ht) as (->&Ht0&Htl). code_step.
  pose proof (exit_quiet n g ts k t HI Ht Ht0) as Hq.
  destruct (tl g !! t) as [[b|]|] eqn:E.
  - assert (hold g ts t = Some b) as Hb by (unfold hold; rewrite Ht; simpl; by rewrite E).
    cbv zeta. rewrite i_alive0. destruct (m_running g) eqn:Hr; [|exact Hq].
    rewrite (AddToWriter_buff b (set_tl (delete t (tl g)) g)) by done.
    change (pushed (Msg 0 (PBuff b)) (set_tl (delete t (tl g)) g))
      with (set_tl (delete t (tl g)) (pushed (Msg 0 (PBuff b)) g)).
    destruct (c_held _ _ _ _ _ i_core0 t b Hb) as [[fb Ho] _].
    eapply inv_push; try done.
    + split; [done|]. by exists fb.
    + intros t' Hne. by rewrite lookup_delete_ne.
    + simpl. rewrite lookup_delete_eq. done.
    + split; [done|]. simpl. rewrite lookup_delete_eq. done.
    + unfold text. simpl. by rewrite app_nil_r.
    + simpl. lia.
  - cbv zeta. destruct (alive g); [by apply Htl|exact Hq].
  - eapply inv_local_step; try done. split; [done|]. intros _. by rewrite E.
Qed.

Lemma code_Stop n g ts k t l :
  Inv n g ts k -> ts !! t = Some (Run l) -> l = SStop \/ l = SJoin \/ l = SDestroy ->
  match code g l with
  | Next g' l' => Inv (S n) g' (<[t:=Run l']> ts) k
  | Ret g' r => Inv (S n) g' (<[t:=Idle]> ts) (cl_ret k t r)
  | Fault => False
  end.
Proof.
  intros HI Ht Hl. pose proof HI as []. pose proof (i_st0 _ _ Ht) as Hx.
  destruct Hl as [->|[->| ->]]; cbn [code Stop_step state_ok] in *.
  - destruct Hx as (Ht0&Hs&Htl).
    eapply (inv_step n g ts k t _ (Run SJoin) _ k (hold g ts) (pend g ts)); try done.
    + intros t'. by eapply (hold_step_same g).
    + by rewrite pend_step by done.
    + intros t' y Hne Hy. by apply frame_same.
    + simpl. lia.
  - destruct Hx as (Ht0&Hs&Hr&Htl). destruct (joined g) eqn:Hj.
    + eapply inv_local_step; done.
    + eapply inv_local_step; done.
  - destruct Hx as (Ht0&Hs&Hr&Hj&Htl).
    destruct (core_flush _ _ _ _ _ i_core0) as (Hc&Hf&_).
    destruct (FixedBuffer.truncate_spec N raw N_range raw_length total 0 (m_pool g) (c_pool _ _ _ _ _ i_core0))
      as (Hwf&Hk&Hk').
    eapply (inv_step n g ts k t _ Idle _ k (hold g ts) (pend g ts)); try done.
    + eapply core_pool; [exact Hc|done|done|]. intros b fb Ho. left. by apply Hk'.
    + intros t'. by eapply (hold_step_same g).
    + by rewrite pend_step by done.
    + intros t' y Hne Hy.
      apply (frame_same g k _ (tl g) _ (m_running g) (alive g)); try done. intros b fb _. apply Hk.
    + simpl. lia.
Qed.

(** *** The writer *)

Lemma inv_wstep n g ts k x0 x g' :
  Inv n g ts k -> ts !! 0%nat = Some x0 -> in_app x = 0 -> in_app x0 = 0 ->
  Core (m_pool g') (m_log_file g') (hold g ts) (pend g' (<[0%nat:=x]> ts)) (d0 ++ mjoin (acked k)) ->
  tl g' = tl g -> hold_at (tl g) 0%nat (Some x) = hold_at (tl g) 0%nat (Some x0) ->
  m_running g' = m_running g -> alive g' = alive g -> (joined g = true -> joined g' = true) ->
  (forall t b fb, hold g ts t = Some b -> is_out (m_pool g) b fb -> is_out (m_pool g') b fb) ->
  state_ok g' k 0%nat x -> Inv (S n) g' (<[0%nat:=x]> ts) k.
Proof.
  intros HI Ht Hx Hx0 Hc Htl Hh Hr Ha Hj Hk Hst. pose proof HI as [].
  eapply (inv_step n g ts k 0%nat x0 x g' k (hold g ts) _ HI Ht Hc); try done.
  - intros t'. by eapply (hold_step_same g).
  - intros t' y Hne Hy. constructor; try done; [by rewrite Htl| |by rewrite Hr].
    intros b fb Hb. apply (Hk t'). unfold hold. by rewrite Hy.
  - lia.
  - by rewrite Hr.
  - by rewrite Ha, Hr.
Qed.

Definition waiting (x0 : st) : Prop := x0 = Run WStart \/ exists idle, x0 = Run (WWait idle).

Lemma waiting_ok n g ts k x0 :
  Inv n g ts k -> ts !! 0%nat = Some x0 -> waiting x0 ->
  joined g = false /\ w_clean g /\ in_app x0 = 0 /\
  pend g ts = elems (get_vec (m_pb1 g) g) /\
  hold_at (tl g) 0%nat (Some x0) = mjoin (tl g !! 0%nat).
Proof.
  intros [] Ht Hw. pose proof (i_st0 _ _ Ht) as Hx.
  destruct Hw as [->|[idle ->]]; destruct Hx as (_&?&?); unfold pend; by rewrite Ht.
Qed.

Lemma take_ok n g ts k x0 :
  Inv n g ts k -> ts !! 0%nat = Some x0 -> waiting x0 ->
  match take_messages g with
  | Next g' l' => Inv (S n) g' (<[0%nat:=Run l']> ts) k
  | Ret g' r => Inv (S n) g' (<[0%nat:=Idle]> ts) (cl_ret k 0%nat r)
  | Fault => False
  end.
Proof.
  intros HI Ht Hw. destruct (waiting_ok _ _ _ _ _ HI Ht Hw) as (Hj&[Hv Hf]&Hx0&Hp&Hh).
  pose proof HI as []. assert (0 < length ts)%nat as Hlen by (by eapply lookup_lt_Some).
  unfold take_messages.
  destruct (negb (m_running g) && bool_decide (elems (get_vec (m_pb1 g) g) = [])) eqn:E.
  - apply andb_true_iff in E as [Hr He]. apply negb_true_iff in Hr.
    apply bool_decide_eq_true in He.
    eapply inv_wstep; try done.
    unfold pend. rewrite list_lookup_insert_eq by done. rewrite Hp in i_core0. done.
  - eapply inv_wstep; try done.
    + unfold pend. rewrite list_lookup_insert_eq by done.
      simpl m_pb1. cbn [drop]. rewrite Hp in i_core0.
      change (get_vec (negb (m_pb1 g)) _) with (get_vec (negb (m_pb1 g)) g).
      change (get_vec (m_pb1 g) _) with (get_vec (m_pb1 g) g).
      by rewrite Hv, app_nil_r.
    + split; [done|]. split; [done|]. simpl. by rewrite negb_involutive.
Qed.

Lemma wait_or_take_ok n g ts k x0 idle :
  Inv n g ts k -> ts !! 0%nat = Some x0 -> waiting x0 ->
  match wait_or_take idle g with
  | Next g' l' => Inv (S n) g' (<[0%nat:=Run l']> ts) k
  | Ret g' r => Inv (S n) g' (<[0%nat:=Idle]> ts) (cl_ret k 0%nat r)
  | Fault => False
  end.
Proof.
  intros HI Ht Hw. unfold wait_or_take. destruct (m_running g) eqn:Hr; [|by eapply take_ok].
  destruct (waiting_ok _ _ _ _ _ HI Ht Hw) as (Hj&Hc&Hx0&Hp&Hh). pose proof HI as [].
  eapply inv_wstep; try done.
  unfold pend. rewrite list_lookup_insert_eq by (by eapply lookup_lt_Some).
  by rewrite Hp in i_core0.
Qed.

(** Shrinking with both vectors empty. *)
Lemma shrink_elems g :
  elems (get_vec (m_pb1 g) g) = [] -> elems (get_vec (negb (m_pb1 g)) g) = [] ->
  forall b, elems (get_vec b (ShrinkMemoryUsageUnlock g)) = [].
Proof.
  intros He Hv. assert (forall v, elems v = [] -> elems (shrink_vec v) = []) as Hs.
  { intros v Hv0. unfold shrink_vec. by destruct (_ <? _). }
  unfold get_vec in *. intros b. destruct b, (m_pb1 g); apply Hs; done.
Qed.

Lemma shrink_ok n g ts k x0 :
  Inv n g ts k -> ts !! 0%nat = Some x0 -> waiting x0 -> elems (get_vec (m_pb1 g) g) = [] ->
  Inv n (ShrinkMemoryUsageUnlock g) ts k.
Proof.
  intros HI Ht Hw He. destruct (waiting_ok _ _ _ _ _ HI Ht Hw) as (Hj&[Hv Hf]&Hx0&Hp&Hh).
  pose proof HI as [].
  pose proof (shrink_elems g He Hv) as Hn.
  destruct (FixedBuffer.Shrink_spec N raw N_range raw_length total 1 (m_pool g) (c_pool _ _ _ _ _ i_core0)) as (Hwf&Hk&Hk').
  constructor; try done.
  - assert (pend (ShrinkMemoryUsageUnlock g) ts = pend g ts) as ->.
    { rewrite Hp, He. unfold pend. rewrite Ht. destruct Hw as [->|[idle ->]]; apply Hn. }
    eapply core_ext; [|done]. eapply core_pool; [exact i_core0|done|done|].
    intros b fb Ho. left. by apply Hk'.
  - intros t y Hy. destruct (decide (t = 0%nat)) as [->|Hne].
    + rewrite Ht in Hy. injection Hy as <-.
      destruct Hw as [->|[idle ->]]; (split; [done|]; split; [done|]; split; [apply Hn|done]).
    + eapply (state_ok_frame g k); [|by apply i_st0]. constructor; try done.
      intros b fb _. apply Hk.
Qed.

Lemma code_wait n g ts k l :
  Inv n g ts k -> ts !! 0%nat = Some (Run l) -> waiting (Run l) ->
  match code g l with
  | Next g' l' => Inv (S n) g' (<[0%nat:=Run l']> ts) k
  | Ret g' r => Inv (S n) g' (<[0%nat:=Idle]> ts) (cl_ret k 0%nat r)
  | Fault => False
  end.
Proof.
  intros HI Ht Hw. pose proof Hw as Hw'. destruct Hw' as [[= ->]|[idle [= ->]]]; code_step.
  - by eapply wait_or_take_ok.
  - destruct (bool_decide _) eqn:He; [|by eapply take_ok]. apply bool_decide_eq_true in He.
    cbv zeta. eapply wait_or_take_ok; [|exact Ht|done].
    destruct (idle + 1 =? 8); [|done]. by eapply shrink_ok.
Qed.

Lemma code_WProc n g ts k vp i :
  Inv n g ts k -> ts !! 0%nat = Some (Run (WProc vp i)) ->
  match code g (WProc vp i) with
  | Next g' l' => Inv (S n) g' (<[0%nat:=Run l']> ts) k
  | _ => False
  end.
Proof.
  intros HI Ht. pose proof HI as []. pose proof (i_st0 _ _ Ht) as (_&Hj&->).
  assert (0 < length ts)%nat as Hlen by (by eapply lookup_lt_Some).
  code_step. unfold process. set (vp := negb (m_pb1 g)).
  assert (pend g ts = drop i (elems (get_vec vp g)) ++ elems (get_vec (m_pb1 g) g)) as Hp.
  { unfold pend. by rewrite Ht. }
  destruct (elems (get_vec vp g) !! i) as [m|] eqn:Hm.
  - rewrite (drop_S _ _ _ Hm) in Hp. simpl in Hp. rewrite Hp in i_core0.
    assert (forall g', get_vec vp g' = get_vec vp g -> get_vec (m_pb1 g) g' = get_vec (m_pb1 g) g ->
      m_pb1 g' = m_pb1 g -> pend g' (<[0%nat:=Run (WProc vp (S i))]> ts) =
      drop (S i) (elems (get_vec vp g)) ++ elems (get_vec (m_pb1 g) g)) as Hp'.
    { intros g' E1 E2 E3. unfold pend. rewrite list_lookup_insert_eq by done. by rewrite E1, E3, E2. }
    destruct (data m) as [b|b off] eqn:Hd.
    + destruct (core_recycle _ _ _ _ _ m b i_core0 Hd) as (->&p'&HR&Hc&Hk&Hnh).
      simpl (0 =? 0). cbv iota. rewrite HR. eapply inv_wstep; try done.
      * by rewrite Hp' by done.
      * intros t b' fb Hb'. apply Hk. intros ->. by eapply Hnh.
    + destruct (core_write g _ _ _ m b off i_core0 Hd) as (Hl&s&f'&r&Hrd&HA&Hc).
      destruct (Z.eqb_spec (len m) 0); [lia|]. rewrite Hrd, HA. eapply inv_wstep; try done.
      by rewrite Hp' by done.
  - apply lookup_ge_None in Hm. rewrite drop_ge in Hp by done. simpl in Hp. rewrite Hp in i_core0.
    destruct (core_flush _ _ _ _ _ i_core0) as (Hc&Hf&_).
    set (g' := set_vec vp (Vec [] (capacity (get_vec vp (set_file
      (LogFileAppender.Flush true (m_log_file g)) g)))) (set_file (LogFileAppender.Flush true
      (m_log_file g)) g)).
    assert (elems (get_vec vp g') = [] /\ get_vec (m_pb1 g) g' = get_vec (m_pb1 g) g) as [E1 E2].
    { unfold g', get_vec, set_vec, vp. simpl. by destruct (m_pb1 g). }
    eapply inv_wstep; try done.
    unfold pend. rewrite list_lookup_insert_eq by done. change (m_pb1 g') with (m_pb1 g).
    by rewrite E2.
Qed.

(** ** All the steps *)

Lemma inv_code n g ts k t l :
  Inv n g ts k -> ts !! t = Some (Run l) ->
  match code g l with
  | Next g' l' => Inv (S n) g' (<[t:=Run l']> ts) k
  | Ret g' r => Inv (S n) g' (<[t:=Idle]> ts) (cl_ret k t r)
  | Fault => wrong k = true
  end.
Proof.
  intros HI Ht. pose proof HI as []. pose proof (i_st0 _ _ Ht) as Hx.
  destruct l as [t0 msg|t0 msg|t0 msg|t0 msg b|t0 msg b addr|t0| |idle|vp i| | |].
  - pose proof (code_AStart _ _ _ _ _ _ _ HI Ht). by destruct (code g _).
  - pose proof (code_ACheck _ _ _ _ _ _ _ HI Ht). by destruct (code g _).
  - pose proof (code_AGet _ _ _ _ _ _ _ HI Ht). by destruct (code g _).
  - pose proof (code_ACopy _ _ _ _ _ _ _ _ HI Ht). by destruct (code g _).
  - pose proof (code_APush _ _ _ _ _ _ _ _ _ HI Ht). by destruct (code g _).
  - pose proof (code_TExit _ _ _ _ _ _ HI Ht). by destruct (code g _).
  - destruct Hx as [-> _]. pose proof (code_wait _ _ _ _ _ HI Ht (or_introl eq_refl)). by destruct (code g _).
  - destruct Hx as [-> _]. pose proof (code_wait _ _ _ _ _ HI Ht (or_intror (ex_intro _ idle eq_refl))).
    by destruct (code g _).
  - destruct Hx as [-> _]. pose proof (code_WProc _ _ _ _ _ _ HI Ht). by destruct (code g _).
  - pose proof (code_Stop _ _ _ _ _ _ HI Ht ltac:(by left)). by destruct (code g _).
  - pose proof (code_Stop _ _ _ _ _ _ HI Ht ltac:(by right; left)). by destruct (code g _).
  - pose proof (code_Stop _ _ _ _ _ _ HI Ht ltac:(by right; right)). by destruct (code g _).
Qed.

Lemma inv_any n n' g ts k : Inv n g ts k -> Inv n' g ts k.
Proof. intros []. by constructor. Qed.

Lemma misused_snoc d h e :
  misused_from d (h ++ [e]) = misused_from d h || misuse (foldl note_drop d h) e.
Proof.
  revert d. induction h as [|x h IH]; intros d; simpl; [by rewrite orb_false_r|]. by rewrite IH, orb_assoc.
Qed.

(** What the client knows is what the history says. *)
Lemma client_history c0 n h c :
  reach start code cl_inv cl_ret c0 n h c -> acked (cl c0) = [] -> dropped (cl c0) = ∅ -> wrong (cl c0) = false ->
  acked (cl c) = acked_of h /\ dropped (cl c) = foldl note_drop ∅ h /\ wrong (cl c) = misused h.
Proof.
  intros Hr H0 H1 H2. induction Hr as [|n h c t a c' e Hr IH Hs]; [done|].
  destruct IH as (IHa&IHd&IHw). unfold misused in *.
  assert (He : e = [] -> acked (cl c') = acked (cl c) -> dropped (cl c') = dropped (cl c) -> wrong (cl c') = wrong (cl c) ->
    acked (cl c') = acked_of (h ++ e) /\ dropped (cl c') = foldl note_drop ∅ (h ++ e) /\
    wrong (cl c') = misused_from ∅ (h ++ e)) by (intros -> -> -> ->; by rewrite app_nil_r).
  apply cstep_inv in Hs as [_ [(op&k&->&Ht&Hk&->&->)|[(l&g&l'&->&Ht&Hc&->&->)|
    [(l&g&r&->&Ht&Hc&->&->)|(l&->&Ht&Hc&->&->)]]]]; [|by apply He| |by apply He];
    clear He; unfold acked_of in *; rewrite omap_app, foldl_app, misused_snoc, <-IHa, <-IHd, <-IHw; simpl.
  - unfold cl_inv in Hk. destruct op; repeat case_decide; simplify_eq/=; by rewrite ?app_nil_r, ?orb_false_r.
  - rewrite orb_false_r. destruct r as [t' msg z|]; simpl; [|by rewrite app_nil_r].
    destruct (z =? 0); simpl; by rewrite ?app_nil_r.
Qed.

Section Runs.
Variable flush_cnt : Z.
Variable f : LogFile.
Variable p : Pool.
Variable threads : nat.
Hypothesis p_wf : FixedBuffer.pool_wf N total p.
Hypothesis p_in : forall b fb, ~ is_out p b fb.
Hypothesis f_wf : LogFileAppender.file_wf FSZ f.
Hypothesis f_io : LogFileAppender.WErr ∉ LogFileAppender.io f.
Hypothesis f_new : LogFileAppender.m_cur f = 0.
Hypothesis f_d0 : LogFileAppender.disk f = d0.

Abbreviation c0 := (asyn_init (AsynLogAppender_init flush_cnt f p) threads).

Lemma inv_init : Inv 0 (sh c0) (ths c0) (cl c0).
Proof.
  assert (forall t, hold (sh c0) (ths c0) t = None) as Hn.
  { intros t. unfold hold, hold_at. change (tl (sh c0)) with (∅ : gmap nat (option nat)).
    rewrite lookup_empty. by destruct (ths c0 !! t) as [[|[]]|]. }
  constructor; try done.
  - constructor; try done.
    + intros b fb Ho. by apply p_in in Ho.
    + intros t b Hb. by rewrite Hn in Hb.
    + intros t t' b Hb. by rewrite Hn in Hb.
    + simpl. unfold LogFileAppender.content. rewrite f_new, f_d0. simpl. by rewrite !app_nil_r.
  - intros [|t] x Hx; simpl in Hx.
    + injection Hx as <-. split; [done|]. split; [done|]. split; [done|]. exact f_new.
    + apply lookup_replicate in Hx as [-> _]. split; [done|]. intros _ Hx. discriminate Hx.
  - simpl. rewrite sum_with_replicate. simpl. lia.
Qed.

(** The invariant holds whether or not a step has faulted, and a fault follows a misuse. *)
Lemma inv_reach n h c :
  reach start code cl_inv cl_ret c0 n h c ->
  (faulted c = true -> misused h = true) /\ Inv n (sh c) (ths c) (cl c) /\ acked (cl c) = acked_of h.
Proof.
  intros Hr. destruct (client_history c0 n h c Hr eq_refl eq_refl eq_refl) as (Ha&_&Hw).
  pose proof (reach_invariant_bad start code cl_inv cl_ret n Inv (fun k => wrong k = true)
    (fun n g ts k t op k' _ => inv_invoke n g ts k t op k') (fun n g ts k t l _ => inv_code n g ts k t l)
    c0 n h c eq_refl inv_init Hr (Nat.le_refl _)) as H.
  destruct (faulted c).
  - destruct H as [Hb HI]. split_and!; [by rewrite <-Hw|by eapply inv_any|done].
  - by split_and!.
Qed.

Lemma idle_written n g ts k :
  Inv n g ts k -> ts !! 0%nat = Some Idle ->
  LogFileAppender.disk (m_log_file g) = d0 ++ mjoin (acked k).
Proof.
  intros [] Ht. destruct (i_st0 _ _ Ht) as [H _]. destruct (H eq_refl) as (_&_&He&_&Hf).
  rewrite <-(c_text _ _ _ _ _ i_core0). unfold pend. rewrite Ht, He.
  unfold LogFileAppender.content. rewrite Hf. simpl. by rewrite !app_nil_r.
Qed.

Lemma waiting_written n g ts k x0 :
  Inv n g ts k -> ts !! 0%nat = Some x0 -> waiting x0 -> elems (get_vec (m_pb1 g) g) = [] ->
  LogFileAppender.disk (m_log_file g) = d0 ++ mjoin (acked k).
Proof.
  intros HI Ht Hw He. destruct (waiting_ok _ _ _ _ _ HI Ht Hw) as (_&[_ Hf]&_&Hp&_).
  pose proof HI as []. rewrite <-(c_text _ _ _ _ _ i_core0), Hp, He.
  unfold LogFileAppender.content. rewrite Hf. simpl. by rewrite !app_nil_r.
Qed.

(** *** The writer alone *)

Lemma process_shape vp i g g' l' :
  process vp i g = Next g' l' ->
  m_running g' = m_running g /\ m_pb1 g' = m_pb1 g /\
  elems (get_vec (negb vp) g') = elems (get_vec (negb vp) g) /\
  ((l' = WStart /\ elems (get_vec vp g) !! i = None) \/
   (l' = WProc vp (S i) /\ elems (get_vec vp g') = elems (get_vec vp g) /\
    (i < length (elems (get_vec vp g)))%nat)).
Proof.
  unfold process. destruct (elems (get_vec vp g) !! i) as [m|] eqn:Hm.
  - apply lookup_lt_Some in Hm as Hlt. destruct (len m =? 0).
    + destruct (data m); [|done]. destruct (FixedBuffer.Recycle _ _); [done|].
      intros [= <- <-]. eauto 10.
    + destruct (read_msg m g); [|done]. destruct (LogFileAppender.Append _ _ _) as [|[f' z]]; [done|].
      intros [= <- <-]. eauto 10.
  - intros [= <- <-]. split; [done|]. split; [done|]. split; [|by left].
    unfold get_vec, set_vec. by destruct vp.
Qed.

Lemma process_all j n g ts k vp i :
  Inv n g ts k -> ts !! 0%nat = Some (Run (WProc vp i)) ->
  (length (elems (get_vec vp g)) - i < j)%nat ->
  exists m g', solo code m g (WProc vp i) = Next g' WStart /\
    Inv n g' (<[0%nat:=Run WStart]> ts) k /\ m_running g' = m_running g /\
    m_pb1 g' = m_pb1 g /\
    elems (get_vec (m_pb1 g') g') = elems (get_vec (m_pb1 g) g).
Proof.
  revert n g ts i. induction j as [|j IH]; intros n g ts i HI Ht Hj; [lia|].
  pose proof (code_WProc _ _ _ _ _ _ HI Ht) as Hc. cbn [code LoggingThread_step] in Hc.
  pose proof HI as []. pose proof (i_st0 _ _ Ht) as (_&_&Hvp).
  destruct (process vp i g) as [g1 l1| |] eqn:E; [|done|done].
  destruct (process_shape _ _ _ _ _ E) as (Hr&Hpb&Hel&[[-> Hn]|(->&Hv&Hi)]).
  - exists 1%nat, g1. split; [by simpl; rewrite E|]. split; [by eapply inv_any|].
    split; [done|]. split; [done|]. rewrite Hpb. rewrite Hvp, negb_involutive in Hel. done.
  - destruct (IH (S n) g1 (<[0%nat:=Run (WProc vp (S i))]> ts) (S i)) as (m&g'&Hs&HI'&Hr'&Hp'&He').
    + done.
    + apply list_lookup_insert_eq. by eapply lookup_lt_Some.
    + rewrite Hv. lia.
    + exists (S m), g'. split; [simpl; by rewrite E|].
      rewrite list_insert_insert_eq in HI'. split; [by eapply inv_any|].
      split; [by rewrite Hr'|]. split; [by rewrite Hp'|]. rewrite He'. rewrite Hpb.
      rewrite Hvp, negb_involutive in Hel. done.
Qed.

Definition taken (g : AsynLogAppender) : AsynLogAppender :=
  App (m_running g) 0 (m_flush_cnt g) (m_log_file g) (m_pool g)
    (m_pending_buff1 g) (m_pending_buff2 g) (negb (m_pb1 g)) (tl g) (alive g) (joined g).

Lemma take_nonempty g :
  elems (get_vec (m_pb1 g) g) <> [] ->
  take_messages g = Next (taken g) (WProc (m_pb1 g) 0) /\
  exists m : pc -> nat, forall l, waiting (Run l) ->
    solo code (m l) g l = Next (taken g) (WProc (m_pb1 g) 0).
Proof.
  intros He. assert (take_messages g = Next (taken g) (WProc (m_pb1 g) 0)) as Htk.
  { unfold take_messages. by rewrite (bool_decide_eq_false_2 _ He), andb_false_r. }
  assert (forall idle, code g (WWait idle) = take_messages g) as Hww.
  { intros idle. code_step. by rewrite (bool_decide_eq_false_2 _ He). }
  split; [done|].
  exists (fun l => match l with WStart => if m_running g then 2%nat else 1%nat | _ => 1%nat end).
  intros l [[= ->]|[idle [= ->]]].
  - assert (code g WStart = if m_running g then Next g (WWait 0) else take_messages g) as Hst by done.
    destruct (m_running g); cbn [solo]; rewrite Hst; [rewrite Hww|]; by rewrite Htk.
  - cbn [solo]. by rewrite Hww, Htk.
Qed.

(** From a point where it waits, the writer brings every pushed message to disk;
    it ends if the appender is stopped. *)
Lemma waiting_flushes n g ts k l :
  Inv n g ts k -> ts !! 0%nat = Some (Run l) -> waiting (Run l) ->
  (exists m g' l', solo code m g l = Next g' l' /\
     LogFileAppender.disk (m_log_file g') = d0 ++ mjoin (acked k)) /\
  (m_running g = false -> exists m g', solo code m g l = Ret g' RVoid /\
     LogFileAppender.disk (m_log_file g') = d0 ++ mjoin (acked k)).
Proof.
  intros HI Ht Hw. assert (0 < length ts)%nat as Hlen by (by eapply lookup_lt_Some).
  assert (forall n g ts l, Inv n g ts k -> ts !! 0%nat = Some (Run l) -> waiting (Run l) ->
    elems (get_vec (m_pb1 g) g) = [] -> m_running g = false ->
    exists m g', solo code m g l = Ret g' RVoid /\
      LogFileAppender.disk (m_log_file g') = d0 ++ mjoin (acked k)) as Hend.
  { clear HI Ht Hw Hlen n g ts l. intros n g ts l HI Ht Hw He Hr. pose proof (code_wait _ _ _ _ _ HI Ht Hw) as Hc.
    assert (exists g', code g l = Ret g' RVoid) as [g' Hg].
    { destruct Hw as [[= ->]|[idle [= ->]]]; code_step.
      - unfold wait_or_take, take_messages. rewrite Hr, He. simpl. eauto.
      - rewrite He. cbv zeta. simpl bool_decide. cbv iota.
        unfold wait_or_take, take_messages.
        set (g1 := if idle + 1 =? 8 then ShrinkMemoryUsageUnlock g else g).
        assert (m_running g1 = false) as ->.
        { unfold g1. by destruct (idle + 1 =? 8). }
        assert (elems (get_vec (m_pb1 g1) g1) = []) as ->.
        { unfold g1. destruct (idle + 1 =? 8); [|done]. apply shrink_elems; [done|].
          by destruct (waiting_ok _ _ _ _ _ HI Ht (or_intror (ex_intro _ idle eq_refl)))
            as (_&[Hv _]&_). }
        simpl. eauto. }
    rewrite Hg in Hc. exists 1%nat, g'. split; [simpl; by rewrite Hg|].
    assert (0 < length ts)%nat by (by eapply lookup_lt_Some).
    eapply (idle_written (S n)); [exact Hc|]. by apply list_lookup_insert_eq. }
  destruct (decide (elems (get_vec (m_pb1 g) g) = [])) as [He|He].
  { split; [|intros Hr; by eapply Hend]. exists 0%nat, g, l. split; [done|].
    by eapply waiting_written. }
  destruct (take_nonempty g He) as [Htk [fm Hs]]. specialize (Hs l Hw).
  pose proof (take_ok _ _ _ _ _ HI Ht Hw) as HI1. rewrite Htk in HI1.
  destruct (waiting_ok _ _ _ _ _ HI Ht Hw) as (_&[He1 _]&_).
  change (elems (get_vec (m_pb1 (taken g)) (taken g)) = []) in He1.
  destruct (process_all _ _ _ _ _ _ 0 HI1 (list_lookup_insert_eq _ _ _ Hlen) (Nat.lt_succ_diag_r _))
    as (m2&g2&Hs2&HI2&Hr2&Hp2&He2).
  rewrite list_insert_insert_eq in HI2. rewrite He1 in He2.
  assert (<[0%nat:=Run WStart]> ts !! 0%nat = Some (Run WStart)) as Ht2
    by (by apply list_lookup_insert_eq).
  split.
  - exists (fm l + m2)%nat, g2, WStart. split; [by rewrite (solo_add code _ _ _ _ _ _ Hs)|].
    eapply waiting_written; [exact HI2|exact Ht2|by left|done].
  - intros Hr. destruct (Hend (S n) g2 _ WStart HI2 Ht2 (or_introl eq_refl) He2) as (m3&g3&Hs3&Hd3).
    { by rewrite Hr2. }
    exists (fm l + (m2 + m3))%nat, g3. split; [|done].
    by rewrite (solo_add code _ _ _ _ _ _ Hs), (solo_add code _ _ _ _ _ _ Hs2).
Qed.

Lemma writer_flushes_inv n g ts k l :
  Inv n g ts k -> ts !! 0%nat = Some (Run l) ->
  (exists m g' l', solo code m g l = Next g' l' /\
     LogFileAppender.disk (m_log_file g') = d0 ++ mjoin (acked k)) /\
  (m_running g = false -> exists m g', solo code m g l = Ret g' RVoid /\
     LogFileAppender.disk (m_log_file g') = d0 ++ mjoin (acked k)).
Proof.
  intros HI Ht. pose proof HI as []. pose proof (i_st0 _ _ Ht) as Hx.
  assert (0 < length ts)%nat as Hlen by (by eapply lookup_lt_Some).
  destruct l as [t0 msg|t0 msg|t0 msg|t0 msg b|t0 msg b addr|t0| |idle|vp i| | |];
    cbn [state_ok] in Hx; unfold arg in Hx;
    try first [by destruct Hx as (_&Hx&_)|by destruct Hx as ((_&Hx&_)&_)|by destruct Hx as (Hx&_)].
  - eapply waiting_flushes; [done|done|by left].
  - eapply waiting_flushes; [done|done|right; eauto].
  - destruct (process_all _ _ _ _ _ _ i HI Ht (Nat.lt_succ_diag_r _)) as (m&g1&Hs&HI1&Hr1&_).
    destruct (waiting_flushes _ _ _ _ WStart HI1 (list_lookup_insert_eq _ _ _ Hlen) (or_introl eq_refl))
      as [(m2&g2&l2&Hs2&Hd2) Hstop].
    split.
    + exists (m + m2)%nat, g2, l2. by rewrite (solo_add code _ _ _ _ _ _ Hs).
    + intros Hr. destruct Hstop as (m3&g3&Hs3&Hd3); [by rewrite Hr1|].
      exists (m + m3)%nat, g3. by rewrite (solo_add code _ _ _ _ _ _ Hs).
Qed.

End Runs.

(** What the constructor gives satisfies the hypotheses of the runs. *)
Lemma ctor_reach flush_cnt d io garbage g threads n h c :
  AsynLogAppender_ctor flush_cnt d io garbage total = inr g -> blen garbage = FSZ ->
  LogFileAppender.WErr ∉ io -> d = d0 ->
  reach start code cl_inv cl_ret (asyn_init g threads) n h c ->
  (faulted c = true -> misused h = true) /\ Inv n (sh c) (ths c) (cl c) /\ acked (cl c) = acked_of h.
Proof.
  unfold AsynLogAppender_ctor, LogFileAppender.LogFile_init. intros Hg Hl Hio Hd.
  destruct (poke garbage 0 nul) as [|b] eqn:Hp; [done|]. cbn [bind] in Hg.
  destruct (FixedBuffer.FixedBufferPool_init raw 32 16 total) as [|p] eqn:Hpool; [done|].
  injection Hg as <-.
  destruct (FixedBuffer.FixedBufferPool_init_wf N raw N_range raw_length _ _ _ _ Hpool) as [Hwf Hin].
  apply inv_reach; try done. split; [|simpl; lia]. simpl. rewrite <-Hl.
  unfold poke in Hp. destruct (_ && _); [|done]. injection Hp as <-.
  unfold blen. by rewrite length_insert.
Qed.

End Appender.

Lemma async_log_exact_ok (N FSZ : Z) (raw : nat -> bytes) (grow : Z -> Z -> Z) (total : nat)
    (flush_cnt : Z) (d : bytes) (io : list LogFileAppender.wres) (garbage : bytes) g threads n h c :
  0 < N < 2 ^ 63 -> (forall i, blen (raw i) = N) -> 0 <= FSZ < 2 ^ 32 -> Z.of_nat total < 2 ^ 64 ->
  AsynLogAppender_ctor raw flush_cnt d io garbage total = inr g -> blen garbage = FSZ ->
  LogFileAppender.WErr ∉ io ->
  reach start (code N raw FSZ grow) (cl_inv N FSZ) cl_ret (asyn_init g threads) n h c ->
  (faulted c = true -> misused h = true) /\
  LogFileAppender.disk (m_log_file (sh c)) `prefix_of` d ++ mjoin (acked_of h) /\
  (ths c !! 0%nat = Some Idle ->
   LogFileAppender.disk (m_log_file (sh c)) = d ++ mjoin (acked_of h)).
Proof.
  intros HN Hraw HF Ht Hg Hl Hio Hr.
  destruct (ctor_reach N raw FSZ grow total HN Hraw HF Ht d flush_cnt d io garbage g threads n h c)
    as (Hf&HI&Ha); try done.
  split; [done|]. rewrite <-Ha. split.
  - rewrite <-(c_text _ _ _ _ _ _ _ _ (i_core _ _ _ _ _ _ _ _ HI)). unfold LogFileAppender.content.
    rewrite <-app_assoc. by apply prefix_app_r.
  - intros Hi. by eapply idle_written.
Qed.

(** C30. The asynchronous appender: any number of threads append messages that fit a buffer
    and exit, the last owner destroys it while nobody appends, and the steps interleave with
    the writer's in whatever order.  Nothing is read from a buffer that was recycled or freed,
    and an [assert] fails only after an empty message was appended or a thread exited whose
    last message had been dropped for want of memory ([misused], on the history; the second
    does abort the process, [exit_after_drop_asserts]).  The file is at every moment, the
    moment of such a failure included, what it held before and a prefix of the messages that
    [Append] acknowledged, in the order of their acknowledgement, each of them complete; and
    when the writer thread has ended ([Stop] has joined it) it is all of them.  Write errors
    other than [EINTR] are excluded. *)
Theorem async_log_exact (N FSZ : Z) (raw : nat -> bytes) (grow : Z -> Z -> Z) (total : nat)
    (flush_cnt : Z) (d : bytes) (io : list LogFileAppender.wres) (garbage : bytes) g threads n h c :
  0 < N < 2 ^ 63 -> (forall i, blen (raw i) = N) -> 0 <= FSZ < 2 ^ 32 -> Z.of_nat total < 2 ^ 64 ->
  AsynLogAppender_ctor raw flush_cnt d io garbage total = inr g -> blen garbage = FSZ ->
  LogFileAppender.WErr ∉ io ->
  reach start (code N raw FSZ grow) (cl_inv N FSZ) cl_ret (asyn_init g threads) n h c ->
  (faulted c = true -> misused h = true) /\
  LogFileAppender.disk (m_log_file (sh c)) `prefix_of` d ++ mjoin (acked_of h) /\
  (ths c !! 0%nat = Some Idle ->
   LogFileAppender.disk (m_log_file (sh c)) = d ++ mjoin (acked_of h)).
Proof. apply async_log_exact_ok. Qed.

(** C31. The writer makes progress: from every reachable state, when it is
    scheduled (the other threads doing nothing) it comes in finitely many steps to
    a point where every acknowledged message is on disk; and when [Stop] has asked
    for it, it ends with that. *)
Theorem writer_flushes (N FSZ : Z) (raw : nat -> bytes) (grow : Z -> Z -> Z) (total : nat)
    (flush_cnt : Z) (d : bytes) (io : list LogFileAppender.wres) (garbage : bytes) g threads n h c l :
  0 < N < 2 ^ 63 -> (forall i, blen (raw i) = N) -> 0 <= FSZ < 2 ^ 32 -> Z.of_nat total < 2 ^ 64 ->
  AsynLogAppender_ctor raw flush_cnt d io garbage total = inr g -> blen garbage = FSZ ->
  LogFileAppender.WErr ∉ io ->
  reach start (code N raw FSZ grow) (cl_inv N FSZ) cl_ret (asyn_init g threads) n h c ->
  ths c !! 0%nat = Some (Run l) ->
  (exists m g' l', solo (code N raw FSZ grow) m (sh c) l = Next g' l' /\
     LogFileAppender.disk (m_log_file g') = d ++ mjoin (acked_of h)) /\
  (m_running (sh c) = false -> exists m g', solo (code N raw FSZ grow) m (sh c) l = Ret g' RVoid /\
     LogFileAppender.disk (m_log_file g') = d ++ mjoin (acked_of h)).
Proof.
  intros HN Hraw HF Ht Hg Hl Hio Hr Hx.
  destruct (ctor_reach N raw FSZ grow total HN Hraw HF Ht d flush_cnt d io garbage g threads n h c)
    as (Hf&HI&Ha); try done.
  rewrite <-Ha. by eapply writer_flushes_inv.
Qed.

(** ** A small run *)

Definition raw8 (i : nat) : bytes := replicate 8 nul.
Definition grow2 (old need : Z) : Z := Z.max (2 * old) need.

Abbreviation demo_code := (code 8 raw8 16 grow2).

Abbreviation demo_ctor :=
  (AsynLogAppender_ctor raw8 2 (bs "old:") [LogFileAppender.WIntr; LogFileAppender.Wrote 3]
    (replicate 16 nul) 40).

(** Two threads append, the first buffer fills up, the writer works in between. *)
Definition demo_sched : list (nat * act aop) :=
  [(1, Invoke (OAppend 1 (bs "hello"))); (1, Step); (1, Step); (2, Invoke (OAppend 2 (bs "AB")));
   (1, Step); (2, Step); (1, Step); (0, Step); (2, Step); (2, Step); (0, Step);
   (1, Invoke (OAppend 1 (bs "world"))); (1, Step); (1, Step); (0, Step); (2, Step); (0, Step);
   (1, Step); (1, Step); (1, Step)]%nat.

Abbreviation demo_run := (
  match demo_ctor with
  | inl _ => None
  | inr g => run start demo_code (cl_inv 8 16) cl_ret demo_sched (asyn_init g 2) []
  end).
Example demo_acked :
  match demo_run with
  | Some (c, h) => acked_of h = [bs "hello"; bs "AB"; bs "world"] /\
      LogFileAppender.disk (m_log_file (sh c)) = bs "old:hello" /\
      match ths c !! 0%nat with Some (Run _) => True | _ => False end
  | None => False
  end.
Proof. by vm_compute. Qed.

(** The same, the appender destroyed by thread 2 and the writer run to its end. *)
Definition demo_stop_sched : list (nat * act aop) :=
  demo_sched ++
  [(2, Invoke (OExit 2)); (2, Step); (2, Invoke OStop); (2, Step); (2, Step); (0, Step); (0, Step);
   (0, Step); (0, Step); (0, Step); (0, Step); (0, Step); (2, Step); (2, Step)]%nat.

Abbreviation demo_stop_run := (
  match demo_ctor with
  | inl _ => None
  | inr g => run start demo_code (cl_inv 8 16) cl_ret demo_stop_sched (asyn_init g 2) []
  end).

Example demo_stopped :
  match demo_stop_run with
  | Some (c, h) => ths c !! 0%nat = Some Idle /\
      LogFileAppender.disk (m_log_file (sh c)) = bs "old:helloABworld"
  | None => False
  end.
Proof. by vm_compute. Qed.

Lemma demo_no_error : LogFileAppender.WErr ∉ [LogFileAppender.WIntr; LogFileAppender.Wrote 3].
Proof. rewrite !not_elem_of_cons. repeat split; try done. apply not_elem_of_nil. Qed.

Lemma async_log_exact_witness :
  match demo_stop_run with
  | Some (c, h) =>
      LogFileAppender.disk (m_log_file (sh c)) = bs "old:" ++ mjoin (acked_of h)
  | None => False
  end.
Proof.
  pose proof demo_stopped as Hd.
  destruct demo_ctor as [|g] eqn:Hg; [done|].
  destruct (run start demo_code (cl_inv 8 16) cl_ret demo_stop_sched (asyn_init g 2) [])
    as [[c h]|] eqn:Hr; [|done].
  destruct (async_log_exact 8 16 raw8 grow2 40 2 (bs "old:")
    [LogFileAppender.WIntr; LogFileAppender.Wrote 3] (replicate 16 nul) g 2
    (length demo_stop_sched) h c) as (_&_&H); [lia|done|lia|lia|exact Hg|done|exact demo_no_error| |].
  - exact (run_reach _ _ _ _ _ _ _ _ Hr).
  - apply H. apply Hd.
Defined.

Lemma writer_flushes_witness :
  match demo_run with
  | Some (c, h) =>
      match ths c !! 0%nat with
      | Some (Run l) =>
          exists m g' l', solo demo_code m (sh c) l = Next g' l' /\
            LogFileAppender.disk (m_log_file g') = bs "old:" ++ mjoin (acked_of h)
      | _ => False
      end
  | None => False
  end.
Proof.
  pose proof demo_acked as Hd. destruct demo_ctor as [|g] eqn:Hg; [done|].
  destruct (run start demo_code (cl_inv 8 16) cl_ret demo_sched (asyn_init g 2) [])
    as [[c h]|] eqn:Hr; [|done].
  destruct Hd as (_&_&Hd). destruct (ths c !! 0%nat) as [[|l]|] eqn:Hl; [done| |done].
  destruct (writer_flushes 8 16 raw8 grow2 40 2 (bs "old:")
    [LogFileAppender.WIntr; LogFileAppender.Wrote 3] (replicate 16 nul) g 2
    (length demo_sched) h c l) as [H _]; [lia|done|lia|lia|exact Hg|done|exact demo_no_error| |exact Hl|].
  - exact (run_reach _ _ _ _ _ _ _ _ Hr).
  - exact H.
Defined.

(** ** What the callers must not do, and what the code gets wrong *)

(** A thread whose last message was dropped for want of a buffer and that exits
    while the appender runs fails the [assert(buff)] of [AddToWriter]. *)
Lemma exit_after_drop_asserts N raw FSZ grow g t :
  tl g !! t = Some None -> alive g = true -> code N raw FSZ grow g (TExit t) = Fault.
Proof. intros Ht Ha. unfold code, PerThreadItem_destroy. by rewrite Ht, Ha. Qed.

(** A thread that exits after the appender was destroyed does not free its buffer:
    the condition [if (!buff)] of the destructor is the wrong way round. *)
Lemma exit_after_destroy_leaks N raw FSZ grow g t b fb :
  tl g !! t = Some (Some b) -> alive g = false -> is_out (m_pool g) b fb ->
  exists g', code N raw FSZ grow g (TExit t) = Ret g' RVoid /\ tl g' !! t = None /\
    is_out (m_pool g') b fb.
Proof.
  intros Ht Ha Ho. unfold code, PerThreadItem_destroy. rewrite Ht, Ha. eexists; split; [done|]. simpl.
  by rewrite lookup_delete_eq.
Qed.

(** [Flush(false)], what the signal handler calls, writes [m_pending_buff2] before
    [m_pending_buff1], also when the messages of the first are the older ones,
    and again what the writer has written already. *)
Definition crash_state : AsynLogAppender :=
  let fb := FixedBuffer.FB 6 (bs "oldnew..") in
  App true 1 512 (LogFileAppender.LF (bs "old") [] 0 (replicate 16 nul))
    (FixedBuffer.Pool 32 16 1 [] {[0%nat := fb]} 40 1)
    (Vec [Msg 3 (PChar 0 0)] g_msg_queue_sz)   (* taken by the writer, on disk already *)
    (Vec [Msg 3 (PChar 0 3)] g_msg_queue_sz)   (* pushed since *)
    false {[1%nat := Some 0%nat]} true false.

Example crash_flush_order :
  (LogFileAppender.disk ∘ m_log_file) <$> Flush false crash_state
  = Some (bs "old(f2)new(f)old").
Proof. by vm_compute. Qed.
