(* ===== verification/SlogAsync.v ===== *)
(** * SlogAsync.v: the whole stream logger - statements of many threads and one file

[slog/Logger.cc] over [slog/AsynLogAppender.cc]: [InitLogging] makes the asynchronous
appender the global one.  A statement of a thread formats its line in a stream of its own,
with the time cached by that thread (SlogLogger.v), and hands it to [Append], whose steps
interleave with those of the other threads and of the writer (AsynLogAppender.v).

The theorem: whatever the schedule, every statement from the threshold on, and no other, is
formatted without a failure and its line appended by its thread, in the order of the thread's
statements; when the writer has ended, the file is what it held before and all the
acknowledged lines, each of them whole. *)

From S2P Require Import Prelude Machine Conc LogStream CacheTimeStamp SlogLogger AsynLogAppender.
From S2P Require LogFileAppender.
#[local] Open Scope Z_scope.
#[local] Open Scope bef_scope.

(** The line that the destructor of a [Logger] hands over. *)
Record Caught : Type := Catch { caught : bytes }.

#[export] Instance Caught_ops : LogAppender Caught := {|
  append msg a := inr (Catch (caught a ++ msg));
  flush _ a := a
|}.

#[export] Instance Caught_spec max : LogAppenderSpec Caught (fun _ => True) caught [] max.
Proof. split; [|done]. intros msg a _ _. by eexists. Qed.

(** [SLOG(level) << args] at a place, at a time, in uninitialised memory. *)
Record statement : Type := Stmt {
  st_level : LogLevel; st_args : list LogArg; st_loc : bytes; st_func : bytes; st_now : Z; st_garbage : bytes
}.

Abbreviation sink_cfg := (cfg (G:=AsynLogAppender) (L:=pc) (C:=client)).

(** [times] is the time cache of every thread; [said] records the statements whose line was
    handed over, with their threads; [failed]: one could not be formatted. *)
Record slog : Type := Slog {
  times : gmap nat tls; level : LogLevel; sink : sink_cfg;
  hist : list (event aop ares); said : list (nat * statement); failed : bool
}.

Inductive sact : Type :=
| SLog (t : nat) (st : statement)
| SExit (t : nat) | SStop (t : nat)
| SStep (t : nat).

Section Slog.
Variables (N FSZ : Z) (raw : nat -> bytes) (grow : Z -> Z -> Z).
Variable localtime_r : Z -> tm.

Abbreviation sink_step := (cstep start (code N raw FSZ grow) (cl_inv N FSZ) cl_ret).

(** The front end of a statement: the cache of the thread and the line, empty below the
    threshold. *)
Definition format (lvl : LogLevel) (time : tls) (st : statement) : res (tls * bytes) :=
  let! (w, _) := TRY_LOG localtime_r (st_level st) (st_args st) (st_loc st) (st_func st) (st_now st)
    (st_garbage st) (SlogLogger.World time lvl (Catch [])) in
  inr (thread_time w, caught (g_global_appender w)).

Definition time_of (t : nat) (s : slog) : tls := default tls_init (times s !! t).

Definition is_idle (t : nat) (c : sink_cfg) : bool :=
  match ths c !! t with Some Idle => true | _ => false end.

(** A step of the appender. *)
Definition sink_do (t : nat) (a : act aop) (s : slog) : option slog :=
  match sink_step (sink s) t a with
  | Some (c, e) => Some (Slog (times s) (level s) c (hist s ++ e) (said s) (failed s))
  | None => None
  end.

Definition slog_step (a : sact) (s : slog) : option slog :=
  match a with
  | SLog t st =>
      if is_idle t (sink s) then
      match format (level s) (time_of t s) st with
      | inl _ => Some (Slog (times s) (level s) (sink s) (hist s) (said s) true)
      | inr (time, []) => Some (Slog (<[t := time]> (times s)) (level s) (sink s) (hist s) (said s) (failed s))
      | inr (time, line) =>
          sink_do t (Invoke (OAppend t line))
            (Slog (<[t := time]> (times s)) (level s) (sink s) (hist s) (said s ++ [(t, st)]) (failed s))
      end else None
  | SExit t => sink_do t (Invoke (OExit t)) s
  | SStop t => sink_do t (Invoke OStop) s
  | SStep t => sink_do t Step s
  end.

Fixpoint slog_run (l : list sact) (s : slog) : option slog :=
  match l with
  | [] => Some s
  | a :: l' => match slog_step a s with Some s' => slog_run l' s' | None => None end
  end.

(** The statements of thread [t] that the level lets through, in order. *)
Definition spoken (lvl : LogLevel) (t : nat) (l : list sact) : list statement :=
  omap (fun a => match a with
    | SLog u st => if decide (u = t /\ level_index lvl <= level_index (st_level st)) then Some st else None
    | _ => None end) l.

(** [InitLogging]: the appender [g] and the level. *)
Definition slog_init (lvl : LogLevel) (g : AsynLogAppender) (threads : nat) : slog :=
  Slog ∅ lvl (asyn_init g threads) [] [] false.

(** ** What a statement promises *)

(** The arguments are in range and fit the stream; [LL_ABORT] ends the process and is not
    among them. *)
Record stmt_ok (st : statement) : Prop := {
  so_level : st_level st <> NUM_LOG_LEVEL /\ st_level st <> LL_ABORT;
  so_garbage : blen (st_garbage st) = S_MAX_BUFF_SZ;
  so_now : S_MS_PER_SEC <= st_now st < 2 ^ 63;
  so_time : tm_ok (localtime_r (Z.quot (st_now st) S_MS_PER_SEC));
  so_args : Forall arg_ok (st_args st);
  so_fit : sum_with needs (st_args st) + blen (st_loc st) + blen (st_func st) + 60 <= S_MAX_BUFF_SZ
}.

(** The line of a statement: time, level, the texts of the arguments, place, function. *)
Definition line_of (st : statement) (line : bytes) : Prop :=
  exists ts, Forall2 shows (st_args st) ts /\
    line = line_head localtime_r (st_level st) (st_now st) ++ mjoin ts ++ st_loc st ++ st_func st ++ newline.

Lemma format_ok lvl time st :
  stmt_ok st -> cache_ok localtime_r time ->
  exists time' line, format lvl time st = inr (time', line) /\ cache_ok localtime_r time' /\
    if level_index (st_level st) <? level_index lvl then line = [] else line_of st line /\ line <> [].
Proof.
  intros [[H1 _] H2 H3 H4 H5 H6] Hc. unfold format.
  pose proof (slog_statement_ok (ok:=fun _ => True) (received:=caught) (mark:=[]) (max:=S_MAX_BUFF_SZ) localtime_r
    (Z.le_refl _) (st_level st) (st_args st) (st_loc st) (st_func st) (st_now st) (st_garbage st)
    (SlogLogger.World time lvl (Catch [])) H1 H2 I Hc H3 H4 H5 H6) as H.
  cbn [s_global_level thread_time g_global_appender] in H. destruct (_ <? _).
  - rewrite H. by exists time, [].
  - destruct H as (w'&ts&->&_&_&Hc'&Hts&Hrec). cbn [bind]. cbn in Hrec. eexists _, _. split; [reflexivity|]. split; [done|].
    rewrite Hrec. split; [by exists ts|]. intros [_ [_ [_ [_ E]%app_nil]%app_nil]%app_nil]%app_nil. discriminate E.
Qed.

(** ** What the threads have handed over *)

(** The messages of the calls of [Append] that thread [t] has begun, and of those that have
    returned, in order. *)
Definition begun (t : nat) (h : list (event aop ares)) : list bytes :=
  omap (fun e => match e with
    | EInv u (OAppend _ msg) => if decide (u = t) then Some msg else None | _ => None end) h.

Definition answered (t : nat) (h : list (event aop ares)) : list bytes :=
  omap (fun e => match e with
    | ERes u (RAppend _ msg _) => if decide (u = t) then Some msg else None | _ => None end) h.

(** The message of a call that is under way. *)
Definition message_at (l : pc) : list bytes :=
  match l with
  | AStart _ msg | ACheck _ msg | AGet _ msg | ACopy _ msg _ | APush _ msg _ _ => [msg]
  | _ => []
  end.

Definition under_way (t : nat) (c : sink_cfg) : list bytes :=
  match ths c !! t with Some (Run l) => message_at l | _ => [] end.

(** A step of the code keeps the message of its call, up to the response. *)
Lemma code_message g l :
  match code N raw FSZ grow g l with
  | Next _ l' => message_at l' = message_at l
  | Ret _ (RAppend _ msg _) => message_at l = [msg]
  | Ret _ RVoid => message_at l = []
  | Fault => True
  end.
Proof.
  destruct l; cbn; unfold PerThreadItem_destroy, wait_or_take, take_messages, process; repeat case_match; simplify_eq/=; done.
Qed.

Lemma begun_app t h1 h2 : begun t (h1 ++ h2) = begun t h1 ++ begun t h2.
Proof. apply omap_app. Qed.

Lemma answered_app t h1 h2 : answered t (h1 ++ h2) = answered t h1 ++ answered t h2.
Proof. apply omap_app. Qed.

Lemma under_way_insert t u x (c : sink_cfg) g k f :
  is_Some (ths c !! u) ->
  under_way t (Cfg g (<[u:=x]> (ths c)) k f) =
    if decide (u = t) then match x with Run l => message_at l | Idle => [] end else under_way t c.
Proof.
  intros [y Hy]. unfold under_way. cbn. case_decide as Hut.
  - subst. by rewrite list_lookup_insert_eq by (by eapply lookup_lt_Some).
  - by rewrite list_lookup_insert_ne.
Qed.

(** Every call that has begun has returned or is under way. *)
Lemma calls_step (c c' : sink_cfg) u a e h :
  sink_step c u a = Some (c', e) ->
  (forall t, begun t h = answered t h ++ under_way t c) ->
  forall t, begun t (h ++ e) = answered t (h ++ e) ++ under_way t c'.
Proof.
  intros H Hh t. rewrite begun_app, answered_app, Hh. specialize (Hh t). clear Hh.
  apply cstep_inv in H as [_ [(o&k&->&Ht&Hk&->&->)|[(l&g&l'&->&Ht&Hc&->&->)|[(l&g&r&->&Ht&Hc&->&->)|
    (l&->&Ht&Hc&->&->)]]]].
  - rewrite under_way_insert by by eexists. cbn. rewrite app_nil_r, <-app_assoc. f_equal.
    assert (Hid : u = t -> under_way t c = []) by (intros <-; unfold under_way; by rewrite Ht).
    destruct o; cbn; case_decide as Hd; rewrite ?app_nil_r; try done; by rewrite (Hid Hd).
  - rewrite under_way_insert by by eexists. cbn. rewrite !app_nil_r. f_equal. case_decide as Hd; [|done].
    pose proof (code_message (sh c) l) as Hm. rewrite Hc in Hm. subst. unfold under_way. by rewrite Ht.
  - rewrite under_way_insert by by eexists. cbn. rewrite app_nil_r, <-app_assoc. f_equal.
    pose proof (code_message (sh c) l) as Hm. rewrite Hc in Hm.
    assert (Hid : u = t -> under_way t c = message_at l) by (intros <-; unfold under_way; by rewrite Ht).
    destruct r as [t' msg n|]; cbn; case_decide as Hd; rewrite ?app_nil_r; try done; by rewrite (Hid Hd).
  - cbn. rewrite !app_nil_r. done.
Qed.

(** ** The invariant of the logger *)

Section Run.
Variables (g0 : AsynLogAppender) (threads : nat).

Record slog_inv (s : slog) : Prop := {
  sl_reach : exists n, reach start (code N raw FSZ grow) (cl_inv N FSZ) cl_ret (asyn_init g0 threads) n (hist s) (sink s);
  sl_times : forall t, cache_ok localtime_r (time_of t s);
  sl_good : failed s = false;
  sl_calls : forall t, begun t (hist s) = answered t (hist s) ++ under_way t (sink s);
  sl_said : forall t, Forall2 line_of (snd <$> filter (fun x => fst x = t) (said s)) (begun t (hist s))
}.

(** [said] in terms of the statements that were made. *)
Definition said_by (l : list sact) (lvl : LogLevel) (s s' : slog) : Prop :=
  level s' = lvl /\
  forall t, snd <$> filter (fun x => fst x = t) (said s') =
    (snd <$> filter (fun x => fst x = t) (said s)) ++ spoken lvl t l.

Lemma sink_do_inv t a s s' :
  (exists n, reach start (code N raw FSZ grow) (cl_inv N FSZ) cl_ret (asyn_init g0 threads) n (hist s) (sink s)) ->
  (forall t, cache_ok localtime_r (time_of t s)) -> failed s = false ->
  (forall t, begun t (hist s) = answered t (hist s) ++ under_way t (sink s)) ->
  (forall u, Forall2 line_of (snd <$> filter (fun x => fst x = u) (said s))
     (begun u (hist s) ++ match a with Invoke (OAppend _ msg) => if decide (t = u) then [msg] else [] | _ => [] end)) ->
  sink_do t a s = Some s' -> slog_inv s' /\ said s' = said s /\ level s' = level s.
Proof.
  intros [n Hr] Hti Hf Hca Hsa H. unfold sink_do in H. destruct (sink_step (sink s) t a) as [[c e]|] eqn:E; [|done].
  injection H as <-. split; [|done]. split; cbn [sink hist said times level failed]; try done.
  - exists (S n). by econstructor.
  - by apply (calls_step (sink s) c t a e).
  - intros u. rewrite begun_app. replace (begun u e) with
      (match a with Invoke (OAppend _ msg) => if decide (t = u) then [msg] else [] | _ => [] end); [apply Hsa|].
    apply cstep_inv in E as [_ [(o&k&->&_&_&_&->)|[(?&?&?&->&_&_&_&->)|[(?&?&r&->&_&_&_&->)|(?&->&_&_&_&->)]]]];
      [|done..]. destruct o; cbn; [by case_decide|done..].
Qed.

Lemma slog_step_inv a s s' :
  (forall t st, a = SLog t st -> stmt_ok st) -> slog_inv s -> slog_step a s = Some s' ->
  slog_inv s' /\ said_by [a] (level s) s s'.
Proof.
  intros Hok [Hr Hti Hf Hca Hsa] H. destruct a as [t st|t|t|t]; cbn [slog_step] in H;
    [|assert (HI : slog_inv s' /\ said s' = said s /\ level s' = level s)
        by (eapply sink_do_inv; [exact Hr|done..| |exact H]; intros u; rewrite app_nil_r; apply Hsa);
      destruct HI as (HI&E1&E2); split; [done|]; split; [done|]; intros u; by rewrite E1, app_nil_r..].
  destruct (is_idle _ _); [|done].
  destruct (format_ok (level s) (time_of t s) st (Hok t st eq_refl) (Hti t)) as (time&line&E&Hc&Hl). rewrite E in H.
  assert (Hti' : forall u, cache_ok localtime_r (default tls_init (<[t:=time]> (times s) !! u))).
  { intros u. destruct (decide (t = u)) as [->|Hne]; [by rewrite lookup_insert_eq|].
    rewrite lookup_insert_ne by done. apply Hti. }
  destruct line as [|x line].
  { injection H as <-. split; [by split|]. split; [done|]. intros u. unfold spoken. cbn.
    destruct (Z.ltb_spec (level_index (st_level st)) (level_index (level s))); [|by destruct Hl].
    rewrite decide_False by lia. by rewrite app_nil_r. }
  destruct (Z.ltb_spec (level_index (st_level st)) (level_index (level s))); [done|].
  assert (HI : slog_inv s' /\ said s' = said s ++ [(t, st)] /\ level s' = level s).
  { eapply sink_do_inv in H; [exact H|done..|]. intros u. cbn [said hist]. rewrite filter_app, fmap_app.
    apply Forall2_app; [apply Hsa|]. rewrite filter_cons, filter_nil. cbn [fst]. case_decide; [|done].
    constructor; [apply Hl|constructor]. }
  destruct HI as (HI&E1&E2). split; [done|]. split; [done|]. intros u. rewrite E1, filter_app, fmap_app. f_equal.
  rewrite filter_cons, filter_nil. unfold spoken. cbn. repeat case_decide; try done; naive_solver.
Qed.

Lemma slog_run_inv l s s' :
  (forall t st, SLog t st ∈ l -> stmt_ok st) -> slog_inv s -> slog_run l s = Some s' ->
  slog_inv s' /\ said_by l (level s) s s'.
Proof.
  revert s. induction l as [|a l IH]; intros s Hok HI H; cbn in H.
  { injection H as <-. split; [done|]. split; [done|]. intros t. by rewrite app_nil_r. }
  destruct (slog_step a s) as [s1|] eqn:E; [|done].
  destruct (slog_step_inv a s s1) as (HI1&E1&Hs1); [intros t st ->; apply (Hok t); by left|done..|].
  destruct (IH s1) as (HI'&E2&Hs2); [intros t st Hin; apply (Hok t); by right|done..|].
  split; [done|]. rewrite E1 in E2, Hs2. split; [done|]. intros t. rewrite Hs2, Hs1, <-app_assoc. f_equal.
  unfold spoken. change (a :: l) with ([a] ++ l). by rewrite (omap_app _ [a] l).
Qed.

Lemma slog_init_inv lvl : slog_inv (slog_init lvl g0 threads).
Proof.
  split; cbn [slog_init sink hist said failed]; try done.
  - exists 0%nat. constructor.
  - intros t. unfold under_way. cbn. destruct t; [done|]. cbn.
    destruct (replicate threads Idle !! t) eqn:E; [|done]. by apply lookup_replicate in E as [-> _].
Qed.
End Run.
End Slog.

(** ** From the statements to the file *)

(** What the theorem below says, for the clients of the logger. *)
Lemma slog_file (N FSZ : Z) (raw : nat -> bytes) (grow : Z -> Z -> Z) (localtime_r : Z -> tm)
    (total : nat) (flush_cnt : Z) (d : bytes) (io : list LogFileAppender.wres) (garbage : bytes)
    (g : AsynLogAppender) (lvl : LogLevel) (threads : nat) (l : list sact) (s : slog) :
  0 < N < 2 ^ 63 -> (forall i, blen (raw i) = N) -> 0 <= FSZ < 2 ^ 32 -> Z.of_nat total < 2 ^ 64 ->
  AsynLogAppender_ctor raw flush_cnt d io garbage total = inr g -> blen garbage = FSZ ->
  LogFileAppender.WErr ∉ io ->
  (forall t st, SLog t st ∈ l -> stmt_ok localtime_r st) ->
  slog_run N FSZ raw grow localtime_r l (slog_init lvl g threads) = Some s ->
  failed s = false /\ (faulted (sink s) = true -> misused (hist s) = true) /\
  (forall t, Forall2 (line_of localtime_r) (spoken lvl t l) (answered t (hist s) ++ under_way t (sink s))) /\
  let disk := LogFileAppender.disk (m_log_file (sh (sink s))) in
  disk `prefix_of` d ++ mjoin (acked_of (hist s)) /\
  (ths (sink s) !! 0%nat = Some Idle -> disk = d ++ mjoin (acked_of (hist s))) /\
  (forall t, snd <$> filter (fun x => fst x = t) (said s) = spoken lvl t l).
Proof.
  intros HN Hraw HF Ht Hg Hl Hio Hok Hrun.
  destruct (slog_run_inv N FSZ raw grow localtime_r g threads l (slog_init lvl g threads) s Hok
    (slog_init_inv _ _ _ _ _ _ _ _) Hrun) as [[[n Hr] _ Hf Hca Hsa] [_ Hs]].
  destruct (async_log_exact_ok N FSZ raw grow total flush_cnt d io garbage g threads n (hist s) (sink s))
    as (Hfa&Hp&He); try done.
  assert (Hs' : forall t, snd <$> filter (fun x => fst x = t) (said s) = spoken lvl t l) by exact Hs.
  split; [done|]. split; [done|]. split; [|by split_and!].
  intros t. rewrite <-Hca, <-Hs'. apply Hsa.
Qed.

(** C32. The whole stream logger over a fresh asynchronous appender, its statements, thread
    exits and [Stop] in whatever order and interleaved with the writer in whatever way: no
    statement fails to be formatted, and an [assert] of the appender fails only after it was
    [misused]: since no line is empty, by the exit of a thread whose last message was dropped
    for want of memory; the lines that a thread has handed over are,
    in order, those of exactly its statements whose level is at or above the threshold
    ([spoken]), all of them answered but the one under way; the file is at every moment what
    it held before and a prefix of the acknowledged lines, and all of them when the writer has
    ended.  Every statement is one whose arguments are in range and fit the stream
    ([stmt_ok]); write errors other than [EINTR] are excluded. *)
Theorem slog_end_to_end (N FSZ : Z) (raw : nat -> bytes) (grow : Z -> Z -> Z) (localtime_r : Z -> tm)
    (total : nat) (flush_cnt : Z) (d : bytes) (io : list LogFileAppender.wres) (garbage : bytes)
    (g : AsynLogAppender) (lvl : LogLevel) (threads : nat) (l : list sact) (s : slog) :
  0 < N < 2 ^ 63 -> (forall i, blen (raw i) = N) -> 0 <= FSZ < 2 ^ 32 -> Z.of_nat total < 2 ^ 64 ->
  AsynLogAppender_ctor raw flush_cnt d io garbage total = inr g -> blen garbage = FSZ ->
  LogFileAppender.WErr ∉ io ->
  (forall t st, SLog t st ∈ l -> stmt_ok localtime_r st) ->
  slog_run N FSZ raw grow localtime_r l (slog_init lvl g threads) = Some s ->
  failed s = false /\ (faulted (sink s) = true -> misused (hist s) = true) /\
  (forall t, Forall2 (line_of localtime_r) (spoken lvl t l) (answered t (hist s) ++ under_way t (sink s))) /\
  let disk := LogFileAppender.disk (m_log_file (sh (sink s))) in
  disk `prefix_of` d ++ mjoin (acked_of (hist s)) /\
  (ths (sink s) !! 0%nat = Some Idle -> disk = d ++ mjoin (acked_of (hist s))).
Proof. intros. by edestruct slog_file as (?&?&?&?&?&_). Qed.

(** ** A small run *)

Definition demo_raw (i : nat) : bytes := replicate 64 nul.

Abbreviation demo_stmt lvl n now := (Stmt lvl [ACString (bs "x="); ASigned n] (bs "-a.cc:3:") (bs "f") now (replicate 4096 nul)).

Abbreviation demo_appender := (AsynLogAppender_ctor demo_raw 2 (bs "old;")
  [LogFileAppender.WIntr; LogFileAppender.Wrote 3] (replicate 128 nul) 400).

(** Thread 1 logs twice, once below the threshold, thread 2 once in between; thread 2 stops
    the appender and the writer runs to its end. *)
Definition demo_acts : list sact :=
  [SLog 1 (demo_stmt LL_INFO (-7) 33000042); SStep 1; SStep 1; SLog 2 (demo_stmt LL_ERROR 5 33000043);
   SStep 1; SStep 2; SStep 1; SStep 0; SStep 2; SStep 2; SStep 0; SLog 1 (demo_stmt LL_DEBUG 1 33000044);
   SLog 1 (demo_stmt LL_WARN 8 34000000); SStep 1; SStep 1; SStep 0; SStep 2; SStep 0;
   SStep 1; SStep 1; SStep 1; SExit 2; SStep 2; SStop 2; SStep 2; SStep 2] ++ replicate 7 (SStep 0).

Abbreviation demo_log_run := (
  match demo_appender with
  | inl _ => None
  | inr g => slog_run 64 128 demo_raw grow2 demo_clock demo_acts (slog_init LL_INFO g 2)
  end).

Example demo_logged :
  match demo_log_run with
  | Some s => ths (sink s) !! 0%nat = Some Idle /\ fst <$> said s = [1; 2; 1]%nat /\
      LogFileAppender.disk (m_log_file (sh (sink s))) =
        bs "old;2023_04_21-20_10_33:42 INFO  x=-7-a.cc:3:f" ++ newline ++
        bs "2023_04_21-20_10_33:43 ERROR x=5-a.cc:3:f" ++ newline ++
        bs "2023_04_21-20_10_34:0 WARN  x=8-a.cc:3:f" ++ newline
  | None => False
  end.
Proof. vm_compute. done. Qed.

Lemma demo_stmts_ok t st : SLog t st ∈ demo_acts -> stmt_ok demo_clock st.
Proof.
  assert (H : Forall (fun a => match a with SLog _ st => stmt_ok demo_clock st | _ => True end) demo_acts).
  { repeat constructor; try done; vm_compute; intuition discriminate. }
  rewrite Forall_forall in H. intros Hin. by specialize (H _ Hin).
Qed.

Lemma slog_end_to_end_witness :
  match demo_log_run with
  | Some s => failed s = false /\
      LogFileAppender.disk (m_log_file (sh (sink s))) = bs "old;" ++ mjoin (acked_of (hist s))
  | None => False
  end.
Proof.
  pose proof demo_logged as Hd. destruct demo_appender as [|g] eqn:Hg; [done|].
  destruct (slog_run 64 128 demo_raw grow2 demo_clock demo_acts (slog_init LL_INFO g 2)) as [s|] eqn:Hr; [|done].
  destruct (slog_end_to_end 64 128 demo_raw grow2 demo_clock 400 2 (bs "old;")
    [LogFileAppender.WIntr; LogFileAppender.Wrote 3] (replicate 128 nul) g LL_INFO 2 demo_acts s)
    as (H&_&_&_&He); [lia|done|lia|lia|exact Hg|done|exact demo_no_error|exact demo_stmts_ok|exact Hr|].
  split; [exact H|]. apply He, Hd.
Defined.
