(* ===== verification/SysLogger.v ===== *)
(** * SysLogger.v: the logger of [sys/Log.h], [sys/Logger.h] and [sys/src/]

[slog(level, format, ...)] writes to one file per level.  A message is formatted in a
buffer of the pool [buffer_], which is pushed into [pendingMsg_]; the thread of the
[LogWorker] pops the buffers, writes them to their streams and releases them.

What the logger needs of the pool and of the queue is stated by two typeclasses; the
sequential object [LockFreeListQueue] is proved to implement
([LockFreeList.queue_spec]) is an instance of the second, with the capacity the
constructor gives it.  Each access to the pool, the queue, a semaphore, the counter or a
stream is a step of Conc.v; a buffer is filled by its owner in one step.  [accepted] is
not part of the program: it records what was pushed, in order.

While the streams are good, the messages fit, one thread flushes at a time and the pool and
the queue keep their promises, no message is lost or reordered and no buffer is lost; a
[Push] never fails, because the queue has room for every buffer ([sys_log_fifo]).  The
memory of the buffers may hold anything, unless strings are logged, which are copied without
a NUL.  The examples at the end show what a bad stream, a long message, a string over such
memory, two flushing threads and a replaced stream do.

The pool promises atomic operations on the set of its free buffers.  LockFreeBuffer.v proves
this of the code from a well-formed state ([LockFreeBuffer_linearizable]); what the
constructor leaves behind is not quite one ([constructor_double_alloc]).  The queue's promise
is proved of the code for one producer and one consumer
([LockFreeList_spsc_linearizable]). *)

From stdpp Require Import pretty.
From S2P Require Import Prelude Machine Conc LockFreeBuffer LockFreeList LogStream Thread.

(** ** [slog] *)

Inductive LogLevel : Type :=
| LOG_ALL | LOG_VERB | LOG_INFO | LOG_DEBUG | LOG_WARN | LOG_ERROR | LOG_FATAL | LOG_LEVELS.

Definition level_value (l : LogLevel) : Z :=
  match l with
  | LOG_ALL => 0 | LOG_VERB => 1 | LOG_INFO => 2 | LOG_DEBUG => 3 | LOG_WARN => 4
  | LOG_ERROR => 5 | LOG_FATAL => 6 | LOG_LEVELS => 7
  end.

Inductive proc : Type :=
| slog_all | slog_verb | slog_info | slog_debug | slog_warn | slog_error | slog_fatal.

Definition log_file (p : proc) : bytes :=
  match p with
  | slog_all => bs "slog_all.log" | slog_debug => bs "slog_debug.log"
  | slog_info => bs "slog_info.log" | slog_verb => bs "slog_verb.log"
  | slog_warn => bs "slog_warn.log" | slog_error => bs "slog_error.log"
  | slog_fatal => bs "slog_fatal.log"
  end.

Definition slog_arr : list proc :=
  [slog_all; slog_verb; slog_info; slog_debug; slog_warn; slog_error; slog_fatal].

(** [g_logLevel] at the start. *)
Definition g_logLevel : Z := 5.

(** Dropped, sent to a file, or a call through a pointer behind the array. *)
Inductive dispatch : Type := Dropped | Sent (p : proc) | WildCall.

Definition slog (threshold : Z) (level : LogLevel) : dispatch :=
  let l := level_value level in
  if (l <? 0) || (l <? threshold) then Dropped else
  match slog_arr !! Z.to_nat l with Some p => Sent p | None => WildCall end.

(** The constructor of [Logger]: the file name is cut by [snprintf]. *)
Definition log_file_name (file : bytes) (pid : Z) : bytes :=
  take 255 (file ++ bs "." ++ bs (pretty pid)).

(** A level reaches the file of its own name, from the threshold on. *)
Lemma slog_spec threshold level :
  level <> LOG_LEVELS ->
  slog threshold level =
    if level_value level <? threshold then Dropped else
    Sent (match level with
      | LOG_ALL => slog_all | LOG_VERB => slog_verb | LOG_INFO => slog_info
      | LOG_DEBUG => slog_debug | LOG_WARN => slog_warn | LOG_ERROR => slog_error
      | _ => slog_fatal end).
Proof. unfold slog. intros H. destruct level; try done; simpl; by case_match. Qed.

Example slog_default : slog g_logLevel LOG_WARN = Dropped /\ slog g_logLevel LOG_ERROR = Sent slog_error.
Proof. done. Qed.

(** The last enumerator is accepted and is not an index of the array. *)
Example slog_levels : slog g_logLevel LOG_LEVELS = WildCall.
Proof. done. Qed.

(** ** What the logger needs of the pool and of the queue *)

Class BufferPool (P : Type) : Type := {
  AllocBuffer : P -> option (nat * P);
  ReleaseBuffer : nat -> P -> P
}.

Class BufferPoolSpec (P : Type) `{BufferPool P} (free : P -> list nat) : Prop := {
  AllocBuffer_spec p :
    match AllocBuffer p with
    | Some (b, p') => free p ≡ₚ b :: free p'
    | None => free p = []
    end;
  ReleaseBuffer_spec b p : free (ReleaseBuffer b p) ≡ₚ b :: free p
}.

Class MessageQueue (Q : Type) : Type := {
  Push : nat -> Q -> Q * bool;
  Pop : Q -> Q * option nat
}.

Class MessageQueueSpec (Q : Type) `{MessageQueue Q} (items : Q -> list nat) (cap : nat) : Prop := {
  Push_spec x q :
    match Push x q with
    | (q', true) => items q' = items q ++ [x]
    | (q', false) => q' = q /\ (cap <= length (items q))%nat
    end;
  Pop_spec q :
    match Pop q with
    | (q', Some x) => items q = x :: items q'
    | (q', None) => q' = q /\ items q = []
    end
}.

(** The free stack of the pool. *)
Record free_stack : Type := FreeStack { stacked : list nat }.

#[export] Instance free_stack_pool : BufferPool free_stack := {|
  AllocBuffer p := match stacked p with [] => None | b :: l => Some (b, FreeStack l) end;
  ReleaseBuffer b p := FreeStack (b :: stacked p)
|}.

#[export] Instance free_stack_spec : BufferPoolSpec free_stack stacked.
Proof. split; [intros [[|b l]]; simpl; done|intros b [l]; simpl; done]. Qed.

(** [pendingMsg_(size_ + 1)]: the queue LockFreeList.v refines, with one node for the
    dummy. *)
Record list_queue (size_ : nat) : Type := ListQueue { queued : list Z }.
Arguments ListQueue {size_} _.
Arguments queued {size_} _.

#[export] Instance list_queue_ops size_ : MessageQueue (list_queue size_) := {|
  Push x q :=
    match queue_spec (size_ + 1) (queued q) (LockFreeList.OPush (Z.of_nat x)) with
    | (l, LockFreeList.RPush ok) => (ListQueue l, ok)
    | (l, _) => (ListQueue l, false)
    end;
  Pop q :=
    match queue_spec (size_ + 1) (queued q) LockFreeList.OPop with
    | (l, LockFreeList.RPop (Some v)) => (ListQueue l, Some (Z.to_nat v))
    | (l, _) => (ListQueue l, None)
    end
|}.

#[export] Instance list_queue_laws size_ :
  MessageQueueSpec (list_queue size_) (fun q => Z.to_nat <$> queued q) size_.
Proof.
  split.
  - intros x [l]. simpl. case_bool_decide as E; simpl.
    + split; [done|]. rewrite length_fmap. lia.
    + by rewrite fmap_app, fmap_cons, fmap_nil, Nat2Z.id.
  - by intros [[|v l]].
Qed.

(** ** The worker *)

(** [Worker(LOG_MAX_PENDING, LOG_GRANULARITY, LOG_FLUSH_TIMEOUT)]: the [fout] member of a
    [LogEntity] takes 8 bytes, the rest of a buffer of the pool is [data]. *)
Definition LOG_MAX_PENDING : nat := 64.
Definition LOG_GRANULARITY : Z := 256.
Definition sizeof_LogEntity : Z := 8.
Definition data_area (granularity : Z) : Z :=
  granularity_of (granularity + sizeof_LogEntity) - sizeof_LogEntity.

Record LogEntity : Type := Entity { fout : option nat; data : bytes }.

(** A stream: [alive] until it is deleted; [room] writes succeed before one fails. *)
Record stream : Type := Stream {
  alive : bool; good : bool; room : option nat; written : list bytes
}.

(** [*fout << data << std::endl] *)
Definition put_line (line : bytes) (s : stream) : stream :=
  match room s with
  | None => Stream (alive s) (good s) None (written s ++ [line])
  | Some O => Stream (alive s) false (Some 0%nat) (written s)
  | Some (S n) => Stream (alive s) (good s) (Some n) (written s ++ [line])
  end.

(** *** Filling a buffer *)

Definition put (off : Z) (b : bytes) (mem : bytes) : option bytes :=
  if (0 <=? off) && (off + blen b <=? blen mem) then Some (blit mem (Z.to_nat off) b) else None.

(** [strncpy(dst, src, n)] writes [n] bytes: the string, then zeros. *)
Definition strncpy_bytes (src : bytes) (n : Z) : bytes :=
  let s := take (Z.to_nat n) (c_str src) in s ++ replicate (Z.to_nat n - length s) nul.

(** [vsnprintf(dst, n, ...)] of which [text] is the full result. *)
Definition vsnprintf_bytes (text : bytes) (n : Z) : bytes :=
  take (Z.to_nat (n - 1)) (c_str text) ++ [nul].

(** [PatchTimeStamp]: [time] is what [strftime] gives for the local time. *)
Definition count_field (c : Z) : bytes := bs "[" ++ bs (pretty c) ++ bs "]".
Definition PatchTimeStamp (c : Z) (time : bytes) (mem : bytes) : option (bytes * Z) :=
  mem ← put 0 (count_field c ++ [nul]) mem;
  let tl := blen (count_field c) in
  mem ← put tl (time ++ [nul]) mem;
  Some (mem, tl + blen time).

(** The two [Log] functions: a string, or a format with its result. *)
Inductive source : Type := Str (msg time : bytes) | Fmt (text time : bytes).

Definition fill (granularity : Z) (s : source) (c : Z) (mem : bytes) : option bytes :=
  match s with
  | Str msg time =>
      let sz := blen msg in
      let sz := if sz >=? granularity then granularity - 1 else sz in
      '(mem, tl) ← PatchTimeStamp c time mem; put tl (strncpy_bytes msg sz) mem
  | Fmt text time =>
      '(mem, tl) ← PatchTimeStamp c time mem; put tl (vsnprintf_bytes text (granularity - 1)) mem
  end.

(** *** Steps *)

Inductive op : Type :=
| OLog (stream : nat) (s : source)   (* [Logger::Log] *)
| ORun (timedout : bool)             (* one round of [Run] *)
| OFlush                             (* [Logger::Flush] *)
| OStop                              (* [StopLogging] *)
| ODelete (stream : nat).            (* [SetOutStream] or [~Logger] *)

Inductive res : Type := RLog (ret : Z) | RRun (exit : bool) | RFlush | RStop | RDelete.

Inductive loc : Type :=
(* Log *)
| LStart (f : nat) (s : source)
| LFout (b f : nat) (s : source)
| LCount (b : nat) (s : source)
| LFill (b : nat) (s : source) (c : Z)
(* DoLog *)
| LPush (b : nat) (retry : Z)
| LPost (b : nat) (retry : Z) (ret : bool)
(* Flush, on behalf of Run or of a caller *)
| FPop (run : bool)
| FGood (run : bool) (b : nat)
| FWrite (run : bool) (b f : nat)
| FRelease (run : bool) (b : nat)
(* Run *)
| RWait (timedout : bool)
| RTry
(* StopLogging *)
| SRun
| SSig
| SStop
| DDelete (f : nat).

Definition start (o : op) : loc :=
  match o with
  | OLog f s => LStart f s
  | ORun t => RWait t
  | OFlush => FPop false
  | OStop => SRun
  | ODelete f => DDelete f
  end.

Section Worker.
Context {P Q : Type} `{BufferPool P} `{MessageQueue Q}.
Variable granularity_ : Z.

Record LogWorker : Type := Shared {
  buffer_ : P;
  pendingMsg_ : Q;
  ents : list LogEntity;
  counter_ : Z;
  sig_ : Z;
  stop_ : Z;
  run_ : bool;
  streams : list stream;
  accepted : list (nat * bytes)
}.

Definition set_pool p g := Shared p (pendingMsg_ g) (ents g) (counter_ g) (sig_ g) (stop_ g)
  (run_ g) (streams g) (accepted g).
Definition set_queue q acc g := Shared (buffer_ g) q (ents g) (counter_ g) (sig_ g) (stop_ g)
  (run_ g) (streams g) acc.
Definition set_ents l g := Shared (buffer_ g) (pendingMsg_ g) l (counter_ g) (sig_ g) (stop_ g)
  (run_ g) (streams g) (accepted g).
Definition set_counter c g := Shared (buffer_ g) (pendingMsg_ g) (ents g) c (sig_ g) (stop_ g)
  (run_ g) (streams g) (accepted g).
Definition set_sig n g := Shared (buffer_ g) (pendingMsg_ g) (ents g) (counter_ g) n (stop_ g)
  (run_ g) (streams g) (accepted g).
Definition set_stop n g := Shared (buffer_ g) (pendingMsg_ g) (ents g) (counter_ g) (sig_ g) n
  (run_ g) (streams g) (accepted g).
Definition set_run r g := Shared (buffer_ g) (pendingMsg_ g) (ents g) (counter_ g) (sig_ g)
  (stop_ g) r (streams g) (accepted g).
Definition set_streams l g := Shared (buffer_ g) (pendingMsg_ g) (ents g) (counter_ g) (sig_ g)
  (stop_ g) (run_ g) l (accepted g).

Definition sem_post (v : Z) : Z := if v =? 2 ^ 31 - 1 then v else v + 1.

Abbreviation out := (outcome LogWorker loc res).

(** What the buffer holds as a line: the bytes before the first NUL. *)
Definition line (e : LogEntity) : bytes := c_str (data e).

Definition Log_step (g : LogWorker) (l : loc) : out :=
  match l with
  | LStart f s =>
      match s with
      | Str [] _ => Ret g (RLog 0)
      | _ =>
          match AllocBuffer (buffer_ g) with
          | None => Ret g (RLog 0)
          | Some (b, p) => Next (set_pool p g) (LFout b f s)
          end
      end
  | LFout b f s =>
      match ents g !! b with
      | Some e => Next (set_ents (<[b:=Entity (Some f) (data e)]> (ents g)) g) (LCount b s)
      | None => Fault
      end
  | LCount b s =>
      let '(c, x) := atomic_increment (counter_ g) in Next (set_counter x g) (LFill b s c)
  | LFill b s c =>
      match ents g !! b with
      | Some e =>
          match fill granularity_ s c (data e) with
          | Some d => Next (set_ents (<[b:=Entity (fout e) d]> (ents g)) g) (LPush b 0)
          | None => Fault
          end
      | None => Fault
      end
  | _ => Fault
  end.

Definition DoLog_step (g : LogWorker) (l : loc) : out :=
  match l with
  | LPush b retry =>
      let '(q, ret) := Push b (pendingMsg_ g) in
      let acc :=
        match ret, ents g !! b with
        | true, Some (Entity (Some f) d) => accepted g ++ [(f, c_str d)]
        | _, _ => accepted g
        end in
      if retry <? 32 then Next (set_queue q acc g) (LPost b (retry + 1) ret)
      else Ret (set_queue q acc g) (RLog 0)
  | LPost b retry ret =>
      let g' := set_sig (sem_post (sig_ g)) g in
      if ret then Ret g' (RLog (granularity_ - 1)) else Next g' (LPush b retry)
  | _ => Fault
  end.

(** Reading [data] of a buffer without a NUL runs out of the buffer. *)
Definition Flush_step (g : LogWorker) (l : loc) : out :=
  match l with
  | FPop run =>
      match Pop (pendingMsg_ g) with
      | (q, Some b) => Next (set_queue q (accepted g) g) (FGood run b)
      | (q, None) => if run then Next g RTry else Ret g RFlush
      end
  | FGood run b =>
      match ents g !! b with
      | Some (Entity (Some f) _) =>
          match streams g !! f with
          | Some s => if alive s then if good s then Next g (FWrite run b f) else Next g (FPop run)
                      else Fault
          | None => Fault
          end
      | _ => Fault
      end
  | FWrite run b f =>
      match ents g !! b, streams g !! f with
      | Some e, Some s =>
          if alive s && bool_decide (nul ∈ data e)
          then Next (set_streams (<[f:=put_line (line e) s]> (streams g)) g) (FRelease run b)
          else Fault
      | _, _ => Fault
      end
  | FRelease run b => Next (set_pool (ReleaseBuffer b (buffer_ g)) g) (FPop run)
  | _ => Fault
  end.

Definition Run_step (g : LogWorker) (l : loc) : out :=
  match l with
  | RWait timedout =>
      if 0 <? sig_ g then Next (set_sig (sig_ g - 1) g) (FPop true)
      else if timedout then Next g (FPop true) else Next g (RWait timedout)
  | RTry =>
      if 0 <? stop_ g then Ret (set_stop (stop_ g - 1) g) (RRun true) else Ret g (RRun false)
  | _ => Fault
  end.

Definition StopLogging_step (g : LogWorker) (l : loc) : out :=
  match l with
  | SRun => Next (set_run false g) SSig
  | SSig => Next (set_sig (sem_post (sig_ g)) g) SStop
  | SStop => Ret (set_stop (sem_post (stop_ g)) g) RStop
  | _ => Fault
  end.

(** [delete fout_] in [SetOutStream] and in [~Logger]. *)
Definition SetOutStream_step (g : LogWorker) (l : loc) : out :=
  match l with
  | DDelete f =>
      match streams g !! f with
      | Some s =>
          if alive s
          then Ret (set_streams (<[f:=Stream false false (room s) (written s)]> (streams g)) g) RDelete
          else Fault
      | None => Fault
      end
  | _ => Fault
  end.

Definition code (g : LogWorker) (l : loc) : out :=
  match l with
  | LStart _ _ | LFout _ _ _ | LCount _ _ | LFill _ _ _ => Log_step g l
  | LPush _ _ | LPost _ _ _ => DoLog_step g l
  | FPop _ | FGood _ _ | FWrite _ _ _ | FRelease _ _ => Flush_step g l
  | RWait _ | RTry => Run_step g l
  | SRun | SSig | SStop => StopLogging_step g l
  | DDelete _ => SetOutStream_step g l
  end.

(** The constructor; [junk] is what the memory of the pool holds. *)
Definition LogWorker_init (pool : P) (queue : Q) (junk : list bytes) (ss : list stream) : LogWorker :=
  Shared pool queue ((fun d => Entity None d) <$> junk) 0 0 0 false ss [].

(** [RunWorker]; [Thread.Start] is the [Start] of [ThreadBase]. *)
Definition RunWorker (r : pthread_results) (g : LogWorker) (th : Thread.Thread) :
    LogWorker * Thread.Thread * option bool :=
  let g' := set_run true g in
  if IsRunning th then (g', th, None)
  else match Thread.Start r th with (th', _, made) => (g', th', made) end.

End Worker.
Arguments LogWorker _ _ : clear implicits.

(** ** What is in a filled buffer *)

Lemma put_ok o b mem :
  (o + length b <= length mem)%nat ->
  exists mem', put (Z.of_nat o) b mem = Some mem' /\ length mem' = length mem /\
    take (o + length b) mem' = take o mem ++ b /\
    forall n, (o + length b <= n)%nat -> drop n mem' = drop n mem.
Proof.
  intros H2. unfold put, blen. destruct (Z.leb_spec 0 (Z.of_nat o)); [|lia].
  destruct (Z.leb_spec (Z.of_nat o + Z.of_nat (length b)) (Z.of_nat (length mem))); [|lia].
  eexists. split; [done|]. rewrite Nat2Z.id.
  split_and!; [by apply length_blit|by apply take_blit_end|]. intros n Hn.
  unfold blit. rewrite app_assoc, drop_app_ge; rewrite length_app, length_take; [|lia].
  rewrite drop_drop. f_equal. lia.
Qed.

Lemma take_prefix {A} (l a b : list A) n :
  take n l = a ++ b -> take (length a) l = a.
Proof.
  intros E. pose proof (f_equal length E) as Hl. rewrite length_take, length_app in Hl.
  replace (take (length a) l) with (take (length a) (take n l)).
  - by rewrite E, take_app_length.
  - rewrite take_take. f_equal. lia.
Qed.

Definition stamp (c : Z) (time : bytes) : bytes := count_field c ++ time.

Lemma PatchTimeStamp_ok c time mem :
  (length (stamp c time) + 1 <= length mem)%nat ->
  exists mem', PatchTimeStamp c time mem = Some (mem', Z.of_nat (length (stamp c time))) /\
    length mem' = length mem /\ take (length (stamp c time)) mem' = stamp c time /\
    forall n, (length (stamp c time) + 1 <= n)%nat -> drop n mem' = drop n mem.
Proof.
  unfold PatchTimeStamp, stamp. generalize (count_field c) as f. intros f.
  rewrite length_app. intros Hl.
  destruct (put_ok 0 (f ++ [nul]) mem) as (m1&E1&L1&T1&D1); [rewrite length_app; simpl; lia|].
  change (Z.of_nat 0) with 0 in E1. rewrite E1. simpl.
  destruct (put_ok (length f) (time ++ [nul]) m1) as (m2&E2&L2&T2&D2);
    [rewrite length_app; simpl; lia|].
  unfold blen. rewrite E2. simpl. exists m2. rewrite length_app in *. simpl in *.
  split_and!; [do 2 f_equal; lia|lia| |].
  - rewrite <-length_app. rewrite (take_prefix _ f [nul] _ T1), app_assoc in T2.
    by apply (take_prefix _ _ [nul] _ T2).
  - intros n Hn. rewrite D2, D1 by lia. done.
Qed.

(** What the message writes behind the stamp. *)
Definition body (granularity : Z) (s : source) : bytes :=
  match s with
  | Str msg _ =>
      strncpy_bytes msg (if blen msg >=? granularity then granularity - 1 else blen msg)
  | Fmt text _ => vsnprintf_bytes text (granularity - 1)
  end.

Definition time_of (s : source) : bytes := match s with Str _ t | Fmt _ t => t end.

Lemma fill_ok granularity s c mem :
  let st := stamp c (time_of s) in
  (1 <= length (body granularity s))%nat ->
  (length st + length (body granularity s) <= length mem)%nat ->
  exists mem', fill granularity s c mem = Some mem' /\ length mem' = length mem /\
    mem' = st ++ body granularity s ++ drop (length st + length (body granularity s)) mem.
Proof.
  intros st H1 H2. destruct (PatchTimeStamp_ok c (time_of s) mem) as (m1&E1&L1&T1&D1).
  { fold st. lia. }
  fold st in E1, T1, D1.
  destruct (put_ok (length st) (body granularity s) m1) as (m2&E2&L2&T2&D2); [lia|].
  exists m2. rewrite L2, L1. split_and!; [|done|].
  - destruct s; simpl in *; by rewrite E1.
  - set (n := (length st + length (body granularity s))%nat) in *.
    assert (drop n m2 = drop n mem) as <- by (rewrite D2, D1 by lia; done).
    rewrite T1 in T2. by rewrite app_assoc, <-T2, take_drop.
Qed.

Lemma nul_not_in_count_field c : 0 <= c < 2 ^ 64 -> nul ∉ count_field c.
Proof.
  intros Hc. unfold count_field. rewrite !not_elem_of_app.
  split_and!; [vm_compute; set_solver|apply nul_not_in_pretty; lia|vm_compute; set_solver].
Qed.

Lemma length_stamp c time :
  0 <= c < 2 ^ 64 -> (length (stamp c time) <= 23 + length time)%nat.
Proof.
  intros Hc. unfold stamp, count_field. pose proof (blen_pretty_le c ltac:(lia)) as Hp.
  unfold blen in Hp. rewrite !length_app. simpl. lia.
Qed.

Lemma length_strncpy src n : length (strncpy_bytes src n) = Z.to_nat n.
Proof. unfold strncpy_bytes. rewrite length_app, length_replicate, length_take. lia. Qed.

(** ** The callers and the invariant

Any thread logs to one of the [nstreams] loggers a message that fits with its stamp; any
thread flushes, as the worker or through [Logger::Flush], but no two at once (they would
write to one [ofstream] at a time; the caller must see to it, see [two_flushers_reorder]);
no stream is replaced.  The client state is the thread that flushes.  What the memory of
the pool holds at the start is arbitrary for formatted messages, which are all that [slog]
logs; when [strings] are logged too, behind which [strncpy] writes no NUL, each buffer must
end in one. *)
Section Safety.
Context {P Q : Type} `{BufferPool P} `{MessageQueue Q}.
Context {free : P -> list nat} `{!BufferPoolSpec P free}.
Context {items : Q -> list nat} {size_ : nat} `{!MessageQueueSpec Q items size_}.
Variable granularity_ : Z.
Variable nstreams : nat.
Variable strings : bool.
Hypothesis granularity_min : 2 <= granularity_.

Abbreviation LogWorker := (LogWorker P Q).

Definition area : nat := Z.to_nat (data_area granularity_).

Definition fits (s : source) : Prop :=
  (24 + length (time_of s) + length (body granularity_ s) <= area)%nat /\
  (strings || match s with Fmt _ _ => true | Str _ _ => false end = true).

#[local] Instance fits_dec s : Decision (fits s) := and_dec _ _.

Definition cl_inv (k : option nat) (t : nat) (o : op) : option (option nat) :=
  match o with
  | OLog f s => if decide ((f < nstreams)%nat /\ fits s) then Some k else None
  | ORun _ | OFlush => match k with None => Some (Some t) | Some _ => None end
  | OStop => Some k
  | ODelete _ => None
  end.

Definition cl_ret (k : option nat) (t : nat) (r : res) : option nat :=
  match r with RRun _ | RFlush => None | _ => k end.

Definition owner (x : tstate loc) : list nat :=
  match x with
  | Run (LFout b _ _) | Run (LCount b _) | Run (LFill b _ _) | Run (LPush b _)
  | Run (FGood _ b) | Run (FWrite _ b _) | Run (FRelease _ b) => [b]
  | _ => []
  end.

Abbreviation owned := (gather owner).

(** The buffer that has left the queue and is not written yet. *)
Definition in_hand (x : tstate loc) : list nat :=
  match x with Run (FGood _ b) | Run (FWrite _ b _) => [b] | _ => [] end.

Definition hand (k : option nat) (ts : list (tstate loc)) : list nat :=
  match k with
  | Some t => match ts !! t with Some x => in_hand x | None => [] end
  | None => []
  end.

(** The lines for stream [f] in some buffers, and among what was accepted. *)
Definition lines (es : list LogEntity) (f : nat) (l : list nat) : list bytes :=
  l ≫= fun b =>
    match es !! b with
    | Some e => if decide (fout e = Some f) then [line e] else []
    | None => []
    end.

Definition accepted_for (f : nat) (acc : list (nat * bytes)) : list bytes :=
  (filter (fun p => p.1 = f) acc).*2.

Definition has_stream (es : list LogEntity) (b : nat) : Prop :=
  exists e f, es !! b = Some e /\ fout e = Some f /\ (f < nstreams)%nat.

(** The buffer is ready to be written out: it holds a C string. *)
Definition filled (es : list LogEntity) (b : nat) : Prop :=
  exists e f, es !! b = Some e /\ fout e = Some f /\ (f < nstreams)%nat /\ nul ∈ data e.

(** The size of a buffer; with [strings], the last byte is a NUL that no message reaches. *)
Definition closed (e : LogEntity) : Prop :=
  length (data e) = area /\ (strings = true -> data e !! (area - 1)%nat = Some nul).

Definition tinv (k : option nat) (t : nat) (es : list LogEntity) (x : tstate loc) : Prop :=
  match x with
  | Run (LStart f s) | Run (LFout _ f s) => (f < nstreams)%nat /\ fits s /\
      match x with Run (LFout _ _ _) => body granularity_ s <> [] | _ => True end
  | Run (LCount b s) => has_stream es b /\ fits s /\ body granularity_ s <> []
  | Run (LFill b s c) =>
      has_stream es b /\ fits s /\ body granularity_ s <> [] /\ 0 <= c < 2 ^ 64
  | Run (LPush b retry) => filled es b /\ retry = 0
  | Run (LPost _ _ ret) => ret = true
  | Run (FPop _) | Run (FRelease _ _) | Run (RWait _) | Run RTry => k = Some t
  | Run (FGood _ b) => k = Some t /\ filled es b
  | Run (FWrite _ b f) => k = Some t /\
      exists e, es !! b = Some e /\ fout e = Some f /\ (f < nstreams)%nat /\ nul ∈ data e
  | Run (DDelete _) => False
  | _ => True
  end.

Definition good_streams (ss : list stream) : Prop :=
  length ss = nstreams /\
  forall f s, ss !! f = Some s -> alive s = true /\ good s = true /\ room s = None.

Record Inv (g : LogWorker) (ts : list (tstate loc)) (k : option nat) : Prop := {
  w_len : length (ents g) = size_;
  w_ents : forall b e, ents g !! b = Some e -> closed e;
  w_part : free (buffer_ g) ++ owned ts ++ items (pendingMsg_ g) ≡ₚ seq 0 size_;
  w_queue : forall b, b ∈ items (pendingMsg_ g) -> filled (ents g) b;
  w_count : 0 <= counter_ g < 2 ^ 64;
  w_streams : good_streams (streams g);
  w_thr : forall t x, ts !! t = Some x -> tinv k t (ents g) x;
  w_fifo : forall f s, streams g !! f = Some s ->
    written s ++ lines (ents g) f (hand k ts ++ items (pendingMsg_ g)) =
    accepted_for f (accepted g)
}.

Lemma lines_frame es es' f l :
  (forall b, b ∈ l -> es' !! b = es !! b) -> lines es' f l = lines es f l.
Proof.
  intros Hs. induction l as [|b l IH]; [done|]. unfold lines. rewrite !bind_cons.
  rewrite Hs by set_solver. f_equal. apply IH. set_solver.
Qed.

Lemma lines_app es f l l' : lines es f (l ++ l') = lines es f l ++ lines es f l'.
Proof. apply bind_app. Qed.

Lemma log_tinv_frame k t es es' x :
  (forall b, b ∈ owner x -> es' !! b = es !! b) -> tinv k t es x -> tinv k t es' x.
Proof.
  intros Hs. assert (forall b, b ∈ owner x -> has_stream es b -> has_stream es' b) as Hh.
  { intros b Hb (e&f&He&?&?). exists e, f. by rewrite Hs. }
  assert (forall b, b ∈ owner x -> filled es b -> filled es' b) as Hh'.
  { intros b Hb (e&f&He&?&?&?). exists e, f. by rewrite Hs. }
  destruct x as [|[]]; simpl in *; try done;
    try (intros (?&?); split; [(apply Hh || apply Hh'); set_solver|done]).
  - intros (?&?). split; [done|]. apply Hh'; set_solver.
  - intros (?&e&?&?). split; [done|]. exists e. rewrite Hs by set_solver. done.
Qed.

(** Only the flushing thread depends on the client state. *)
Definition flushing (x : tstate loc) : bool :=
  match x with
  | Run (FPop _) | Run (FGood _ _) | Run (FWrite _ _ _) | Run (FRelease _ _) | Run (RWait _)
  | Run RTry => true
  | _ => false
  end.

Lemma tinv_other k k' t es x : flushing x = false -> tinv k t es x -> tinv k' t es x.
Proof. by destruct x as [|[]]. Qed.

Lemma tinv_flushing k t es x : flushing x = true -> tinv k t es x -> k = Some t.
Proof. destruct x as [|[]]; simpl; try done; by intros _ [? _]. Qed.

Lemma hand_elem k ts b :
  b ∈ hand k ts -> exists t y, k = Some t /\ ts !! t = Some y /\ b ∈ in_hand y.
Proof.
  unfold hand. intros Hin. destruct k as [t|]; [|set_solver].
  destruct (ts !! t) as [y|] eqn:Hy; [|set_solver]. by exists t, y.
Qed.

Section Step.
Context {g : LogWorker} {ts : list (tstate loc)} {k : option nat} {t : nat} {x : tstate loc}.
Hypothesis HI : Inv g ts k.
Hypothesis Ht : ts !! t = Some x.

Lemma owned_apart_log b :
  b ∈ owner x -> (b < size_)%nat /\ b ∉ items (pendingMsg_ g) /\
  forall t' y, t' <> t -> ts !! t' = Some y -> b ∉ owner y.
Proof.
  intros Hb. destruct (gather_insert owner ts t x Ht) as (rest&Hr&Hins).
  pose proof (w_part _ _ _ HI) as Hp. rewrite Hr in Hp.
  assert (NoDup (free (buffer_ g) ++ (owner x ++ rest) ++ items (pendingMsg_ g))) as Hnd.
  { rewrite Hp. apply NoDup_seq. }
  assert (b ∈ seq 0 size_) as Hs by (rewrite <-Hp; set_solver).
  apply elem_of_seq in Hs. apply NoDup_app in Hnd as (_&_&Hnd).
  rewrite <-app_assoc in Hnd. apply NoDup_app in Hnd as (_&Hx&_).
  split_and!; [lia|set_solver|]. intros t' y Hne Hy Hby.
  apply (Hx b Hb), elem_of_app. left. rewrite <-(app_nil_l rest), <-(Hins Idle).
  apply (gather_lookup owner _ t' y); [|done]. by rewrite list_lookup_insert_ne.
Qed.

Lemma hand_other y : k <> Some t -> hand k (<[t:=y]> ts) = hand k ts.
Proof. intros. unfold hand. destruct k; [|done]. by rewrite list_lookup_insert_ne by congruence. Qed.

Lemma hand_self y : k = Some t -> hand k (<[t:=y]> ts) = in_hand y /\ hand k ts = in_hand x.
Proof.
  intros ->. unfold hand. rewrite Ht, list_lookup_insert_eq; [done|]. by eapply lookup_lt_Some.
Qed.

(** A buffer of another thread, or in the queue, is not the one in hand here. *)
Lemma hand_apart b : b ∈ owner x -> in_hand x = [] -> b ∉ hand k ts.
Proof.
  intros Hb Hx. destruct (decide (k = Some t)) as [E|Hne].
  - destruct (hand_self Idle E) as [_ ->]. rewrite Hx. set_solver.
  - intros Hin. destruct (hand_elem k ts b Hin) as (t'&y&Ek&Hy&Hiny).
    destruct (owned_apart_log b Hb) as (_&_&Ho). apply (Ho t' y); [congruence|done|].
    destruct y as [|[]]; simpl in *; set_solver.
Qed.

(** Who flushes changes only when this thread begins or ends it. *)
Definition hands_over (k' : option nat) : Prop :=
  k' = k \/ (k = None /\ k' = Some t) \/ (k = Some t /\ k' = None).

Lemma hand_over k' y :
  hands_over k' -> (k' <> k -> in_hand x = [] /\ in_hand y = []) -> in_hand y = in_hand x ->
  hand k' (<[t:=y]> ts) = hand k ts.
Proof.
  intros Hk Hh E. destruct (decide (k' = k)) as [->|Hne].
  - destruct (decide (k = Some t)) as [Ek|Ek]; [|by apply hand_other].
    destruct (hand_self y Ek) as [-> ->]. done.
  - destruct (Hh Hne) as [Hx Hy]. unfold hand.
    destruct Hk as [?|[[-> ->]|[-> ->]]]; [done|..].
    + rewrite list_lookup_insert_eq by (by eapply lookup_lt_Some). done.
    + by rewrite Ht, Hx.
Qed.

Lemma Log_update g' y k' :
  hands_over k' ->
  length (ents g') = length (ents g) ->
  (forall b, b ∉ owner x -> ents g' !! b = ents g !! b) ->
  (forall b e, b ∈ owner x -> ents g' !! b = Some e -> closed e) ->
  free (buffer_ g') ++ owner y ++ items (pendingMsg_ g') ≡ₚ
    free (buffer_ g) ++ owner x ++ items (pendingMsg_ g) ->
  (forall b, b ∈ items (pendingMsg_ g') ->
    b ∈ items (pendingMsg_ g) \/ filled (ents g') b) ->
  0 <= counter_ g' < 2 ^ 64 -> good_streams (streams g') -> tinv k' t (ents g') y ->
  (forall f s, streams g' !! f = Some s ->
    written s ++ lines (ents g') f (hand k' (<[t:=y]> ts) ++ items (pendingMsg_ g')) =
    accepted_for f (accepted g')) ->
  Inv g' (<[t:=y]> ts) k'.
Proof.
  intros Hk Hl Hs Hc Hp Hq Hn Hg Hy Hf. constructor; try done.
  - rewrite Hl. apply HI.
  - intros b e He. destruct (decide (b ∈ owner x)) as [Hb|Hb]; [by apply (Hc b)|].
    rewrite Hs in He by done. by apply (w_ents _ _ _ HI b).
  - destruct (gather_insert owner ts t x Ht) as (rest&Hr&Hins).
    rewrite (Hins y), <-(w_part _ _ _ HI), Hr.
    transitivity (rest ++ (free (buffer_ g') ++ owner y ++ items (pendingMsg_ g')));
      [solve_Permutation|]. rewrite Hp. solve_Permutation.
  - intros b Hb. destruct (Hq b Hb) as [Hb'|]; [|done].
    destruct (w_queue _ _ _ HI b Hb') as (e&f&He&?&?&?). exists e, f. rewrite Hs; [done|].
    intros Hx. by destruct (owned_apart_log b Hx) as (_&?&_).
  - intros t' z Hz. apply list_insert_inv in Hz as [[-> ->]|[Hne Hz]]; [done|].
    apply (log_tinv_frame k' t' (ents g)).
    2: { pose proof (w_thr _ _ _ HI t' z Hz) as Hz'. destruct (flushing z) eqn:Ez.
      - pose proof (tinv_flushing _ _ _ _ Ez Hz') as Ek.
        destruct Hk as [->|[[? _]|[? _]]]; [done|congruence..].
      - by eapply tinv_other. }
    intros b Hb. apply Hs. intros Hx. destruct (owned_apart_log b Hx) as (_&_&Ho).
    by apply (Ho t' z).
Qed.

(** A step that moves no line. *)
Lemma Log_quiet g' y k' :
  hands_over k' -> (k' <> k -> in_hand x = [] /\ in_hand y = []) ->
  length (ents g') = length (ents g) ->
  (forall b, b ∉ owner x -> ents g' !! b = ents g !! b) ->
  (forall b e, b ∈ owner x -> ents g' !! b = Some e -> closed e) ->
  free (buffer_ g') ++ owner y ++ items (pendingMsg_ g') ≡ₚ
    free (buffer_ g) ++ owner x ++ items (pendingMsg_ g) ->
  pendingMsg_ g' = pendingMsg_ g -> accepted g' = accepted g -> streams g' = streams g ->
  in_hand y = in_hand x -> (ents g' = ents g \/ in_hand x = []) ->
  0 <= counter_ g' < 2 ^ 64 -> tinv k' t (ents g') y ->
  Inv g' (<[t:=y]> ts) k'.
Proof.
  intros Hk Hk' Hl Hs Hc Hp Hq Ha Hss Hh He Hn Hy. apply Log_update; try done.
  - rewrite Hq. auto.
  - rewrite Hss. apply HI.
  - intros f s Hf. rewrite Hss in Hf. rewrite Hq, Ha, <-(w_fifo _ _ _ HI f s Hf). f_equal.
    rewrite hand_over by done.
    destruct He as [->|He]; [done|]. apply lines_frame. intros b Hb. apply Hs. intros Hx.
    apply elem_of_app in Hb as [Hb|Hb]; [by apply (hand_apart b Hx He)|].
    by destruct (owned_apart_log b Hx) as (_&?&_).
Qed.
End Step.

(** *** The steps keep the invariant *)

Lemma body_not_nil s : (forall time, s <> Str [] time) -> body granularity_ s <> [].
Proof.
  intros Hs E. apply (f_equal length) in E. destruct s as [msg time|text time]; simpl in E.
  - rewrite length_strncpy in E. destruct msg as [|c msg]; [by apply (Hs time)|].
    assert (0 < blen (c :: msg)) by (unfold blen; simpl; lia). case_match; lia.
  - unfold vsnprintf_bytes in E. rewrite length_app in E. simpl in E. lia.
Qed.

Lemma ent_exists g ts k t x b :
  Inv g ts k -> ts !! t = Some x -> b ∈ owner x -> exists e, ents g !! b = Some e /\ closed e.
Proof.
  intros HI Ht Hb. destruct (owned_apart_log HI Ht b Hb) as [Hlt _].
  destruct (lookup_lt_is_Some_2 (ents g) b) as [e He]; [by rewrite (w_len _ _ _ HI)|].
  exists e. split; [done|]. by apply (w_ents _ _ _ HI b).
Qed.

Lemma fill_closed s c e :
  fits s -> body granularity_ s <> [] -> 0 <= c < 2 ^ 64 -> closed e ->
  exists d, fill granularity_ s c (data e) = Some d /\ closed (Entity (fout e) d) /\ nul ∈ d.
Proof.
  intros [Hf Hstr] Hb Hc [Hl Hn]. pose proof (length_stamp c (time_of s) Hc) as Hst.
  destruct (fill_ok granularity_ s c (data e)) as (d&Hd&Hld&Ed).
  { destruct (body granularity_ s); simpl; [done|lia]. }
  { lia. }
  assert (closed (Entity (fout e) d)) as Hcl.
  { split; simpl; [lia|]. intros E. rewrite <-(Hn E).
    rewrite Ed, app_assoc, lookup_app_r; rewrite length_app; [|lia].
    rewrite lookup_drop. f_equal. lia. }
  exists d. split_and!; [done..|]. destruct s as [msg time|text time].
  - rewrite orb_false_r in Hstr. eapply list_elem_of_lookup_2. by apply Hcl.
  - rewrite Ed. simpl. unfold vsnprintf_bytes. set_solver.
Qed.

Definition keeps (ts : list (tstate loc)) (k : option nat) (t : nat)
    (o : outcome LogWorker loc res) : Prop :=
  match o with
  | Next g' l' => Inv g' (<[t:=Run l']> ts) k
  | Ret g' r => Inv g' (<[t:=Idle]> ts) (cl_ret k t r)
  | Fault => False
  end.

Ltac quiet HI Ht :=
  apply (Log_quiet HI Ht); simpl; rewrite ?length_insert; try done; try (by auto);
  try (by left); try (by right; right); try (by intros []);
  try (by apply HI); try (by intros; eapply (w_ents _ _ _ HI)); try set_solver.

Lemma Log_keeps g ts k t l :
  Inv g ts k -> ts !! t = Some (Run l) ->
  match l with
  | LStart _ _ | LFout _ _ _ | LCount _ _ | LFill _ _ _ => keeps ts k t (Log_step granularity_ g l)
  | _ => True
  end.
Proof.
  intros HI Ht. pose proof (w_thr _ _ _ HI t _ Ht) as Hi. destruct l; try done; simpl in Hi.
  - destruct Hi as (Hf&Hfit&_).
    assert ((exists time, s = Str [] time) \/ body granularity_ s <> []) as [[time ->]|Hb].
    { destruct s as [[|c msg] time|text time]; [by left; exists time|right..]; by apply body_not_nil. }
    { quiet HI Ht. }
    assert (keeps ts k t (match AllocBuffer (buffer_ g) with
      | None => Ret g (RLog 0) | Some (b, p) => Next (set_pool p g) (LFout b f s) end)) as Hk.
    { pose proof (AllocBuffer_spec (buffer_ g)) as Hp. destruct (AllocBuffer _) as [[b p]|].
      - quiet HI Ht. rewrite Hp. solve_Permutation.
      - quiet HI Ht. }
    simpl. destruct s as [[|c msg] time|text time]; try done. exfalso. apply Hb.
    apply nil_length_inv. simpl. rewrite length_strncpy. change (blen []) with 0.
    rewrite Z.geb_leb. by destruct (Z.leb_spec granularity_ 0); [lia|].
  - destruct Hi as (Hf&Hfit&Hb).
    destruct (ent_exists g ts k t _ b HI Ht) as (e&He&Hcl); [set_solver|]. simpl. rewrite He.
    quiet HI Ht.
    + intros b' Hb'. rewrite list_lookup_insert_ne; [done|set_solver].
    + intros b' e' ->%list_elem_of_singleton He'.
      rewrite list_lookup_insert_eq in He' by (by eapply lookup_lt_Some). by simplify_eq.
    + split; [|done]. exists (Entity (Some f) (data e)), f.
      rewrite list_lookup_insert_eq by (by eapply lookup_lt_Some). done.
  - destruct Hi as (Hs&Hfit&Hb). simpl.
    pose proof (u64_range (counter_ g + 1)). quiet HI Ht. split_and!; try done; apply HI.
  - destruct Hi as (Hs&Hfit&Hb&Hc).
    destruct (ent_exists g ts k t _ b HI Ht) as (e&He&Hcl); [set_solver|]. simpl. rewrite He.
    destruct (fill_closed s c e Hfit Hb Hc Hcl) as (d&->&Hcl'&Hnul).
    quiet HI Ht.
    + intros b' Hb'. rewrite list_lookup_insert_ne; [done|set_solver].
    + intros b' e' ->%list_elem_of_singleton He'.
      rewrite list_lookup_insert_eq in He' by (by eapply lookup_lt_Some). by simplify_eq.
    + split; [|done]. destruct Hs as (e'&f&He'&Hf&?). simplify_eq.
      exists (Entity (fout e') d), f. rewrite list_lookup_insert_eq by (by eapply lookup_lt_Some).
      done.
Qed.

Lemma accepted_for_snoc f acc f' l :
  accepted_for f (acc ++ [(f', l)]) = accepted_for f acc ++ if decide (f' = f) then [l] else [].
Proof.
  unfold accepted_for. rewrite filter_app, fmap_app. f_equal. rewrite filter_cons. simpl.
  by case_decide.
Qed.

(** The queue has room for every buffer, so that [Push] succeeds. *)
Lemma queue_not_full g ts k t x b :
  Inv g ts k -> ts !! t = Some x -> b ∈ owner x -> (length (items (pendingMsg_ g)) < size_)%nat.
Proof.
  intros HI Ht Hb. destruct (gather_insert owner ts t x Ht) as (rest&Hr&_).
  pose proof (Permutation_length (w_part _ _ _ HI)) as Hl.
  rewrite !length_app, Hr, length_app, length_seq in Hl. destruct (owner x); [set_solver|].
  simpl in Hl. lia.
Qed.

Lemma DoLog_keeps g ts k t l :
  Inv g ts k -> ts !! t = Some (Run l) ->
  match l with
  | LPush _ _ | LPost _ _ _ => keeps ts k t (DoLog_step granularity_ g l)
  | _ => True
  end.
Proof.
  intros HI Ht. pose proof (w_thr _ _ _ HI t _ Ht) as Hi. destruct l; try done; simpl in Hi.
  - destruct Hi as [Hs ->]. pose proof Hs as ([f0 d]&f&He&Hf&Hlt&_). simpl in Hf; subst f0.
    pose proof (queue_not_full g ts k t _ b HI Ht ltac:(set_solver)) as Hfull.
    simpl. pose proof (Push_spec b (pendingMsg_ g)) as Hp.
    destruct (Push b (pendingMsg_ g)) as [q []]; [|lia]. rewrite He. simpl.
    apply (Log_update HI Ht); simpl; try done; try (by left); try (by intros; eapply (w_ents _ _ _ HI)); [| |apply HI..|].
    + rewrite Hp. solve_Permutation.
    + intros b' Hb'. rewrite Hp in Hb'. apply elem_of_app in Hb' as [?|Hb']; [by left|right].
      by apply list_elem_of_singleton in Hb' as ->.
    + intros f' s' Hs'. rewrite Hp, accepted_for_snoc, <-(w_fifo _ _ _ HI f' s' Hs'), app_assoc.
      rewrite lines_app, app_assoc. f_equal.
      * do 2 f_equal. f_equal. by apply (hand_over HI Ht); [left|..].
      * unfold lines. simpl. rewrite He. simpl. unfold line. simpl.
        destruct (decide (f = f')) as [->|]; [by rewrite decide_True|].
        rewrite decide_False; [done|congruence].
  - simpl. subst ret. quiet HI Ht.
Qed.

Lemma Flush_keeps g ts k t l :
  Inv g ts k -> ts !! t = Some (Run l) ->
  match l with
  | FPop _ | FGood _ _ | FWrite _ _ _ | FRelease _ _ => keeps ts k t (Flush_step g l)
  | _ => True
  end.
Proof.
  intros HI Ht. pose proof (w_thr _ _ _ HI t _ Ht) as Hi. destruct l; try done; simpl in Hi.
  - simpl. pose proof (Pop_spec (pendingMsg_ g)) as Hp. destruct (Pop _) as [q [b|]].
    + apply (Log_update HI Ht); simpl; try done; try (by left); try (by intros; eapply (w_ents _ _ _ HI)); [| |apply HI..| |].
      * rewrite Hp. solve_Permutation.
      * intros b' Hb'. left. rewrite Hp. set_solver.
      * split; [done|]. apply (w_queue _ _ _ HI). rewrite Hp. set_solver.
      * intros f s Hs. rewrite <-(w_fifo _ _ _ HI f s Hs), Hp.
        by destruct (hand_self HI Ht (Run (FGood run b)) Hi) as [-> ->].
    + destruct run; quiet HI Ht.
  - destruct Hi as (Hk&Hs). pose proof Hs as ([f0 d]&f&He&Hf&Hlt&Hn). simpl in Hf; subst f0.
    simpl. rewrite He. destruct (w_streams _ _ _ HI) as [Hlen Hgood].
    destruct (lookup_lt_is_Some_2 (streams g) f) as [s Hsf]; [lia|]. rewrite Hsf.
    destruct (Hgood f s Hsf) as (->&->&_). quiet HI Ht.
  - destruct Hi as (Hk&e&He&Hf&Hlt&Hn). simpl. rewrite He. destruct (w_streams _ _ _ HI) as [Hlen Hgood].
    destruct (lookup_lt_is_Some_2 (streams g) f) as [s Hsf]; [lia|]. rewrite Hsf.
    destruct (Hgood f s Hsf) as (Ha&Hg&Hr). rewrite Ha.
    rewrite bool_decide_true by done. simpl.
    apply (Log_update HI Ht); simpl; try done; try (by left); try (by intros; eapply (w_ents _ _ _ HI)); [apply HI| |].
    + split; [by rewrite length_insert|]. intros f' s' Hs'.
      apply list_insert_inv in Hs' as [[-> ->]|[_ Hs']]; [|by apply (Hgood f')].
      unfold put_line. by rewrite Hr.
    + intros f' s' Hs'. destruct (hand_self HI Ht (Run (FRelease run b)) Hk) as [-> Hh].
      apply list_insert_inv in Hs' as [[-> ->]|[Hne Hs']].
      * rewrite <-(w_fifo _ _ _ HI f s Hsf), Hh. unfold put_line. rewrite Hr. simpl.
        rewrite He, decide_True by done. by rewrite <-app_assoc.
      * rewrite <-(w_fifo _ _ _ HI f' s' Hs'), Hh. f_equal. simpl.
        by rewrite He, decide_False by congruence.
  - simpl. quiet HI Ht. rewrite ReleaseBuffer_spec. solve_Permutation.
Qed.

Lemma Worker_keeps g ts k t l :
  Inv g ts k -> ts !! t = Some (Run l) ->
  match l with
  | RWait _ | RTry => keeps ts k t (Run_step g l)
  | SRun | SSig | SStop => keeps ts k t (StopLogging_step g l)
  | DDelete _ => False
  | _ => True
  end.
Proof.
  intros HI Ht. pose proof (w_thr _ _ _ HI t _ Ht) as Hi. destruct l; try done; simpl in Hi; simpl;
    repeat case_match; by quiet HI Ht.
Qed.

Lemma Logger_invoke g ts k t o k' :
  Inv g ts k -> ts !! t = Some Idle -> cl_inv k t o = Some k' ->
  Inv g (<[t:=Run (start o)]> ts) k'.
Proof.
  intros HI Ht Ho. destruct o; simpl in *; repeat case_match; simplify_eq; try done; quiet HI Ht; by right; left.
Qed.

Lemma LogWorker_init_Inv pool queue junk ss n :
  length junk = size_ -> (forall d, d ∈ junk -> closed (Entity None d)) ->
  good_streams ss -> (forall s, s ∈ ss -> written s = []) ->
  free pool ≡ₚ seq 0 size_ -> items queue = [] ->
  Inv (LogWorker_init pool queue junk ss) (replicate n Idle) None.
Proof.
  intros Hl Hj Hg Hw Hf Hq. constructor; simpl; try done.
  - by rewrite length_fmap.
  - intros b e He. apply list_lookup_fmap_Some in He as (d&->&Hd). apply Hj.
    by eapply list_elem_of_lookup_2.
  - rewrite gather_idle, Hq, !app_nil_r by done. done.
  - rewrite Hq. set_solver.
  - intros t x Hx. by apply lookup_replicate in Hx as [-> _].
  - intros f s Hs. rewrite Hw by (by eapply list_elem_of_lookup_2). by rewrite Hq.
Qed.

(** What a state of the logger promises: no buffer is lost or in two places; every
    message is pushed at the first attempt; what was accepted for a stream is what has
    been written to it, followed by what is still in a buffer, in the same order. *)
Definition delivers (g : LogWorker) (ts : list (tstate loc)) (k : option nat) : Prop :=
  free (buffer_ g) ++ owned ts ++ items (pendingMsg_ g) ≡ₚ seq 0 size_ /\
  (forall t l, ts !! t = Some (Run l) ->
    match l with LPush _ retry => retry = 0 | LPost _ _ ret => ret = true | _ => True end) /\
  forall f s, streams g !! f = Some s ->
    accepted_for f (accepted g) =
    written s ++ lines (ents g) f (hand k ts ++ items (pendingMsg_ g)).

(** *** The worker catches up *)

Abbreviation solo := (solo (code granularity_)).

Lemma Flush_one g ts k t run b l :
  Inv g ts k -> ts !! t = Some (Run (FPop run)) -> items (pendingMsg_ g) = b :: l ->
  exists g', solo 4 g (FPop run) = Next g' (FPop run) /\ Inv g' ts k /\
    items (pendingMsg_ g') = l /\ accepted g' = accepted g.
Proof.
  intros HI Ht Hq. pose proof (lookup_lt_Some _ _ _ Ht) as Hlt.
  pose proof (Flush_keeps g ts k t (FPop run) HI Ht) as H1. simpl in H1.
  pose proof (Pop_spec (pendingMsg_ g)) as Hp. destruct (Pop (pendingMsg_ g)) as [q [b'|]] eqn:Ep;
    [|by destruct Hp; congruence].
  rewrite Hq in Hp. simplify_eq. set (g1 := set_queue q (accepted g) g) in *.
  pose proof (w_thr _ _ _ H1 t _ (list_lookup_insert_eq _ _ _ Hlt)) as Hi1. simpl in Hi1.
  destruct Hi1 as (_&([f0 d]&f&He&Hf&Hltf&Hn)). simpl in Hf. subst f0.
  destruct (w_streams _ _ _ H1) as [Hlen Hgood].
  destruct (lookup_lt_is_Some_2 (streams g) f) as [s Hsf]; [simpl in Hlen; lia|].
  destruct (Hgood f s Hsf) as (Ha&Hg&_).
  simpl in He, Hn.
  set (g2 := set_streams (<[f:=put_line (c_str d) s]> (streams g1)) g1).
  assert (Flush_step g1 (FGood run b') = Next g1 (FWrite run b' f)) as E2.
  { simpl. by rewrite He, Hsf, Ha, Hg. }
  assert (Flush_step g1 (FWrite run b' f) = Next g2 (FRelease run b')) as E3.
  { simpl. rewrite He, Hsf, Ha. simpl. by rewrite bool_decide_true. }
  pose proof (Flush_keeps _ _ _ t _ H1 (list_lookup_insert_eq _ _ _ Hlt)) as H2.
  cbn -[Flush_step] in H2. rewrite E2 in H2. simpl in H2. rewrite list_insert_insert_eq in H2.
  pose proof (Flush_keeps _ _ _ t _ H2 (list_lookup_insert_eq _ _ _ Hlt)) as H3.
  cbn -[Flush_step] in H3. rewrite E3 in H3. simpl in H3. rewrite list_insert_insert_eq in H3.
  pose proof (Flush_keeps _ _ _ t _ H3 (list_lookup_insert_eq _ _ _ Hlt)) as H4. simpl in H4.
  rewrite list_insert_insert_eq, list_insert_id in H4 by done.
  exists (set_pool (ReleaseBuffer b' (buffer_ g2)) g2). split; [|done].
  assert (Flush_step g (FPop run) = Next g1 (FGood run b')) as E1 by (simpl; by rewrite Ep).
  cbn -[Flush_step]. rewrite E1. cbn -[Flush_step]. rewrite E2. cbn -[Flush_step]. by rewrite E3.
Qed.

Lemma Flush_all g ts k t run :
  Inv g ts k -> ts !! t = Some (Run (FPop run)) ->
  exists g', solo (4 * length (items (pendingMsg_ g))) g (FPop run) = Next g' (FPop run) /\
    Inv g' ts k /\ items (pendingMsg_ g') = [] /\ accepted g' = accepted g.
Proof.
  intros HI Ht. remember (items (pendingMsg_ g)) as l eqn:Hl. revert g HI Hl.
  induction l as [|b l IH]; intros g HI Hl; [by exists g|].
  destruct (Flush_one g ts k t run b l HI Ht (eq_sym Hl)) as (g1&E1&HI1&Hq1&Ha1).
  destruct (IH g1 HI1 (eq_sym Hq1)) as (g'&E&HI'&Hq&Ha).
  exists g'. split_and!; [|done|done|congruence].
  replace (4 * length (b :: l))%nat with (4 + 4 * length l)%nat by (simpl; lia).
  by rewrite (solo_add _ _ _ _ _ _ _ E1).
Qed.

(** *** Whole executions *)

Section Runs.
Variables (pool : P) (queue : Q) (junk : list bytes) (ss : list stream) (n : nat).
Hypothesis Hjunk : length junk = size_.
Hypothesis Harea : forall d, d ∈ junk -> length d = area.
Hypothesis Hclosed : strings = true -> forall d, d ∈ junk -> d !! (area - 1)%nat = Some nul.
Hypothesis Hgood : good_streams ss.
Hypothesis Hempty : forall s, s ∈ ss -> written s = [].
Hypothesis Hfree : free pool ≡ₚ seq 0 size_.
Hypothesis Hqueue : items queue = [].

Abbreviation logger_init := (init_cfg (LogWorker_init pool queue junk ss) n None).

Lemma Logger_reach steps h c :
  reach start (code granularity_) cl_inv cl_ret logger_init steps h c ->
  faulted c = false /\ Inv (sh c) (ths c) (cl c).
Proof.
  intros Hr.
  apply (reach_invariant start (code granularity_) cl_inv cl_ret steps (fun _ g ts k => Inv g ts k))
    with logger_init steps h; [..|done| |exact Hr|lia].
  - intros m g1 ts k t o k' _ HI' Ht Hk. by eapply Logger_invoke.
  - intros m g1 ts k t l _ HI' Ht.
    pose proof (Log_keeps _ _ _ _ _ HI' Ht). pose proof (DoLog_keeps _ _ _ _ _ HI' Ht).
    pose proof (Flush_keeps _ _ _ _ _ HI' Ht). pose proof (Worker_keeps _ _ _ _ _ HI' Ht).
    by destruct l.
  - apply LogWorker_init_Inv; try done. intros d Hd. split; [by apply Harea|]. intros E. by apply Hclosed.
Qed.

(** C35. The pool and the queue are any objects whose operations are atomic and keep the
    promises of [BufferPoolSpec] and [MessageQueueSpec], the pool holding every buffer and
    the queue empty.  (LockFreeBuffer.v proves the first of the pool's code from a
    well-formed state, which its constructor does not quite leave behind and one allocation
    and release bring about, [warm_up_well_formed]; LockFreeList.v
    the second of the queue's code with one producer.)  Any number of threads log messages
    that fit their buffer together with the stamp; any thread runs rounds of the worker or
    [Flush], one thread at a time; anybody stops the worker; every stream is good, takes
    every write and is not replaced.  The memory of the pool holds anything when the
    messages are formatted, as all of [slog]'s are; for messages given as strings
    ([strings]), which [strncpy] copies without a NUL, each buffer has to end in one.  Then
    for every interleaving no thread writes or reads outside its buffer or uses a foreign
    pointer, and the state delivers ([delivers]): no buffer is lost or in two places, no
    [Push] fails, and each file holds what was pushed for it, complete, once and in order,
    up to what is still in the queue or in the hand of the thread that flushes. *)
Theorem sys_log_fifo steps h c :
  reach start (code granularity_) cl_inv cl_ret logger_init steps h c ->
  faulted c = false /\ delivers (sh c) (ths c) (cl c).
Proof.
  intros Hr. destruct (Logger_reach steps h c Hr) as [Hf HI].
  split; [done|]. split_and!; [apply HI| |intros; symmetry; by apply HI].
  intros t l Ht. pose proof (w_thr _ _ _ HI t _ Ht) as Hi. destruct l; try done. apply Hi.
Qed.

(** C36. [Flush] ends: in every state that the executions of C35 reach (good streams,
    fitting messages, one flushing thread, such a pool and queue), with [m] messages in
    the queue, a thread that has begun to flush, for the worker or for a caller, empties the
    queue in [4 m] of its own steps.  Then each file holds every message accepted for
    it, in order, and every buffer that no thread is working on is in the pool.  (On a stream
    that is not good [Flush] keeps the buffers: [bad_stream_starves_all].) *)
Theorem Flush_drains steps h c t run :
  reach start (code granularity_) cl_inv cl_ret logger_init steps h c ->
  ths c !! t = Some (Run (FPop run)) ->
  exists g', solo (4 * length (items (pendingMsg_ (sh c)))) (sh c) (FPop run) =
      Next g' (FPop run) /\
    items (pendingMsg_ g') = [] /\ accepted g' = accepted (sh c) /\
    (forall f s, streams g' !! f = Some s -> written s = accepted_for f (accepted (sh c))) /\
    free (buffer_ g') ++ owned (ths c) ≡ₚ seq 0 size_.
Proof.
  intros Hr Ht. destruct (Logger_reach steps h c Hr) as [_ HI].
  destruct (Flush_all (sh c) (ths c) (cl c) t run HI Ht) as (g'&E&HI'&Hq&Ha).
  exists g'. split_and!; try done.
  - intros f s Hs. rewrite <-Ha, <-(w_fifo _ _ _ HI' f s Hs), Hq.
    pose proof (w_thr _ _ _ HI t _ Ht) as Hk. simpl in Hk. rewrite Hk. unfold hand. rewrite Ht.
    by rewrite app_nil_r.
  - rewrite <-(w_part _ _ _ HI'), Hq. by rewrite app_nil_r.
Qed.
End Runs.
End Safety.

(** What a message looks like: the counter, the time, and then a formatted text cut
    at [granularity_ - 2] characters, exactly; but behind a string [strncpy] writes
    no NUL, so that what an earlier message has left in the buffer follows, up to the next
    NUL. *)
Theorem log_line granularity s c mem :
  2 <= granularity -> 0 <= c < 2 ^ 64 -> nul ∉ time_of s ->
  (forall time, s <> Str [] time) ->
  (length (stamp c (time_of s)) + length (body granularity s) <= length mem)%nat ->
  exists d, fill granularity s c mem = Some d /\ length d = length mem /\
    c_str d = count_field c ++ time_of s ++
      match s with
      | Fmt text _ => take (Z.to_nat (granularity - 2)) (c_str text)
      | Str msg _ =>
          let sz := Z.to_nat (if blen msg >=? granularity then granularity - 1 else blen msg) in
          if decide (length (c_str msg) < sz)%nat then c_str msg
          else take sz (c_str msg) ++ c_str (drop (length (stamp c (time_of s)) + sz) mem)
      end.
Proof.
  intros Hg Hc Hn Hs Hl.
  destruct (fill_ok granularity s c mem) as (d&Hd&Hld&Ed); [|done|].
  { pose proof (body_not_nil granularity Hg s Hs) as Hb.
    destruct (body granularity s); simpl; [done|lia]. }
  exists d. split_and!; [done..|]. rewrite Ed. unfold stamp.
  rewrite <-app_assoc, c_str_app by (by apply nul_not_in_count_field). f_equal.
  rewrite c_str_app by done. f_equal. clear Hd Ed.
  assert (forall n b, nul ∉ take n (c_str b)) as Htake.
  { intros n b Hin. apply (nul_not_in_c_str b). by eapply subseteq_take. }
  destruct s as [msg time|text time]; simpl.
  - set (sz := Z.to_nat _). unfold strncpy_bytes. fold sz. case_decide as Hlt.
    + rewrite take_ge by lia. replace (sz - length (c_str msg))%nat with
        (S (sz - length (c_str msg) - 1)) by lia.
      rewrite <-app_assoc. simpl. apply c_str_nul, nul_not_in_c_str.
    + rewrite length_take, Nat.min_l, Nat.sub_diag, app_nil_r by lia.
      rewrite c_str_app by done. rewrite length_take, Nat.min_l by lia. done.
  - unfold vsnprintf_bytes. rewrite <-app_assoc.
    replace (granularity - 1 - 1) with (granularity - 2) by lia. by apply c_str_nul.
Qed.

(** ** Examples

Two buffers of the size of [g_worker]'s, full of what was there before, and two loggers;
thread 0 is the worker.  All messages are formatted. *)
Abbreviation logger := (LogWorker free_stack (list_queue 2)).
Abbreviation zeros := (replicate 264 nul).
Abbreviation junk := (replicate 264 "x"%char).
Abbreviation clock := (bs "[12:00:00 01/02/26]").
Abbreviation fresh := (Stream true true None []).
Abbreviation demo_init ss :=
  (init_cfg (LogWorker_init (FreeStack [0; 1]%nat) (ListQueue [] : list_queue 2) [junk; junk] ss)
    3 None).
Abbreviation demo_init_any ss :=
  (init_cfg (LogWorker_init (FreeStack [0; 1]%nat) (ListQueue [] : list_queue 2) [junk; junk] ss)
    3 tt).
Abbreviation demo_run sched ss := (run start (code 256) (cl_inv 256 2 false) cl_ret sched (demo_init ss) []).
(** The same without a condition on the callers. *)
Abbreviation demo_run_any sched :=
  (run start (code 256) (any_inv (Op:=op)) any_ret sched (demo_init_any [fresh; fresh]) []).
Abbreviation log t f s := ([(t, Invoke (OLog f s))] ++ replicate 6 (t, Step)).
Abbreviation flush k := ([(0%nat, Invoke OFlush)] ++ replicate k (0%nat, Step)).

Abbreviation demo :=
  (log 1%nat 0%nat (Fmt (bs "one") clock) ++ log 2%nat 1%nat (Fmt (bs "two") clock) ++
   [(0%nat, Invoke (ORun false)); (0%nat, Step)]).

Example demo_messages :
  match demo_run demo [fresh; fresh] with
  | Some (c, h) =>
      h = [EInv 1 (OLog 0 (Fmt (bs "one") clock)); ERes 1 (RLog 255);
           EInv 2 (OLog 1 (Fmt (bs "two") clock)); ERes 2 (RLog 255); EInv 0 (ORun false)]%nat /\
      ths c !! 0%nat = Some (Run (FPop true)) /\ length (queued (pendingMsg_ (sh c))) = 2%nat /\
      accepted (sh c) = [(0%nat, bs "[0][12:00:00 01/02/26]one"); (1%nat, bs "[1][12:00:00 01/02/26]two")]
  | None => False
  end.
Proof. vm_compute. done. Qed.

Lemma demo_state :
  length [junk; junk] = 2%nat /\ (forall d, d ∈ [junk; junk] -> length d = area 256) /\
  (false = true -> forall d, d ∈ [junk; junk] -> d !! (area 256 - 1)%nat = Some nul) /\
  good_streams 2 [fresh; fresh] /\ (forall s, s ∈ [fresh; fresh] -> written s = []).
Proof.
  split_and!; [done| |done|split; [done|]|].
  - intros d Hd. assert (d = junk) as -> by set_solver. vm_compute; done.
  - intros f s Hs. apply list_elem_of_lookup_2 in Hs. assert (s = fresh) as -> by set_solver. done.
  - intros s Hs. assert (s = fresh) as -> by set_solver. done.
Qed.

Lemma sys_log_fifo_witness :
  exists c : cfg (G:=logger) (L:=loc) (C:=option nat), faulted c = false /\ delivers (free:=stacked)
    (items:=fun q : list_queue 2 => Z.to_nat <$> queued q) (size_:=2) (sh c) (ths c) (cl c) /\
    ths c !! 0%nat = Some (Run (FPop true)).
Proof.
  destruct (demo_run demo [fresh; fresh]) as [[c h]|] eqn:E.
  - exists c. destruct demo_state as (H1&H2&H3&H4&H5).
    pose proof demo_messages as Hd. rewrite E in Hd. destruct Hd as (_&Ht&_).
    destruct (sys_log_fifo (free:=stacked) (items:=fun q : list_queue 2 => Z.to_nat <$> queued q)
      256 2 false ltac:(lia) (FreeStack [0; 1]%nat) (ListQueue []) [junk; junk] [fresh; fresh] 3
      H1 H2 H3 H4 H5 (Permutation_refl _) eq_refl (length demo) h c) as [Hf Hv].
    { apply run_reach. exact E. }
    exact (conj Hf (conj Hv Ht)).
  - pose proof demo_messages as Hd. rewrite E in Hd. destruct Hd.
Defined.

Lemma Flush_drains_witness :
  exists (c : cfg (G:=logger) (L:=loc) (C:=option nat)) g',
    length (queued (pendingMsg_ (sh c))) = 2%nat /\
    solo (code 256) (4 * length (Z.to_nat <$> queued (pendingMsg_ (sh c)))) (sh c) (FPop true) =
      Next g' (FPop true) /\
    accepted (sh c) = [(0%nat, bs "[0][12:00:00 01/02/26]one"); (1%nat, bs "[1][12:00:00 01/02/26]two")] /\
    (forall f s, streams g' !! f = Some s -> written s = accepted_for f (accepted (sh c))).
Proof.
  destruct (demo_run demo [fresh; fresh]) as [[c h]|] eqn:E.
  - exists c. destruct demo_state as (H1&H2&H3&H4&H5).
    pose proof demo_messages as Hd. rewrite E in Hd. destruct Hd as (_&Ht&Hq&Hacc).
    destruct (Flush_drains (free:=stacked) (items:=fun q : list_queue 2 => Z.to_nat <$> queued q)
      256 2 false ltac:(lia) (FreeStack [0; 1]%nat) (ListQueue []) [junk; junk] [fresh; fresh] 3
      H1 H2 H3 H4 H5 (Permutation_refl _) eq_refl (length demo) h c 0%nat true) as (g'&Hs&_&_&Hw&_).
    { apply run_reach. exact E. }
    { exact Ht. }
    exists g'. exact (conj Hq (conj Hs (conj Hacc Hw))).
  - pose proof demo_messages as Hd. rewrite E in Hd. destruct Hd.
Defined.

Lemma clock_no_nul : nul ∉ clock.
Proof. vm_compute. set_solver. Qed.

Lemma log_line_witness :
  exists d, fill 256 (Str (bs "go") clock) 7 (replicate 30 "x"%char ++ replicate 234 nul) = Some d /\
    length d = 264%nat /\ c_str d = bs "[7][12:00:00 01/02/26]goxxxxxx".
Proof.
  destruct (log_line 256 (Str (bs "go") clock) 7 (replicate 30 "x"%char ++ replicate 234 nul))
    as (d&Hd&Hl&Hc).
  - lia.
  - lia.
  - exact clock_no_nul.
  - intros time H. discriminate H.
  - apply Nat.leb_le. vm_compute. reflexivity.
  - exists d. split; [exact Hd|]. split; [exact Hl|]. rewrite Hc. vm_compute. reflexivity.
Defined.

(** A message of 243 characters runs out of its buffer, into the link of the next. *)
Example long_message_overflows :
  fill 256 (Str (replicate 243 "a"%char) clock) 0 zeros = None /\
  fill 256 (Fmt (replicate 255 "a"%char) clock) 0 zeros = None /\
  is_Some (fill 256 (Str (replicate 242 "a"%char) clock) 0 zeros).
Proof. split_and!; [reflexivity..|]. eexists. vm_compute. reflexivity. Qed.

(** [Flush] keeps the buffers of a stream that is not good: one failed write to logger 0,
    then two more messages to it, and logger 1 cannot log any more although nothing is
    pending. *)
Example bad_stream_starves_all :
  match demo_run (log 1%nat 0%nat (Fmt (bs "one") clock) ++ flush 5%nat ++
      log 1%nat 0%nat (Fmt (bs "two") clock) ++ log 1%nat 0%nat (Fmt (bs "three") clock) ++ flush 5%nat ++
      [(2%nat, Invoke (OLog 1 (Fmt (bs "four") clock))); (2%nat, Step)])
      [Stream true true (Some 0%nat) []; fresh] with
  | Some (c, h) =>
      last h = Some (ERes 2%nat (RLog 0)) /\ ths c = [Idle; Idle; Idle] /\
      queued (pendingMsg_ (sh c)) = [] /\ stacked (buffer_ (sh c)) = []
  | None => False
  end.
Proof. vm_compute. done. Qed.

(** [SetOutStream] deletes the old stream under the messages that are pending for it. *)
Example replaced_stream_is_used :
  match demo_run_any (log 1%nat 0%nat (Fmt (bs "one") clock) ++ [(2%nat, Invoke (ODelete 0)); (2%nat, Step)] ++
       flush 2%nat) with
  | Some (c, _) => faulted c = true
  | None => False
  end.
Proof. vm_compute. done. Qed.

(** Nothing in the class keeps two threads from flushing at once: the second message is
    written first.  (An [ofstream] is not made for two threads either.) *)
Example two_flushers_reorder :
  match demo_run_any (log 1%nat 0%nat (Fmt (bs "one") clock) ++ log 1%nat 0%nat (Fmt (bs "two") clock) ++
       flush 1%nat ++ [(2%nat, Invoke OFlush)] ++ replicate 3 (2%nat, Step) ++
       replicate 2 (0%nat, Step)) with
  | Some (c, _) =>
      accepted (sh c) = [(0%nat, bs "[0][12:00:00 01/02/26]one"); (0%nat, bs "[1][12:00:00 01/02/26]two")] /\
      written <$> streams (sh c) !! 0%nat =
        Some [bs "[1][12:00:00 01/02/26]two"; bs "[0][12:00:00 01/02/26]one"]
  | None => False
  end.
Proof. vm_compute. done. Qed.

(** A string logged over memory without a NUL: [Flush] reads beyond the buffer. *)
Example string_without_nul :
  match demo_run_any (log 1%nat 0%nat (Str (bs "one") clock) ++ flush 3%nat) with
  | Some (c, _) => faulted c = true
  | None => False
  end.
Proof. vm_compute. done. Qed.

(** The last of the 33 attempts returns 0 even when the message was accepted. *)
Lemma last_attempt {P Q} `{BufferPool P} `{MessageQueue Q} granularity (g : LogWorker P Q) b q :
  Push b (pendingMsg_ g) = (q, true) ->
  exists acc, DoLog_step granularity g (LPush b 32) = Ret (set_queue q acc g) (RLog 0).
Proof. intros Hp. simpl. rewrite Hp. by eexists. Qed.

(** Two calls of [RunWorker] before the first thread has marked the object busy start two
    system threads on it. *)
Lemma run_worker_twice {P Q} r (g : LogWorker P Q) :
  attr_init r = 0 -> attr_setdetachstate r = 0 -> create r = 0 ->
  let '(g1, th1, made1) := RunWorker r g (Thread_init (Some 0%nat) false) in
  let '(_, _, made2) := RunWorker r g1 th1 in
  made1 = Some false /\ made2 = Some false.
Proof. intros H1 H2 H3. unfold RunWorker, Thread.Start. simpl. rewrite H1, H2, H3. done. Qed.
