(* ===== verification/UnitTests.v ===== *)
(** * UnitTests.v: the sequential unit tests of the repository

The tests are programs over the models: a test gives the list of its expectations, in the
order of the source, or the fault that ends it.  [ASSERT_STREQ] compares up to the first
NUL.  The examples evaluate them, so that the definitions of the library agree with the
values the authors wrote down.

- [slog/test/TestLogStream.cc], [slog/test/TestCacheTimeStamp.cc],
  [slog/test/TestLogger.cc], [misc/unittest/testFunctor.cc]: every expectation holds.
- [sys/unittest/LoggerTest.cc]: the second loop of expectations has no iteration.
- [misc/unittest/SpinlockQueueTest.cc]: the expectations before the threads start hold, and
  those about values in any interleaving; those about sizes depend on time.
- [thread/unittest/WorkerTest.cc]: the first round under one schedule in which all hold
  and one in which the counts that the test reads are behind.

The concurrent test of the per-thread allocator is in PerThreadTest.v. *)

From S2P Require Import Prelude Machine Conc Functor SpinlockQueue Worker LogStream LogFileAppender CacheTimeStamp SlogLogger.
#[local] Open Scope Z_scope.
#[local] Open Scope bef_scope.

(** [ASSERT_STREQ]: both sides up to the NUL. *)
Definition ASSERT_STREQ (a b : bytes) : bool := bool_decide (c_str a = c_str b).

Definition passed (r : res (list bool)) : bool :=
  match r with inl _ => false | inr l => forallb id l end.

Lemma bind_assoc {A B C} (x : res A) (f : A -> res B) (k : B -> res C) :
  bind (bind x f) k = bind x (fun a => bind (f a) k).
Proof. by destruct x. Qed.

(** ** [slog/test/TestLogStream.cc] *)

Module TestLogStream.

(** [test_append].  [d2("vvwww", 10)] reads four bytes behind the literal: [beyond]. *)
Definition test_append (beyond garbage garbage' : bytes) : res (list bool) :=
  let! ls := LogStreamFixed garbage in
  let d1 := bs "abcd1234" in
  let! ls := LogStream.Append (d1 ++ [nul]) ls in
  let e1 := ASSERT_STREQ (Buffer ls) d1 in
  let e2 := Length ls =? blen d1 + 1 in
  let d2 := bs "vvwww" ++ [nul] ++ beyond in
  let! ls := LogStream.Append d2 ls in
  let e3 := Length ls =? blen d1 + 1 + blen d2 in
  let! fmt := LogStreamFixed garbage' in
  let! (fmt, _) := FmtAppend (bs "1234abcd") fmt in
  let e4 := Length fmt =? 8 in
  let e5 := ASSERT_STREQ (Buffer fmt) (bs "1234abcd") in
  let! (fmt, _) := FmtAppend (bs "233") fmt in
  let e6 := ASSERT_STREQ (Buffer fmt) (bs "1234abcd233") in
  let! (fmt, _) := FmtAppend (bs "0x12345") fmt in
  let e7 := ASSERT_STREQ (Buffer fmt) (bs "1234abcd2330x12345") in
  let! (fmt, _) := FmtAppend (bs "int:233") fmt in
  let e8 := ASSERT_STREQ (Buffer fmt) (bs "1234abcd2330x12345int:233") in
  let! (fmt, _) := FmtAppend (bs "unsigned int:233") fmt in
  let e9 := ASSERT_STREQ (Buffer fmt) (bs "1234abcd2330x12345int:233unsigned int:233") in
  let! (fmt, _) := FmtAppend (bs "float:233.22222") fmt in
  let e10 := ASSERT_STREQ (Buffer fmt)
    (bs "1234abcd2330x12345int:233unsigned int:233float:233.22222") in
  let! fmt := LogStream.Append (bs "gggg" ++ [nul]) fmt in
  let e11 := ASSERT_STREQ (Buffer fmt)
    (bs "1234abcd2330x12345int:233unsigned int:233float:233.22222gggg") in
  inr [e1; e2; e3; e4; e5; e6; e7; e8; e9; e10; e11].

(** One [ls << args; ASSERT_STREQ(ls.Buffer(), text)] after the other. *)
Fixpoint expect_texts (l : list (list LogArg * bytes)) (ls : LogStream) : res (LogStream * list bool) :=
  match l with
  | [] => inr (ls, [])
  | (args, text) :: l' =>
      let! ls' := shift_all args ls in
      let! (ls'', es) := expect_texts l' ls' in
      inr (ls'', ASSERT_STREQ (Buffer ls') text :: es)
  end.

(** [test_operator], from the zeroed buffer on. *)
Definition operator_body (ls : LogStream) : res (list bool) :=
  let! (ls, es) := expect_texts
    [([AChar "a"; AChar "b"; AChar "c"], bs "abc");
     ([ABool true], bs "abc1");
     ([ASigned 23], bs "abc123");
     ([ASigned 45], bs "abc12345");
     ([AUnsigned 67], bs "abc1234567");
     ([ASigned 89], bs "abc123456789");
     ([AUnsigned 10], bs "abc12345678910");
     ([AUnsigned (2 ^ 32 - 1)], bs "abc123456789104294967295");
     ([ASigned (-1)], bs "abc123456789104294967295-1");
     ([ACString (bs "oooppp")], bs "abc123456789104294967295-1oooppp");
     ([APointer 0x12345], bs "abc123456789104294967295-1oooppp0x12345");
     ([AStdString (bs "xxxx")], bs "abc123456789104294967295-1oooppp0x12345xxxx");
     ([ADouble (bs "12.2222")], bs "abc123456789104294967295-1oooppp0x12345xxxx12.2222");
     ([ASigned (-2); AChar "s"; ASigned 233],
      bs "abc123456789104294967295-1oooppp0x12345xxxx12.2222-2s233")] ls in
  let! ls := Reset ls in
  let! ls := EmptyBuff ls in
  let! (ls, es') := expect_texts
    [([ASigned 233; AChar ","; ASigned (-233); AChar "A"; ACString (bs " empty "); APointer 7777;
       AStdString (bs " string "); ACharArray (bs "wwww" ++ [nul])],
      bs "233,-233A empty 0x1E61 string wwww")] ls in
  inr (es ++ es').

Definition test_operator (garbage : bytes) : res (list bool) :=
  let! ls := LogStreamFixed garbage in
  let! ls := EmptyBuff ls in
  operator_body ls.

Example test_append_passes :
  passed (test_append (bs "????") (replicate 4096 "x"%char) (replicate 4096 "y"%char)) = true.
Proof. by vm_compute. Qed.

(** [EmptyBuff] forgets the garbage. *)
Lemma EmptyBuff_zeroes garbage :
  blen garbage = S_MAX_BUFF_SZ ->
  (let! ls := LogStreamFixed garbage in EmptyBuff ls) = inr (LS (replicate 4096 nul) 0 S_MAX_BUFF_SZ).
Proof.
  intros Hg. assert (length garbage = 4096%nat) as Hl by (unfold blen, S_MAX_BUFF_SZ in Hg; lia).
  unfold LogStreamFixed, poke. rewrite Hg. change ((0 <=? 0) && (0 <? S_MAX_BUFF_SZ)) with true.
  cbn [bind]. unfold EmptyBuff, copy. cbn [m_buff m_size m_cur].
  change (Z.to_nat S_MAX_BUFF_SZ) with 4096%nat.
  assert (blen (<[Z.to_nat 0 := nul]> garbage) = 4096) as -> by (unfold blen; rewrite length_insert; lia).
  change ((0 <=? 0) && (0 + blen (replicate 4096 nul) <=? 4096)) with true. cbn [bind].
  unfold blit. rewrite length_replicate, (drop_ge (<[_ := _]> garbage)) by (rewrite length_insert, Hl; simpl; lia).
  change (take (Z.to_nat 0) (<[Z.to_nat 0 := nul]> garbage)) with (@nil ascii).
  by rewrite app_nil_r.
Qed.

Lemma test_operator_passes garbage :
  blen garbage = S_MAX_BUFF_SZ -> passed (test_operator garbage) = true.
Proof.
  intros Hg. unfold test_operator. rewrite <-bind_assoc, EmptyBuff_zeroes by done. by vm_compute.
Qed.
End TestLogStream.

(** ** [slog/test/TestCacheTimeStamp.cc] *)

Module TestCacheTimeStamp.

(** [localtime_r] in Shanghai, around the time of the test. *)
Definition shanghai (sec : Z) : tm := Tm 123 3 21 20 10 (sec mod 60).

Definition ms : Z := 1682079033562 * 1000 + 233.

(** [test_sec_mircosec], behind the clock of its first lines. *)
Definition test_sec_mircosec (s0 : tls) : res (list bool) :=
  let! (s1, t1) := CacheTimeStamp_init shanghai ms s0 in
  let e1 := TrailingMicroSec t1 =? Z.rem ms S_MS_PER_SEC in
  let fmt_str1 := c_str (GetFmtSec s1) in
  let fmt_full_1 := ToString s1 t1 in
  let e2 := ASSERT_STREQ fmt_full_1 (bs "2023_04_21-20_10_33:562233") in
  let e3 := ASSERT_STREQ fmt_str1 (bs "2023_04_21-20_10_33") in
  let! (s2, t2) := CacheTimeStamp_init shanghai (ms + 233) s1 in
  let fmt_str2 := c_str (GetFmtSec s2) in
  let fmt_full_2 := ToString s2 t2 in
  let e4 := bool_decide (fmt_str1 = fmt_str2) in
  let e5 := TrailingMicroSec t2 - TrailingMicroSec t1 =? 233 in
  let e6 := ASSERT_STREQ fmt_str2 (bs "2023_04_21-20_10_33") in
  let e7 := ASSERT_STREQ fmt_full_2 (bs "2023_04_21-20_10_33:562466") in
  let! (s3, t3) := CacheTimeStamp_init shanghai (ms + 2 * S_MS_PER_SEC + 42) s2 in
  let fmt_str3 := c_str (GetFmtSec s3) in
  let fmt_full_3 := ToString s3 t3 in
  let e8 := ASSERT_STREQ fmt_str3 (bs "2023_04_21-20_10_35") in
  let e9 := ASSERT_STREQ fmt_full_3 (bs "2023_04_21-20_10_35:562275") in
  inr [e1; e2; e3; e4; e5; e6; e7; e8; e9].

Example test_sec_mircosec_passes :
  passed (let! (s0, _) := Now shanghai 1700000000 5 tls_init in test_sec_mircosec s0) = true.
Proof. by vm_compute. Qed.
End TestCacheTimeStamp.

(** ** [misc/unittest/testFunctor.cc] *)

Module testFunctor.

(** The class [dummy] has no members; [main] prints the three results.  A double is its
    text, a string its characters, a pointer its value. *)
Definition dummy_proc (_ : unit) (dv : bytes) : unit * Z := (tt, 555).
Definition dummy_call (_ : unit) (s : bytes) : unit * Z := (tt, 233).
Definition proc (vv : bytes) : Z := 234.

Definition main_ops : list (fop bytes Z unit) :=
  [FMake 0 (function_impl_class 0 dummy_proc); FCall 0 (bs "23.23");
   FMake 1 (function_impl_normal (Some proc)); FCall 1 (bs "32.33");
   FMake 2 (function_impl_functor tt dummy_call); FCall 2 (bs "wwww");
   FDestroy 2; FDestroy 1; FDestroy 0].

(** The results of the calls along a sequence of operations. *)
Fixpoint call_results (os : list (fop bytes Z unit)) (m : memory bytes Z unit) : option (list Z) :=
  match os with
  | [] => Some []
  | o :: os' =>
      match fstep o m with
      | Some (m', r) => option_map (fun rs => match r with Some r => r :: rs | None => rs end) (call_results os' m')
      | None => None
      end
  end.

Definition main_start : memory bytes Z unit := Mem {[0%nat := tt]} ∅ ∅.

Example main_prints : call_results main_ops main_start = Some [555; 234; 233].
Proof. by vm_compute. Qed.

(** The three implementations are deleted. *)
Example main_leaks_nothing : option_map (fun m => map_to_list (impls m)) (fsteps main_ops main_start) = Some [].
Proof. by vm_compute. Qed.
End testFunctor.

(** ** [slog/test/TestLogger.cc] *)

Module TestLogger.

(** [DummyAppender]: a [SynLogAppender] that keeps a copy of the first bytes. *)
Definition S_MAX_BUFF_SZ : Z := 100 * 1024.

Record DummyAppender : Type := Dummy { syn : SynLogAppender; m_cur : Z; m_buff : bytes }.

Definition dummy_append (msg : bytes) (a : DummyAppender) : res DummyAppender :=
  let! s := append msg (syn a) in
  if S_MAX_BUFF_SZ <=? m_cur a then inr (Dummy s (m_cur a) (m_buff a)) else
  let! b := copy (m_buff a) (m_cur a) msg in
  inr (Dummy s (m_cur a + blen msg) b).

#[export] Instance DummyAppender_ops : LogAppender DummyAppender := {|
  append := dummy_append;
  flush g a := Dummy (flush g (syn a)) (m_cur a) (m_buff a)
|}.

Definition DummyAppender_init (d garbage garbage' : bytes) : res DummyAppender :=
  let! f := LogFile_init d [] garbage in
  let! b := poke garbage' 0 nul in
  inr (Dummy (Syn f) 0 b).

(** [std::endl] of [slog/LogStream.h]. *)
Definition endl : LogArg := AChar "010"%char.

Section Statements.
Variable localtime_r : Z -> tm.
Variable now : Z.
Variable garbage : bytes.

(** [SLOG_INFO << args] in the function [func] at [line]. *)
Definition statement (lvl : LogLevel) (args : list LogArg) (line func : bytes) (w : world DummyAppender) :
    res (world DummyAppender) :=
  let! (w', _) := TRY_LOG localtime_r lvl args (bs "-TestLogger.cc:" ++ line ++ bs ":") func now garbage w in
  inr w'.

Definition test_nesting_logging2 (w : world DummyAppender) : res (world DummyAppender * bytes) :=
  let! w := statement LL_INFO [ACString (bs "nest 2: "); ADouble (bs "3.1415"); AChar " "; ASigned 0xff123; endl]
    (bs "42") (bs "test_nesting_logging2") w in
  inr (w, bs "return from nesting 2").

(** The argument of a statement is evaluated before the statement's line is written. *)
Definition test_nesting_logging1 (w : world DummyAppender) : res (world DummyAppender * bytes) :=
  let! (w, s) := test_nesting_logging2 w in
  let! w := statement LL_ERROR [ACString (bs "nest 1: "); ASigned 2344; AChar " "; ACString s]
    (bs "48") (bs "test_nesting_logging1") w in
  inr (w, bs "return from nesting 1").

Definition test_logger_append (w : world DummyAppender) : res (world DummyAppender) :=
  let! w := statement LL_INFO [ACString (bs "whatever:"); ASigned 233; AStdString (bs "std::string format")]
    (bs "58") (bs "TestBody") w in
  let! (w, s) := test_nesting_logging1 w in
  let! w := statement LL_ERROR [ACString (bs "HAHA:"); ABool true; AChar "C"; ADouble (bs "2.33"); AChar " "; ACString s]
    (bs "59") (bs "TestBody") w in
  statement LL_DEBUG [ACString (bs "Not shown:"); ACString (bs "really")] (bs "60") (bs "TestBody") w.

(** [test_logger_check]: what becomes of the process at each [SLOG_CHECK]. *)
Definition test_logger_check (w : world DummyAppender) : res (list fate) :=
  let! (w, f1) := SLOG_CHECK localtime_r true (bs "12") [] [] [] now garbage w in
  let! (w, f2) := SLOG_CHECK localtime_r true (bs "true") [] [] [] now garbage w in
  let! (w, f3) := SLOG_CHECK localtime_r false (bs "0") [ACString (bs "doom to crash msg msg msg"); endl]
    [] [] now garbage w in
  inr [f1; f2; f3].
End Statements.

(** The file buffer is shortened; its size is the business of LogFileAppender.v. *)
Definition dummy : res DummyAppender :=
  DummyAppender_init [] (replicate 4096 "x"%char) (replicate 4096 "y"%char).

Definition start_world (a : DummyAppender) : world DummyAppender :=
  InitLogging a LL_INFO (World tls_init LL_TRACE a).

(** The four lines, the nested ones first; the debug message is missing, and the message
    that ends in [endl] has its own line break inside. *)
Definition expected : bytes :=
  bs "2023_04_21-20_10_33:7 INFO  whatever:233std::string format-TestLogger.cc:58:TestBody" ++ newline ++
  bs "2023_04_21-20_10_33:7 INFO  nest 2: 3.1415 1044771" ++ newline ++ bs "-TestLogger.cc:42:test_nesting_logging2" ++ newline ++
  bs "2023_04_21-20_10_33:7 ERROR nest 1: 2344 return from nesting 2-TestLogger.cc:48:test_nesting_logging1" ++ newline ++
  bs "2023_04_21-20_10_33:7 ERROR HAHA:1C2.33 return from nesting 1-TestLogger.cc:59:TestBody" ++ newline.

Example test_logger_append_writes :
  (let! a := dummy in
   let! w := test_logger_append TestCacheTimeStamp.shanghai 33000007 (replicate 4096 "z"%char) (start_world a) in
   let a := g_global_appender w in
   inr (bool_decide (take (Z.to_nat (m_cur a)) (m_buff a) = expected),
        bool_decide (content (log_file (syn a)) = expected))) = inr (true, true).
Proof. by vm_compute. Qed.

Example test_logger_check_dies :
  (let! a := dummy in
   test_logger_check TestCacheTimeStamp.shanghai 33000007 (replicate 4096 "z"%char) (start_world a)) =
  inr [Continues; Continues; Aborts].
Proof. by vm_compute. Qed.

(** The appender of the test looks at what is used of its array and not at what the message
    needs: the message that crosses the end is written behind it. *)
Lemma dummy_append_overflows a s msg :
  append msg (syn a) = inr s -> blen (m_buff a) = S_MAX_BUFF_SZ -> 0 <= m_cur a < S_MAX_BUFF_SZ ->
  S_MAX_BUFF_SZ < m_cur a + blen msg -> dummy_append msg a = inl OutOfBounds.
Proof.
  intros Hs Hb Hc Hm. unfold dummy_append. rewrite Hs. cbn [bind].
  destruct (Z.leb_spec S_MAX_BUFF_SZ (m_cur a)); [lia|]. unfold copy. rewrite Hb.
  destruct (Z.leb_spec 0 (m_cur a)), (Z.leb_spec (m_cur a + blen msg) S_MAX_BUFF_SZ); try lia; done.
Qed.
End TestLogger.

(** ** [sys/unittest/LoggerTest.cc] *)

Module LoggerTest.

Definition gs_random_logs : list bytes :=
  map (fun s => bs s ++ newline)
    ["log log 1, number 1"%string; "parsly, rose, sage, marry, and thyme"%string;
     "If you shed tear when you miss the sun"%string; "you also miss the stars"%string;
     "Stray birds of summer come to my window to sing and fly away"%string].

Definition gs_log_other : list bytes :=
  map (fun s => bs s ++ newline)
    ["log log 2, number 2"%string; "not in gs_random_logs"%string; "whatever not in above array"%string;
     "great great log log"%string].

Definition sizeof_pointer : Z := 8.
Definition sizeof_size_t : Z := 8.
Definition sizeof_int : Z := 4.

(** [sizeof(gs_random_logs)/sizeof(sizeof(gs_random_logs[0]))] *)
Definition gs_log_number : Z := sizeof_pointer * Z.of_nat (length gs_random_logs) / sizeof_size_t.

(** [sizeof(gs_other_number)/sizeof(sizeof(gs_log_other[0]))]: the size of the variable that
    is being defined. *)
Definition gs_other_number : Z := sizeof_int / sizeof_size_t.

(** [log.find(s) != npos] *)
Fixpoint found (s log : bytes) : bool :=
  bool_decide (take (length s) log = s) || match log with [] => false | _ :: log' => found s log' end.

Definition expectations (log : bytes) : list bool :=
  map (fun s => found s log) (take (Z.to_nat gs_log_number) gs_random_logs) ++
  map (fun s => negb (found s log)) (take (Z.to_nat gs_other_number) gs_log_other).

Lemma found_spec s log : found s log = true <-> exists a b, log = a ++ s ++ b.
Proof.
  induction log as [|c log IH]; cbn [found]; rewrite orb_true_iff, bool_decide_eq_true.
  - rewrite take_nil. split.
    + intros [<-|?]; [by exists [], []|done].
    + intros (a&b&E). left. symmetry in E. apply app_nil in E as [_ E]. by apply app_nil in E as [-> _].
  - rewrite IH. split.
    + intros [E|(a&b&->)]; [|by exists (c :: a), b].
      exists [], (drop (length s) (c :: log)). simpl app at 1. rewrite <-E at 1. by rewrite take_drop.
    + intros ([|c' a]&b&E); simpl in E; simplify_eq.
      * left. rewrite E. by rewrite take_app_length.
      * right. by exists a, b.
Qed.

(** The test looks for the five lines that were logged and for none of the others: it
    passes on every text with the five lines, whatever else is in it. *)
Lemma logger_test_expects log :
  forallb id (expectations log) = true <->
  Forall (fun s => exists a b, log = a ++ s ++ b) gs_random_logs.
Proof.
  unfold expectations. change (Z.to_nat gs_log_number) with 5%nat.
  change (Z.to_nat gs_other_number) with 0%nat. rewrite take_0. simpl map at 2.
  rewrite app_nil_r, (take_ge gs_random_logs) by done. induction gs_random_logs as [|s l IH]; [done|].
  simpl. by rewrite andb_true_iff, IH, found_spec, Forall_cons.
Qed.

(** It passes on a text with a line that must not be there. *)
Example logger_test_misses :
  found (bs "not in gs_random_logs") (concat (gs_random_logs ++ gs_log_other)) = true /\
  forallb id (expectations (concat (gs_random_logs ++ gs_log_other))) = true.
Proof. by vm_compute. Qed.
End LoggerTest.

(** ** [misc/unittest/SpinlockQueueTest.cc] *)

Module SpinlockQueueTest.

Definition val1 : Z := 233.
Definition val2 : Z := 111.
Definition val3 : Z := -23.
Definition ssz : Z := 100.

(** The calls of the test before it starts its threads. *)
Definition prologue : list (SpinlockQueue.op Z) :=
  [OPushBack val2; OSize; OPushBack val2; OSize; OPopFront; OSize; OPushBack val2; OSize; OIsEmpty].

Example prologue_passes :
  run_ops None ssz (Deque []) prologue =
    (Deque [val2; val2],
     [RPush true; RSize 1; RPush true; RSize 2; RPop (Some val2); RSize 1; RPush true; RSize 2; REmpty false]).
Proof. by vm_compute. Qed.

(** A round of [slqTestDummyTask::Run]; the members are [m_full] and [m_switch], the flag
    [m_exit] ends the loop. *)
Definition dummy_round (m_full m_switch : bool) (q : DequeQueue Z) : DequeQueue Z * bool :=
  if m_switch then (fst (container_spec None ssz q OPopFront), m_full)
  else if m_full then (q, m_full)
  else match container_spec None ssz q (OPushBack val1) with
       | (q', RPush ok) => (q', negb ok)
       | (q', _) => (q', m_full)
       end.

Definition check (val : Z) : bool := (val =? val1) || (val =? val2) || (val =? val3).

(** [check2] alone: it empties the queue. *)
Fixpoint check2 (n : nat) (q : DequeQueue Z) : DequeQueue Z * list bool :=
  match n, container_spec None ssz q OPopFront with
  | S n', (q', RPop (Some v)) => let '(q'', es) := check2 n' q' in (q'', check v :: es)
  | _, _ => (q, [])
  end.

(** All values of the queue are of the test. *)
Definition vals_ok (q : DequeQueue Z) : Prop := Forall (fun v => check v = true) (queue_ q).

Lemma dummy_round_ok m_full m_switch q :
  vals_ok q -> (length (queue_ q) <= 100)%nat ->
  vals_ok (fst (dummy_round m_full m_switch q)) /\
  (length (queue_ (fst (dummy_round m_full m_switch q))) <= 100)%nat.
Proof.
  destruct q as [l]. unfold vals_ok, dummy_round. intros Hv Hl. cbn [queue_] in *.
  destruct m_switch; [|destruct m_full; [done|]].
  - destruct l as [|v l]; [done|]. apply Forall_cons in Hv as [_ Hv]. simpl in *. split; [done|lia].
  - cbn. unfold deque_size, maxSz_, ssz, deque_push. cbn [queue_].
    destruct (Z.geb_spec (Z.of_nat (length l)) (u64 100)) as [H|H]; cbn [fst queue_]; [done|].
    change (u64 100) with 100 in H. rewrite length_app. simpl. split; [|lia].
    apply Forall_app. split; [done|by repeat constructor].
Qed.

Lemma check2_ok n q :
  vals_ok q -> (length (queue_ q) <= n)%nat ->
  let '(q', es) := check2 n q in queue_ q' = [] /\ Forall (fun e => e = true) es /\ length es = length (queue_ q).
Proof.
  revert q. induction n as [|n IH]; intros [l] Hv Hl; simpl in *.
  { destruct l; [done|simpl in Hl; lia]. }
  destruct l as [|v l]; [done|]. apply Forall_cons in Hv as [Hc Hv]. simpl in *.
  specialize (IH (Deque l) Hv ltac:(simpl; lia)). unfold deque_pop. cbn [queue_ tail].
  destruct (check2 n (Deque l)) as [q' es]. destruct IH as (?&?&?). split; [done|].
  split; [by constructor|]. simpl. by f_equal.
Qed.

(** *** The whole test

[slqTestDummyTask] of one thread: its members, and whether its loop has ended.  Every step
is one call of the queue, which the queue makes atomic (SpinlockQueue.v); [sleep] takes any
time. *)
Record dummy : Type := Dummy { m_full : bool; m_switch : bool; m_exit : bool; ended : bool }.

(** The statements of the main thread behind the start of the threads: [check2], split at
    its calls, the size, the push whose result is compared with it, and the flags. *)
Inductive stmt : Type :=
| SEmpty | SPopCheck | SSize | SPush | SSwitch (i : nat) | SBelow | SStop (i : nat) | SJoin (i : nat).

Definition tsz : nat := 16.

Definition main_body : list stmt :=
  [SEmpty; SSize; SPush] ++
  map SSwitch (filter (fun i => i mod 2 = 1)%nat (seq 0 (tsz - 2))) ++
  [SBelow] ++ map SStop (seq 0 tsz) ++ [SEmpty] ++ map SJoin (seq 0 tsz).

(** [vals]: all expectations of [check] held; [sizes]: those about the size did. *)
Record test : Type := Test {
  queue : DequeQueue Z; tasks : list dummy; body : list stmt; sz : Z; vals : bool; sizes : bool
}.

Definition test_init : test :=
  Test (fst (run_ops None ssz (Deque []) prologue)) (replicate tsz (Dummy false false false false)) main_body 0 true true.

(** A round of the loop of [Run]. *)
Definition task_step (i : nat) (s : test) : option test :=
  match tasks s !! i with
  | Some d =>
      if ended d then None
      else if m_exit d then
        Some (Test (queue s) (<[i := Dummy (m_full d) (m_switch d) true true]> (tasks s)) (body s) (sz s) (vals s) (sizes s))
      else
        let '(q, full) := dummy_round (m_full d) (m_switch d) (queue s) in
        Some (Test q (<[i := Dummy full (m_switch d) false false]> (tasks s)) (body s) (sz s) (vals s) (sizes s))
  | None => None
  end.

Definition main_step (s : test) : option test :=
  let 'Test q ts l z v e := s in
  match l with
  | [] => None
  | st :: l =>
      match st with
      | SEmpty => match container_spec None ssz q OIsEmpty with
                  | (q, REmpty true) => Some (Test q ts l z v e)
                  | (q, _) => Some (Test q ts (SPopCheck :: l) z v e)
                  end
      | SPopCheck => match container_spec None ssz q OPopFront with
                     | (q, RPop (Some val)) => Some (Test q ts (SEmpty :: l) z (v && check val) e)
                     | (q, _) => Some (Test q ts l z v e)
                     end
      | SSize => match container_spec None ssz q OSize with
                 | (q, RSize n) => Some (Test q ts l n v e)
                 | _ => None
                 end
      | SPush => match container_spec None ssz q (OPushBack val2) with
                 | (q, RPush suc) => Some (Test q ts l z v (e && negb (Bool.eqb (z =? ssz) suc)))
                 | _ => None
                 end
      | SBelow => match container_spec None ssz q OSize with
                  | (q, RSize n) => Some (Test q ts l z v (e && (n <? ssz)))
                  | _ => None
                  end
      | SSwitch i => Some (Test q (alter (fun d => Dummy (m_full d) (negb (m_switch d)) (m_exit d) (ended d)) i ts) l z v e)
      | SStop i => Some (Test q (alter (fun d => Dummy (m_full d) (m_switch d) true (ended d)) i ts) l z v e)
      | SJoin i => match ts !! i with
                   | Some d => if ended d then Some (Test q ts l z v e) else None
                   | None => None
                   end
      end
  end.

(** [None] is the main thread. *)
Definition test_step (a : option nat) (s : test) : option test :=
  match a with None => main_step s | Some i => task_step i s end.

Fixpoint test_run (l : list (option nat)) (s : test) : option test :=
  match l with
  | [] => Some s
  | a :: l' => match test_step a s with Some s' => test_run l' s' | None => None end
  end.

(** What the queue holds and how much. *)
Definition queue_ok (q : DequeQueue Z) : Prop := vals_ok q /\ (length (queue_ q) <= 100)%nat.

Lemma push_ok v q : queue_ok q -> check v = true ->
  exists suc, container_spec None ssz q (OPushBack v) = (if suc : bool then Deque (queue_ q ++ [v]) else q, RPush suc) /\
    (suc = true <-> (length (queue_ q) < 100)%nat) /\ queue_ok (if suc then Deque (queue_ q ++ [v]) else q).
Proof.
  destruct q as [l]. unfold queue_ok, vals_ok. intros [Hv Hl] Hc. cbn in *. unfold deque_size, maxSz_, ssz, deque_push.
  change (u64 100) with 100. cbn [queue_]. destruct (Z.geb_spec (Z.of_nat (length l)) 100) as [H|H].
  - exists false. split; [done|]. split; [|done]. split; [done|]. lia.
  - exists true. split; [done|]. cbn. rewrite length_app. cbn. split; [split; [lia|done]|]. split; [|lia].
    apply Forall_app. split; [done|by repeat constructor].
Qed.

Lemma pop_ok q : queue_ok q ->
  match container_spec None ssz q OPopFront with
  | (q', RPop (Some v)) => queue_ok q' /\ check v = true
  | (q', RPop None) => q' = q
  | _ => False
  end.
Proof.
  destruct q as [[|v l]]; unfold queue_ok, vals_ok; cbn; [done|]. intros [[Hc Hv]%Forall_cons Hl].
  split; [|done]. split; [done|lia].
Qed.

Lemma test_step_ok a s s' :
  queue_ok (queue s) /\ vals s = true -> test_step a s = Some s' -> queue_ok (queue s') /\ vals s' = true.
Proof.
  intros [Hq Hv] H. destruct a as [i|]; cbn in H.
  - unfold task_step in H. destruct (tasks s !! i) as [d|]; [|done]. destruct (ended d); [done|].
    destruct (m_exit d); [by injection H as <-|].
    pose proof (dummy_round_ok (m_full d) (m_switch d) (queue s) (proj1 Hq) (proj2 Hq)) as Hr.
    destruct (dummy_round _ _ _) as [q full]. by injection H as <-.
  - destruct s as [q ts [|st l] z v e]; [done|]. cbn [queue vals main_step] in *. subst v. destruct st.
    + cbn in H. destruct (deque_empty q); by injection H as <-.
    + pose proof (pop_ok q Hq) as Hp. destruct (container_spec None ssz q OPopFront) as [q' r].
      destruct r as [[val|]| | | |]; try done; injection H as <-; [by destruct Hp as [? ->]|by subst].
    + cbn in H. by injection H as <-.
    + destruct (push_ok val2 q Hq eq_refl) as (suc&E&_&Hq'). rewrite E in H. by injection H as <-.
    + by injection H as <-.
    + cbn in H. by injection H as <-.
    + by injection H as <-.
    + destruct (ts !! i) as [d|]; [|done]. destruct (ended d); [by injection H as <-|done].
Qed.

(** Whatever the order of the sixteen threads and the main thread: every value that the test
    pops is one of its own, and the queue never holds more than 100. *)
Theorem spin_test_values (l : list (option nat)) (s : test) :
  test_run l test_init = Some s -> vals s = true /\ (length (queue_ (queue s)) <= 100)%nat.
Proof.
  assert (H0 : queue_ok (queue test_init) /\ vals test_init = true).
  { split; [|done]. split; [|vm_compute; lia]. by repeat constructor. }
  revert H0. generalize test_init. induction l as [|a l IH]; intros s0 H0 H; cbn [test_run] in H.
  { injection H as ->. destruct H0 as [[_ ?] ?]. done. }
  destruct (test_step a s0) as [s1|] eqn:E; [|done]. apply (IH s1); [by eapply test_step_ok|done].
Qed.

(** The expectations about the size are about time: the size is read and the element pushed
    in two calls.  Here a task fills the queue in between, and [EXPECT_FALSE] fails. *)
Definition full_in_between : list (option nat) :=
  replicate 5 None ++ replicate 99 (Some 0%nat) ++ [None; Some 0%nat; None].

Lemma spin_test_race :
  option_map (fun s => (sz s, vals s, sizes s)) (test_run full_in_between test_init) = Some (99, true, false).
Proof. by vm_compute. Qed.

(** And a run to the end in which all hold. *)
Definition in_turn : list (option nat) :=
  let round := map Some (seq 0 tsz) in
  replicate 5 None ++ round ++ replicate 9 None ++ round ++ replicate 17 None ++ round ++ replicate 55 None.

Lemma spin_test_passes :
  option_map (fun s => (body s, vals s, sizes s)) (test_run in_turn test_init) = Some ([], true, true).
Proof. by vm_compute. Qed.
End SpinlockQueueTest.

(** ** [thread/unittest/WorkerTest.cc] *)

Module WorkerTest.

Abbreviation wbody := (body (Q:=DequeQueue ITask)).

Definition new_task (n : nat) : ITask := new_ITask n true TP_NORMAL.

(** [worker.PostTask(msg)] and [PostExit] by the test while the worker does not move. *)
Definition post (t : ITask) (g : wbody) : option (wbody * bool) :=
  match solo worker_code 2 g (PostTaskPush t) with
  | Ret g' (RPost ok) => Some (g', ok)
  | _ => None
  end.

Definition post_exit (g : wbody) : option (wbody * bool) :=
  match solo worker_code 2 g PostExitPush with
  | Ret g' (RExit ok) => Some (g', ok)
  | _ => None
  end.

Fixpoint post_all (l : list nat) (g : wbody) : option (wbody * list bool) :=
  match l with
  | [] => Some (g, [])
  | n :: l' =>
      match post (new_task n) g with
      | Some (g', ok) =>
          match post_all l' g' with Some (g'', oks) => Some (g'', ok :: oks) | None => None end
      | None => None
      end
  end.

(** [m_counter]: each [workerTestDummyTask::Run] counts one, and posts one token of [m_sem]. *)
Definition m_counter (g : wbody) : Z := Z.of_nat (length (runs (effects_ g))).

(** [n] steps of the worker from [l], or all it takes until [Run] returns. *)
Definition advance (n : nat) (g : wbody) (l : loc) : option (wbody * option loc) :=
  match solo worker_code n g l with
  | Next g' l' => Some (g', Some l')
  | Ret g' _ => Some (g', None)
  | Fault => None
  end.

Definition start_body : wbody := WorkerBodyBase_init (Deque []) [].

(** The four tasks are posted: [IsRunning] before, [GetTaskNumber] after. *)
Definition posted (l : list nat) (g : wbody) : wbody * list bool :=
  match post_all l g with Some (g', oks) => (g', oks) | None => (g, [false]) end.

Definition four : wbody := fst (posted [0; 1; 2; 3]%nat start_body).

Example first_posts :
  IsRunning start_body = false /\ snd (posted [0; 1; 2; 3]%nat start_body) = [true; true; true; true] /\
  GetTaskNumber four = 4.
Proof. by vm_compute. Qed.

(** The expectations behind the four [sem_wait]s: [m_number == m_counter],
    [m_counter == TaskDone()], [GetTaskNumber() == 0], [TaskDone() == prevTotal]. *)
Definition round_expectations (g : wbody) : list bool :=
  [4 =? m_counter g; m_counter g =? done_ g; GetTaskNumber g =? 0; done_ g =? 4].

(** They are read when the worker has made [n] steps; [None] while the test still waits. *)
Definition first_round (n : nat) : option (list bool) :=
  match advance n four RunStart with
  | Some (g, Some _) => if m_counter g =? 4 then Some (round_expectations g) else None
  | _ => None
  end.

(** The steps the worker needs for the four tasks: 1 to enter, 11 a task; after 40 of them
    the test may go on, and only from 43 on do its expectations hold. *)
Lemma first_round_outcomes :
  forallb (fun n => bool_decide (first_round n = None)) (seq 0 40) = true /\
  map first_round [40; 41; 42; 43; 44]%nat =
    [Some [true; false; false; false]; Some [true; false; false; false];
     Some [true; true; false; true]; Some [true; true; true; true]; Some [true; true; true; true]].
Proof. by vm_compute. Qed.

(** The worker is idle after 46 steps: it waits for ever, and the test passes however late
    it reads. *)
Lemma first_round_passes n : (43 <= n)%nat -> first_round n = Some [true; true; true; true].
Proof.
  intros Hn. destruct (decide (n < 48)%nat) as [H|H].
  { assert (n = 43 \/ n = 44 \/ n = 45 \/ n = 46 \/ n = 47)%nat as Hc by lia.
    destruct_or! Hc; subst n; by vm_compute. }
  assert (exists g, solo worker_code 48 four RunStart = Next g Consume /\ sem_ g = 0 /\
    m_counter g = 4 /\ round_expectations g = [true; true; true; true]) as (g&Hg&Hs&Hm&He).
  { eexists. split; [vm_compute; reflexivity|]. by vm_compute. }
  assert (forall m, solo worker_code m g Consume = Next g Consume) as Hw.
  { intros m. induction m as [|m IH]; [done|]. cbn [solo]. unfold worker_code, code at 1.
    cbn. unfold TryConsume. rewrite Hs. cbn. exact IH. }
  unfold first_round, advance. replace n with (48 + (n - 48))%nat by lia.
  rewrite (solo_add _ _ _ _ _ _ _ Hg), Hw, Hm, He. done.
Qed.

(** The rest of the test, when the worker is idle again before the test reads: the exit
    of the first round, the second round with its ten tasks, the third that is stopped
    when [n] steps are made (which the test reads after the first task of the five).  Each
    [StopWorking(true)] joins. *)
Definition stop_and_join (g : wbody) (l : loc) : option wbody :=
  match post_exit g with
  | Some (g', true) => match advance 20 g' l with Some (g'', None) => Some g'' | _ => None end
  | _ => None
  end.

Definition rest_of_test (n : nat) : option (list bool) :=
  match advance 48 four RunStart with
  | Some (g1, Some l1) =>
      match stop_and_join g1 l1 with
      | Some g2 =>
          let '(g3, oks) := posted (seq 4 10) g2 in
          match advance 120 g3 RunStart with
          | Some (g4, Some l4) =>
              match stop_and_join g4 l4 with
              | Some g5 =>
                  let left := GetTaskNumber g5 in
                  let done := done_ g5 in
                  let '(g6, _) := posted (seq 14 5) g5 in
                  match advance n g6 RunStart with
                  | Some (g7, Some _) =>
                      match post_exit g7 with
                      | Some (g8, _) =>
                          Some ([negb (IsRunning g2)] ++ oks ++
                            [negb (IsRunning g5); m_counter g5 =? 14; left =? 0; done =? 14;
                             14 =? done + left; 0 <? GetTaskNumber g7; 0 <? GetTaskNumber g8])
                      | None => None
                      end
                  | _ => None
                  end
              | None => None
              end
          | _ => None
          end
      | None => None
      end
  | _ => None
  end.

(** It passes when the test reads while the worker is at the second of the five tasks
    (steps 8 to 17 of the third [Run]), whose [sleep] is four seconds. *)
Example rest_of_test_passes :
  forallb (fun n => match rest_of_test n with Some es => forallb id es | None => false end) (seq 8 10) = true.
Proof. by vm_compute. Qed.
End WorkerTest.
