(* ===== verification/ThreadTest.v ===== *)
(** * ThreadTest.v: [thread/unittest/ThreadTest.cc] over Thread.v, in every interleaving

The main thread of the test and the system threads that [Thread::Start] creates, each step
one call of the model or one access to the members of the task.  [sleep] takes any time, so
it does nothing; what the test expects of it ([timely]) is kept apart from what it expects of
[Thread] ([good]).  Up to the value of the counter, of which the test only asks whether it is
above 2, there are finitely many states: [explore] lists them, and a set of states that the
steps do not leave contains all that can be reached ([closed_reach]).

[thread_test_good]: every expectation about [Thread] holds in every interleaving, and at its
end the object calls itself busy.  [thread_test_hangs]: when [Cancel] comes before the
created thread has set [busy_], the test never ends. *)

From S2P Require Import Prelude Machine Thread.

(** ** Finite state spaces *)

Section Explore.
Context {S A : Type} `{EqDecision S} (acts : list A) (step : A -> S -> option S).

Fixpoint run (l : list A) (s : S) : option S :=
  match l with
  | [] => Some s
  | a :: l' => match step a s with Some s' => run l' s' | None => None end
  end.

Definition successors (s : S) : list S := omap (fun a => step a s) acts.

(** The states that can be reached from [front] and [seen]. *)
Fixpoint explore (fuel : nat) (seen front : list S) : list S :=
  match fuel, front with
  | O, _ | _, [] => seen
  | Datatypes.S fuel', s :: front' =>
      if decide (s ∈ seen) then explore fuel' seen front' else explore fuel' (s :: seen) (successors s ++ front')
  end.

Definition closed (X : list S) : bool := forallb (fun s => forallb (fun s' => bool_decide (s' ∈ X)) (successors s)) X.

(** [acts] are all the steps that are possible in [X]. *)
Lemma closed_reach X s l s' :
  closed X = true -> (forall s a s', s ∈ X -> step a s = Some s' -> a ∈ acts) ->
  s ∈ X -> run l s = Some s' -> s' ∈ X.
Proof.
  intros HX Hacts. revert s. induction l as [|a l IH]; intros s Hs H; cbn [run] in H; [by injection H as <-|].
  destruct (step a s) as [s1|] eqn:E; [|done]. apply (IH s1); [|done]. pose proof (Hacts _ _ _ Hs E) as Ha.
  unfold closed in HX. rewrite forallb_forall in HX. specialize (HX s (proj1 (list_elem_of_In _ _) Hs)).
  rewrite forallb_forall in HX. eapply bool_decide_eq_true, HX, list_elem_of_In. unfold successors.
  apply list_elem_of_omap. by exists a.
Qed.

Lemma all_in (P : S -> bool) X s : forallb P X = true -> s ∈ X -> P s = true.
Proof. intros H Hs. rewrite forallb_forall in H. apply H. by apply list_elem_of_In. Qed.
End Explore.

(** ** The test *)

(** A system thread in [RunTask]: before it, in [Run] of the task, behind it. *)
Inductive place : Type := Created | AtPost | AtTest | AtCount | AtSleep | AtLeave | Gone (cancelled : bool).

Record systhread : Type := Systhread { at_ : place; cancel_sent : bool }.

(** The statements of the test; [sleep] is left out. *)
Inductive instr : Type :=
| IDetach (enable : bool)                       (* [SetDetachable] *)
| IStart | IWait | IStop | IInit | IJoin
| IRunning (timed : bool)                       (* [EXPECT_TRUE(IsRunning())] *)
| IIdle | INotDetachable | ITask
| ICount (n : Z)                                (* [EXPECT_TRUE(task.counter > n)] *)
| ICancel | IJoinRet                            (* [Join(&ret)], [EXPECT_EQ(PTHREAD_CANCELED, ret)] *)
| IDestroy.                                     (* [~Thread] *)

Definition test_body : list instr :=
  [IDetach false; IStart; IWait; IRunning false; ITask; IStop; IJoin;
   ICount 1; IIdle; INotDetachable; ITask;
   IInit; IStart; IRunning true; INotDetachable; ITask; IStop; IJoin; ICount 2;
   IInit; IStart; ICancel; IJoinRet; IDestroy].

(** [lost]: [~Thread] has cancelled a thread that was joined before. *)
Record test : Type := Test {
  object : Thread; threads : list systhread;
  m_stop : bool; counter : Z; m_sem : Z;
  todo : list instr; good : bool; timely : bool; lost : bool
}.

#[export] Instance Thread_eq : EqDecision Thread. Proof. solve_decision. Defined.
#[export] Instance place_eq : EqDecision place. Proof. solve_decision. Defined.
#[export] Instance systhread_eq : EqDecision systhread. Proof. solve_decision. Defined.
#[export] Instance instr_eq : EqDecision instr. Proof. solve_decision. Defined.
#[export] Instance test_eq : EqDecision test. Proof. solve_decision. Defined.

Definition the_task : nat := 1.

Definition test_init : test := Test (Thread_init (Some the_task) false) [] false 0 0 test_body true true false.

Definition gone (t : systhread) : bool := match at_ t with Gone _ => true | _ => false end.

(** The last thread of the object, whose id is [tid_]. *)
Definition newest (ts : list systhread) : option systhread := last ts.

(** What [pthread_create], [pthread_join] and [pthread_cancel] return when they work. *)
Definition works (ts : list systhread) : pthread_results := Results 0 0 0 (Z.of_nat (length ts) + 1).

Definition send_cancel (l : list systhread) : list systhread :=
  match length l with
  | O => l
  | S n => alter (fun t => Systhread (at_ t) true) n l
  end.

(** One statement of the main thread; [None] while it has to wait. *)
Definition main_step (s : test) : option test :=
  let 'Test o ts st ct sm td gd tm ls := s in
  match td with
  | [] => None
  | i :: td =>
      let expect (timed b : bool) := Test o ts st ct sm td (gd && (timed || b)) (tm && (negb timed || b)) ls in
      match i with
      | IDetach b => let '(o', _) := SetDetachable b o in Some (Test o' ts st ct sm td gd tm ls)
      | IStart =>
          let '(o', ok, made) := Start (works ts) o in
          let ts' := match made with Some _ => ts ++ [Systhread Created false] | None => ts end in
          Some (Test o' ts' st ct sm td (gd && ok) tm ls)
      | IWait => if 0 <? sm then Some (Test o ts st ct (sm - 1) td gd tm ls) else None
      | IStop => Some (Test o ts true ct sm td gd tm ls)
      | IInit => Some (Test o ts false ct sm td gd tm ls)
      | IJoin => match newest ts with Some t => if gone t then Some (Test o ts st ct sm td gd tm ls) else None | None => None end
      | IRunning timed => Some (expect timed (IsRunning o))
      | IIdle => Some (expect false (negb (IsRunning o)))
      | INotDetachable => Some (expect false (negb (detachable_ o)))
      | ITask => Some (expect false (bool_decide (task_ o = Some the_task)))
      | ICount n => Some (expect true (n <? ct))
      | ICancel =>
          let ts' := if busy_ o =? 0 then ts else send_cancel ts in
          Some (Test o ts' st ct sm td (gd && Cancel 0 o) tm ls)
      | IJoinRet =>
          match newest ts with
          | Some t => match at_ t with
                      | Gone c => Some (Test o ts st ct sm td (gd && Join 0 o && c) tm ls)
                      | _ => None
                      end
          | None => None
          end
      | IDestroy => Some (Test o ts st ct sm td gd tm (negb (busy_ o =? 0)))
      end
  end.

(** One step of the system thread [i]. *)
Definition thread_step (i : nat) (s : test) : option test :=
  let 'Test o ts st ct sm td gd tm ls := s in
  match ts !! i with
  | None => None
  | Some t =>
      let go o ct sm p := Some (Test o (<[i := Systhread p (cancel_sent t)]> ts) st ct sm td gd tm ls) in
      match at_ t with
      | Created => match RunTask_enter o with
                   | (o', Some _) => go o' ct sm AtPost
                   | (o', None) => go o' ct sm (Gone false)
                   end
      | AtPost => go o ct (sm + 1) AtTest
      | AtTest => go o ct sm (if st then AtLeave else AtCount)
      | AtCount => go o (ct + 1) sm AtSleep
      | AtSleep => go o ct sm (if cancel_sent t then Gone true else AtTest)
      | AtLeave => go (RunTask_leave o) ct sm (Gone false)
      | Gone _ => None
      end
  end.

(** [None] is the main thread. *)
Definition test_step (a : option nat) (s : test) : option test :=
  match a with None => main_step s | Some i => thread_step i s end.

(** ** What the counter is good for *)

(** The test asks only whether the counter is above 1 and above 2. *)
Definition cap (s : test) : test :=
  let 'Test o ts st ct sm td gd tm ls := s in Test o ts st (Z.min ct 3) sm td gd tm ls.

Definition capped_step (a : option nat) (s : test) : option test := cap <$> test_step a s.

Definition small (i : instr) : Prop := match i with ICount n => n <= 2 | _ => True end.

Lemma small_count n ct : n <= 2 -> (n <? Z.min ct 3) = (n <? ct).
Proof. intros H. destruct (Z.ltb_spec n ct), (Z.ltb_spec n (Z.min ct 3)); lia || done. Qed.

Lemma cap_main s : Forall small (todo s) -> cap <$> main_step s = cap <$> main_step (cap s).
Proof.
  destruct s as [o ts st ct sm [|i td] gd tm ls]; [done|]. cbn [todo]. intros [Hi _]%Forall_cons.
  assert (Hm : Z.min (Z.min ct 3) 3 = Z.min ct 3) by lia.
  destruct i as [b| | | | | |t| | | |n| | |]; cbn -[Start SetDetachable works]; rewrite ?small_count by done;
    repeat case_match; simplify_eq/=; by rewrite ?Hm.
Qed.

Lemma cap_thread i s : cap <$> thread_step i s = cap <$> thread_step i (cap s).
Proof.
  destruct s as [o ts st ct sm td gd tm ls]. cbn. destruct (ts !! i) as [[p c]|]; [|done]. cbn.
  assert (Hm : Z.min (Z.min ct 3) 3 = Z.min ct 3) by lia.
  destruct p; cbn; rewrite ?Hm; try done; [destruct (RunTask_enter o) as [o' [t|]]; cbn; by rewrite ?Hm|].
  do 2 f_equal. lia.
Qed.

Lemma cap_step a s : Forall small (todo s) -> cap <$> test_step a s = capped_step a (cap s).
Proof. intros H. destruct a as [i|]; [apply cap_thread|by apply cap_main]. Qed.

(** What is left of the test is a part of it. *)
Lemma todo_small a s s' : Forall small (todo s) -> test_step a s = Some s' -> Forall small (todo s').
Proof.
  destruct s as [o ts st ct sm td gd tm ls]. cbn [todo]. intros Ht H. destruct a as [i|]; cbn in H.
  - repeat case_match; simplify_eq/=; done.
  - destruct td as [|j td]; [done|]. apply Forall_cons in Ht as [_ Ht]. repeat case_match; simplify_eq/=; done.
Qed.

Lemma cap_run l s s' : Forall small (todo s) -> run test_step l s = Some s' -> run capped_step l (cap s) = Some (cap s').
Proof.
  revert s. induction l as [|a l IH]; intros s Ht H; cbn [run] in *; [by injection H as ->|].
  destruct (test_step a s) as [s1|] eqn:E; [|done]. pose proof (cap_step a s Ht) as Hc. rewrite E in Hc.
  rewrite <-Hc. cbn. apply IH; [by eapply todo_small|done].
Qed.

(** ** Every interleaving *)

Definition acts : list (option nat) := [None; Some 0%nat; Some 1%nat; Some 2%nat].

(** At most three threads are made. *)
Lemma acts_all X s a s' :
  forallb (fun s => Nat.leb (length (threads s)) 3) X = true -> s ∈ X -> capped_step a s = Some s' -> a ∈ acts.
Proof.
  intros HX Hs H. pose proof (all_in _ _ _ HX Hs) as Hl. apply Nat.leb_le in Hl. unfold acts.
  destruct a as [i|]; [|by left]. destruct s as [o ts st ct sm td gd tm ls]. unfold capped_step in H. cbn in H, Hl.
  destruct (ts !! i) as [t|] eqn:Ht; [|done]. apply lookup_lt_Some in Ht.
  destruct i as [|[|[|i]]]; [by right; left|by right; right; left|by right; right; right; left|lia].
Qed.

(** Everything that can be reached from [s], up to the counter. *)
Lemma reach_all (P : test -> bool) s l s' :
  let X := explore acts capped_step 4000 [] [cap s] in
  Forall small (todo s) ->
  closed acts capped_step X && bool_decide (cap s ∈ X) && forallb (fun s => Nat.leb (length (threads s)) 3) X &&
    forallb P X = true ->
  run test_step l s = Some s' -> P (cap s') = true.
Proof.
  intros X Ht H Hl. apply andb_true_iff in H as [H HP]. apply andb_true_iff in H as [H H3].
  apply andb_true_iff in H as [Hc Hin]. apply bool_decide_eq_true in Hin.
  apply (all_in _ _ _ HP). eapply (closed_reach acts capped_step X (cap s) l (cap s')); [done| |done|by apply cap_run].
  intros s0 a s1. by apply acts_all.
Qed.

Lemma test_small : Forall small test_body.
Proof. unfold test_body. repeat (apply Forall_cons_2; [cbn; (exact I || lia)|]). apply Forall_nil_2. Qed.

(** Whatever the order in which the main thread and the threads it starts go on, and however
    long each [sleep] takes: every expectation of the test about [Thread] holds (that it
    starts, runs, has its task, is idle after [Join], and is cancelled when [Join] comes
    back after [Cancel]).  But the object of a cancelled thread calls itself busy for ever,
    so that in every run that comes to its end [~Thread] cancels a thread that has been
    joined already. *)
Theorem thread_test_good (l : list (option nat)) (s : test) :
  run test_step l test_init = Some s ->
  good s = true /\ (todo s = [] -> lost s = true) /\ (length (threads s) <= 3)%nat.
Proof.
  intros H.
  pose proof (reach_all (fun s => good s && (bool_decide (todo s <> []) || lost s) && Nat.leb (length (threads s)) 3)
    test_init l s test_small ltac:(by vm_compute) H) as HP.
  destruct s as [o ts st ct sm td gd tm ls]. cbn in *. apply andb_true_iff in HP as [HP Hl]. apply andb_true_iff in HP as [-> HP].
  apply Nat.leb_le in Hl. split_and!; [done| |done]. intros ->. by apply orb_true_iff in HP as [HP|HP]; [apply bool_decide_eq_true in HP|].
Qed.

(** A run to the end in which the sleeps are long enough. *)
Definition patient : list (option nat) :=
  let main n := replicate n None in
  let th (i n : nat) := replicate n (Some i) in
  (main 2 ++ th 0 2 ++ main 3 ++ th 0 6 ++ main 1 ++ th 0 2 ++ main 6 ++
   main 1 ++ th 1 5 ++ main 4 ++ th 1 2 ++ main 2 ++ main 2)%nat.

Lemma thread_test_passes :
  match run test_step (patient ++ replicate 3 (Some 2%nat) ++ [None] ++ replicate 2 (Some 2%nat) ++ [None; None]) test_init with
  | Some s => (todo s, good s, timely s, lost s) = ([], true, true, true)
  | None => False
  end.
Proof. by vm_compute. Qed.

(** Everything went well so far, but [Cancel] comes before the new thread has set [busy_]:
    it does nothing and returns [true], nobody stops the task any more, and however long the
    threads run the test waits in its last [Join]. *)
Theorem thread_test_hangs :
  exists s, run test_step (patient ++ [None]) test_init = Some s /\ good s = true /\ timely s = true /\
    forall l s', run test_step l s = Some s' -> todo s' = [IJoinRet; IDestroy].
Proof.
  eexists. split; [vm_compute; reflexivity|]. split; [done|]. split; [done|]. intros l s' H.
  match type of H with run _ _ ?s0 = _ =>
    pose proof (reach_all (fun u => bool_decide (todo u = [IJoinRet; IDestroy])) s0 l s'
      ltac:(repeat constructor) ltac:(by vm_compute) H) as HP
  end.
  destruct s'. by apply bool_decide_eq_true in HP.
Qed.
