(* ===== verification/LockFreeBufferTest.v ===== *)
(** * LockFreeBufferTest.v: [misc/unittest/LockFreeBufferTest.cc], what the test can see

Three threads take buffers, write a pattern into them and push them into a queue; a fourth
pops them, compares the pattern and gives them back.  The memory of the pool is modelled byte
by byte in the layout of LockFreeBuffer.v.  What the calls of the pool and of the queue answer
is left to the schedule: [AllocBuffer] any buffer of the pool, [Pop] anything that has been
pushed before, however often, and the pool may write into the headers of its nodes at any time.
So the runs of this file contain those of a pool or a queue that hand a buffer out twice, as
these do ([LockFreeBuffer.constructor_double_alloc], [LockFreeList.LockFreeList_two_producers_lose]);
assumed is that a popped pointer was pushed.

[candy_never_fails]: no expectation of the test fails in any of these runs, because every
thread writes the same bytes to the same places.  [double_allocation_unseen]: two threads
hold one buffer and the test succeeds. *)

From S2P Require Import Prelude Machine Conc LockFreeBuffer ThreadTest.

(** ** The test *)

Definition gs_candy : list Z := [0x23; 0x23; 0xcd; 0xdc; 0xff; 0x4f; 0x09; 0xcc; 0].
Definition gs_candy_sz : Z := 9.

(** [m_alloc(1024, 2 * gs_candy_sz)]. *)
Definition m_size : Z := 1024.
Definition m_granularity : Z := 2 * gs_candy_sz.

(** Byte [k] of the two copies of the pattern. *)
Definition candy (k : Z) : Z := gs_candy !!! Z.to_nat (k mod gs_candy_sz).

(** A buffer is its offset in [rawBuff_]. *)
Definition buffer_of (node : Z) : Z := buffer_offset m_granularity node.

Definition in_pool (node : Z) : bool := (0 <=? node) && (node <? m_size).

(** The assertion of [ReleaseBuffer]. *)
Definition release_assert (buffer : Z) : bool :=
  (node_offset m_granularity 0 <=? container_of_buffer buffer) &&
  (container_of_buffer buffer <=? node_offset m_granularity (m_size - 1)).

(** Where a thread of the test is. *)
Inductive consumer : Type :=
| CNew | CLoop | CAlloc
| CSetup (buffer k : Z)               (* [SetupCandy], byte [k] *)
| CPush (buffer : Z)
| CVerify (buffer k : Z)              (* [VerifyCandy], byte [k] *)
| CRelease (buffer : Z)
| CDone.

Inductive releaser : Type :=
| RNew | RLoop | RPop
| RVerify (buffer k : Z)
| RGive (buffer : Z)                  (* [m_alloc.ReleaseBuffer(buffer)] *)
| RDone.

Inductive stmt : Type := SStartRelease | SStart (i : nat) | SStop (i : nat) | SJoin (i : nat) | SStopRelease | SJoinRelease.

Definition main_body : list stmt :=
  [SStartRelease; SStart 0; SStart 1; SStart 2; SStop 0; SStop 1; SStop 2; SJoin 0; SJoin 1; SJoin 2;
   SStopRelease; SJoinRelease].

(** [good]: no expectation has failed; [crashed]: an access outside [rawBuff_], or a failed
    assertion. *)
Record test : Type := Test {
  mem : list Z; pushed : list Z;
  consumers : list (consumer * bool); release : releaser * bool;    (* with [m_stop] *)
  todo : list stmt; good : bool; crashed : bool
}.

Definition test_init (junk : list Z) : test :=
  Test junk [] (replicate 3 (CNew, false)) (RNew, false) main_body true false.

Definition set_mem m (s : test) : test := Test m (pushed s) (consumers s) (release s) (todo s) (good s) (crashed s).
Definition set_pushed p (s : test) : test := Test (mem s) p (consumers s) (release s) (todo s) (good s) (crashed s).
Definition set_consumers (c : list (consumer * bool)) (s : test) : test := Test (mem s) (pushed s) c (release s) (todo s) (good s) (crashed s).
Definition set_release (r : releaser * bool) (s : test) : test := Test (mem s) (pushed s) (consumers s) r (todo s) (good s) (crashed s).
Definition set_todo t (s : test) : test := Test (mem s) (pushed s) (consumers s) (release s) t (good s) (crashed s).
Definition fail (s : test) : test := Test (mem s) (pushed s) (consumers s) (release s) (todo s) false (crashed s).
Definition crash (s : test) : test := Test (mem s) (pushed s) (consumers s) (release s) (todo s) (good s) true.

(** A byte of [rawBuff_]. *)
Definition load (s : test) (a : Z) : option Z :=
  if a <? 0 then None else mem s !! Z.to_nat a.

Definition store (a v : Z) (s : test) : test :=
  match load s a with Some _ => set_mem (<[Z.to_nat a := v]> (mem s)) s | None => crash s end.

(** Byte [k] of [memcmp] in [VerifyCandy]: whether to go on, and the state. *)
Definition compare (buffer k : Z) (s : test) : bool * test :=
  match load s (buffer + k) with
  | None => (false, crash s)
  | Some v => if v =? candy k then (true, s) else (false, fail s)
  end.

Definition consumer_at (s : test) (i : nat) : option (consumer * bool) := consumers s !! i.

Definition at_consumer (i : nat) (c : consumer) (s : test) : test :=
  set_consumers (alter (fun x => (c, x.2)) i (consumers s)) s.

Definition at_release (r : releaser) (s : test) : test := set_release (r, (release s).2) s.

(** Who moves, with the answer of the call; [Header]: the pool writes byte [k] of a node. *)
Inductive act : Type :=
| Main
| Consumer (i : nat)
| Alloc (i : nat) (ret : option Z)
| Push (i : nat) (ret : bool)
| Release
| Pop (ret : option Z)
| Header (node k v : Z).

Definition consumer_step (i : nat) (s : test) : option test :=
  match consumer_at s i with
  | None => None
  | Some (c, m_stop) =>
      match c with
      | CLoop => Some (at_consumer i (if m_stop then CDone else CAlloc) s)
      | CSetup b k =>
          Some (at_consumer i (if k + 1 <? m_granularity then CSetup b (k + 1) else CPush b) (store (b + k) (candy k) s))
      | CVerify b k =>
          let '(more, s) := compare b k s in
          Some (at_consumer i (if more && (k + 1 <? m_granularity) then CVerify b (k + 1) else CRelease b) s)
      | CRelease b => Some (at_consumer i CLoop (if release_assert b then s else crash s))
      | CNew | CAlloc | CPush _ | CDone => None
      end
  end.

(** The calls of a consumer that have an answer. *)
Definition alloc_step (i : nat) (ret : option Z) (s : test) : option test :=
  match consumer_at s i, ret with
  | Some (CAlloc, _), None => Some (at_consumer i CLoop s)
  | Some (CAlloc, _), Some node => if in_pool node then Some (at_consumer i (CSetup (buffer_of node) 0) s) else None
  | _, _ => None
  end.

Definition push_step (i : nat) (ret : bool) (s : test) : option test :=
  match consumer_at s i with
  | Some (CPush b, _) =>
      Some (if ret then at_consumer i CLoop (set_pushed (b :: pushed s) s) else at_consumer i (CVerify b 0) s)
  | _ => None
  end.

Definition release_step (s : test) : option test :=
  let '(r, m_stop) := release s in
  match r with
  | RLoop => Some (at_release (if m_stop then RDone else RPop) s)
  | RVerify b k =>
      let '(more, s) := compare b k s in
      Some (at_release (if more && (k + 1 <? m_granularity) then RVerify b (k + 1) else RGive b) s)
  | RGive b => Some (at_release RLoop (if release_assert b then s else crash s))
  | RNew | RPop | RDone => None
  end.

Definition pop_step (ret : option Z) (s : test) : option test :=
  match release s, ret with
  | (RPop, _), None => Some (at_release RLoop s)
  | (RPop, _), Some b => if bool_decide (b ∈ pushed s) then Some (at_release (RVerify b 0) s) else None
  | _, _ => None
  end.

(** A statement of the test; [sleep] takes any time. *)
Definition main_step (s : test) : option test :=
  match todo s with
  | [] => None
  | i :: td =>
      let s := set_todo td s in
      match i with
      | SStartRelease => Some (at_release RLoop s)
      | SStart i => Some (at_consumer i CLoop s)
      | SStop i => Some (set_consumers (alter (fun x => (x.1, true)) i (consumers s)) s)
      | SJoin i => match consumer_at s i with Some (CDone, _) => Some s | _ => None end
      | SStopRelease => Some (set_release ((release s).1, true) s)
      | SJoinRelease => match release s with (RDone, _) => Some s | _ => None end
      end
  end.

Definition header_step (node k v : Z) (s : test) : option test :=
  if in_pool node && (0 <=? k) && (k <? sizeof_BufferNode)
  then Some (store (node_offset m_granularity node + k) v s) else None.

Definition test_step (a : act) (s : test) : option test :=
  match a with
  | Main => main_step s
  | Consumer i => consumer_step i s
  | Alloc i ret => alloc_step i ret s
  | Push i ret => push_step i ret s
  | Release => release_step s
  | Pop ret => pop_step ret s
  | Header node k v => header_step node k v s
  end.

(** ** The memory *)

Definition is_buffer (b : Z) : Prop := exists node, in_pool node = true /\ b = buffer_of node.

(** The first [n] bytes of the pattern are in the buffer. *)
Definition candied (m : list Z) (b n : Z) : Prop :=
  forall k, 0 <= k < n -> m !! Z.to_nat (b + k) = Some (candy k).

(** What the steps of the test do to the memory: nothing that breaks a pattern. *)
Definition keeps (m m' : list Z) : Prop :=
  length m' = length m /\
  forall b n, is_buffer b -> n <= m_granularity -> candied m b n -> candied m' b n.

Definition raw_length : nat := Z.to_nat (raw_size m_size m_granularity).

Lemma layout : m_granularity = 18 /\ node_stride m_granularity = 48 /\ raw_length = Z.to_nat 49152.
Proof. done. Qed.

Lemma node_offset_at node : 0 <= node < 1024 -> node_offset m_granularity node = node * 48.
Proof. intros H. unfold node_offset. destruct layout as (_&->&_). apply u64_id. lia. Qed.

Lemma buffer_at b : is_buffer b <-> exists node, 0 <= node < 1024 /\ b = node * 48 + 16.
Proof.
  unfold is_buffer, buffer_of, buffer_offset, in_pool. change m_size with 1024. change sizeof_BufferNode with 16.
  split; intros (node & H & ->); exists node.
  - apply andb_true_iff in H as [H1%Z.leb_le H2%Z.ltb_lt]. split; [lia|]. by rewrite node_offset_at.
  - rewrite node_offset_at by done. split; [|done]. apply andb_true_iff. rewrite Z.leb_le, Z.ltb_lt. lia.
Qed.

Lemma buffer_inside b k : is_buffer b -> 0 <= k < m_granularity -> 0 <= b + k < 49152.
Proof. intros (node & ? & ->)%buffer_at. destruct layout as (->&_). lia. Qed.

Lemma keeps_refl m : keeps m m.
Proof. done. Qed.

(** Writing the pattern where it belongs. *)
Lemma keeps_candy m b k :
  is_buffer b -> 0 <= k < m_granularity -> keeps m (<[Z.to_nat (b + k) := candy k]> m).
Proof.
  intros Hb Hk. split; [apply length_insert|]. intros b' n Hb' Hn H j Hj. specialize (H j Hj).
  pose proof (buffer_inside b k Hb Hk). pose proof (buffer_inside b' j Hb' ltac:(lia)).
  destruct (decide (b + k = b' + j)) as [E|E].
  - rewrite <-E in *. rewrite list_lookup_insert_eq by (eapply lookup_lt_Some, H). f_equal.
    apply buffer_at in Hb as (?&?&?). apply buffer_at in Hb' as (?&?&?). destruct layout as (Hg&_). f_equal. lia.
  - rewrite list_lookup_insert_ne; [done|]. lia.
Qed.

(** Writing into a header. *)
Lemma keeps_header m node k v :
  0 <= node < 1024 -> 0 <= k < 16 -> keeps m (<[Z.to_nat (node * 48 + k) := v]> m).
Proof.
  intros Hn Hk. split; [apply length_insert|]. intros b' n Hb' Hm H j Hj. specialize (H j Hj).
  apply buffer_at in Hb' as (node'&?&->). destruct layout as (Hg&_).
  rewrite list_lookup_insert_ne; [done|]. lia.
Qed.

Lemma load_inside s a : length (mem s) = raw_length -> 0 <= a < 49152 -> exists v, load s a = Some v.
Proof.
  intros Hl Ha. unfold load. destruct (Z.ltb_spec a 0); [lia|]. apply lookup_lt_is_Some. rewrite Hl.
  destruct layout as (_&_&->). lia.
Qed.

Lemma store_inside s a v : length (mem s) = raw_length -> 0 <= a < 49152 -> store a v s = set_mem (<[Z.to_nat a := v]> (mem s)) s.
Proof. intros Hl Ha. unfold store. by destruct (load_inside s a Hl Ha) as [w ->]. Qed.

Lemma compare_candied s b k :
  is_buffer b -> 0 <= k < m_granularity -> candied (mem s) b m_granularity -> compare b k s = (true, s).
Proof.
  intros Hb Hk H. unfold compare, load. pose proof (buffer_inside b k Hb Hk).
  destruct (Z.ltb_spec (b + k) 0); [lia|]. by rewrite (H k Hk), Z.eqb_refl.
Qed.

(** [ReleaseBuffer]'s assertion holds of every buffer of the pool. *)
Lemma release_assert_buffer b : is_buffer b -> release_assert b = true.
Proof.
  intros (node & ? & ->)%buffer_at. unfold release_assert, container_of_buffer.
  rewrite !node_offset_at by (change m_size with 1024; lia). change sizeof_BufferNode with 16. change m_size with 1024.
  apply andb_true_iff. rewrite !Z.leb_le. lia.
Qed.

(** ** The invariant *)

Definition full (m : list Z) (b : Z) : Prop := is_buffer b /\ candied m b m_granularity.

Definition cinv (m : list Z) (c : consumer) : Prop :=
  match c with
  | CSetup b k => is_buffer b /\ 0 <= k < m_granularity /\ candied m b k
  | CVerify b k => full m b /\ 0 <= k < m_granularity
  | CPush b | CRelease b => full m b
  | _ => True
  end.

Definition rinv (m : list Z) (r : releaser) : Prop :=
  match r with
  | RVerify b k => full m b /\ 0 <= k < m_granularity
  | RGive b => full m b
  | _ => True
  end.

Record Inv (s : test) : Prop := {
  inv_len : length (mem s) = raw_length;
  inv_pushed : Forall (full (mem s)) (pushed s);
  inv_consumers : Forall (fun x => cinv (mem s) x.1) (consumers s);
  inv_release : rinv (mem s) (release s).1;
  inv_good : good s = true;
  inv_sound : crashed s = false
}.

Lemma full_keeps m m' b : keeps m m' -> full m b -> full m' b.
Proof. intros [_ H] [Hb Hc]. split; [done|]. by apply H. Qed.

Lemma cinv_keeps m m' c : keeps m m' -> cinv m c -> cinv m' c.
Proof.
  intros H. destruct c; simpl; try done; try (by apply full_keeps).
  - intros (?&?&?). split_and!; try done; try lia. by apply H; [|lia|].
  - intros [??]. split; [by eapply full_keeps|done].
Qed.

Lemma rinv_keeps m m' r : keeps m m' -> rinv m r -> rinv m' r.
Proof.
  intros H. destruct r; simpl; try done; try (by apply full_keeps).
  intros [??]. split; [by eapply full_keeps|done].
Qed.

Lemma Inv_mem m s : keeps (mem s) m -> Inv s -> Inv (set_mem m s).
Proof.
  intros H []. constructor; simpl; try done.
  - destruct H as [-> _]. done.
  - eapply Forall_impl; [done|]. intros. by eapply full_keeps.
  - eapply Forall_impl; [done|]. intros. by eapply cinv_keeps.
  - by eapply rinv_keeps.
Qed.

Lemma Inv_consumer i c s : cinv (mem s) c -> Inv s -> Inv (at_consumer i c s).
Proof. intros H []. constructor; simpl; try done. apply Forall_alter; [done|]. by intros. Qed.

Lemma Inv_release r s : rinv (mem s) r -> Inv s -> Inv (at_release r s).
Proof. intros H []. by constructor. Qed.

Lemma Inv_at i c b s : consumer_at s i = Some (c, b) -> Inv s -> cinv (mem s) c.
Proof. intros H [_ _ HC _ _ _]. by apply (Forall_lookup_1 _ _ _ _ HC) in H. Qed.

#[local] Hint Resolve Inv_consumer Inv_release : core.

Lemma consumer_keeps i s s' : Inv s -> consumer_step i s = Some s' -> Inv s'.
Proof.
  intros HI. unfold consumer_step. destruct (consumer_at s i) as [[c st]|] eqn:E; [|done].
  pose proof (Inv_at _ _ _ _ E HI) as Hc. destruct c as [| | |b k|b|b k|b|]; intros [= <-] || intros H; try done.
  - apply Inv_consumer; [by destruct st|done].
  - destruct Hc as (Hb&Hk&Hc). rewrite store_inside by (apply HI || by apply buffer_inside).
    pose proof (keeps_candy (mem s) b k Hb Hk) as HK.
    apply Inv_consumer; [|by apply Inv_mem].
    assert (candied (<[Z.to_nat (b + k):=candy k]> (mem s)) b (k + 1)) as Hn.
    { intros j Hj. destruct (decide (j = k)) as [->|]; [|apply (proj2 HK b k); [done|lia|done|lia]].
      apply list_lookup_insert_eq. rewrite (inv_len _ HI). destruct layout as (_&_&->).
      pose proof (buffer_inside b k Hb Hk). lia. }
    destruct (Z.ltb_spec (k + 1) m_granularity); simpl; [split_and!; done || lia|].
    split; [done|]. by replace m_granularity with (k + 1) by lia.
  - destruct Hc as ([Hb Hf]&Hk). revert H. rewrite compare_candied by done. intros [= <-].
    apply Inv_consumer; [|done]. simpl. destruct (Z.ltb_spec (k + 1) m_granularity); simpl; [|done].
    split; [done|lia].
  - rewrite release_assert_buffer by apply Hc. by apply Inv_consumer.
Qed.

Lemma release_keeps s s' : Inv s -> release_step s = Some s' -> Inv s'.
Proof.
  intros HI. unfold release_step. pose proof (inv_release _ HI) as Hr.
  destruct (release s) as [[| | |b k|b|] st] eqn:E; simpl in Hr; intros [= <-] || intros H; try done.
  - apply Inv_release; [by destruct st|done].
  - destruct Hr as ([Hb Hf]&Hk). revert H. rewrite compare_candied by done. intros [= <-].
    apply Inv_release; [|done]. simpl. destruct (Z.ltb_spec (k + 1) m_granularity); simpl; [|done].
    split; [done|lia].
  - rewrite release_assert_buffer by apply Hr. by apply Inv_release.
Qed.

Lemma answer_keeps a s s' :
  match a with Alloc _ _ | Push _ _ | Pop _ => True | _ => False end -> Inv s -> test_step a s = Some s' -> Inv s'.
Proof.
  intros Ha HI. destruct a as [| |i ret|i ret| |ret|]; try done; cbn [test_step]; clear Ha.
  - unfold alloc_step. destruct (consumer_at s i) as [[[] st]|] eqn:E; try (by destruct ret).
    destruct ret as [node|]; [|intros [= <-]; by apply Inv_consumer].
    destruct (in_pool node) eqn:En; [|done]. intros [= <-]. apply Inv_consumer; [|done].
    split_and!; [by exists node|done|done|]. intros k Hk. lia.
  - unfold push_step. destruct (consumer_at s i) as [[[] st]|] eqn:E; try done.
    pose proof (Inv_at _ _ _ _ E HI) as Hc. intros [= <-]. destruct ret.
    + apply Inv_consumer; [done|]. destruct HI. constructor; simpl; try done. by apply Forall_cons.
    + apply Inv_consumer; [|done]. by split.
  - unfold pop_step. destruct (release s) as [[] st] eqn:E; try (by destruct ret).
    destruct ret as [b|]; [|intros [= <-]; by apply Inv_release].
    destruct (bool_decide_reflect (b ∈ pushed s)) as [Hb|]; [|done]. intros [= <-].
    apply Inv_release; [|done]. split; [|done]. eapply Forall_forall; [apply HI|done].
Qed.

Lemma main_keeps s s' : Inv s -> main_step s = Some s' -> Inv s'.
Proof.
  intros HI. unfold main_step. destruct (todo s) as [|i td] eqn:E; [done|].
  assert (Inv (set_todo td s)) as HI' by (by destruct HI; constructor).
  destruct i as [|i|i|i| |].
  - intros [= <-]. by apply Inv_release.
  - intros [= <-]. by apply Inv_consumer.
  - intros [= <-]. destruct HI'. constructor; simpl; try done. apply Forall_alter; [done|]. by intros.
  - by destruct (consumer_at _ i) as [[[] ?]|]; intros [= <-].
  - intros [= <-]. by destruct HI'; constructor.
  - by destruct (release _) as [[] ?]; intros [= <-].
Qed.

Lemma test_keeps a s s' : Inv s -> test_step a s = Some s' -> Inv s'.
Proof.
  intros HI. destruct a as [|i|i ret|i ret| |ret|node k v]; try (by apply answer_keeps); cbn [test_step].
  - by apply main_keeps.
  - by apply consumer_keeps.
  - by apply release_keeps.
  - unfold header_step. destruct (_ && _) eqn:E; [|done]. intros [= <-].
    apply andb_true_iff in E as [[[?%Z.leb_le Hn%Z.ltb_lt]%andb_true_iff ?%Z.leb_le]%andb_true_iff Hk%Z.ltb_lt].
    change m_size with 1024 in Hn. change sizeof_BufferNode with 16 in Hk.
    rewrite node_offset_at by done.
    rewrite store_inside by (apply HI || lia). apply Inv_mem; [|done]. by apply keeps_header.
Qed.

Lemma Inv_init junk : length junk = raw_length -> Inv (test_init junk).
Proof. intros H. constructor; simpl; try done. by repeat constructor. Qed.

(** In every interleaving, whatever buffers the pool hands out, whichever pushed buffers the
    queue gives back, and whatever the pool writes into its headers: no expectation of the
    test fails, no assertion of [ReleaseBuffer] does, and no access leaves the memory of the
    pool. *)
Theorem candy_never_fails (junk : list Z) (l : list act) (s : test) :
  length junk = raw_length -> ThreadTest.run test_step l (test_init junk) = Some s -> good s = true /\ crashed s = false.
Proof.
  intros Hj. assert (forall l s0, Inv s0 -> ThreadTest.run test_step l s0 = Some s -> Inv s) as H.
  { clear. induction l as [|a l IH]; intros s0 HI; cbn [ThreadTest.run]; [by intros [= <-]|].
    destruct (test_step a s0) as [s1|] eqn:E; [|done]. apply IH. by eapply test_keeps. }
  intros HR. destruct (H l _ (Inv_init _ Hj) HR). done.
Qed.

(** ** What the test cannot see *)

(** Two threads hold the same buffer; both push it, and it is popped twice. *)
Definition shared_buffer : list act :=
  replicate 4 Main ++ [Consumer 0; Consumer 1; Alloc 0 (Some 0); Alloc 1 (Some 0)] ++
  replicate 18 (Consumer 0) ++ replicate 18 (Consumer 1) ++ [Push 0 true; Push 1 true].

Definition drained : list act :=
  concat (replicate 2 ([Release; Pop (Some 16)] ++ replicate 19 Release)) ++
  replicate 3 Main ++ [Consumer 0; Consumer 1; Consumer 2] ++ replicate 4 Main ++ [Release; Main].

(** The pool has handed the first buffer, at offset 16, to two threads at once: the test ends
    and nothing has failed. *)
Theorem double_allocation_unseen :
  (s ← ThreadTest.run test_step shared_buffer (test_init (replicate raw_length 0));
   s' ← ThreadTest.run test_step drained s;
   Some (pushed s, todo s', good s')) = Some ([16; 16], [], true).
Proof. vm_compute. reflexivity. Qed.
