(* ===== verification/AsynLoggingTest.v ===== *)
(** * AsynLoggingTest.v: [slog/test/TestAsynLogging.cc]

The acceptance test of the asynchronous logger: eight threads log [g_log_cnt] numbered
messages each, the main thread a few more, and [VerifyOutput] reads the file back and
counts the messages of every number.  The threads are clients of SlogAsync.v, in any
interleaving; the theorem says that [VerifyOutput] accepts the file once the writer has
caught up and nothing was dropped. *)

From stdpp Require Import gmap pretty strings.
From S2P Require Import Prelude Machine Conc LogStream CacheTimeStamp SlogLogger AsynLogAppender SlogAsync.
From S2P Require LogFileAppender.
#[local] Open Scope Z_scope.
#[local] Open Scope bef_scope.

Definition g_thread_cnt : Z := 8.

Definition colon : ascii := ":"%char.
Definition nl : ascii := "010"%char.

(** ** [VerifyOutput] *)

(** [std::string::find] *)
Fixpoint find_sub (pat s : bytes) : option nat :=
  if decide (take (length pat) s = pat) then Some 0%nat
  else match s with [] => None | _ :: s' => S <$> find_sub pat s' end.

(** The lines [std::getline] gives until it fails. *)
Fixpoint getlines (s : bytes) : list bytes :=
  match s with
  | [] => []
  | c :: s' =>
      if decide (c = nl) then [] :: getlines s'
      else match getlines s' with [] => [[c]] | l :: ls => (c :: l) :: ls end
  end.

(** [msg i] of a line: [None] when the line is skipped, [Some None] when the first
    [ASSERT_FALSE] fails. *)
Definition line_key (line : bytes) : option (option bytes) :=
  match find_sub (bs ":msg ") line with
  | None => None
  | Some p =>
      let rest := drop (S p) line in
      Some (match find_sub (bs ":") rest with None => None | Some n => Some (take n rest) end)
  end.

Definition key (i : nat) : bytes := bs "msg " ++ bs (pretty (Z.of_nat i)).

Section Test.
Variable g_log_cnt : nat.

Definition num2cnt : gmap bytes Z := list_to_map ((fun i => (key i, 0)) <$> seq 0 g_log_cnt).

(** The loop over the lines; [None] is a failed [ASSERT_FALSE]. *)
Fixpoint count_lines (ls : list bytes) (m : gmap bytes Z) : option (gmap bytes Z) :=
  match ls with
  | [] => Some m
  | line :: ls' =>
      match line_key line with
      | None => count_lines ls' m
      | Some None => None
      | Some (Some s) =>
          match m !! s with Some n => count_lines ls' (<[s := n + 1]> m) | None => None end
      end
  end.

Definition VerifyOutput (file : bytes) : bool :=
  match count_lines (getlines file) num2cnt with
  | None => false
  | Some m => forallb (fun x => snd x =? g_thread_cnt) (map_to_list m)
  end.

(** ** What the threads log *)

(** The time of day and the uninitialised stream of a thread's statements. *)
Variable ctx : nat -> nat -> Z * bytes.

Definition log (t n : nat) (lvl : LogLevel) (args : list LogArg) (line func : bytes) : statement :=
  Stmt lvl args (bs "-TestAsynLogging.cc:" ++ line ++ bs ":") func (fst (ctx t n)) (snd (ctx t n)).

(** The [msg] of a thread: four boost threads, then four of pthread. *)
Definition th_msg (t : nat) : bytes :=
  if decide (t <= 4)%nat then bs "boost thread " ++ bs (pretty (Z.of_nat t)) ++ bs ":"
  else bs "pthread " ++ bs (pretty (Z.of_nat (t - 4))) ++ bs ":".

Definition test_nesting_logging (t n : nat) : statement :=
  log t n LL_INFO
    [ACString (th_msg t); ACString (bs "nest func: "); ADouble (bs "3.1415"); AChar " "; ASigned 0xff123]
    (bs "60") (bs "test_nesting_logging").

Definition numbered (t n i : nat) : statement :=
  log t n LL_ERROR
    [ACString (th_msg t); ACString (bs "msg "); ASigned (Z.of_nat i); AChar ":"; ACString (bs "return from nesting 2")]
    (bs "80") (bs "thread_func").

(** A round of [thread_func]: the nested statement is finished first. *)
Definition thread_round (t i : nat) : list statement :=
  [test_nesting_logging t (2 * i); numbered t (2 * i + 1) i].

Definition thread_func (t : nat) : list statement := flat_map (thread_round t) (seq 0 g_log_cnt).

(** [CheckLog] and [LaunchTestThread], by the main thread. *)
Definition main_logs : list (LogLevel * list LogArg * bytes * bytes) :=
  let Launch := bs "LaunchTestThread" in
  [(LL_INFO, [ACString []], bs "210", bs "CheckLog");
   (LL_INFO, [ACString (bs "main:whatever:"); ASigned 233; AStdString (bs "std::string format")], bs "211", bs "CheckLog");
   (LL_ERROR, [ACString (bs "main:HAHA:"); ABool true; AChar "C"; ADouble (bs "2.33"); AChar " "], bs "212", bs "CheckLog");
   (LL_DEBUG, [ACString (bs "main:Not shown:"); ACString (bs "really")], bs "213", bs "CheckLog");
   (LL_INFO, [ACString (bs "from between main:"); ASigned 1], bs "144", Launch);
   (LL_FATAL, [ACString (bs "from between main:"); ASigned 2], bs "145", Launch);
   (LL_INFO, [ACString (bs "from between main:"); ASigned 3], bs "148", Launch);
   (LL_FATAL, [ACString (bs "from between main:"); ASigned 4], bs "149", Launch)] ++
  ((fun i => (LL_INFO, [ACString (bs "boost thread "); AUnsigned i; ACString (bs " terminated")], bs "155", Launch)) <$> seqZ 0 4) ++
  ((fun i => (LL_INFO, [ACString (bs "pthread "); AUnsigned i; ACString (bs " terminated")], bs "161", Launch)) <$> seqZ 0 4).

Definition main_thread : nat := 9.

Definition CheckLog : list statement :=
  imap (fun n '(lvl, args, line, func) => log main_thread n lvl args line func) main_logs.

(** What every thread logs; thread 0 is the writer. *)
Definition script (t : nat) : list statement :=
  if decide (t = main_thread) then CheckLog
  else if decide (1 <= t <= 8)%nat then thread_func t else [].

(** The first line of the file. *)
Definition first_line : bytes := bs "asyn logging starting here." ++ [nl].

(** ** Characters of a line *)

Definition plain_chars : bytes := bs "0123456789-_ ".

Definition plain (b : bytes) : Prop := Forall (fun c => c ∈ plain_chars) b.

Lemma plain_app a b : plain (a ++ b) <-> plain a /\ plain b.
Proof. apply Forall_app. Qed.

Lemma plain_not b c : c ∉ plain_chars -> plain b -> c ∉ b.
Proof. intros Hc Hb Hin. unfold plain in Hb. rewrite Forall_forall in Hb. by apply Hc, Hb. Qed.

Lemma plain_colon b : plain b -> colon ∉ b.
Proof. apply plain_not. apply (bool_decide_unpack _). by vm_compute. Qed.

Lemma plain_nl b : plain b -> nl ∉ b.
Proof. apply plain_not. apply (bool_decide_unpack _). by vm_compute. Qed.

Lemma pretty_not_nil v : Z.abs v < 10 ^ 20 -> bs (pretty v) <> [].
Proof.
  intros Hv. rewrite <-cdigits_pretty by done. intros H. apply (f_equal length) in H.
  rewrite length_rev, length_app in H. cbn [cdigits length] in H. lia.
Qed.

Lemma plain_pretty v : Z.abs v < 10 ^ 20 -> plain (bs (pretty v)).
Proof.
  intros Hv. rewrite <-cdigits_pretty by done. apply Forall_rev, plain_app. split.
  - clear Hv. revert v. generalize 20%nat. intros fuel.
    induction fuel as [|n IH]; intros v; cbn [cdigits]; [constructor|]. constructor.
    + assert (Z.rem v 10 ∈ seqZ (-9) 19) as Hin.
      { apply elem_of_seqZ. pose proof (Z.rem_bound_abs v 10 ltac:(lia)). lia. }
      revert Hin. generalize (Z.rem v 10). apply Forall_forall. apply (bool_decide_unpack _). by vm_compute.
    + destruct (_ =? 0); [constructor|apply IH].
  - destruct (v <? 0); apply (bool_decide_unpack _); by vm_compute.
Qed.

Lemma plain_zero_pad w v : 0 <= v < 10 ^ 20 -> plain (zero_pad w v).
Proof.
  intros Hv. unfold zero_pad. destruct (Z.ltb_spec v 0); [lia|]. apply plain_app.
  split; [|apply plain_pretty; lia]. apply Forall_replicate. apply (bool_decide_unpack _). by vm_compute.
Qed.

Lemma plain_blank_pad w v : 0 <= v < 10 ^ 20 -> plain (blank_pad w v).
Proof.
  intros Hv. unfold blank_pad. apply plain_app.
  split; [|apply plain_pretty; lia]. apply Forall_replicate. apply (bool_decide_unpack _). by vm_compute.
Qed.

Lemma plain_fmt_time t : tm_ok t -> plain (fmt_time t).
Proof.
  intros (H1&H2&H3&H4&H5&H6). unfold fmt_time. rewrite !plain_app.
  split_and!; try (apply plain_zero_pad; lia); try (apply plain_blank_pad; lia);
    apply (bool_decide_unpack _); by vm_compute.
Qed.

(** ** Reading a line *)

Lemma find_sub_here pat s : find_sub pat (pat ++ s) = Some 0%nat.
Proof. destruct (pat ++ s) eqn:E; cbn [find_sub]; rewrite <-E, take_app_length; by rewrite decide_True. Qed.

Lemma find_sub_skip a b : colon ∉ a -> find_sub (bs ":msg ") (a ++ b) = (Nat.add (length a)) <$> find_sub (bs ":msg ") b.
Proof.
  induction a as [|c a IH]; intros Ha; simpl app.
  { destruct (find_sub _ b); done. }
  apply not_elem_of_cons in Ha as [Hc Ha]. cbn [find_sub]. case_decide as H; [by injection H as ->|].
  rewrite (IH Ha). by destruct (find_sub _ b).
Qed.

Lemma line_key_skip a b : colon ∉ a -> line_key (a ++ b) = line_key b.
Proof.
  intros Ha. unfold line_key. rewrite (find_sub_skip a b Ha).
  destruct (find_sub (bs ":msg ") b) as [p|]; [|done]. cbn [fmap option_fmap option_map].
  replace (S (length a + p)) with (length a + S p)%nat by lia.
  rewrite drop_app, drop_ge by lia. by replace (length a + S p - length a)%nat with (S p) by lia.
Qed.

Lemma line_key_colon c b : c <> "m"%char -> line_key (colon :: c :: b) = line_key (c :: b).
Proof.
  intros Hc. unfold line_key. replace (find_sub (bs ":msg ") (colon :: c :: b)) with
    (S <$> find_sub (bs ":msg ") (c :: b)).
  - by destruct (find_sub (bs ":msg ") (c :: b)).
  - symmetry. change (find_sub (bs ":msg ") (colon :: c :: b)) with
      (if decide (take 5 (colon :: c :: b) = bs ":msg ") then Some 0%nat else S <$> find_sub (bs ":msg ") (c :: b)).
    rewrite decide_False; [done|]. intros H. injection H as H. by destruct Hc.
Qed.

Lemma find_colon d x : colon ∉ d -> find_sub (bs ":") (d ++ colon :: x) = Some (length d).
Proof.
  induction d as [|c d IH]; intros Hd; [done|]. apply not_elem_of_cons in Hd as [Hc Hd].
  simpl app. cbn [find_sub]. case_decide as H; [by injection H as ->|]. by rewrite (IH Hd).
Qed.

Lemma line_key_msg d x : colon ∉ d -> line_key (bs ":msg " ++ d ++ colon :: x) = Some (Some (bs "msg " ++ d)).
Proof.
  intros Hd. unfold line_key.
  rewrite find_sub_here.
  cbn [drop app bs String.list_ascii_of_string].
  change ("m"%char :: "s"%char :: "g"%char :: " "%char :: d ++ colon :: x) with ((bs "msg " ++ d) ++ colon :: x).
  rewrite find_colon; [by rewrite take_app_length|].
  apply not_elem_of_app. split; [|done]. apply (bool_decide_unpack _). by vm_compute.
Qed.

Lemma getlines_line l rest : nl ∉ l -> getlines (l ++ nl :: rest) = l :: getlines rest.
Proof.
  induction l as [|c l IH]; intros Hl; [done|]. apply not_elem_of_cons in Hl as [Hc Hl].
  simpl app. cbn [getlines]. rewrite decide_False by congruence. by rewrite (IH Hl).
Qed.

Lemma getlines_all ls : Forall (fun l => nl ∉ l) ls -> getlines (mjoin ((fun l => l ++ [nl]) <$> ls)) = ls.
Proof.
  induction 1 as [|l ls Hl _ IH]; [done|]. cbn [fmap list_fmap mjoin list_join concat].
  rewrite <-app_assoc. cbn [app]. rewrite getlines_line by done. f_equal. exact IH.
Qed.

(** ** The lines of the test *)

Variable localtime_r : Z -> tm.

(** A statement whose line, behind the time, has the text [body] and the key [k]. *)
Definition writes (st : statement) (k : option (option bytes)) : Prop :=
  forall msg, tm_ok (localtime_r (Z.quot (st_now st) S_MS_PER_SEC)) -> 0 <= st_now st < 2 ^ 63 ->
  line_of localtime_r st msg -> exists l, msg = l ++ [nl] /\ (nl ∉ l) /\ line_key l = k.

Lemma writes_intro st body k :
  nl ∉ body -> line_key (level_name (st_level st) ++ body) = k -> nl ∉ level_name (st_level st) ->
  (forall ts, Forall2 shows (st_args st) ts -> mjoin ts ++ st_loc st ++ st_func st = body) ->
  writes st k.
Proof.
  intros Hb Hk Hlv Hts msg Htm Hnow (ts&Hsh&->). specialize (Hts ts Hsh).
  set (T := fmt_time (localtime_r (Z.quot (st_now st) S_MS_PER_SEC))).
  assert (Hr : Z.abs (Z.rem (st_now st) S_MS_PER_SEC) < 10 ^ 20).
  { pose proof (Z.rem_bound_abs (st_now st) S_MS_PER_SEC ltac:(done)). unfold S_MS_PER_SEC in *. lia. }
  pose proof (plain_pretty _ Hr) as HU. pose proof (pretty_not_nil _ Hr) as HU0.
  pose proof (plain_fmt_time _ Htm : plain T) as HT.
  exists (T ++ bs ":" ++ bs (pretty (Z.rem (st_now st) S_MS_PER_SEC)) ++ level_name (st_level st) ++ body).
  split_and!.
  - unfold line_head. rewrite <-Hts, <-!app_assoc. done.
  - rewrite !not_elem_of_app. split_and!; [by apply plain_nl| |by apply plain_nl|done|done].
    apply (bool_decide_unpack _). by vm_compute.
  - rewrite line_key_skip by by apply plain_colon.
    destruct (bs (pretty _)) as [|c U]; [done|]. change (bs ":" ++ ?x) with (colon :: x). cbn [app].
    apply Forall_cons in HU as [Hc HU]. rewrite line_key_colon.
    + change (c :: U ++ ?x) with ((c :: U) ++ x). rewrite line_key_skip; [done|].
      apply plain_colon. by constructor.
    + intros ->. revert Hc. apply (bool_decide_unpack _). by vm_compute.
Qed.

(** What a decidable fact about concrete text evaluates to. *)
Ltac decide_text := apply (bool_decide_unpack _); vm_compute; exact I.

(** The texts of concrete arguments. *)
Ltac shown :=
  let H := fresh in
  intros ? H; repeat (apply Forall2_cons_inv_l in H as (?&?&?&H&->)); apply Forall2_nil_inv_l in H as ->;
  cbn [shows] in *; subst.

Lemma some_thread (P : nat -> Prop) t : Forall P (seq 1 8) -> (1 <= t <= 8)%nat -> P t.
Proof. rewrite Forall_forall. intros H Ht. apply H, elem_of_seq. lia. Qed.

Lemma writes_nested t n : (1 <= t <= 8)%nat -> writes (test_nesting_logging t n) None.
Proof.
  revert t. intros t. apply (some_thread (fun t => writes (test_nesting_logging t n) None)).
  repeat constructor;
    (eapply writes_intro; [| | |shown; reflexivity]; cbn [test_nesting_logging log st_level st_loc st_func level_name];
     [decide_text|vm_compute; reflexivity|decide_text]).
Qed.

(** [th_msg] without its colon. *)
Definition th_name (t : nat) : bytes := take (length (th_msg t) - 1) (th_msg t).

Lemma th_msg_ok t : (1 <= t <= 8)%nat ->
  th_msg t = th_name t ++ bs ":" /\ c_str (th_msg t) = th_msg t /\ (colon ∉ th_name t) /\ (nl ∉ th_msg t).
Proof.
  apply (some_thread (fun t => th_msg t = th_name t ++ bs ":" /\ c_str (th_msg t) = th_msg t /\
    (colon ∉ th_name t) /\ (nl ∉ th_msg t))). decide_text.
Qed.

Lemma writes_outer t n i : (1 <= t <= 8)%nat -> Z.of_nat i < 2 ^ 31 ->
  writes (numbered t n i) (Some (Some (key i))).
Proof.
  intros Ht Hi. destruct (th_msg_ok t Ht) as (Hn&Hc&Hcol&Hnl).
  assert (Hp : plain (bs (pretty (Z.of_nat i)))) by (apply plain_pretty; lia).
  apply (writes_intro _ (th_msg t ++ bs "msg " ++ bs (pretty (Z.of_nat i)) ++
    bs ":return from nesting 2-TestAsynLogging.cc:80:thread_func"));
    cbn [numbered log st_level st_loc st_func st_args level_name].
  - rewrite !not_elem_of_app. split_and!; [done|decide_text|by apply plain_nl|decide_text].
  - rewrite Hn, <-!app_assoc, app_assoc, line_key_skip.
    + apply line_key_msg. by apply plain_colon.
    + apply not_elem_of_app. split; [decide_text|done].
  - decide_text.
  - shown. rewrite Hc. cbn [mjoin list_join concat]. by rewrite <-!app_assoc.
Qed.

Lemma writes_main_logs :
  Forall (fun '(lvl, args, line, func) => forall n, writes (log main_thread n lvl args line func) None) main_logs.
Proof.
  unfold main_logs. change (seqZ 0 4) with [0; 1; 2; 3]. cbn [app fmap list_fmap].
  repeat constructor; intros n; (eapply writes_intro; [| | |shown; reflexivity];
    cbn [log st_level st_loc st_func level_name]; [decide_text|vm_compute; reflexivity|decide_text]).
Qed.

Lemma writes_main : Forall (fun st => writes st None) CheckLog.
Proof.
  unfold CheckLog. apply Forall_lookup. intros n st. rewrite list_lookup_imap.
  destruct (main_logs !! n) as [[[[lvl args] line] func]|] eqn:E; [|done]. intros H. injection H as <-.
  pose proof writes_main_logs as Hw. rewrite Forall_lookup in Hw. exact (Hw n _ E n).
Qed.

(** The keys of the lines of a thread. *)
Definition round_keys (i : nat) : list (option (option bytes)) := [None; Some (Some (key i))].

Definition script_keys (t : nat) : list (option (option bytes)) :=
  if decide (t = main_thread) then replicate (length main_logs) None
  else if decide (1 <= t <= 8)%nat then flat_map round_keys (seq 0 g_log_cnt) else [].

Lemma script_writes t : Z.of_nat g_log_cnt < 2 ^ 31 -> Forall2 writes (script t) (script_keys t).
Proof.
  intros Hn. unfold script, script_keys. case_decide.
  { apply Forall2_replicate_r; [unfold CheckLog; by rewrite length_imap|]. exact writes_main. }
  case_decide as Ht; [|constructor].
  unfold thread_func. assert (H0 : Forall (fun i => Z.of_nat i < 2 ^ 31) (seq 0 g_log_cnt)).
  { apply Forall_forall. intros i Hi. apply elem_of_seq in Hi. lia. }
  induction H0 as [|i l Hi _ IH]; [constructor|]. cbn [flat_map]. apply Forall2_app; [|exact IH].
  constructor; [by apply writes_nested|]. constructor; [by apply writes_outer|constructor].
Qed.

(** ** Counting *)

(** How often a number is counted. *)
Definition occ (k : bytes) (ks : list (option (option bytes))) : Z :=
  Z.of_nat (length (filter (fun x => x = Some (Some k)) ks)).

Lemma occ_app k a b : occ k (a ++ b) = occ k a + occ k b.
Proof. unfold occ. rewrite filter_app, length_app. lia. Qed.

Lemma occ_cons k x a : occ k (x :: a) = (if decide (x = Some (Some k)) then 1 else 0) + occ k a.
Proof. unfold occ. rewrite filter_cons. case_decide; cbn [length]; lia. Qed.

Definition counted (m : gmap bytes Z) (x : option (option bytes)) : Prop :=
  match x with None => True | Some None => False | Some (Some k) => is_Some (m !! k) end.

Lemma count_lines_spec ls m :
  Forall (counted m) (line_key <$> ls) ->
  exists m', count_lines ls m = Some m' /\ forall k, m' !! k = (fun n => n + occ k (line_key <$> ls)) <$> m !! k.
Proof.
  revert m. induction ls as [|l ls IH]; intros m H; cbn [count_lines fmap list_fmap].
  { exists m. split; [done|]. intros k. destruct (m !! k); cbn; [f_equal; unfold occ; simpl; lia|done]. }
  cbn [fmap list_fmap] in H. apply Forall_cons in H as [Hl H]. destruct (line_key l) as [[s|]|]; [|done|].
  - cbn [counted] in Hl. destruct Hl as [n Hn]. rewrite Hn.
    destruct (IH (<[s:=n+1]> m)) as (m'&->&Hm').
    { eapply Forall_impl; [exact H|]. intros [[k|]|]; cbn; try done. intros ?.
      destruct (decide (s = k)) as [->|]; [rewrite lookup_insert_eq; by eexists|by rewrite lookup_insert_ne]. }
    exists m'. split; [done|]. intros k. rewrite Hm', occ_cons. destruct (decide (s = k)) as [->|Hne].
    + rewrite lookup_insert_eq, Hn, decide_True by done. cbn. f_equal. lia.
    + rewrite lookup_insert_ne, decide_False by congruence. done.
  - destruct (IH m H) as (m'&->&Hm'). exists m'. split; [done|]. intros k.
    rewrite Hm'. cbn [fmap list_fmap]. rewrite occ_cons, decide_False by done. done.
Qed.

Lemma bs_inj a b : bs a = bs b -> a = b.
Proof.
  intros H. apply (f_equal String.string_of_list_ascii) in H. unfold bs in H.
  by rewrite !String.string_of_list_ascii_of_string in H.
Qed.

Lemma key_inj i j : key i = key j -> i = j.
Proof. unfold key. intros H. apply app_inv_head, bs_inj in H. apply (inj pretty) in H. lia. Qed.

Lemma num2cnt_lookup k n : num2cnt !! k = Some n <-> exists i, (i < g_log_cnt)%nat /\ k = key i /\ n = 0.
Proof.
  unfold num2cnt. rewrite <-elem_of_list_to_map.
  - rewrite list_elem_of_fmap. split.
    + intros (i&[= -> ->]&Hi). apply elem_of_seq in Hi. exists i. split_and!; [lia|done..].
    + intros (i&Hi&->&->). exists i. split; [done|]. apply elem_of_seq. lia.
  - rewrite <-list_fmap_compose. apply NoDup_fmap_2_strong; [|apply NoDup_seq]. intros i j _ _. apply key_inj.
Qed.

(** A file whose lines have every number as often as there are threads, and no other
    number, is accepted. *)
Lemma VerifyOutput_accepts file :
  let ks := line_key <$> getlines file in
  Forall (fun x => x = None \/ exists i, (i < g_log_cnt)%nat /\ x = Some (Some (key i))) ks ->
  (forall i, (i < g_log_cnt)%nat -> occ (key i) ks = g_thread_cnt) ->
  VerifyOutput file = true.
Proof.
  intros ks Hks Hocc. unfold VerifyOutput. destruct (count_lines_spec (getlines file) num2cnt) as (m&->&Hm).
  - eapply Forall_impl; [exact Hks|]. intros x [->|(i&Hi&->)]; [done|]. exists 0. apply num2cnt_lookup. eauto.
  - apply forallb_forall. intros [k n] Hin%list_elem_of_In. apply elem_of_map_to_list in Hin. cbn [snd].
    rewrite Hm in Hin. destruct (num2cnt !! k) as [n0|] eqn:E; [|done]. cbn in Hin. injection Hin as <-.
    apply num2cnt_lookup in E as (i&Hi&->&->). apply Z.eqb_eq. fold ks. by rewrite Hocc.
Qed.

Lemma occ_rounds i n : occ (key i) (flat_map round_keys (seq 0 n)) = if decide (i < n)%nat then 1 else 0.
Proof.
  induction n as [|n IH]; [done|]. rewrite seq_S, flat_map_app, occ_app, IH.
  change (flat_map round_keys [(0 + n)%nat]) with [None; Some (Some (key n))]. rewrite !occ_cons, (decide_False (P := None = _)) by done.
  change (occ (key i) []) with 0. destruct (decide (n = i)) as [->|Hne].
  - rewrite (decide_True (P := Some _ = _)) by done. rewrite decide_False, decide_True by lia. done.
  - rewrite (decide_False (P := Some _ = _)) by (intros H; assert (key n = key i) as ?%key_inj by congruence; lia).
    repeat case_decide; lia.
Qed.

Lemma occ_none k n : occ k (replicate n None) = 0.
Proof. induction n; cbn [replicate]; [done|]. rewrite occ_cons, decide_False by done. lia. Qed.

Lemma occ_script i :
  (i < g_log_cnt)%nat -> sum_with (fun t => occ (key i) (script_keys t)) (seq 1 9) = g_thread_cnt.
Proof.
  intros Hi. cbn [sum_with seq]. unfold script_keys.
  repeat (rewrite decide_False by done; rewrite decide_True by lia). rewrite decide_True by done.
  rewrite occ_none, !occ_rounds, decide_True by done. done.
Qed.

Lemma script_keys_ok t :
  Forall (fun x => x = None \/ exists i, (i < g_log_cnt)%nat /\ x = Some (Some (key i))) (script_keys t).
Proof.
  unfold script_keys. case_decide; [apply Forall_replicate; by left|]. case_decide; [|constructor].
  apply Forall_flat_map, List.Forall_forall. intros i Hi%list_elem_of_In%elem_of_seq.
  constructor; [by left|]. constructor; [|constructor]. right. exists i. split; [lia|done].
Qed.

(** ** The statements fit *)

Hypothesis ctx_ok : forall t n,
  S_MS_PER_SEC <= fst (ctx t n) < 2 ^ 63 /\ tm_ok (localtime_r (Z.quot (fst (ctx t n)) S_MS_PER_SEC)) /\
  blen (snd (ctx t n)) = S_MAX_BUFF_SZ.
Hypothesis cnt_ok : Z.of_nat g_log_cnt < 2 ^ 31.

Lemma log_ok t n lvl args line func :
  lvl <> NUM_LOG_LEVEL /\ lvl <> LL_ABORT -> Forall arg_ok args ->
  (sum_with needs args + blen (bs "-TestAsynLogging.cc:" ++ line ++ bs ":") + blen func + 60 <= S_MAX_BUFF_SZ) ->
  stmt_ok localtime_r (log t n lvl args line func).
Proof. intros Hl Ha Hf. destruct (ctx_ok t n) as (H1&H2&H3). by split. Qed.

Lemma main_ok : Forall (stmt_ok localtime_r) CheckLog.
Proof.
  assert (H : Forall (fun '(lvl, args, line, func) => forall n, stmt_ok localtime_r (log main_thread n lvl args line func)) main_logs).
  { unfold main_logs. change (seqZ 0 4) with [0; 1; 2; 3]. cbn [app fmap list_fmap].
    repeat (apply Forall_cons; split); [..|apply Forall_nil_2]; intros n;
      (apply log_ok; [by split|repeat constructor; cbn [arg_ok]; lia|by vm_compute]). }
  unfold CheckLog. apply Forall_lookup. intros n st. rewrite list_lookup_imap.
  destruct (main_logs !! n) as [[[[lvl args] line] func]|] eqn:E; [|done]. intros Hst. injection Hst as <-.
  rewrite Forall_lookup in H. exact (H n _ E n).
Qed.

Lemma round_ok t i :
  (1 <= t <= 8)%nat -> (i < g_log_cnt)%nat -> Forall (stmt_ok localtime_r) (thread_round t i).
Proof.
  intros Ht Hi. assert (Ha : arg_ok (ASigned (Z.of_nat i))) by (cbn; lia).
  unfold thread_round, test_nesting_logging, numbered.
  repeat (apply Forall_cons; split); [..|apply Forall_nil_2];
    (apply log_ok; [by split|repeat constructor; cbn [arg_ok]; solve [lia|exact Ha]|]);
    (pattern t; apply some_thread; [decide_text|done]).
Qed.

Lemma script_ok t st : st ∈ script t -> stmt_ok localtime_r st.
Proof.
  unfold script. case_decide; [intros Hin; pose proof main_ok as H0; rewrite Forall_forall in H0; by apply H0|].
  case_decide as Ht; [|by intros ?%elem_of_nil]. unfold thread_func. intros Hin.
  apply list_elem_of_In, in_flat_map in Hin as (i&Hi%list_elem_of_In%elem_of_seq&Hin%list_elem_of_In).
  pose proof (round_ok t i Ht ltac:(lia)) as H0. rewrite Forall_forall in H0. by apply H0.
Qed.

(** ** The answers, by threads *)

Definition resp (h : list (event aop ares)) : list (nat * bytes) :=
  omap (fun e => match e with ERes u (RAppend _ msg _) => Some (u, msg) | _ => None end) h.

(** No message was dropped for want of memory. *)
Definition none_dropped (h : list (event aop ares)) : Prop :=
  Forall (fun e => match e with ERes _ (RAppend _ _ n) => n <> 0 | _ => True end) h.

Lemma answered_resp t h : answered t h = snd <$> filter (fun x => fst x = t) (resp h).
Proof.
  induction h as [|e h IH]; [done|]. unfold answered, resp in *. cbn [omap list_omap].
  destruct e as [?|u [? msg n|]]; [exact IH| |exact IH]. rewrite filter_cons. cbn [fst].
  case_decide; [cbn [fmap list_fmap snd]; by f_equal|exact IH].
Qed.

Lemma acked_resp h : none_dropped h -> acked_of h = snd <$> resp h.
Proof.
  unfold none_dropped. induction 1 as [|e h He _ IH]; [done|]. unfold acked_of, resp in *. cbn [omap list_omap].
  destruct e as [?|u [? msg n|]]; [exact IH| |exact IH]. destruct (Z.eqb_spec n 0); [done|].
  cbn [fmap list_fmap snd]. by f_equal.
Qed.

Lemma sum_with_ext {A} (f g : A -> Z) l : (forall x, f x = g x) -> sum_with f l = sum_with g l.
Proof. intros H. induction l as [|x l IH]; [done|]. cbn [sum_with]. by rewrite H, IH. Qed.

Lemma sum_with_indicator (u : nat) (c : Z) (f : nat -> Z) (ts : list nat) :
  NoDup ts -> u ∈ ts -> sum_with (fun t => (if decide (u = t) then c else 0) + f t) ts = c + sum_with f ts.
Proof.
  assert (Hout : forall l, u ∉ l -> sum_with (fun t => (if decide (u = t) then c else 0) + f t) l = sum_with f l).
  { intros l. induction l as [|x l IH]; intros Hu; [done|]. apply not_elem_of_cons in Hu as [Hx Hu].
    cbn [sum_with]. rewrite decide_False, (IH Hu) by done. done. }
  induction 1 as [|x l Hx _ IH]; intros Hu; [by apply elem_of_nil in Hu|]. cbn [sum_with].
  case_decide as Hd; [subst; rewrite (Hout _ Hx); lia|].
  apply elem_of_cons in Hu as [->|Hu]; [done|]. rewrite (IH Hu). lia.
Qed.

(** What is counted is what the threads contribute. *)
Lemma occ_by_thread k (f : bytes -> option (option bytes)) (l : list (nat * bytes)) (ts : list nat) :
  NoDup ts -> (forall x, x ∈ l -> fst x ∈ ts) ->
  occ k (f <$> (snd <$> l)) = sum_with (fun t => occ k (f <$> (snd <$> filter (fun x => fst x = t) l))) ts.
Proof.
  intros Hn. induction l as [|[u b] l IH]; intros Hin.
  { cbn. symmetry. apply sum_with_all_zero. by apply Forall_true. }
  cbn [fmap list_fmap snd]. rewrite occ_cons, IH by (intros x Hx; apply Hin; by right).
  rewrite <-(sum_with_indicator u) by (done || apply (Hin (u, b)); by left).
  apply sum_with_ext. intros t. rewrite filter_cons. cbn [fst]. case_decide; [|lia].
  cbn [fmap list_fmap snd]. rewrite occ_cons. lia.
Qed.

(** ** The file is accepted *)

Definition strip (msg : bytes) : bytes := take (length msg - 1) msg.

Definition good (msg : bytes) : Prop := msg = strip msg ++ [nl] /\ (nl ∉ strip msg).

Lemma strip_line l : strip (l ++ [nl]) = l.
Proof. unfold strip. rewrite length_app. cbn [length]. rewrite Nat.add_sub. apply take_app_length. Qed.

(** The lines of a thread that has handed over its script. *)
Lemma script_lines t msgs :
  Forall2 (line_of localtime_r) (script t) msgs ->
  Forall good msgs /\ (fun m => line_key (strip m)) <$> msgs = script_keys t.
Proof.
  intros H. pose proof (script_writes t cnt_ok) as Hw. pose proof (script_ok t) as Hok.
  revert msgs H. induction Hw as [|st k sts ks Hst _ IH]; intros msgs H.
  { apply Forall2_nil_inv_l in H as ->. done. }
  apply Forall2_cons_inv_l in H as (m&ms&Hm&H&->).
  destruct (Hok st ltac:(by left)) as [_ _ Hnow Htm _ _].
  destruct (Hst m Htm ltac:(unfold S_MS_PER_SEC in *; lia) Hm) as (l&->&Hl&<-).
  destruct (IH ltac:(intros; apply Hok; by right) ms H) as [Hg <-].
  cbn [fmap list_fmap]. rewrite strip_line. split; [|done]. constructor; [|done].
  unfold good. by rewrite strip_line.
Qed.

Lemma script_thread t : script t <> [] -> t ∈ seq 1 9.
Proof.
  unfold script. intros H. apply elem_of_seq. case_decide; [unfold main_thread in *; lia|].
  case_decide; [lia|done].
Qed.

Lemma lines_accepted (h : list (event aop ares)) :
  none_dropped h -> (forall t, Forall2 (line_of localtime_r) (script t) (answered t h)) ->
  VerifyOutput (first_line ++ mjoin (acked_of h)) = true.
Proof.
  intros Hd Ht. rewrite (acked_resp h Hd). set (l := resp h).
  assert (Hl : forall t, Forall good (snd <$> filter (fun x => fst x = t) l) /\
    (fun m => line_key (strip m)) <$> (snd <$> filter (fun x => fst x = t) l) = script_keys t).
  { intros t. unfold l. rewrite <-answered_resp. by apply script_lines. }
  assert (Hin : forall x, x ∈ l -> snd x ∈ (snd <$> filter (fun y => fst y = fst x) l)).
  { intros x Hx. apply list_elem_of_fmap. exists x. split; [done|]. by apply list_elem_of_filter. }
  assert (Hth : forall x, x ∈ l -> fst x ∈ seq 1 9).
  { intros x Hx. apply script_thread. intros E. specialize (Ht (fst x)). rewrite E in Ht.
    apply Forall2_nil_inv_l in Ht. rewrite answered_resp in Ht. fold l in Ht. specialize (Hin x Hx).
    rewrite Ht in Hin. by apply elem_of_nil in Hin. }
  assert (Hg : Forall good (snd <$> l)).
  { apply Forall_forall. intros m (x&->&Hx)%list_elem_of_fmap. destruct (Hl (fst x)) as [H _].
    rewrite Forall_forall in H. by apply H, Hin. }
  assert (Hkeys : line_key <$> getlines (first_line ++ mjoin (snd <$> l)) =
    None :: ((fun m => line_key (strip m)) <$> (snd <$> l))).
  { unfold first_line. rewrite <-app_assoc. cbn [app]. rewrite getlines_line by decide_text. cbn [fmap list_fmap]. f_equal.
    clear -Hg. induction Hg as [|m ms [Hm Hn] _ IH]; [done|]. cbn [mjoin list_join concat fmap list_fmap].
      rewrite Hm at 1. rewrite <-app_assoc. cbn [app]. rewrite getlines_line by done.
      cbn [fmap list_fmap]. f_equal. exact IH. }
  apply VerifyOutput_accepts; rewrite Hkeys.
  - constructor; [by left|]. apply Forall_forall. intros k (m&->&(x&->&Hx)%list_elem_of_fmap)%list_elem_of_fmap.
    destruct (Hl (fst x)) as [_ H]. pose proof (script_keys_ok (fst x)) as Hk. rewrite <-H, Forall_forall in Hk.
    apply Hk, list_elem_of_fmap. exists (snd x). split; [done|]. by apply Hin.
  - intros i Hi. rewrite occ_cons, decide_False, (occ_by_thread _ _ l (seq 1 9)); [|apply NoDup_seq|done|done].
    rewrite <-(occ_script i Hi). cbn [Z.add]. apply sum_with_ext. intros t. f_equal. apply Hl.
Qed.

Lemma test_log_ok (N FSZ : Z) (raw : nat -> bytes) (grow : Z -> Z -> Z)
    (total : nat) (flush_cnt : Z) (io : list LogFileAppender.wres) (garbage : bytes)
    (g : AsynLogAppender) (l : list sact) (s : slog) :
  0 < N < 2 ^ 63 -> (forall i, blen (raw i) = N) -> 0 <= FSZ < 2 ^ 32 -> Z.of_nat total < 2 ^ 64 ->
  AsynLogAppender_ctor raw flush_cnt first_line io garbage total = inr g -> blen garbage = FSZ ->
  LogFileAppender.WErr ∉ io ->
  (forall t st, SLog t st ∈ l -> st ∈ script t) ->
  slog_run N FSZ raw grow localtime_r l (slog_init LL_DEBUG g 9) = Some s ->
  (forall t, snd <$> filter (fun x => fst x = t) (said s) = script t) ->
  (forall t, under_way t (sink s) = []) -> none_dropped (hist s) ->
  let disk := LogFileAppender.disk (m_log_file (sh (sink s))) in
  blen (first_line ++ mjoin (acked_of (hist s))) <= blen disk ->
  VerifyOutput disk = true.
Proof.
  intros HN Hraw HF Hto Hg Hgl Hio Hl Hrun Hsaid Huw Hd disk Hc.
  destruct (slog_file N FSZ raw grow localtime_r total flush_cnt first_line io garbage g LL_DEBUG 9 l s)
    as (_&_&Hs&Hp&_&Hsp); try done.
  { intros t st Hin. by apply (script_ok t), Hl. }
  fold disk in Hp. replace disk with (first_line ++ mjoin (acked_of (hist s))).
  - apply lines_accepted; [done|]. intros t. specialize (Hs t). by rewrite <-Hsp, Hsaid, Huw, app_nil_r in Hs.
  - symmetry. apply prefix_length_eq; [done|]. unfold blen in Hc. lia.
Qed.
End Test.

(** C33. [TestAsynLogging.cc] over the whole stream logger, with any number of messages per
    thread and any times: however the eight threads, the main thread and the writer are
    interleaved, once every thread has logged its script, nothing was dropped for want of
    memory and the writer has written as much as was acknowledged, [VerifyOutput] accepts
    the file: no line is garbled or lost and every number is there once for each thread. *)
Theorem asyn_test_accepted (g_log_cnt : nat) (ctx : nat -> nat -> Z * bytes) (localtime_r : Z -> tm)
    (N FSZ : Z) (raw : nat -> bytes) (grow : Z -> Z -> Z)
    (total : nat) (flush_cnt : Z) (io : list LogFileAppender.wres) (garbage : bytes)
    (g : AsynLogAppender) (l : list sact) (s : slog) :
  (forall t n, S_MS_PER_SEC <= fst (ctx t n) < 2 ^ 63 /\
    tm_ok (localtime_r (Z.quot (fst (ctx t n)) S_MS_PER_SEC)) /\ blen (snd (ctx t n)) = S_MAX_BUFF_SZ) ->
  Z.of_nat g_log_cnt < 2 ^ 31 ->
  0 < N < 2 ^ 63 -> (forall i, blen (raw i) = N) -> 0 <= FSZ < 2 ^ 32 -> Z.of_nat total < 2 ^ 64 ->
  AsynLogAppender_ctor raw flush_cnt first_line io garbage total = inr g -> blen garbage = FSZ ->
  LogFileAppender.WErr ∉ io ->
  (forall t st, SLog t st ∈ l -> st ∈ script g_log_cnt ctx t) ->
  slog_run N FSZ raw grow localtime_r l (slog_init LL_DEBUG g 9) = Some s ->
  (forall t, snd <$> filter (fun x => fst x = t) (said s) = script g_log_cnt ctx t) ->
  (forall t, under_way t (sink s) = []) -> none_dropped (hist s) ->
  let disk := LogFileAppender.disk (m_log_file (sh (sink s))) in
  blen (first_line ++ mjoin (acked_of (hist s))) <= blen disk ->
  VerifyOutput g_log_cnt disk = true.
Proof. intros Hctx Hcnt. exact (test_log_ok g_log_cnt ctx localtime_r Hctx Hcnt N FSZ raw grow total flush_cnt io garbage g l s). Qed.

(** ** A run of the test with one number *)

#[local] Instance LogArg_eq_dec : EqDecision LogArg.
Proof. solve_decision. Defined.
#[local] Instance LogLevel_eq_dec : EqDecision LogLevel.
Proof. solve_decision. Defined.
#[local] Instance statement_eq_dec : EqDecision statement.
Proof. solve_decision. Defined.

Section Drive.
Variables (N FSZ : Z) (raw : nat -> bytes) (grow : Z -> Z -> Z) (localtime_r : Z -> tm).

(** Steps of thread [t] until its call has returned. *)
Fixpoint settle (fuel t : nat) (s : slog) : list sact * slog :=
  match fuel with
  | O => ([], s)
  | S fuel' =>
      if is_idle t (sink s) then ([], s) else
      match slog_step N FSZ raw grow localtime_r (SStep t) s with
      | Some s' => let '(l, s'') := settle fuel' t s' in (SStep t :: l, s'')
      | None => ([], s)
      end
  end.

(** The statements one after the other, and three steps of the writer behind each. *)
Fixpoint drive (sts : list (nat * statement)) (s : slog) : list sact :=
  match sts with
  | [] => []
  | (t, st) :: sts' =>
      match slog_step N FSZ raw grow localtime_r (SLog t st) s with
      | None => []
      | Some s1 =>
          let '(l, s2) := settle 10 t s1 in
          let w := replicate 3 (SStep 0%nat) in
          SLog t st :: l ++ w ++
            match slog_run N FSZ raw grow localtime_r w s2 with Some s3 => drive sts' s3 | None => [] end
      end
  end.

Lemma settle_steps fuel t s u st : SLog u st ∈ fst (settle fuel t s) -> False.
Proof.
  revert s. induction fuel as [|n IH]; intros s; cbn [settle]; [by intros ?%elem_of_nil|].
  destruct (is_idle _ _); [by intros ?%elem_of_nil|].
  destruct (slog_step _ _ _ _ _ _ _) as [s'|]; [|by intros ?%elem_of_nil].
  specialize (IH s'). destruct (settle n t s') as [l s'']. cbn [fst] in *.
  intros [?|H]%elem_of_cons; [done|auto].
Qed.

Lemma drive_logs sts s t st : SLog t st ∈ drive sts s -> (t, st) ∈ sts.
Proof.
  revert s. induction sts as [|[u x] sts IH]; intros s; cbn [drive]; [by intros ?%elem_of_nil|].
  destruct (slog_step _ _ _ _ _ _ _) as [s1|]; [|by intros ?%elem_of_nil].
  pose proof (settle_steps 10 u s1 t st) as Hs. destruct (settle 10 u s1) as [l s2]. cbn [fst] in Hs.
  intros [H|H]%elem_of_cons; [injection H as -> ->; by left|].
  apply elem_of_app in H as [H|H]; [by destruct Hs|].
  apply elem_of_app in H as [H|H]; [by apply elem_of_replicate in H as [? _]|].
  right. destruct (slog_run _ _ _ _ _ _ _); [by eapply IH|by apply elem_of_nil in H].
Qed.
End Drive.

Definition demo_ctx (t n : nat) : Z * bytes := (33000042 + Z.of_nat (t + n) mod 7, replicate 4096 "x"%char).
Definition demo_raw2 (i : nat) : bytes := replicate 512 nul.

(** The threads' statements in the order of the threads, main first. *)
Definition demo_sts : list (nat * statement) :=
  flat_map (fun t => (fun st => (t, st)) <$> script 1 demo_ctx t) [9; 1; 2; 3; 4; 5; 6; 7; 8]%nat.

Abbreviation demo_app :=
  (AsynLogAppender_ctor demo_raw2 1024 first_line [LogFileAppender.WIntr; LogFileAppender.Wrote 3]
    (replicate 512 nul) 400).

Definition demo_log_acts : list sact :=
  match demo_app with
  | inl _ => []
  | inr g => drive 512 512 demo_raw2 grow2 demo_clock demo_sts (slog_init LL_DEBUG g 9) ++
      replicate 40 (SStep 0%nat)
  end.

Definition demo_ok (s : slog) : bool :=
  bool_decide (Forall (fun x => fst x ∈ seq 1 9) (said s)) &&
  forallb (fun t => bool_decide (snd <$> filter (fun x => fst x = t) (said s) = script 1 demo_ctx t) &&
    bool_decide (under_way t (sink s) = [])) (seq 0 10) &&
  (length (ths (sink s)) =? 10)%nat &&
  forallb (fun e => match e with ERes _ (RAppend _ _ n) => negb (n =? 0) | _ => true end) (hist s) &&
  (blen (first_line ++ mjoin (acked_of (hist s))) <=? blen (LogFileAppender.disk (m_log_file (sh (sink s))))).

Abbreviation demo_end :=
  (match demo_app with
  | inl _ => None
  | inr g => slog_run 512 512 demo_raw2 grow2 demo_clock demo_log_acts (slog_init LL_DEBUG g 9)
  end).

Lemma demo_end_ok : match demo_end with Some s => demo_ok s = true | None => False end.
Proof. vm_compute. reflexivity. Qed.

Lemma demo_raw2_len i : blen (demo_raw2 i) = 512.
Proof. unfold blen, demo_raw2. by rewrite length_replicate. Qed.

Lemma demo_garbage_len : blen (replicate 512 nul) = 512.
Proof. exact (demo_raw2_len 0). Qed.

Lemma demo_io_ok : LogFileAppender.WErr ∉ [LogFileAppender.WIntr; LogFileAppender.Wrote 3].
Proof. rewrite !not_elem_of_cons. split_and!; [done|done|by apply not_elem_of_nil]. Qed.

Lemma demo_ctx_ok t n :
  S_MS_PER_SEC <= fst (demo_ctx t n) < 2 ^ 63 /\
  tm_ok (demo_clock (Z.quot (fst (demo_ctx t n)) S_MS_PER_SEC)) /\ blen (snd (demo_ctx t n)) = S_MAX_BUFF_SZ.
Proof.
  unfold demo_ctx. cbn [fst snd]. split; [|split].
  - pose proof (Z.mod_pos_bound (Z.of_nat (t + n)) 7 ltac:(done)). unfold S_MS_PER_SEC. lia.
  - unfold tm_ok. cbn [tm_year tm_mon tm_mday tm_hour tm_min tm_sec].
    pose proof (Z.mod_pos_bound (Z.quot (33000042 + Z.of_nat (t + n) mod 7) S_MS_PER_SEC) 60 ltac:(done)). lia.
  - unfold blen. by rewrite length_replicate.
Qed.

Lemma demo_ok_said s : demo_ok s = true ->
  (forall t, snd <$> filter (fun x => fst x = t) (said s) = script 1 demo_ctx t) /\
  (forall t, under_way t (sink s) = []) /\ none_dropped (hist s) /\
  blen (first_line ++ mjoin (acked_of (hist s))) <= blen (LogFileAppender.disk (m_log_file (sh (sink s)))).
Proof.
  unfold demo_ok. rewrite !andb_true_iff. intros ((((H1&H2)&H3)&H4)&H5).
  apply bool_decide_eq_true in H1. apply Nat.eqb_eq in H3. apply Z.leb_le in H5. rewrite forallb_forall in H2.
  assert (Ht : forall t, (t < 10)%nat -> snd <$> filter (fun x => fst x = t) (said s) = script 1 demo_ctx t /\
    under_way t (sink s) = []).
  { intros t Hlt. specialize (H2 t). rewrite andb_true_iff, !bool_decide_eq_true in H2.
    apply H2, list_elem_of_In, elem_of_seq. lia. }
  split_and!; [| | |done].
  - intros t. destruct (decide (t < 10)%nat); [by apply Ht|]. unfold script.
    rewrite !decide_False by (unfold main_thread; lia). clear H2 Ht. induction H1 as [|x l Hx _ IH]; [done|].
    apply elem_of_seq in Hx. rewrite filter_cons, decide_False by lia. exact IH.
  - intros t. destruct (decide (t < 10)%nat); [by apply Ht|]. unfold under_way.
    by rewrite lookup_ge_None_2 by lia.
  - rewrite forallb_forall in H4. apply Forall_forall. intros e He. specialize (H4 e ltac:(by apply list_elem_of_In)).
    destruct e as [|u [? ? n|]]; [done| |done]. by apply negb_true_iff, Z.eqb_neq in H4.
Qed.

Lemma demo_logs_script g t st :
  demo_app = inr g -> SLog t st ∈ demo_log_acts -> st ∈ script 1 demo_ctx t.
Proof.
  unfold demo_log_acts. intros -> H. apply elem_of_app in H as [H|H]; [|by apply elem_of_replicate in H as [? _]].
  apply drive_logs, list_elem_of_In, in_flat_map in H as (u&_&H).
  apply list_elem_of_In, list_elem_of_fmap in H as (x&[= -> ->]&H). exact H.
Qed.

Lemma asyn_test_accepted_witness :
  match demo_end with
  | Some s => VerifyOutput 1 (LogFileAppender.disk (m_log_file (sh (sink s)))) = true
  | None => False
  end.
Proof.
  pose proof demo_end_ok as Hd. pose proof demo_logs_script as Hl.
  destruct demo_app as [|g] eqn:Hg; [done|].
  destruct (slog_run 512 512 demo_raw2 grow2 demo_clock demo_log_acts (slog_init LL_DEBUG g 9)) as [s|] eqn:Hr; [|done].
  destruct (demo_ok_said s Hd) as (Hs&Hu&Hn&Hb).
  refine (asyn_test_accepted 1 demo_ctx demo_clock 512 512 demo_raw2 grow2 400 1024
    [LogFileAppender.WIntr; LogFileAppender.Wrote 3] (replicate 512 nul) g demo_log_acts s demo_ctx_ok
    _ _ demo_raw2_len _ _ Hg demo_garbage_len demo_io_ok _ Hr Hs Hu Hn Hb).
  5: intros t st; exact (Hl g t st eq_refl).
  all: clear; lia.
Defined.
